(* ===== verification/_CoqProject ===== *)
-Q . S2P
Prelude.v
CString.v
Types.v
Pattern.v
Snapshot.v
Wire.v
KfuncBuffer.v
Kernel.v
Sample.v
HashUtils.v
Tpm.v
PolicyMap.v
Merkle.v
MerkleSpec.v
MerkleInv.v
PolicyNamespace.v
PolicyManager.v
PolicySpec.v
PolicyInv.v
PolicyLog.v
PolicyBind.v
PolicyAudit.v
Container.v
ContainerSpec.v
ContainerRules.v
ContainerInv.v
Kfuncs.v
KfuncsInv.v
KfuncsSpec.v
Lifecycle.v
LifecycleSpec.v
PolicyFiles.v
PolicyFilesSpec.v
LogFiles.v
Requests.v
Frame.v
System.v
EntryFrame.v
OpenFiles.v
SeqFiles.v
Concurrent.v
Locking.v
LockModel.v
LockSpec.v
Verifier.v
VerifierSpec.v
VerifierLists.v
BpfUtils.v
BpfUtilsSpec.v
HookUtils.v
HookUtilsSpec.v
Hooks.v
HooksSpec.v
Timing.v
PolicyUpdate.v
YamlParser.v
YamlParserSpec.v
YamlRoundtrip.v
ToolState.v
ToolLogic.v
Tool.v
ToolSpec.v
ToolLoad.v
ToolLoadSpec.v
ToolUnloadSpec.v
ToolLegacy.v
Operator.v
OperatorSpec.v
