(* ===== verification/Prelude.v ===== *)
(** * bpfima: a verification development of the eBPF/IMA kernel module

    bpfima is a Linux module that lets BPF LSM programs measure events of
    containers. It keeps a list of measurements per container, folds every
    measurement into a Merkle root that anchors to a TPM PCR, keeps a policy
    with a root and per-namespace extensions in a frozen BPF array map, and
    exposes both through kfuncs and securityfs. This library models the module
    (src/src, src/include), the BPF programs that call it (src/hooks,
    src/utils, src/examples), the tool that loads them and updates the policy
    (src/tools), the Kubernetes operator that selects a policy for a node
    (src/operator) and the verifier of the measurement lists (src/verifier) as
    executable functions and proves what makes them correct.

    ** How the parts interact

    - A BPF program calls a kfunc (kfuncs_measure.c, kfuncs_container.c,
      kfuncs_policy.c). A measurement is copied and checked
      (bpfima_kfunc_buffer.h), hashed (hash_utils.c), attributed to a container
      that is looked up or created (container.c) and committed (merkle.c): leaf
      hash, root, history and PCR (tpm_ops.c) change together or not at all.
    - Userspace binds a map and writes policy requests (policy_securityfs.c,
      bpfima_policy_user.h); the manager (policy_manager.c) normalises,
      validates and publishes them with an audit record (policy_namespace.c),
      and every publication is itself committed to the log.
    - Resolution composes the root snapshot and the namespace's extension
      (bpfima_policy_defaults.h, policy_manager.c).
    - The LSM programs (hooks/lsm) ask for a decision, build the text of the
      event with the helpers of hook_utils.h and utils.h, submit it through the
      measurement kfunc and refuse the operation when that fails.
    - The tool parses a policy file (yaml_parser.c), builds a snapshot and
      writes it as a request to the module; it binds the policy map before it
      attaches the programs, and cleans up (bpfima_tool.c).
    - The operator selects one of the policies of a cluster
      (policy_selector.go), builds the same request in Go (maps_manager.go) and
      writes it (policy_controller.go).
    - bpfima_main.c initialises and tears down all of it; securityfs_utils.c
      prints the history, the measurements and the status. The verifier reads
      these texts and a PCR digest, replays the history and looks for the
      entries of a container's list in it.

    ** Files

    - [Prelude]: bytes, machine integers (values of [Z] with [to_u8], [to_u32]
      written out), flags, tactics and hints. [CString]: strlen, strcmp,
      strscpy, memchr, snprintf, decimal and hexadecimal text.
    - [Types]: the structures of bpfima_kfunc_types.h, bpfima_policy.h and
      bpfima_common.h. Locks, list links and work items are not fields.
    - [Pattern], [Snapshot]: bpfima_policy_defaults.h and the pure part of
      policy_manager.c (normalise, validate, rebase, filter, decide).
    - [Wire]: the byte layout of records and requests in either byte order,
      bpfima_policy_encode_request and the decoding in policy_apply_write.
    - [KfuncBuffer]: bpfima_kfunc_buffer.h.
    - [Kernel]: the state of the module ([kstate]), the monad [K], the class
      [KernelEnv] of the kernel's services with its laws [KernelLaws], and the
      rules of the weakest precondition [wp]. [Sample]: a concrete
      environment and state for the witnesses.
    - [HashUtils], [Tpm], [PolicyMap], [Merkle]: hash_utils.c, tpm_ops.c, the
      map accessors of policy_manager.c, merkle.c and measurements.c.
      [MerkleSpec], [MerkleInv]: rules and theorems of the commit.
    - [PolicyNamespace], [PolicyManager]: policy_namespace.c and
      policy_manager.c. [PolicySpec], [PolicyInv], [PolicyLog], [PolicyBind],
      [PolicyAudit]: rules, refinement to a finite map, effect on the log,
      binding, audit text and scalar updates.
    - [Container]: container.c with nodes as heap objects, reference counts,
      the workqueue and the container's securityfs entries. [ContainerSpec],
      [ContainerRules], [ContainerInv]: its invariant, rules and theorems.
    - [Kfuncs], [KfuncsInv], [KfuncsSpec]: the kfuncs and their theorems.
    - [Lifecycle], [LifecycleSpec]: bpfima_init with every error label,
      bpfima_exit and the module's securityfs files.
    - [PolicyFiles], [PolicyFilesSpec], [LogFiles]: the read and write
      handlers of policy_securityfs.c and securityfs_utils.c.
    - [Requests], [Frame], [System]: the entry points that do not touch the
      containers, what each side leaves alone, and the reachable states of
      the whole module. [EntryFrame]: which operations add to the
      measurement lists. [OpenFiles]: the file_operations of the text files,
      and policy files that are written and read back. [SeqFiles]: the
      seq_file iterators of securityfs_utils.c and files that stay open while
      the module runs. [Concurrent]: the measurement kfunc cut where it holds
      no lock, and interleavings of any number of invocations.
    - [Locking], [LockModel], [LockSpec]: a calculus of critical sections, the
      term of every function of src/src in it ([<function>_locks]) with the
      flags of the kfuncs, and deadlocks, data races and sleeping.
    - [Verifier], [VerifierSpec], [VerifierLists]: the packages reader, pcr,
      measurement and verifier of src/verifier/pkg, and what an accepted
      attestation says of a module that ran.
    - [BpfUtils], [BpfUtilsSpec]: src/utils/utils.h, the text builders of the
      programs in their fixed buffers. [HookUtils], [HookUtilsSpec]:
      src/hooks/hook_utils.h. [Hooks], [HooksSpec]: the five LSM programs and
      their interleavings with the entry points of the module. [Timing]: the
      timing slots that two programs fill with atomic operations.
      [PolicyUpdate]: the programs of src/examples/lsm_policy_update.c.
    - [YamlParser], [YamlParserSpec], [YamlRoundtrip]: yaml_parser.c over the
      events of libyaml, termination, types, the printed document.
    - [ToolState], [ToolLogic]: the state and the monad of the tool, with a
      trace of what it opens, closes, loads, attaches and removes, and the
      rules for what it owes. [Tool], [ToolSpec]: the policy commands of
      bpfima_tool.c and apply_policy_snapshot, down to the write handlers of
      the module.
    - [ToolLoad], [ToolLoadSpec], [ToolUnloadSpec], [ToolLegacy]: load,
      unload, status and the command line of bpfima_tool.c, with the arrays of
      objects and links and the monitored files; objects with an old layout.
    - [Operator], [OperatorSpec]: mapsmanager, policyselector and the
      reconciler of src/operator/internal, down to the write handler of the
      module.

    ** The model

    An operation is a function [K A]: it takes the state and returns a result
    and the new state, or [None] for a fault: an invalid pointer, a freed node,
    a removed entry removed again, an index outside an array. [wp m Q s] holds
    when [m] does not fault in [s] and its outcome satisfies [Q], so every
    theorem stated with [wp] is one of total correctness. Error codes are
    results. Every operation runs under its mutex and is one step, except in
    [Concurrent], where the measurement kfunc takes a step per section, and in
    [LockSpec], where every lock operation and every access is a step; RCU and
    reference counting delay the freeing of a node to a later step, a turn of
    the workqueue ([run_cleanup_wq]).

    The services of the kernel (allocation, crypto, TPM driver, securityfs,
    registration of kfuncs, copying from userspace, capabilities, file
    descriptors) are fields of [KernelEnv], most of them functions of a counter
    of calls, so that every call may answer differently; SHA-256 is a function
    with 32-byte results. [KernelLaws] states what the code relies on, such as
    error codes being negative. Theorems hold for every environment; the
    witnesses run the sample one.

    A BPF program is a computation on the same state; the helpers it calls are
    parameters ([BpfEnv]) of which every call may fail. The tool runs as
    another process: a write to a securityfs file runs the handler of the
    module, libyaml is the sequence of its events ([YamlLib]), and libbpf, the
    file system and the process table answer as they like ([ToolEnv],
    [LoadEnv]). Of Go's libraries, SHA-256 is a parameter that is assumed to be
    the kernel's ([SameHash]), and label selectors are one ([LabelLib]); a
    panic is [None].

    Recursion is structural except for printers and loops with fuel: [decimal]
    has fuel 20 and [hexadecimal] 16, the number of digits of the widest
    integer printed (64 bits); the loops of the YAML parser have fuel, and
    [parse_yaml_policy_terminates] shows that the number of events of the
    document is enough; [scan_status] has the length of the text. The loops of
    the verifier have one more than the length of the text that they read, and
    [attest_terminates] shows that this is enough.

    ** What the theorems show

    - The whole module ([System]): after any sequence of entry points the
      invariants of all components hold, the log only grew and nothing can
      fault; load, any run, unload leaves nothing behind. The same holds when
      measurements interleave on several processors ([Concurrent]); readers of
      the measurement files get every entry once and in order ([SeqFiles]), and
      a value written to a policy file is read back from it ([OpenFiles]).
    - Locks ([LockSpec]): the entry points neither deadlock nor race in any
      schedule; kfuncs that may run where sleeping is forbidden do not sleep,
      with one exception; an interrupt can deadlock two processors. That
      is why a section counts as one step elsewhere: its locks exclude every
      conflicting access.
    - Attestation ([VerifierSpec], [VerifierLists]): an accepted target list
      has only entries whose hashes were committed, up to a collision of
      SHA-256; the untrimmed lists of a run of the module are accepted; a
      trimmed history is not; the lists survive the round trip through Go.
    - The log ([MerkleInv]): a commit is atomic, root, history and PCR replay
      the committed values, an error latches, anchoring modes do not mix,
      duplicates are suppressed per container, trimming keeps the first
      aggregate replayable (and [second_trim_loses_root] shows that a later
      trim does not).
    - The policy ([Snapshot], [PolicyInv], [PolicyBind], [PolicyAudit]): an
      extension cannot exclude what the root measures; apply, update and
      resolve refine a finite map from namespaces to snapshots with a
      generation; binding is all or nothing; the audit text is unambiguous.
    - Formats ([Wire], [PolicyFilesSpec], [LogFiles]): requests and policy
      lines survive the round trip, hashed records and the history text are
      injective.
    - Containers and kfuncs ([ContainerInv], [KfuncsSpec], [KfuncBuffer]):
      references balance, only unreferenced nodes are freed, each kfunc's
      result on every branch.
    - Programs ([BpfUtilsSpec], [HooksSpec]): the builders stay inside their
      buffers and write the text they mean; an operation that a program allows
      was exempt, filtered by the policy, not observable, or recorded exactly
      once, and the record stays, in every interleaving. Timing slots are
      private to an invocation; the example programs change one policy at most.
    - The tool ([YamlParserSpec], [YamlRoundtrip], [ToolSpec], [ToolLoadSpec],
      [ToolUnloadSpec], [ToolLegacy]): parsing ends, printed files are parsed
      back, what is built is canonical for the kernel; policy-update replaces
      exactly one policy or none; load releases what it takes, every
      descriptor included, and attaches only with a bound store; unload stops
      the daemon before it removes anything, and removes the pin of the policy
      map exactly when its check of the pin fails, which it does for the bound
      map too when the status file cannot be read. Invalid pairs in the hooks
      of a file are no error and cut their entry short; an object with an old
      layout makes load remove the pin of the bound map.
    - The operator ([OperatorSpec]): the selection does not depend on the
      order of the list, a turn of the reconciler replaces the root policy
      by the selected one or changes none, and the operator reports itself
      ready only after a turn that selected a policy of its list for the node
      and made it the root policy.
    - Lifecycle ([LifecycleSpec]): loading is all or nothing, unloading
      releases everything.

    ** Not modelled

    Memory ordering of lock-free accesses (atomic counters, lists under RCU),
    interrupts that cannot be masked, log messages and file modes; the buffer
    between a show handler and a reader, which is the kernel's seq_file; what
    the tool prints, the standard descriptors that it redirects, the stream of
    the YAML library, and the parents that exit in its two forks; of the operator, the set-up of the
    manager, the watches and the statistics file; of the verifier, opening and
    closing files, the paths of the module's files (the package securityfs) and
    errors while reading; the generated deep copies and the tests. *)

From Stdlib Require Export ZArith Lia Strings.Byte.
From stdpp Require Export base list strings option numbers sets.

Global Set Default Goal Selector "!".
Global Set Warnings "-clear-no-such-hyp".

(** ** Bytes *)

Abbreviation bytes := (list byte).

#[global] Instance byte_eq_decision : EqDecision byte := Byte.byte_eq_dec.
#[global] Instance byte_inhabited : Inhabited byte := populate x00.

Declare Scope bpfima_scope.
Delimit Scope bpfima_scope with bpf.
Global Open Scope Z_scope.

(** A C string literal, without its terminating NUL. *)
Definition lit (s : string) : bytes := String.list_byte_of_string s.

(** The unsigned value of a byte, and the byte of an integer ([(u8)z]). *)
Definition u8_val (b : byte) : Z := Z.of_N (Byte.to_N b).
Definition to_u8 (z : Z) : byte :=
  match Byte.of_N (Z.to_N (z mod 256)) with Some b => b | None => x00 end.

Lemma u8_val_bound b : 0 <= u8_val b < 256.
Proof. unfold u8_val. pose proof (Byte.to_N_bounded b). lia. Qed.

Lemma to_u8_val b : to_u8 (u8_val b) = b.
Proof.
  unfold to_u8, u8_val. pose proof (Byte.to_N_bounded b).
  rewrite Z.mod_small by lia. by rewrite N2Z.id, Byte.of_to_N.
Qed.

Lemma u8_val_to_u8 z : u8_val (to_u8 z) = z mod 256.
Proof.
  unfold to_u8, u8_val. pose proof (Z.mod_pos_bound z 256 ltac:(lia)).
  destruct (Byte.of_N (Z.to_N (z mod 256))) as [b|] eqn:E.
  - apply Byte.to_of_N in E. rewrite E. lia.
  - apply Byte.of_N_None_iff in E. lia.
Qed.

Lemma u8_val_inj a b : u8_val a = u8_val b -> a = b.
Proof. intros H. by rewrite <- (to_u8_val a), <- (to_u8_val b), H. Qed.

(** ** Machine integers *)

Definition U32_MAX : Z := 2 ^ 32 - 1.
Definition U64_MAX : Z := 2 ^ 64 - 1.

(** Conversion to [u32]/[u64]: the wrap-around of C's unsigned types. *)
Definition to_u32 (z : Z) : Z := z mod 2 ^ 32.
Definition to_u64 (z : Z) : Z := z mod 2 ^ 64.

(** [~x] on an [unsigned int]. *)
Definition not_u32 (x : Z) : Z := to_u32 (Z.lnot x).

Definition is_u8 (z : Z) : Prop := 0 <= z < 2 ^ 8.
Definition is_u16 (z : Z) : Prop := 0 <= z < 2 ^ 16.
Definition is_u32 (z : Z) : Prop := 0 <= z < 2 ^ 32.
Definition is_u64 (z : Z) : Prop := 0 <= z < 2 ^ 64.

(** C truth of an integer. *)
Definition truth (z : Z) : bool := negb (z =? 0).

Lemma truth_false z : truth z = false <-> z = 0.
Proof. unfold truth. rewrite negb_false_iff. apply Z.eqb_eq. Qed.

Lemma truth_true z : truth z = true <-> z <> 0.
Proof. unfold truth. rewrite negb_true_iff. apply Z.eqb_neq. Qed.

Lemma testbit_not_u32 x n :
  0 <= n -> Z.testbit (not_u32 x) n = (n <? 32) && negb (Z.testbit x n).
Proof.
  intros Hn. unfold not_u32, to_u32.
  rewrite Z.testbit_mod_pow2 by lia. by rewrite Z.lnot_spec.
Qed.

(** [a & ~b] is zero exactly when every bit of [a] is a bit of [b]. *)
Definition bits_subset (a b : Z) : Prop :=
  forall n, 0 <= n -> Z.testbit a n = true -> Z.testbit b n = true.

Lemma is_u32_testbit_high a n : is_u32 a -> 32 <= n -> Z.testbit a n = false.
Proof.
  intros Ha Hn. unfold is_u32 in Ha. rewrite <- (Z.mod_small a (2 ^ 32)) by lia.
  rewrite Z.testbit_mod_pow2 by lia. by destruct (Z.ltb_spec n 32); [lia|].
Qed.

Lemma land_not_u32_zero a b :
  is_u32 a -> Z.land a (not_u32 b) = 0 <-> bits_subset a b.
Proof.
  intros Ha. split.
  - intros H n Hn Han. destruct (Z.ltb_spec n 32) as [Hlt|Hge].
    + assert (Z.testbit (Z.land a (not_u32 b)) n = false) as Hz by (rewrite H; apply Z.testbit_0_l).
      rewrite Z.land_spec, testbit_not_u32, Han in Hz by lia.
      destruct (Z.ltb_spec n 32); [|lia]. simpl in Hz. by apply negb_false_iff in Hz.
    + by rewrite (is_u32_testbit_high a n) in Han.
  - intros H. apply Z.bits_inj'. intros n Hn.
    rewrite Z.land_spec, testbit_not_u32, Z.testbit_0_l by lia.
    destruct (Z.testbit a n) eqn:E; [|done]. rewrite (H n Hn E). by destruct (n <? 32).
Qed.

Lemma bits_subset_refl a : bits_subset a a.
Proof. by intros n. Qed.
Lemma bits_subset_trans a b d : bits_subset a b -> bits_subset b d -> bits_subset a d.
Proof. unfold bits_subset. eauto. Qed.
Lemma bits_subset_land_l a b : bits_subset (Z.land a b) a.
Proof. intros n _. rewrite Z.land_spec. by destruct (Z.testbit a n). Qed.
Lemma bits_subset_land_r a b : bits_subset (Z.land a b) b.
Proof. intros n _. rewrite Z.land_spec, andb_true_iff. tauto. Qed.
Lemma bits_subset_lor_l a b : bits_subset a (Z.lor a b).
Proof. intros n _ H. by rewrite Z.lor_spec, H. Qed.
Lemma bits_subset_lor_r a b : bits_subset b (Z.lor a b).
Proof. intros n _ H. by rewrite Z.lor_spec, H, orb_true_r. Qed.

Lemma bits_subset_flag a b f :
  bits_subset a b -> Z.land a f <> 0 -> Z.land b f <> 0.
Proof.
  intros Hab Ha Hb. apply Ha. apply Z.bits_inj'. intros n Hn.
  rewrite Z.land_spec, Z.testbit_0_l. destruct (Z.testbit a n) eqn:E; [|done].
  assert (Z.testbit (Z.land b f) n = false) as H by (rewrite Hb; apply Z.testbit_0_l).
  rewrite Z.land_spec, (Hab n Hn E) in H. done.
Qed.

Lemma is_u32_bitop (f : bool -> bool -> bool) (op : Z -> Z -> Z) a b :
  (forall x y n, Z.testbit (op x y) n = f (Z.testbit x n) (Z.testbit y n)) ->
  f false false = false -> (forall x y, 0 <= x -> 0 <= y -> 0 <= op x y) ->
  is_u32 a -> is_u32 b -> is_u32 (op a b).
Proof.
  intros Hop Hf Hnn Ha Hb. unfold is_u32. split; [apply Hnn; unfold is_u32 in *; lia|].
  destruct (Z.eq_dec (op a b) 0) as [->|Hne]; [lia|].
  assert (0 <= op a b) by (apply Hnn; unfold is_u32 in *; lia).
  apply Z.log2_lt_pow2; [lia|].
  destruct (Z.lt_ge_cases (Z.log2 (op a b)) 32) as [|Hge]; [done|].
  pose proof (Z.bit_log2 (op a b) ltac:(lia)) as Hbit.
  by rewrite Hop, (is_u32_testbit_high a), (is_u32_testbit_high b), Hf in Hbit.
Qed.

Lemma is_u32_land a b : is_u32 a -> is_u32 b -> is_u32 (Z.land a b).
Proof.
  apply (is_u32_bitop andb); [apply Z.land_spec|done|]. intros. apply Z.land_nonneg. lia.
Qed.
Lemma is_u32_lor a b : is_u32 a -> is_u32 b -> is_u32 (Z.lor a b).
Proof.
  apply (is_u32_bitop orb); [apply Z.lor_spec|done|]. intros. apply Z.lor_nonneg. lia.
Qed.

Lemma le_lor_l a b : 0 <= a -> 0 <= b -> a <= Z.lor a b.
Proof.
  intros Ha Hb. assert (H : Z.ldiff a (Z.lor a b) = 0).
  { apply Z.bits_inj'. intros n _. rewrite Z.ldiff_spec, Z.lor_spec, Z.testbit_0_l.
    by destruct (Z.testbit a n). }
  apply Z.sub_nocarry_ldiff in H.
  assert (0 <= Z.ldiff (Z.lor a b) a) by (apply Z.ldiff_nonneg; left; apply Z.lor_nonneg; lia).
  lia.
Qed.

Create HintDb bpfima.
#[export] Hint Resolve bits_subset_refl bits_subset_land_l bits_subset_land_r
  bits_subset_lor_l bits_subset_lor_r is_u32_land is_u32_lor : bpfima.
