(* ===== verification/CString.v ===== *)
(** * C string and memory functions

    The string functions of the C library (and of the kernel's copy of it)
    that the sources call, on character buffers modelled as lists of bytes.
    A string ends at its first NUL; [cstr] is the text before it.  A buffer
    without a NUL is read up to its end: the sources only pass such a buffer
    to a string function after a [memchr] check, which is modelled here as
    [memchr]. *)

From S2P Require Import Prelude.

Definition NUL : byte := x00.

(** ** Definitions *)

(** The text of a C string: the bytes before the first NUL. *)
Fixpoint cstr (b : bytes) : bytes :=
  match b with
  | [] => []
  | ch :: r => if Byte.eqb ch NUL then [] else ch :: cstr r
  end.

Definition strlen (b : bytes) : nat := length (cstr b).

(** [b[i]] read as a character; past the end the terminator is read. *)
Definition char_at (b : bytes) (i : nat) : byte := nth i b NUL.

(** [memchr(b, ch, n)] as a truth value. *)
Definition memchr (b : bytes) (ch : byte) (n : nat) : bool :=
  existsb (Byte.eqb ch) (take n b).

Fixpoint strcmp (a b : bytes) : Z :=
  match a, b with
  | [], [] => 0
  | [], d :: _ => - u8_val d
  | e :: _, [] => u8_val e
  | e :: a', d :: b' =>
      if Byte.eqb e d then (if Byte.eqb e NUL then 0 else strcmp a' b')
      else u8_val e - u8_val d
  end.

Fixpoint strncmp (a b : bytes) (n : nat) {struct n} : Z :=
  match n with
  | O => 0
  | S n' =>
      match a, b with
      | [], [] => 0
      | [], d :: _ => - u8_val d
      | e :: _, [] => u8_val e
      | e :: a', d :: b' =>
          if Byte.eqb e d then (if Byte.eqb e NUL then 0 else strncmp a' b' n')
          else u8_val e - u8_val d
      end
  end.

(** [strchr(s, ch)] for a character other than NUL: the index found. *)
Fixpoint strchr (s : bytes) (ch : byte) : option nat :=
  match s with
  | [] => None
  | e :: r => if Byte.eqb e ch then Some O
              else if Byte.eqb e NUL then None else S <$> strchr r ch
  end.

(** [strstr(hay, needle)] as a truth value. *)
Fixpoint strstr (hay needle : bytes) : bool :=
  (strncmp hay needle (strlen needle) =? 0) ||
  match hay with
  | [] => false
  | e :: r => if Byte.eqb e NUL then false else strstr r needle
  end.

(** [memcpy(dst + off, src, length src)]. *)
Definition blit (dst : bytes) (off : nat) (src : bytes) : bytes :=
  take off dst ++ src ++ drop (off + length src) dst.

Definition memset (ch : byte) (n : nat) : bytes := replicate n ch.
Definition zeros (n : nat) : bytes := memset NUL n.

(** [strscpy(dst, src, size)]: at most [size - 1] characters and a NUL. *)
Definition strscpy (dst src : bytes) (size : nat) : bytes :=
  match size with
  | O => dst
  | S n => blit dst 0 (take n (cstr src) ++ [NUL])
  end.

(** ** Properties *)

Lemma byte_eqb_spec a b : Bool.reflect (a = b) (Byte.eqb a b).
Proof.
  destruct (Byte.eqb a b) eqn:E; constructor.
  - by apply Byte.byte_dec_bl.
  - by apply Byte.eqb_false.
Qed.

Ltac byte_cases :=
  repeat match goal with
  | |- context [Byte.eqb ?x ?y] => destruct (byte_eqb_spec x y); subst; try congruence
  | H : context [Byte.eqb ?x ?y] |- _ => destruct (byte_eqb_spec x y); subst; try congruence
  end.

Definition nul_free (b : bytes) : Prop := NUL ∉ b.

Lemma cstr_nul_free b : nul_free (cstr b).
Proof.
  unfold nul_free. induction b as [|e b IH]; simpl; byte_cases; set_solver.
Qed.

Lemma cstr_id b : nul_free b -> cstr b = b.
Proof.
  unfold nul_free. induction b as [|e b IH]; simpl; intros H; [done|].
  byte_cases; [set_solver|]. f_equal. apply IH. set_solver.
Qed.

Lemma cstr_app_nul a b : nul_free a -> cstr (a ++ NUL :: b) = a.
Proof.
  unfold nul_free. induction a as [|e a IH]; simpl; intros H; [done|].
  byte_cases; [set_solver|]. f_equal. apply IH. set_solver.
Qed.

Lemma cstr_idemp b : cstr (cstr b) = cstr b.
Proof. apply cstr_id, cstr_nul_free. Qed.

Lemma cstr_zeros n : cstr (zeros n) = [].
Proof. by destruct n. Qed.

Lemma cstr_prefix b : cstr b `prefix_of` b.
Proof.
  induction b as [|e b IH]; simpl; [done|]. byte_cases; [apply prefix_nil|].
  by apply prefix_cons.
Qed.

Lemma cstr_length b : (length (cstr b) <= length b)%nat.
Proof. apply prefix_length, cstr_prefix. Qed.

Lemma cstr_take_strlen b : take (strlen b) b = cstr b.
Proof.
  unfold strlen. destruct (cstr_prefix b) as [k Hk]. rewrite Hk at 2.
  by rewrite take_app_length.
Qed.

Lemma cstr_nil b : cstr b = [] <-> char_at b 0 = NUL.
Proof. destruct b as [|e b]; simpl; [done|]. unfold char_at; simpl. byte_cases; naive_solver. Qed.

Lemma char_at_cstr_nonempty b : Byte.eqb (char_at b 0) NUL = false <-> cstr b <> [].
Proof. rewrite cstr_nil. byte_cases; naive_solver. Qed.

(** A terminated buffer splits at its first NUL. *)
Lemma memchr_split b n :
  memchr b NUL n = true -> (strlen b < n)%nat /\ exists r, b = cstr b ++ NUL :: r.
Proof.
  unfold memchr, strlen. revert n. induction b as [|e b IH]; intros [|n]; simpl; try done.
  byte_cases; simpl; intros H.
  - split; [lia|]. by exists b.
  - destruct (IH _ H) as [Hl [r Hr]]. split; [lia|]. exists r. by rewrite <- Hr.
Qed.

Lemma memchr_strlen b n : (n <= length b)%nat -> memchr b NUL n = bool_decide (strlen b < n)%nat.
Proof.
  unfold memchr, strlen. revert n. induction b as [|e b IH]; intros [|n] Hn; simpl in *; try done.
  { lia. }
  byte_cases; cbn [orb length].
  - symmetry. apply bool_decide_eq_true_2. simpl. lia.
  - rewrite IH by lia. apply bool_decide_ext. lia.
Qed.

Lemma memchr_true b n : (n <= length b)%nat -> memchr b NUL n = true <-> (strlen b < n)%nat.
Proof. intros. by rewrite memchr_strlen, bool_decide_eq_true. Qed.

Lemma u8_val_zero b : u8_val b = 0 <-> b = NUL.
Proof. split; [|by intros ->]. intros H. by apply u8_val_inj. Qed.

Lemma opp_u8_val_zero b : - u8_val b = 0 <-> b = NUL.
Proof. rewrite <- u8_val_zero. lia. Qed.

Lemma sub_u8_val_zero a b : u8_val a - u8_val b = 0 <-> a = b.
Proof. split; [|intros ->; lia]. intros H. apply u8_val_inj. lia. Qed.

Lemma strcmp_spec a b : strcmp a b = 0 <-> cstr a = cstr b.
Proof.
  revert b. induction a as [|e a IH]; intros [|d b]; simpl; byte_cases;
    rewrite ?opp_u8_val_zero, ?sub_u8_val_zero, ?u8_val_zero, ?IH; split; congruence.
Qed.

Lemma strcmp_eqb a b : (strcmp a b =? 0) = bool_decide (cstr a = cstr b).
Proof.
  destruct (Z.eqb_spec (strcmp a b) 0) as [H|H]; rewrite strcmp_spec in H.
  - by rewrite bool_decide_eq_true_2.
  - by rewrite bool_decide_eq_false_2.
Qed.

(** Comparing the first [strlen b] characters tests for a prefix. *)
Lemma strncmp_prefix a b n :
  (n <= length (cstr b))%nat -> strncmp a b n = 0 <-> take n (cstr b) `prefix_of` cstr a.
Proof.
  revert a b. induction n as [|n IH]; intros a b Hn; simpl.
  { rewrite take_0. split; [intros _; apply prefix_nil|done]. }
  destruct b as [|d b]; simpl in Hn; [lia|]. destruct a as [|e a]; simpl.
  - byte_cases; simpl in *; [lia|]. rewrite opp_u8_val_zero.
    split; [congruence|]. intros H%prefix_nil_inv. done.
  - byte_cases; simpl in *; rewrite ?sub_u8_val_zero; try lia.
    + rewrite IH by lia. split; [by apply prefix_cons|apply prefix_cons_inv_2].
    + split; [congruence|]. by intros H%prefix_nil_inv.
    + split; [congruence|]. intros H%prefix_cons_inv_1. congruence.
Qed.

Lemma strncmp_strlen a b : strncmp a b (strlen b) = 0 <-> cstr b `prefix_of` cstr a.
Proof. unfold strlen. rewrite strncmp_prefix by done. by rewrite firstn_all. Qed.

Lemma strstr_spec hay needle :
  strstr hay needle = true <-> exists p q, cstr hay = p ++ cstr needle ++ q.
Proof.
  induction hay as [|e hay IH]; cbn [strstr];
    rewrite orb_true_iff, Z.eqb_eq, strncmp_strlen.
  - split.
    + intros [[q Hq]|?]; [|done]. by exists [], q.
    + intros (p & q & H). left. destruct p; [|done]. by exists q.
  - cbn [cstr]. byte_cases.
    + split.
      * intros [[q Hq]|?]; [|done]. by exists [], q.
      * intros (p & q & H). left. destruct p; [|done]. by exists q.
    + rewrite IH. split.
      * intros [[q Hq]|(p & q & Hq)]; [by exists [], q|]. exists (e :: p), q. simpl. by f_equal.
      * intros ([|x p] & q & H); [left; by exists q|]. right. simplify_eq/=. by exists p, q.
Qed.

Lemma strchr_spec s ch : ch <> NUL -> is_Some (strchr s ch) <-> ch ∈ cstr s.
Proof.
  intros Hch. induction s as [|e s IH]; simpl.
  - split; [by intros []|set_solver].
  - byte_cases; simpl.
    + split; [set_solver|done].
    + split; [by intros []|set_solver].
    + rewrite fmap_is_Some, IH. set_solver.
Qed.

Lemma length_blit dst off src :
  (off + length src <= length dst)%nat -> length (blit dst off src) = length dst.
Proof. intros H. unfold blit. rewrite !length_app, length_take, length_drop. lia. Qed.

Lemma take_blit dst off src :
  (off <= length dst)%nat -> take (off + length src) (blit dst off src) = take off dst ++ src.
Proof.
  intros H. unfold blit. rewrite app_assoc, take_app_le.
  - apply take_ge. rewrite length_app, length_take. lia.
  - rewrite length_app, length_take. lia.
Qed.

Lemma length_zeros n : length (zeros n) = n.
Proof. apply length_replicate. Qed.

Lemma cstr_strscpy dst src n : cstr (strscpy dst src (S n)) = take n (cstr src).
Proof.
  unfold strscpy, blit. rewrite take_0, app_nil_l, <- app_assoc. simpl. apply cstr_app_nul.
  pose proof (cstr_nul_free src) as H. unfold nul_free in *.
  intros Hin. apply H. apply list_elem_of_lookup in Hin as [i Hi].
  apply lookup_take_Some in Hi as [Hi _]. by eapply list_elem_of_lookup_2.
Qed.

Lemma length_strscpy dst src n :
  (n <= length dst)%nat -> length (strscpy dst src n) = length dst.
Proof.
  intros H. unfold strscpy. destruct n as [|n]; [done|]. apply length_blit. rewrite length_app, length_take. simpl. lia.
Qed.

(** Only the text of the source matters. *)
Lemma strscpy_ext dst src src' n : cstr src = cstr src' -> strscpy dst src n = strscpy dst src' n.
Proof. intros H. unfold strscpy. by rewrite H. Qed.

(** A text that fits is copied whole. *)
Lemma cstr_strscpy_fits dst src n :
  (strlen src < n)%nat -> cstr (strscpy dst src n) = cstr src.
Proof.
  intros H. destruct n as [|n]; [lia|]. rewrite cstr_strscpy. apply take_ge.
  unfold strlen in H. lia.
Qed.
