(* ===== verification/Types.v ===== *)
(** * Shared data types

    The structures and constants that the kernel module, the BPF programs and
    the userspace tool share: [include/bpfima_kfunc_types.h], the initialisers
    of [include/bpfima_policy_defaults.h], and the kernel-side structures of
    [include/bpfima_common.h] and [include/bpfima_policy.h].  Fields keep the
    names of the C fields behind a per-structure prefix. Fixed-size [char]
    arrays are byte lists, integers are [Z] and the [wf_*] predicates state
    their widths and the array lengths. *)

From S2P Require Import Prelude CString.

(** ** Error codes *)

Definition EPERM : Z := 1.
Definition ENOENT : Z := 2.
Definition E2BIG : Z := 7.
Definition EIO : Z := 5.
Definition EAGAIN : Z := 11.
Definition EWOULDBLOCK : Z := EAGAIN.
Definition ENXIO : Z := 6.
Definition ENOMEM : Z := 12.
Definition EFAULT : Z := 14.
Definition EBUSY : Z := 16.
Definition EEXIST : Z := 17.
Definition ENODEV : Z := 19.
Definition EINVAL : Z := 22.
Definition ENOSPC : Z := 28.
Definition ERANGE : Z := 34.
Definition EOVERFLOW : Z := 75.
Definition EOPNOTSUPP : Z := 95.
Definition ESTALE : Z := 116.

(** ** Sizes *)

Definition BPFIMA_EVENT_NAME_SIZE : nat := 256.
Definition BPFIMA_NAMESPACE_SIZE : nat := 128.
Definition BPFIMA_DEPENDENCIES_SIZE : nat := 256.
Definition BPFIMA_EVENT_DATA_SIZE : nat := 256.
Definition BPFIMA_PATH_SIZE : nat := 256.
Definition BPFIMA_PCR_BUFFER_SIZE : nat := 80.
Definition MERKLE_HASH_SIZE : nat := 32.
Definition CONTAINER_ID_MAX_LEN : nat := 128.
Definition MAX_IGNORE_PATTERNS : nat := 8.
Definition MAX_PATH_FILTERS : nat := 8.
Definition MAX_PATTERN_LEN : nat := 64.
Definition HOOK_MAX : nat := 8.
Definition BPFIMA_POLICY_VERSION : Z := 2.
Definition BPFIMA_POLICY_NAMESPACES : nat := 32.
Definition BPFIMA_POLICY_MAP_ENTRIES : nat := 3.
Definition BPFIMA_POLICY_MAP_FLAGS : Z := Z.shiftl 1 7.

(** ** Flags *)

Definition BPFIMA_MEASUREMENT_HAS_DEPENDENCIES : Z := Z.shiftl 1 0.
Definition POLICY_FILTER_SYSTEM_CGROUPS : Z := Z.shiftl 1 0.
Definition POLICY_FILTER_PROC_SYS : Z := Z.shiftl 1 1.
Definition POLICY_FILTER_DEV : Z := Z.shiftl 1 2.
Definition POLICY_FILTER_READONLY_FILES : Z := Z.shiftl 1 3.
Definition POLICY_FILTER_SMALL_FILES : Z := Z.shiftl 1 4.
Definition POLICY_FILTER_NON_EXECUTABLE : Z := Z.shiftl 1 5.
Definition POLICY_FILTER_LIBRARIES : Z := Z.shiftl 1 6.
Definition POLICY_FILTER_TMP_FILES : Z := Z.shiftl 1 7.
Definition POLICY_ACTION_EXTEND_TPM : Z := Z.shiftl 1 0.
Definition POLICY_ACTION_LOG_SECURITYFS : Z := Z.shiftl 1 1.
Definition POLICY_ACTION_LOG_KERNEL : Z := Z.shiftl 1 2.
Definition POLICY_ACTION_ALERT_SUSPICIOUS : Z := Z.shiftl 1 3.
Definition POLICY_ACTION_BLOCK : Z := Z.shiftl 1 4.
Definition POLICY_ACTION_TRACK_CONTAINER : Z := Z.shiftl 1 5.
Definition POLICY_ACTION_BUILD_DEPS : Z := Z.shiftl 1 6.
Definition HOOK_FLAG_ENABLED : Z := Z.shiftl 1 0.
Definition HOOK_FLAG_TRACK_CONTAINERS : Z := Z.shiftl 1 1.
Definition HOOK_FLAG_MEASURE_HASH : Z := Z.shiftl 1 2.
Definition BPFIMA_POLICY_FILE : Z := Z.shiftl 1 0.
Definition BPFIMA_POLICY_READONLY : Z := Z.shiftl 1 1.
Definition BPFIMA_POLICY_EXECUTABLE : Z := Z.shiftl 1 2.

(** [enum bpfima_hook_id]. *)
Definition HOOK_LSM_BPRM_CHECK_SECURITY : Z := 0.
Definition HOOK_LSM_FILE_OPEN : Z := 1.
Definition HOOK_LSM_FILE_POST_OPEN : Z := 2.
Definition HOOK_LSM_MMAP_FILE : Z := 3.
Definition HOOK_LSM_SOCKET_CONNECT : Z := 4.
Definition HOOK_LSM_CONTAINER_EVENTS : Z := 5.
Definition HOOK_KPROBE_FILE_OPEN : Z := 6.
Definition HOOK_LSM_INODE_SETATTR : Z := 7.

(** ** Structures *)

Record bpfima_measurement_request := MeasurementRequest {
  mr_event_name : bytes;
  mr_namespace_id : bytes;
  mr_dependencies : bytes;
  mr_additional_data : bytes;
  mr_additional_data_len : Z;
  mr_flags : Z;
}.

Record bpfima_policy_config := PolicyConfig {
  cfg_enabled : Z;
  cfg_filter_flags : Z;
  cfg_action_flags : Z;
  cfg_min_file_size : Z;
  cfg_max_path_depth : Z;
  cfg_log_level : Z;
  cfg_merkle_history_max_size : Z;
  cfg_merkle_history_scope : Z;
  cfg_reserved : Z;
}.

Record bpfima_pattern_entry := PatternEntry {
  pat_pattern : bytes;
  pat_enabled : Z;
  pat_match_type : Z;
  pat_reserved : Z;
}.

Record bpfima_hook_config := HookConfig {
  hk_flags : Z;
  hk_filter_override : Z;
  hk_action_override : Z;
  hk_reserved : Z;
}.

Record bpfima_policy_snapshot := PolicySnapshot {
  sn_config : bpfima_policy_config;
  sn_cgroups : list bpfima_pattern_entry;
  sn_paths : list bpfima_pattern_entry;
  sn_hooks : list bpfima_hook_config;
}.

Record bpfima_policy_record := PolicyRecord {
  rec_namespace_id : bytes;
  rec_snapshot : bpfima_policy_snapshot;
}.

Record bpfima_policy_state := PolicyState {
  st_generation : Z;
  st_namespace_count : Z;
  st_reserved : Z;
  st_records : list bpfima_policy_record;
}.

Record bpfima_policy_request := PolicyRequest {
  rq_version : Z;
  rq_reserved : Z;
  rq_expected_generation : Z;
  rq_record : bpfima_policy_record;
}.

Record bpfima_policy_context := PolicyContext {
  cx_namespace_id : bytes;
  cx_cgroup : bytes;
  cx_path : bytes;
  cx_file_size : Z;
  cx_hook : Z;
  cx_flags : Z;
}.

Record bpfima_policy_result := PolicyResult {
  rs_generation : Z;
  rs_config : bpfima_policy_config;
  rs_hook : bpfima_hook_config;
  rs_skip : bool;
}.

#[global] Instance config_eq_dec : EqDecision bpfima_policy_config.
Proof. solve_decision. Defined.
#[global] Instance pattern_eq_dec : EqDecision bpfima_pattern_entry.
Proof. solve_decision. Defined.
#[global] Instance hook_eq_dec : EqDecision bpfima_hook_config.
Proof. solve_decision. Defined.
#[global] Instance snapshot_eq_dec : EqDecision bpfima_policy_snapshot.
Proof. solve_decision. Defined.
#[global] Instance record_eq_dec : EqDecision bpfima_policy_record.
Proof. solve_decision. Defined.
#[global] Instance state_eq_dec : EqDecision bpfima_policy_state.
Proof. solve_decision. Defined.

(** ** All-zero structures ([memset(p, 0, sizeof( *p))]) *)

Definition zero_config : bpfima_policy_config := PolicyConfig 0 0 0 0 0 0 0 0 0.
Definition zero_pattern : bpfima_pattern_entry := PatternEntry (zeros MAX_PATTERN_LEN) 0 0 0.
Definition zero_hook : bpfima_hook_config := HookConfig 0 0 0 0.
Definition zero_snapshot : bpfima_policy_snapshot :=
  PolicySnapshot zero_config (replicate MAX_IGNORE_PATTERNS zero_pattern)
    (replicate MAX_PATH_FILTERS zero_pattern) (replicate HOOK_MAX zero_hook).
Definition zero_record : bpfima_policy_record :=
  PolicyRecord (zeros BPFIMA_NAMESPACE_SIZE) zero_snapshot.
Definition zero_state : bpfima_policy_state :=
  PolicyState 0 0 0 (replicate (BPFIMA_POLICY_NAMESPACES + 1) zero_record).

(** ** Widths and array lengths *)

Definition wf_config (p : bpfima_policy_config) : Prop :=
  is_u8 (cfg_enabled p) /\ is_u32 (cfg_filter_flags p) /\ is_u32 (cfg_action_flags p) /\
  is_u32 (cfg_min_file_size p) /\ is_u32 (cfg_max_path_depth p) /\ is_u32 (cfg_log_level p) /\
  is_u32 (cfg_merkle_history_max_size p) /\ is_u8 (cfg_merkle_history_scope p) /\
  is_u32 (cfg_reserved p).

Definition wf_pattern (e : bpfima_pattern_entry) : Prop :=
  length (pat_pattern e) = MAX_PATTERN_LEN /\ is_u8 (pat_enabled e) /\
  is_u8 (pat_match_type e) /\ is_u16 (pat_reserved e).

Definition wf_hook (h : bpfima_hook_config) : Prop :=
  is_u32 (hk_flags h) /\ is_u32 (hk_filter_override h) /\ is_u32 (hk_action_override h) /\
  is_u32 (hk_reserved h).

Record wf_snapshot (s : bpfima_policy_snapshot) : Prop := WfSnapshot {
  wf_sn_config : wf_config (sn_config s);
  wf_sn_cgroups_len : length (sn_cgroups s) = MAX_IGNORE_PATTERNS;
  wf_sn_paths_len : length (sn_paths s) = MAX_PATH_FILTERS;
  wf_sn_hooks_len : length (sn_hooks s) = HOOK_MAX;
  wf_sn_cgroups : Forall wf_pattern (sn_cgroups s);
  wf_sn_paths : Forall wf_pattern (sn_paths s);
  wf_sn_hooks : Forall wf_hook (sn_hooks s);
}.

Definition wf_record (r : bpfima_policy_record) : Prop :=
  length (rec_namespace_id r) = BPFIMA_NAMESPACE_SIZE /\ wf_snapshot (rec_snapshot r).

Record wf_request (q : bpfima_policy_request) : Prop := WfRequest {
  wf_rq_version : is_u32 (rq_version q);
  wf_rq_reserved : is_u32 (rq_reserved q);
  wf_rq_generation : is_u64 (rq_expected_generation q);
  wf_rq_record : wf_record (rq_record q);
}.
