(* ===== verification/Pattern.v ===== *)
(** * Policy defaults, composition and pattern matching

    [include/bpfima_policy_defaults.h]: the default policy, the composition of
    the root configuration with a namespace extension, and the matching of
    ignore patterns with the conservative subset test between two patterns. *)

From S2P Require Import Prelude CString Types.

(** ** Defaults *)

Definition DEFAULT_FILTER_FLAGS : Z := 0.
Definition DEFAULT_ACTION_FLAGS : Z :=
  Z.lor (Z.lor (Z.lor (Z.lor POLICY_ACTION_EXTEND_TPM POLICY_ACTION_LOG_SECURITYFS)
    POLICY_ACTION_LOG_KERNEL) POLICY_ACTION_TRACK_CONTAINER) POLICY_ACTION_BUILD_DEPS.
Definition DEFAULT_MIN_FILE_SIZE : Z := 0.
Definition DEFAULT_MAX_PATH_DEPTH : Z := 32.
Definition DEFAULT_LOG_LEVEL : Z := 2.
Definition DEFAULT_CGROUP_PATTERN_1 : bytes := lit "/".
Definition DEFAULT_CGROUP_PATTERN_2 : bytes := lit "init.scope".
Definition DEFAULT_PATH_PATTERN_1 : bytes := lit "/proc/".
Definition DEFAULT_PATH_PATTERN_2 : bytes := lit "/sys/".
Definition DEFAULT_MERKLE_HISTORY_MAX_SIZE : Z := 1000.
Definition MERKLE_HISTORY_SCOPE_GLOBAL : Z := 0.
Definition MERKLE_HISTORY_SCOPE_ROOT_ONLY : Z := 1.
Definition DEFAULT_MERKLE_HISTORY_SCOPE : Z := MERKLE_HISTORY_SCOPE_GLOBAL.

(** The [reserved] word of the configuration is not assigned. *)
Definition bpfima_init_default_config (policy : bpfima_policy_config) : bpfima_policy_config :=
  PolicyConfig 1 DEFAULT_FILTER_FLAGS DEFAULT_ACTION_FLAGS DEFAULT_MIN_FILE_SIZE
    DEFAULT_MAX_PATH_DEPTH DEFAULT_LOG_LEVEL DEFAULT_MERKLE_HISTORY_MAX_SIZE
    DEFAULT_MERKLE_HISTORY_SCOPE (cfg_reserved policy).

(** [bpfima_strcpy(e.pattern, text, MAX_PATTERN_LEN); e.enabled = 1; e.match_type = m]. *)
Definition set_pattern (text : bytes) (m : Z) (e : bpfima_pattern_entry) : bpfima_pattern_entry :=
  PatternEntry (strscpy (pat_pattern e) text MAX_PATTERN_LEN) 1 m (pat_reserved e).

Definition bpfima_init_default_cgroup_patterns (patterns : list bpfima_pattern_entry)
    (max_patterns : Z) : list bpfima_pattern_entry :=
  let patterns := if 0 <? max_patterns
    then alter (set_pattern DEFAULT_CGROUP_PATTERN_1 0) 0%nat patterns else patterns in
  if 1 <? max_patterns
  then alter (set_pattern DEFAULT_CGROUP_PATTERN_2 0) 1%nat patterns else patterns.

Definition bpfima_init_default_path_patterns (patterns : list bpfima_pattern_entry)
    (max_patterns : Z) : list bpfima_pattern_entry :=
  let patterns := if 0 <? max_patterns
    then alter (set_pattern DEFAULT_PATH_PATTERN_1 1) 0%nat patterns else patterns in
  if 1 <? max_patterns
  then alter (set_pattern DEFAULT_PATH_PATTERN_2 1) 1%nat patterns else patterns.

Definition set_hook_flags (f : Z) (h : bpfima_hook_config) : bpfima_hook_config :=
  HookConfig f (hk_filter_override h) (hk_action_override h) (hk_reserved h).

Definition DEFAULT_HOOK_FLAGS : Z :=
  Z.lor (Z.lor HOOK_FLAG_ENABLED HOOK_FLAG_TRACK_CONTAINERS) HOOK_FLAG_MEASURE_HASH.

Definition bpfima_init_default_snapshot : bpfima_policy_snapshot :=
  PolicySnapshot
    (bpfima_init_default_config (sn_config zero_snapshot))
    (bpfima_init_default_cgroup_patterns (sn_cgroups zero_snapshot) (Z.of_nat MAX_IGNORE_PATTERNS))
    (bpfima_init_default_path_patterns (sn_paths zero_snapshot) (Z.of_nat MAX_PATH_FILTERS))
    (alter (set_hook_flags 0) (Z.to_nat HOOK_KPROBE_FILE_OPEN)
       (set_hook_flags DEFAULT_HOOK_FLAGS <$> sn_hooks zero_snapshot)).

(** ** Composition of two configurations *)

Definition bpfima_policy_merge_config (root : bpfima_policy_config)
    (extra : option bpfima_policy_config) : bpfima_policy_config :=
  match extra with
  | None => root
  | Some extra =>
      PolicyConfig
        (Z.lor (cfg_enabled root) (cfg_enabled extra))
        (Z.land (cfg_filter_flags root) (cfg_filter_flags extra))
        (Z.lor (cfg_action_flags root) (cfg_action_flags extra))
        (if cfg_min_file_size extra <? cfg_min_file_size root
         then cfg_min_file_size extra else cfg_min_file_size root)
        (if cfg_max_path_depth extra >? cfg_max_path_depth root
         then cfg_max_path_depth extra else cfg_max_path_depth root)
        (if cfg_log_level extra >? cfg_log_level root
         then cfg_log_level extra else cfg_log_level root)
        (cfg_merkle_history_max_size root)
        (cfg_merkle_history_scope root)
        (cfg_reserved root)
  end.

(** ** Ignore patterns *)

(** [text] is a C string pointer; [None] is the NULL pointer. *)
Definition bpfima_pattern_matches (entry : bpfima_pattern_entry) (text : option bytes) : bool :=
  match text with
  | None => false
  | Some text =>
      if negb (truth (pat_enabled entry)) || Byte.eqb (char_at text 0) NUL then false else
      let pattern_len := strlen (pat_pattern entry) in
      let text_len := strlen text in
      if pat_match_type entry =? 0 then strcmp text (pat_pattern entry) =? 0
      else if pat_match_type entry =? 1 then strncmp text (pat_pattern entry) pattern_len =? 0
      else if pat_match_type entry =? 2 then
        (pattern_len <=? text_len)%nat &&
        (strcmp (drop (text_len - pattern_len) text) (pat_pattern entry) =? 0)
      else if pat_match_type entry =? 3 then strstr text (pat_pattern entry)
      else false
  end.

Definition bpfima_pattern_is_subset (extra root : bpfima_pattern_entry) : bool :=
  if negb (truth (pat_enabled extra)) then true
  else if negb (truth (pat_enabled root)) then false
  else if pat_match_type extra =? 0 then bpfima_pattern_matches root (Some (pat_pattern extra))
  else if pat_match_type extra =? pat_match_type root then
    if pat_match_type extra =? 1 then
      strncmp (pat_pattern extra) (pat_pattern root) (strlen (pat_pattern root)) =? 0
    else if pat_match_type extra =? 2 then
      let len := strlen (pat_pattern extra) in
      let root_len := strlen (pat_pattern root) in
      (root_len <=? len)%nat &&
      (strcmp (drop (len - root_len) (pat_pattern extra)) (pat_pattern root) =? 0)
    else if pat_match_type extra =? 3 then strstr (pat_pattern extra) (pat_pattern root)
    else false
  else false.

(** ** What the tests decide *)

(** The relation between a pattern text and a matching operation name. *)
Definition pattern_rel (match_type : Z) (pat text : bytes) : Prop :=
  match match_type with
  | 0 => text = pat
  | 1 => pat `prefix_of` text
  | 2 => pat `suffix_of` text
  | 3 => exists p q, text = p ++ pat ++ q
  | _ => False
  end.

Lemma suffix_test text pat :
  ((strlen pat <=? strlen text)%nat &&
    (strcmp (drop (strlen text - strlen pat) text) pat =? 0)) = true <->
  cstr pat `suffix_of` cstr text.
Proof.
  rewrite andb_true_iff, Nat.leb_le, Z.eqb_eq, strcmp_spec. unfold strlen.
  assert (Hdrop : forall n, (n <= length (cstr text))%nat -> cstr (drop n text) = drop n (cstr text)).
  { clear. induction text as [|e text IH]; intros [|n] Hn; simpl in *; try done.
    byte_cases; simpl in *; [lia|]. apply IH. lia. }
  split.
  - intros [Hle H]. rewrite Hdrop in H by lia. exists (take (length (cstr text) - length (cstr pat)) (cstr text)).
    etrans; [symmetry; apply take_drop|]. by f_equal.
  - intros [k Hk]. assert (Hl : (length (cstr pat) <= length (cstr text))%nat)
      by (rewrite Hk, length_app; lia).
    split; [done|]. rewrite Hdrop by lia. rewrite Hk, length_app.
    by rewrite Nat.add_sub, drop_app_length.
Qed.

Lemma pattern_matches_spec entry text :
  bpfima_pattern_matches entry (Some text) = true <->
  truth (pat_enabled entry) = true /\ cstr text <> [] /\
  pattern_rel (pat_match_type entry) (cstr (pat_pattern entry)) (cstr text).
Proof.
  unfold bpfima_pattern_matches.
  destruct (truth (pat_enabled entry)); simpl; [|naive_solver].
  destruct (Byte.eqb (char_at text 0) NUL) eqn:E.
  { split; [done|]. intros (_ & H & _). exfalso. apply H. apply cstr_nil.
    by apply Byte.byte_dec_bl. }
  apply char_at_cstr_nonempty in E.
  destruct (Z.eqb_spec (pat_match_type entry) 0) as [->|H0].
  { rewrite Z.eqb_eq, strcmp_spec. naive_solver. }
  destruct (Z.eqb_spec (pat_match_type entry) 1) as [->|H1].
  { rewrite Z.eqb_eq, strncmp_strlen. naive_solver. }
  destruct (Z.eqb_spec (pat_match_type entry) 2) as [->|H2].
  { rewrite suffix_test. naive_solver. }
  destruct (Z.eqb_spec (pat_match_type entry) 3) as [->|H3].
  { rewrite strstr_spec. naive_solver. }
  split; [done|]. intros (_ & _ & H). unfold pattern_rel in H.
  destruct (pat_match_type entry) as [|p|p]; [done| |done].
  by repeat (destruct p as [p|p|]; try done).
Qed.

Lemma pattern_rel_trans m pat1 pat2 text :
  pattern_rel m pat2 pat1 -> pattern_rel m pat1 text -> pattern_rel m pat2 text.
Proof.
  unfold pattern_rel. destruct m as [|m|m]; [congruence| |done].
  repeat (destruct m as [m|m|]; try done).
  - intros (p & q & ->) (p' & q' & ->). exists (p' ++ p), (q ++ q').
    by rewrite <- !app_assoc.
  - intros ? ?. by etrans.
  - intros ? ?. by etrans.
Qed.

Lemma pattern_is_subset_spec extra root :
  bpfima_pattern_is_subset extra root = true ->
  truth (pat_enabled extra) = true ->
  truth (pat_enabled root) = true /\
  ((pat_match_type extra = 0 /\ bpfima_pattern_matches root (Some (pat_pattern extra)) = true) \/
   (pat_match_type extra = pat_match_type root /\
    pattern_rel (pat_match_type extra) (cstr (pat_pattern root)) (cstr (pat_pattern extra)))).
Proof.
  unfold bpfima_pattern_is_subset. intros H Hen. rewrite Hen in H. cbn [negb] in H.
  destruct (truth (pat_enabled root)) eqn:Hr; [|done]. split; [done|]. cbn [negb] in H. revert H.
  destruct (Z.eqb_spec (pat_match_type extra) 0); [intros ?; left; by split|].
  intros H. right. revert H. destruct (Z.eqb_spec (pat_match_type extra) (pat_match_type root)) as [->|]; [|done].
  intros H. split; [done|]. revert H.
  destruct (Z.eqb_spec (pat_match_type root) 1) as [->|H1].
  { by rewrite Z.eqb_eq, strncmp_strlen. }
  destruct (Z.eqb_spec (pat_match_type root) 2) as [->|H2].
  { by rewrite suffix_test. }
  destruct (Z.eqb_spec (pat_match_type root) 3) as [->|H3]; [|done].
  by rewrite strstr_spec.
Qed.

(** Every text an accepted narrower pattern matches, the wider one matches. *)
Lemma pattern_subset_matches extra root text :
  bpfima_pattern_is_subset extra root = true ->
  bpfima_pattern_matches extra text = true -> bpfima_pattern_matches root text = true.
Proof.
  intros Hsub Hm. destruct text as [text|]; [|done].
  apply pattern_matches_spec in Hm as (Hen & Hne & Hrel).
  destruct (pattern_is_subset_spec _ _ Hsub Hen) as (Hroot & [[H0 Hm]|[Hty Hrel']]).
  - rewrite H0 in Hrel. simpl in Hrel. apply pattern_matches_spec.
    apply pattern_matches_spec in Hm as (_ & _ & Hm). split_and!; [done..|by rewrite Hrel].
  - apply pattern_matches_spec. split; [done|]. split; [done|].
    rewrite <- Hty. by eapply pattern_rel_trans.
Qed.

(** A pattern is a subset of itself when its match type is one of the four. *)
Lemma pattern_subset_refl e :
  0 <= pat_match_type e <= 3 -> (truth (pat_enabled e) = true -> cstr (pat_pattern e) <> []) ->
  bpfima_pattern_is_subset e e = true.
Proof.
  intros Hty Hne. unfold bpfima_pattern_is_subset.
  destruct (truth (pat_enabled e)) eqn:En; [|done]. cbn [negb]. rewrite Z.eqb_refl.
  destruct (Z.eqb_spec (pat_match_type e) 0) as [E0|].
  { apply pattern_matches_spec. rewrite E0. simpl. eauto. }
  destruct (Z.eqb_spec (pat_match_type e) 1). { by rewrite Z.eqb_eq, strncmp_strlen. }
  destruct (Z.eqb_spec (pat_match_type e) 2). { by rewrite suffix_test. }
  destruct (Z.eqb_spec (pat_match_type e) 3); [|lia].
  apply strstr_spec. exists [], []. by rewrite app_nil_r.
Qed.
