(* ===== verification/Snapshot.v ===== *)
(** * Policy snapshots: normalisation, validation, rebasing and resolution

    The pure part of [src/policy_manager.c]: [normalize_snapshot],
    [validate_extension], [rebase_extension], the filter evaluation and the
    decision that [bpfima_policy_resolve_context] takes on one policy state.
    The theorems show that a namespace extension cannot exclude an operation
    that the root policy measures: neither at lookup time, whatever the
    extension, nor by an extension that [validate_extension] accepts. *)

From S2P Require Import Prelude CString Types Pattern.

(** ** Normalisation *)

(** Apply a fallible function to every element, stopping at the first error. *)
Fixpoint map_err {A B} (f : A -> Z + B) (l : list A) : Z + list B :=
  match l with
  | [] => inr []
  | x :: l =>
      match f x with
      | inl e => inl e
      | inr y => match map_err f l with inl e => inl e | inr ys => inr (y :: ys) end
      end
  end.

Definition normalize_config (config : bpfima_policy_config) : Z + bpfima_policy_config :=
  let required := Z.lor POLICY_ACTION_EXTEND_TPM POLICY_ACTION_LOG_SECURITYFS in
  if truth (Z.land (cfg_action_flags config)
              (Z.lor POLICY_ACTION_ALERT_SUSPICIOUS POLICY_ACTION_BLOCK))
  then inl (- EOPNOTSUPP)
  else if (cfg_enabled config >? 1) || truth (Z.land (cfg_filter_flags config) (not_u32 0xff)) ||
    truth (Z.land (cfg_action_flags config) (not_u32 0x7f)) ||
    negb (Z.land (cfg_action_flags config) required =? required) ||
    (cfg_log_level config >? 3) || (cfg_max_path_depth config >? 32) ||
    (cfg_merkle_history_scope config >? MERKLE_HISTORY_SCOPE_ROOT_ONLY) ||
    truth (cfg_reserved config)
  then inl (- EINVAL)
  else inr (PolicyConfig (cfg_enabled config) (cfg_filter_flags config) (cfg_action_flags config)
    (cfg_min_file_size config) (cfg_max_path_depth config) (cfg_log_level config)
    (cfg_merkle_history_max_size config) (cfg_merkle_history_scope config) 0).

Definition normalize_pattern (entry : bpfima_pattern_entry) : Z + bpfima_pattern_entry :=
  if (pat_enabled entry >? 1) || (pat_match_type entry >? 3) || truth (pat_reserved entry) ||
    negb (memchr (pat_pattern entry) NUL MAX_PATTERN_LEN) ||
    (truth (pat_enabled entry) && Byte.eqb (char_at (pat_pattern entry) 0) NUL)
  then inl (- EINVAL)
  else if truth (pat_enabled entry)
  then inr (PatternEntry (strscpy (pat_pattern zero_pattern) (pat_pattern entry) MAX_PATTERN_LEN)
    1 (pat_match_type entry) 0)
  else inr zero_pattern.

Definition normalize_hook (hook : bpfima_hook_config) : Z + bpfima_hook_config :=
  if truth (Z.land (hk_flags hook) (not_u32 7)) || truth (hk_filter_override hook) ||
    truth (hk_action_override hook) || truth (hk_reserved hook)
  then inl (- EINVAL)
  else inr (HookConfig (hk_flags hook) 0 0 0).

Definition normalize_snapshot (input : bpfima_policy_snapshot) : Z + bpfima_policy_snapshot :=
  match normalize_config (sn_config input) with
  | inl e => inl e
  | inr clean =>
      match map_err normalize_pattern (sn_cgroups input) with
      | inl e => inl e
      | inr cgroups =>
          match map_err normalize_pattern (sn_paths input) with
          | inl e => inl e
          | inr paths =>
              match map_err normalize_hook (sn_hooks input) with
              | inl e => inl e
              | inr hooks => inr (PolicySnapshot clean cgroups paths hooks)
              end
          end
      end
  end.

(** ** Validation of an extension against the root *)

Definition hook_at (hooks : list bpfima_hook_config) (i : nat) : bpfima_hook_config :=
  nth i hooks zero_hook.

(** The inner loop of the pattern checks: is [entry] disabled or covered by
    some entry of [base]? *)
Definition pattern_covered (base : list bpfima_pattern_entry) (entry : bpfima_pattern_entry) : bool :=
  negb (truth (pat_enabled entry)) || existsb (bpfima_pattern_is_subset entry) base.

Definition validate_extension (root extra : bpfima_policy_snapshot) : Z :=
  let rc := sn_config root in
  let xc := sn_config extra in
  if (cfg_enabled xc <? cfg_enabled rc) ||
    truth (Z.land (cfg_filter_flags xc) (not_u32 (cfg_filter_flags rc))) ||
    truth (Z.land (cfg_action_flags rc) (not_u32 (cfg_action_flags xc))) ||
    (cfg_min_file_size xc >? cfg_min_file_size rc) ||
    (cfg_max_path_depth xc <? cfg_max_path_depth rc) ||
    (cfg_log_level xc <? cfg_log_level rc) ||
    negb (cfg_merkle_history_max_size xc =? cfg_merkle_history_max_size rc) ||
    negb (cfg_merkle_history_scope xc =? cfg_merkle_history_scope rc)
  then - EPERM
  else if existsb (fun i => truth (Z.land (hk_flags (hook_at (sn_hooks root) i))
                                     (not_u32 (hk_flags (hook_at (sn_hooks extra) i)))))
            (seq 0 HOOK_MAX)
  then - EPERM
  else if negb (forallb (pattern_covered (sn_cgroups root)) (sn_cgroups extra) &&
                forallb (pattern_covered (sn_paths root)) (sn_paths extra))
  then - EPERM
  else 0.

(** ** Rebasing an extension on a newer root *)

Definition rebase_pattern (base : list bpfima_pattern_entry) (entry : bpfima_pattern_entry)
    : bpfima_pattern_entry :=
  if pattern_covered base entry then entry else zero_pattern.

Definition rebase_extension (root snapshot : bpfima_policy_snapshot) : bpfima_policy_snapshot :=
  PolicySnapshot
    (bpfima_policy_merge_config (sn_config root) (Some (sn_config snapshot)))
    (rebase_pattern (sn_cgroups root) <$> sn_cgroups snapshot)
    (rebase_pattern (sn_paths root) <$> sn_paths snapshot)
    (zip_with (fun h r => set_hook_flags (Z.lor (hk_flags h) (hk_flags r)) h)
       (sn_hooks snapshot) (sn_hooks root)).

(** ** Filters and the decision for one operation *)

Definition patterns_match (patterns : list bpfima_pattern_entry) (text : bytes) : bool :=
  existsb (fun e => bpfima_pattern_matches e (Some text)) patterns.

(** [flags & f] as a truth value. *)
Definition has_flag (flags f : Z) : bool := truth (Z.land flags f).

Definition starts_with (text : bytes) (prefix : bytes) : bool :=
  strncmp text prefix (length prefix) =? 0.

Definition filtered (snapshot : bpfima_policy_snapshot) (context : bpfima_policy_context) : bool :=
  let flags := cfg_filter_flags (sn_config snapshot) in
  let path := cx_path context in
  if patterns_match (sn_cgroups snapshot) (cx_cgroup context) ||
    patterns_match (sn_paths snapshot) path
  then true
  else if has_flag flags POLICY_FILTER_SYSTEM_CGROUPS &&
    ((strcmp (cx_cgroup context) (lit "/") =? 0) || starts_with (cx_cgroup context) (lit "init.scope"))
  then true
  else if has_flag flags POLICY_FILTER_PROC_SYS &&
    (starts_with path (lit "/proc/") || starts_with path (lit "/sys/"))
  then true
  else if has_flag flags POLICY_FILTER_DEV && starts_with path (lit "/dev/")
  then true
  else if has_flag flags POLICY_FILTER_TMP_FILES && starts_with path (lit "/tmp/")
  then true
  else if has_flag (cx_flags context) BPFIMA_POLICY_FILE then
    if has_flag flags POLICY_FILTER_SMALL_FILES &&
      (cx_file_size context <? cfg_min_file_size (sn_config snapshot))
    then true
    else if has_flag flags POLICY_FILTER_READONLY_FILES &&
      has_flag (cx_flags context) BPFIMA_POLICY_READONLY
    then true
    else if has_flag flags POLICY_FILTER_NON_EXECUTABLE &&
      negb (has_flag (cx_flags context) BPFIMA_POLICY_EXECUTABLE)
    then true
    else if has_flag flags POLICY_FILTER_LIBRARIES && strstr path (lit ".so")
    then true
    else false
  else false.

(** The result that [bpfima_policy_resolve_context] computes from the root
    snapshot and, when the namespace has one, its extension. *)
Definition resolve_decision (generation : Z) (root : bpfima_policy_snapshot)
    (extra : option bpfima_policy_snapshot) (context : bpfima_policy_context)
    : bpfima_policy_result :=
  let config := bpfima_policy_merge_config (sn_config root) (sn_config <$> extra) in
  let hook := Z.to_nat (cx_hook context) in
  let hflags := Z.lor (hk_flags (hook_at (sn_hooks root) hook))
    (match extra with Some extra => hk_flags (hook_at (sn_hooks extra) hook) | None => 0 end) in
  let skip := negb (truth (cfg_enabled config)) || negb (has_flag hflags HOOK_FLAG_ENABLED) ||
    (has_flag (cx_flags context) BPFIMA_POLICY_FILE && negb (has_flag hflags HOOK_FLAG_MEASURE_HASH)) ||
    (filtered root context &&
     match extra with None => true | Some extra => filtered extra context end) in
  PolicyResult generation config (HookConfig hflags 0 0 0) skip.

(** ** Coverage of the root policy at lookup time *)

Lemma has_flag_mono a b f : bits_subset a b -> has_flag a f = true -> has_flag b f = true.
Proof. unfold has_flag. rewrite !truth_true. apply bits_subset_flag. Qed.

Lemma has_flag_lor_false a b f : has_flag (Z.lor a b) f = false -> has_flag a f = false.
Proof.
  intros H. apply not_true_is_false. intros Ha.
  by rewrite (has_flag_mono a (Z.lor a b) f) in H by auto with bpfima.
Qed.

Lemma truth_lor_false a b : truth (Z.lor a b) = false -> truth a = false.
Proof. rewrite !truth_false, Z.lor_eq_0_iff. tauto. Qed.

Lemma resolve_skip_mono g g' root extra context :
  rs_skip (resolve_decision g root (Some extra) context) = true ->
  rs_skip (resolve_decision g' root None context) = true.
Proof.
  cbn [resolve_decision rs_skip option_fmap option_map fmap].
  unfold bpfima_policy_merge_config; cbn [cfg_enabled].
  rewrite Z.lor_0_r, !orb_true_iff, !andb_true_iff, !negb_true_iff.
  intros [[[H|H]|[Hf H]]|[H _]].
  - do 3 left. by eapply truth_lor_false.
  - do 2 left. right. by eapply has_flag_lor_false.
  - left. right. split; [done|]. by eapply has_flag_lor_false.
  - right. by rewrite H.
Qed.

(** ** What a validated extension can filter *)

Record extension_floor (root extra : bpfima_policy_snapshot) : Prop := ExtensionFloor {
  fl_enabled : cfg_enabled (sn_config root) <= cfg_enabled (sn_config extra);
  fl_filter : bits_subset (cfg_filter_flags (sn_config extra)) (cfg_filter_flags (sn_config root));
  fl_action : bits_subset (cfg_action_flags (sn_config root)) (cfg_action_flags (sn_config extra));
  fl_min : cfg_min_file_size (sn_config extra) <= cfg_min_file_size (sn_config root);
  fl_depth : cfg_max_path_depth (sn_config root) <= cfg_max_path_depth (sn_config extra);
  fl_log : cfg_log_level (sn_config root) <= cfg_log_level (sn_config extra);
  fl_hist_size : cfg_merkle_history_max_size (sn_config extra) =
                 cfg_merkle_history_max_size (sn_config root);
  fl_hist_scope : cfg_merkle_history_scope (sn_config extra) =
                  cfg_merkle_history_scope (sn_config root);
  fl_hooks : forall i, (i < HOOK_MAX)%nat ->
    bits_subset (hk_flags (hook_at (sn_hooks root) i)) (hk_flags (hook_at (sn_hooks extra) i));
  fl_cgroups : Forall (fun e => pattern_covered (sn_cgroups root) e = true) (sn_cgroups extra);
  fl_paths : Forall (fun e => pattern_covered (sn_paths root) e = true) (sn_paths extra);
}.

Lemma wf_hook_at s i : wf_snapshot s -> is_u32 (hk_flags (hook_at (sn_hooks s) i)).
Proof.
  intros Hs. unfold hook_at. pose proof (wf_sn_hooks _ Hs) as Hh.
  destruct (nth_in_or_default i (sn_hooks s) zero_hook) as [Hin| ->]; [|done].
  rewrite List.Forall_forall in Hh. by apply Hh in Hin as (? & _).
Qed.

Lemma forallb_Forall_true {A} (f : A -> bool) l :
  forallb f l = true <-> Forall (fun x => f x = true) l.
Proof. by rewrite forallb_forall, List.Forall_forall. Qed.

Lemma existsb_false {A} (f : A -> bool) l :
  existsb f l = false <-> forall x, In x l -> f x = false.
Proof.
  split.
  - intros H x Hx. apply not_true_is_false. intros Hf.
    apply not_true_iff_false in H. apply H. apply existsb_exists. eauto.
  - intros H. apply not_true_is_false. intros (x & Hx & Hf)%existsb_exists.
    by rewrite H in Hf.
Qed.

(** [validate_extension] returns 0 exactly when every field respects the floor. *)
Lemma validate_extension_floor root extra :
  wf_snapshot root -> wf_snapshot extra ->
  validate_extension root extra = 0 <-> extension_floor root extra.
Proof.
  intros Hr Hx. pose proof (wf_sn_config _ Hr) as (_ & _ & Hra & _).
  pose proof (wf_sn_config _ Hx) as (_ & Hxf & _). unfold validate_extension.
  destruct (_ || _) eqn:E1.
  { split; [done|]. intros []. apply not_false_iff_true in E1. destruct E1.
    rewrite !orb_false_iff, !negb_false_iff, !Z.eqb_eq, !Z.ltb_ge, Z.gtb_ltb, Z.ltb_ge, !truth_false,
      !land_not_u32_zero by done. tauto. }
  rewrite !orb_false_iff, !negb_false_iff, !Z.eqb_eq, !Z.ltb_ge, Z.gtb_ltb, Z.ltb_ge, !truth_false,
      !land_not_u32_zero in E1 by done.
  destruct (existsb _ _) eqn:E2.
  { split; [done|]. intros []. apply existsb_exists in E2 as (i & Hi & H).
    apply in_seq in Hi. apply truth_true in H. destruct H.
    apply land_not_u32_zero; [by apply wf_hook_at|]. apply fl_hooks0. lia. }
  pose proof (proj1 (existsb_false _ _) E2) as E3. clear E2.
  destruct (forallb _ (sn_cgroups extra) && forallb _ (sn_paths extra)) eqn:E4; cbn [negb].
  - rewrite andb_true_iff, !forallb_Forall_true in E4. split; [|done]. intros _.
    split; try tauto. intros i Hi. apply land_not_u32_zero; [by apply wf_hook_at|].
    apply truth_false, E3, in_seq. lia.
  - split; [done|]. intros []. apply not_true_iff_false in E4. destruct E4.
    by rewrite andb_true_iff, !forallb_Forall_true.
Qed.

Lemma patterns_match_covered base patterns text :
  Forall (fun e => pattern_covered base e = true) patterns ->
  patterns_match patterns text = true -> patterns_match base text = true.
Proof.
  intros Hcov (e & Hin & Hm)%existsb_exists. rewrite List.Forall_forall in Hcov.
  specialize (Hcov e Hin). unfold pattern_covered in Hcov. apply orb_true_iff in Hcov as [Hc|Hc].
  { apply negb_true_iff in Hc. apply pattern_matches_spec in Hm as [Hm _]. congruence. }
  apply existsb_exists in Hc as (b & Hb & Hsub). apply existsb_exists. exists b.
  split; [done|]. by eapply pattern_subset_matches.
Qed.

(** Under the floor, an operation the extension filters is one the root filters. *)
Lemma filtered_mono root extra context :
  extension_floor root extra -> filtered extra context = true -> filtered root context = true.
Proof.
  intros Hfl. unfold filtered.
  destruct (patterns_match (sn_cgroups extra) _) eqn:Ec.
  { intros _. by rewrite (patterns_match_covered _ _ _ (fl_cgroups _ _ Hfl) Ec). }
  destruct (patterns_match (sn_paths extra) _) eqn:Ep.
  { intros _. by rewrite (patterns_match_covered _ _ _ (fl_paths _ _ Hfl) Ep), orb_true_r. }
  pose proof (fun f => has_flag_mono _ _ f (fl_filter _ _ Hfl)) as Hmono.
  pose proof (fl_min _ _ Hfl) as Hmin.
  cbn [orb]. destruct (patterns_match (sn_cgroups root) _ || patterns_match (sn_paths root) _); [done|].
  assert (Hstep : forall f (b : bool) (e r : bool),
    (if has_flag (cfg_filter_flags (sn_config extra)) f && b then true else e) = true ->
    (e = true -> r = true) ->
    (if has_flag (cfg_filter_flags (sn_config root)) f && b then true else r) = true).
  { intros f b e r H He. destruct (has_flag (cfg_filter_flags (sn_config extra)) f && b) eqn:E.
    - apply andb_true_iff in E as [E ->]. by rewrite (Hmono _ E).
    - rewrite (He H). by destruct (has_flag (cfg_filter_flags (sn_config root)) f && b). }
  repeat (intros Hs; eapply Hstep; [exact Hs|clear Hs]).
  destruct (has_flag (cx_flags context) BPFIMA_POLICY_FILE); [|done].
  destruct (has_flag (cfg_filter_flags (sn_config extra)) POLICY_FILTER_SMALL_FILES && _) eqn:E.
  { intros _. apply andb_true_iff in E as [E1 E2]. rewrite (Hmono _ E1). apply Z.ltb_lt in E2.
    by destruct (Z.ltb_spec (cx_file_size context) (cfg_min_file_size (sn_config root))); [|lia]. }
  destruct (has_flag (cfg_filter_flags (sn_config root)) POLICY_FILTER_SMALL_FILES && _); [done|].
  repeat (intros Hs; eapply Hstep; [exact Hs|clear Hs]). done.
Qed.

(** ** Normalisation: canonical forms *)

Lemma map_err_inr {A B} (f : A -> Z + B) l l' :
  map_err f l = inr l' <-> Forall2 (fun x y => f x = inr y) l l'.
Proof.
  revert l'. induction l as [|x l IH]; intros l'; simpl.
  - split; [intros [=<-]; constructor|]. by inversion 1.
  - destruct (f x) as [e|y] eqn:E.
    { split; [done|]. inversion 1; congruence. }
    destruct (map_err f l) as [e|ys] eqn:E'.
    + split; [done|]. inversion 1; subst.
      match goal with H : Forall2 _ l _ |- _ => apply IH in H; done end.
    + split.
      * intros [=<-]. constructor; [done|]. by apply IH.
      * inversion 1; subst. match goal with H : Forall2 _ l _ |- _ => apply IH in H end.
        congruence.
Qed.

Definition canonical_config (p : bpfima_policy_config) : Prop := normalize_config p = inr p.
Definition canonical_pattern (e : bpfima_pattern_entry) : Prop := normalize_pattern e = inr e.
Definition canonical_hook (h : bpfima_hook_config) : Prop := normalize_hook h = inr h.
Definition canonical (s : bpfima_policy_snapshot) : Prop := normalize_snapshot s = inr s.

Lemma normalize_config_fixed p q : normalize_config p = inr q -> p = q.
Proof.
  unfold normalize_config. destruct (truth _); [done|]. destruct (_ || _) eqn:E; [done|].
  rewrite !orb_false_iff in E. destruct E as [_ E%truth_false].
  destruct p; simpl in *. by intros [= <-]; subst.
Qed.

Lemma normalize_hook_fixed h k : normalize_hook h = inr k -> h = k.
Proof.
  unfold normalize_hook. destruct (_ || _) eqn:E; [done|].
  rewrite !orb_false_iff, !truth_false in E. destruct h; simpl in *.
  intros [= <-]. destruct E as [[[? ->] ->] ->]. done.
Qed.

(** What an accepted pattern entry satisfies. *)
Lemma normalize_pattern_inv e e' :
  normalize_pattern e = inr e' ->
  pat_enabled e <= 1 /\ pat_match_type e <= 3 /\ memchr (pat_pattern e) NUL MAX_PATTERN_LEN = true /\
  (truth (pat_enabled e) = true -> cstr (pat_pattern e) <> []) /\
  e' = if truth (pat_enabled e)
       then PatternEntry (strscpy (zeros MAX_PATTERN_LEN) (pat_pattern e) MAX_PATTERN_LEN)
              1 (pat_match_type e) 0
       else zero_pattern.
Proof.
  unfold normalize_pattern. destruct (_ || _) eqn:E; [done|].
  rewrite !orb_false_iff, negb_false_iff, !Z.gtb_ltb, !Z.ltb_ge in E.
  destruct E as [[[[? ?] ?] ?] E]. intros Hn. split_and!; [done..| |].
  - intros Ht. rewrite Ht in E. simpl in E. by apply char_at_cstr_nonempty.
  - by destruct (truth (pat_enabled e)); simplify_eq.
Qed.

Lemma normalize_pattern_canonical e e' : normalize_pattern e = inr e' -> canonical_pattern e'.
Proof.
  intros H. pose proof (normalize_pattern_inv _ _ H) as (He & Hm & Hlen & Hne & ->).
  destruct (truth (pat_enabled e)) eqn:Et; [|done]. apply memchr_split in Hlen as [Hlen _].
  assert (Hc : cstr (strscpy (zeros MAX_PATTERN_LEN) (pat_pattern e) MAX_PATTERN_LEN) =
               cstr (pat_pattern e)) by (by apply cstr_strscpy_fits).
  unfold canonical_pattern, normalize_pattern. cbn [pat_enabled pat_match_type pat_reserved pat_pattern].
  destruct (_ || _) eqn:E.
  - exfalso. apply not_false_iff_true in E. destruct E.
    rewrite !orb_false_iff, negb_false_iff, !Z.gtb_ltb, !Z.ltb_ge.
    split_and!; [lia|done|done| |].
    + apply memchr_true; [by rewrite length_strscpy; rewrite length_zeros|]. unfold strlen. by rewrite Hc.
    + apply char_at_cstr_nonempty. rewrite Hc. auto.
  - cbn [truth Z.eqb negb]. do 2 f_equal. by apply strscpy_ext.
Qed.

Lemma normalize_pattern_wf e e' :
  0 <= pat_match_type e -> normalize_pattern e = inr e' -> wf_pattern e'.
Proof.
  intros H0 H. pose proof (normalize_pattern_inv _ _ H) as (He & Hm & _ & _ & ->).
  destruct (truth (pat_enabled e)); [|done]. unfold wf_pattern; cbn [pat_pattern pat_enabled pat_match_type pat_reserved].
  rewrite length_strscpy; rewrite length_zeros; [|done].
  unfold is_u8, is_u16. split_and!; by try lia.
Qed.

Lemma Forall2_canonical {A} (f : A -> Z + A) l l' :
  (forall x y, f x = inr y -> f y = inr y) ->
  Forall2 (fun x y => f x = inr y) l l' -> map_err f l' = inr l'.
Proof.
  intros Hf H. apply map_err_inr. induction H as [|x y l l' Hxy _ IH]; constructor; eauto.
Qed.

Lemma normalize_snapshot_inv s s' :
  normalize_snapshot s = inr s' <->
  normalize_config (sn_config s) = inr (sn_config s') /\
  Forall2 (fun x y => normalize_pattern x = inr y) (sn_cgroups s) (sn_cgroups s') /\
  Forall2 (fun x y => normalize_pattern x = inr y) (sn_paths s) (sn_paths s') /\
  Forall2 (fun x y => normalize_hook x = inr y) (sn_hooks s) (sn_hooks s').
Proof.
  unfold normalize_snapshot. rewrite <- !map_err_inr.
  destruct (normalize_config _); [naive_solver|]. destruct (map_err _ (sn_cgroups s)); [naive_solver|].
  destruct (map_err _ (sn_paths s)); [naive_solver|]. destruct (map_err _ (sn_hooks s)); [naive_solver|].
  destruct s'; naive_solver.
Qed.

Lemma normalize_canonical s s' : normalize_snapshot s = inr s' -> canonical s'.
Proof.
  intros (Hc & Hg & Hp & Hh)%normalize_snapshot_inv. apply normalize_snapshot_inv.
  rewrite <- !map_err_inr. split_and!.
  - by rewrite (normalize_config_fixed _ _ Hc) in Hc.
  - eapply Forall2_canonical; [apply normalize_pattern_canonical|done].
  - eapply Forall2_canonical; [apply normalize_pattern_canonical|done].
  - eapply Forall2_canonical; [|done]. intros x y H. by pose proof (normalize_hook_fixed _ _ H); subst.
Qed.

Lemma Forall2_normalize_wf l l' :
  Forall wf_pattern l -> Forall2 (fun x y => normalize_pattern x = inr y) l l' -> Forall wf_pattern l'.
Proof.
  intros Hl H. induction H as [|x y l l' Hxy _ IH]; [done|]. inversion_clear Hl as [|? ? Hx Hl'].
  constructor; [|by apply IH]. eapply normalize_pattern_wf; [|done].
  destruct Hx as (_ & _ & Hx & _). unfold is_u8 in Hx. lia.
Qed.

Lemma normalize_wf s s' : wf_snapshot s -> normalize_snapshot s = inr s' -> wf_snapshot s'.
Proof.
  intros [] (Hc & Hg & Hp & Hh)%normalize_snapshot_inv. split.
  - by rewrite <- (normalize_config_fixed _ _ Hc).
  - by rewrite <- (Forall2_length _ _ _ Hg).
  - by rewrite <- (Forall2_length _ _ _ Hp).
  - by rewrite <- (Forall2_length _ _ _ Hh).
  - by eapply Forall2_normalize_wf; [|exact Hg].
  - by eapply Forall2_normalize_wf; [|exact Hp].
  - assert (sn_hooks s' = sn_hooks s) as ->; [|done].
    symmetry. eapply list_eq_Forall2, Forall2_impl; [exact Hh|]. apply normalize_hook_fixed.
Qed.

(** Normalising keeps the meaning of the filters. *)
Lemma normalize_pattern_matches e e' text :
  normalize_pattern e = inr e' -> bpfima_pattern_matches e' text = bpfima_pattern_matches e text.
Proof.
  intros H. pose proof (normalize_pattern_inv _ _ H) as (He & Hm & Hlen & Hne & ->).
  destruct text as [text|]; [|done]. apply eq_iff_eq_true. rewrite !pattern_matches_spec.
  destruct (truth (pat_enabled e)) eqn:Et; [|cbn; naive_solver].
  apply memchr_split in Hlen as [Hlen _]. cbn [pat_enabled pat_match_type pat_pattern].
  by rewrite cstr_strscpy_fits by done.
Qed.

Lemma normalize_patterns_match l l' text :
  Forall2 (fun x y => normalize_pattern x = inr y) l l' ->
  patterns_match l' text = patterns_match l text.
Proof.
  unfold patterns_match. induction 1 as [|x y l l' Hxy _ IH]; [done|]. cbn [existsb].
  by rewrite IH, (normalize_pattern_matches _ _ _ Hxy).
Qed.

Lemma normalize_filtered s s' context :
  normalize_snapshot s = inr s' -> filtered s' context = filtered s context.
Proof.
  intros (Hc & Hg & Hp & Hh)%normalize_snapshot_inv. unfold filtered.
  by rewrite <- (normalize_config_fixed _ _ Hc), (normalize_patterns_match _ _ _ Hg),
    (normalize_patterns_match _ _ _ Hp).
Qed.

(** ** Rebasing gives a valid extension *)

Lemma canonical_pattern_type e : canonical_pattern e -> wf_pattern e ->
  0 <= pat_match_type e <= 3 /\ (truth (pat_enabled e) = true -> cstr (pat_pattern e) <> []).
Proof.
  intros (_ & ? & _ & ? & _)%normalize_pattern_inv (_ & _ & Hm & _).
  unfold is_u8 in Hm. split; [lia|done].
Qed.

Lemma rebase_covered base l :
  Forall (fun e => pattern_covered base e = true) (rebase_pattern base <$> l).
Proof.
  apply Forall_fmap, Forall_true. intros e. unfold compose, rebase_pattern.
  by destruct (pattern_covered base e) eqn:E.
Qed.

Lemma hook_at_zip root s i :
  length (sn_hooks root) = HOOK_MAX -> length (sn_hooks s) = HOOK_MAX -> (i < HOOK_MAX)%nat ->
  hk_flags (hook_at (zip_with (fun h r => set_hook_flags (Z.lor (hk_flags h) (hk_flags r)) h)
    (sn_hooks s) (sn_hooks root)) i) =
  Z.lor (hk_flags (hook_at (sn_hooks s) i)) (hk_flags (hook_at (sn_hooks root) i)).
Proof.
  unfold hook_at. revert i. generalize (sn_hooks s), (sn_hooks root), HOOK_MAX. clear.
  intros l l' n. revert l l'. induction n as [|n IH]; [lia|].
  intros [|x l] [|y l'] [|i] H H' Hi; simplify_eq/=; [done|]. apply IH; lia.
Qed.

Lemma rebase_floor root s :
  wf_snapshot root -> wf_snapshot s -> extension_floor root (rebase_extension root s).
Proof.
  intros Hr Hs. split; cbn [rebase_extension sn_config sn_cgroups sn_paths sn_hooks
    bpfima_policy_merge_config cfg_enabled cfg_filter_flags cfg_action_flags cfg_min_file_size
    cfg_max_path_depth cfg_log_level cfg_merkle_history_max_size cfg_merkle_history_scope];
    auto using rebase_covered with bpfima.
  - pose proof (wf_sn_config _ Hr) as ((? & _) & _). pose proof (wf_sn_config _ Hs) as ((? & _) & _).
    by apply le_lor_l.
  - destruct (Z.ltb_spec (cfg_min_file_size (sn_config s)) (cfg_min_file_size (sn_config root))); lia.
  - rewrite Z.gtb_ltb. destruct (Z.ltb_spec (cfg_max_path_depth (sn_config root)) (cfg_max_path_depth (sn_config s))); lia.
  - rewrite Z.gtb_ltb. destruct (Z.ltb_spec (cfg_log_level (sn_config root)) (cfg_log_level (sn_config s))); lia.
  - intros i Hi. rewrite hook_at_zip by (try apply wf_sn_hooks_len; done). auto with bpfima.
Qed.

Lemma is_u8_lor a b : is_u8 a -> is_u8 b -> a <= 1 -> b <= 1 -> is_u8 (Z.lor a b).
Proof.
  unfold is_u8. intros Ha Hb Ha1 Hb1. assert (a = 0 \/ a = 1) as [->| ->] by lia;
    assert (b = 0 \/ b = 1) as [->| ->] by lia; vm_compute; split; congruence.
Qed.

Lemma canonical_config_enabled p : canonical_config p -> cfg_enabled p <= 1.
Proof.
  unfold canonical_config, normalize_config. destruct (truth _); [done|].
  destruct (_ || _) eqn:E; [done|]. rewrite !orb_false_iff, Z.gtb_ltb, Z.ltb_ge in E. tauto.
Qed.

Lemma rebase_pattern_wf base e : wf_pattern e -> wf_pattern (rebase_pattern base e).
Proof. unfold rebase_pattern. by destruct (pattern_covered base e). Qed.

Lemma rebase_wf root s :
  wf_snapshot root -> wf_snapshot s -> canonical root -> canonical s ->
  wf_snapshot (rebase_extension root s).
Proof.
  intros [Hr1 _ _ Hr4 _ _ Hr7] [Hs1 Hs2 Hs3 Hs4 Hs5 Hs6 Hs7] (Cr & _)%normalize_snapshot_inv
    (Cs & _)%normalize_snapshot_inv.
  apply canonical_config_enabled in Cr, Cs. split; cbn [rebase_extension sn_config sn_cgroups sn_paths sn_hooks].
  - destruct Hr1 as (? & ? & ? & ? & ? & ? & ? & ? & ?), Hs1 as (? & ? & ? & ? & ? & ? & ? & ? & ?).
    unfold wf_config; cbn. split_and!; auto using is_u8_lor with bpfima; by case_match.
  - by rewrite length_fmap.
  - by rewrite length_fmap.
  - rewrite length_zip_with, Hs4, Hr4. done.
  - apply Forall_fmap. eapply Forall_impl; [exact Hs5|]. apply rebase_pattern_wf.
  - apply Forall_fmap. eapply Forall_impl; [exact Hs6|]. apply rebase_pattern_wf.
  - apply Forall_lookup. intros i h. rewrite lookup_zip_with_Some. intros (x & y & -> & Hx & Hy).
    rewrite Forall_lookup in Hr7, Hs7. apply Hr7 in Hy as (? & _). apply Hs7 in Hx as (? & ? & ? & ?).
    split_and!; cbn; auto with bpfima.
Qed.

Lemma rebase_validates root s :
  wf_snapshot root -> wf_snapshot s -> canonical root -> canonical s ->
  validate_extension root (rebase_extension root s) = 0.
Proof.
  intros. apply validate_extension_floor; [done|by apply rebase_wf|by apply rebase_floor].
Qed.

(** ** Canonical forms are kept by rebasing *)

Lemma canonical_config_spec p :
  wf_config p -> canonical_config p <->
  Z.land (cfg_action_flags p) (Z.lor POLICY_ACTION_ALERT_SUSPICIOUS POLICY_ACTION_BLOCK) = 0 /\
  cfg_enabled p <= 1 /\ bits_subset (cfg_filter_flags p) 0xff /\ bits_subset (cfg_action_flags p) 0x7f /\
  Z.land (cfg_action_flags p) (Z.lor POLICY_ACTION_EXTEND_TPM POLICY_ACTION_LOG_SECURITYFS) =
    Z.lor POLICY_ACTION_EXTEND_TPM POLICY_ACTION_LOG_SECURITYFS /\
  cfg_log_level p <= 3 /\ cfg_max_path_depth p <= 32 /\
  cfg_merkle_history_scope p <= MERKLE_HISTORY_SCOPE_ROOT_ONLY /\ cfg_reserved p = 0.
Proof.
  intros (_ & Hf & Ha & _). unfold canonical_config, normalize_config.
  destruct (truth (Z.land _ (Z.lor POLICY_ACTION_ALERT_SUSPICIOUS POLICY_ACTION_BLOCK))) eqn:Et.
  { apply truth_true in Et. split; [done|]. intros (? & _). done. }
  apply truth_false in Et. destruct (_ || _) eqn:Eo.
  - split; [done|]. intros (_ & H). exfalso. apply not_false_iff_true in Eo. destruct Eo.
    rewrite !orb_false_iff, !Z.gtb_ltb, !Z.ltb_ge, !truth_false, negb_false_iff, Z.eqb_eq,
      !land_not_u32_zero by done. tauto.
  - rewrite !orb_false_iff, !Z.gtb_ltb, !Z.ltb_ge, !truth_false, negb_false_iff, Z.eqb_eq,
      !land_not_u32_zero in Eo by done.
    split; [intros _; tauto|]. intros H. destruct p; cbn in *. by repeat f_equal; intuition.
Qed.

Lemma bits_subset_lor a b c : bits_subset a c -> bits_subset b c -> bits_subset (Z.lor a b) c.
Proof. intros Ha Hb n Hn. rewrite Z.lor_spec, orb_true_iff. intros [?|?]; auto. Qed.

Lemma merge_config_canonical p q :
  wf_config p -> wf_config q -> wf_config (bpfima_policy_merge_config p (Some q)) ->
  canonical_config p -> canonical_config q -> canonical_config (bpfima_policy_merge_config p (Some q)).
Proof.
  intros Hp Hq Hm. rewrite !canonical_config_spec by done.
  intros (P1 & P2 & P3 & P4 & P5 & P6 & P7 & P8 & P9) (Q1 & Q2 & Q3 & Q4 & Q5 & Q6 & Q7 & Q8 & Q9).
  destruct Hp as ((? & _) & _), Hq as ((? & _) & _).
  cbn [bpfima_policy_merge_config cfg_enabled cfg_filter_flags cfg_action_flags cfg_max_path_depth
    cfg_log_level cfg_merkle_history_scope cfg_reserved]. split_and!; try done.
  - rewrite Z.land_lor_distr_l, P1, Q1. done.
  - assert (cfg_enabled p = 0 \/ cfg_enabled p = 1) as [->| ->] by lia;
      assert (cfg_enabled q = 0 \/ cfg_enabled q = 1) as [->| ->] by lia; vm_compute; congruence.
  - eapply bits_subset_trans; [apply bits_subset_land_l|done].
  - by apply bits_subset_lor.
  - rewrite Z.land_lor_distr_l, P5, Q5. apply Z.lor_diag.
  - rewrite Z.gtb_ltb. destruct (_ <? _); lia.
  - rewrite Z.gtb_ltb. destruct (_ <? _); lia.
Qed.

Lemma canonical_hook_spec h :
  is_u32 (hk_flags h) -> canonical_hook h <->
  bits_subset (hk_flags h) 7 /\ hk_filter_override h = 0 /\ hk_action_override h = 0 /\ hk_reserved h = 0.
Proof.
  intros Hf. unfold canonical_hook, normalize_hook. destruct (_ || _) eqn:Eo.
  - split; [done|]. intros H. exfalso. apply not_false_iff_true in Eo. destruct Eo.
    rewrite !orb_false_iff, !truth_false, land_not_u32_zero by done. tauto.
  - rewrite !orb_false_iff, !truth_false, land_not_u32_zero in Eo by done.
    split; [tauto|]. intros (_ & H1 & H2 & H3). destruct h; cbn in *. by subst.
Qed.

Lemma rebase_pattern_canonical base e : canonical_pattern e -> canonical_pattern (rebase_pattern base e).
Proof. unfold rebase_pattern. by destruct (pattern_covered base e). Qed.

Lemma Forall2_diag_impl {A} (P : A -> A -> Prop) (f : A -> A) l :
  Forall2 P l l -> (forall x, P x x -> P (f x) (f x)) -> Forall2 P (f <$> l) (f <$> l).
Proof.
  intros H Hf. apply Forall2_fmap. induction l as [|x l IH]; [constructor|].
  inversion_clear H. constructor; auto.
Qed.

Lemma rebase_canonical root s :
  wf_snapshot root -> wf_snapshot s -> canonical root -> canonical s ->
  canonical (rebase_extension root s).
Proof.
  intros Hr Hs Cr Cs. pose proof (rebase_wf root s Hr Hs Cr Cs) as Hw.
  apply normalize_snapshot_inv in Cr as (C1 & _ & _ & C4), Cs as (D1 & D2 & D3 & D4).
  apply normalize_snapshot_inv. cbn [rebase_extension sn_config sn_cgroups sn_paths sn_hooks]. split_and!.
  - apply merge_config_canonical; [apply Hr|apply Hs|apply Hw|done..].
  - apply Forall2_diag_impl; [done|apply rebase_pattern_canonical].
  - apply Forall2_diag_impl; [done|apply rebase_pattern_canonical].
  - destruct Hr as [_ _ _ _ _ _ Hr], Hs as [_ _ _ _ _ _ Hs].
    generalize dependent (sn_hooks root). generalize dependent (sn_hooks s). clear.
    cbn [zip_with]. induction l as [|x l IH]; intros Hs D4 [|y l'] Hr C4; try (by constructor);
      cbn [zip_with]; constructor;
      apply Forall2_cons in D4 as [Dx D4], C4 as [Cy C4];
      apply Forall_cons in Hs as [(Hx & _) Hs], Hr as [(Hy & _) Hr]; [|by apply IH].
    fold (canonical_hook x) in Dx. fold (canonical_hook y) in Cy.
    apply canonical_hook_spec in Dx as (? & ? & ? & ?), Cy as (? & _); [|done..].
    apply canonical_hook_spec; [by apply is_u32_lor|]. cbn. split_and!; try done. by apply bits_subset_lor.
Qed.

(** ** Theorems *)

(** C16: Composition never narrows coverage. Whatever the namespace extension
    holds (also one left stale by a later root update), an operation that the
    root policy alone measures is still measured, and the effective
    configuration keeps every root action, filters no more categories, and
    has thresholds at least as inclusive. *)
Theorem composition_keeps_root_coverage g root extra context :
  let alone := resolve_decision g root None context in
  let both := resolve_decision g root (Some extra) context in
  (rs_skip alone = false -> rs_skip both = false) /\
  bits_subset (cfg_action_flags (rs_config alone)) (cfg_action_flags (rs_config both)) /\
  bits_subset (cfg_filter_flags (rs_config both)) (cfg_filter_flags (rs_config alone)) /\
  bits_subset (hk_flags (rs_hook alone)) (hk_flags (rs_hook both)) /\
  cfg_min_file_size (rs_config both) <= cfg_min_file_size (rs_config alone) /\
  cfg_max_path_depth (rs_config alone) <= cfg_max_path_depth (rs_config both) /\
  cfg_log_level (rs_config alone) <= cfg_log_level (rs_config both).
Proof.
  cbv zeta. split.
  { intros H. apply not_true_is_false. intros Hs. apply (resolve_skip_mono g g) in Hs. congruence. }
  cbn [resolve_decision rs_config rs_hook hk_flags fmap option_fmap option_map bpfima_policy_merge_config
    cfg_action_flags cfg_filter_flags cfg_min_file_size cfg_max_path_depth cfg_log_level].
  rewrite Z.lor_0_r, !Z.gtb_ltb. split_and!; auto with bpfima.
  - destruct (Z.ltb_spec (cfg_min_file_size (sn_config extra)) (cfg_min_file_size (sn_config root))); lia.
  - destruct (Z.ltb_spec (cfg_max_path_depth (sn_config root)) (cfg_max_path_depth (sn_config extra))); lia.
  - destruct (Z.ltb_spec (cfg_log_level (sn_config root)) (cfg_log_level (sn_config extra))); lia.
Qed.

(** C17: [validate_extension] accepts an extension exactly when every field
    respects the root floor, rejects with [-EPERM] otherwise, and an operation
    that an accepted extension filters is one that the root filters. *)
Theorem validate_extension_sound root extra :
  wf_snapshot root -> wf_snapshot extra ->
  (validate_extension root extra = 0 <-> extension_floor root extra) /\
  (~ extension_floor root extra -> validate_extension root extra = - EPERM) /\
  (validate_extension root extra = 0 ->
   forall context, filtered extra context = true -> filtered root context = true).
Proof.
  intros Hr Hx. pose proof (validate_extension_floor root extra Hr Hx) as Hiff. split_and!; [done| |].
  - intros Hn. rewrite <- Hiff in Hn. unfold validate_extension in *.
    destruct (_ || _); [done|]. destruct (existsb _ _); [done|]. by destruct (negb _).
  - intros H0 context. apply filtered_mono. by apply Hiff.
Qed.

(** Normalisation gives a canonical, well-formed snapshot with the same
    meaning: normalising again changes nothing (so equal policies have equal
    bytes to hash), and every decision is as with the input. *)
Theorem normalize_snapshot_canonical s s' :
  wf_snapshot s -> normalize_snapshot s = inr s' ->
  normalize_snapshot s' = inr s' /\ wf_snapshot s' /\ sn_config s' = sn_config s /\
  sn_hooks s' = sn_hooks s /\
  forall g root context,
    resolve_decision g s' None context = resolve_decision g s None context /\
    resolve_decision g root (Some s') context = resolve_decision g root (Some s) context.
Proof.
  intros Hw Hn. pose proof Hn as (Hc & _ & _ & Hh)%normalize_snapshot_inv.
  assert (Hcfg : sn_config s' = sn_config s) by (symmetry; by apply normalize_config_fixed).
  assert (Hhk : sn_hooks s' = sn_hooks s).
  { symmetry. eapply list_eq_Forall2, Forall2_impl; [exact Hh|]. apply normalize_hook_fixed. }
  split_and!; [by eapply normalize_canonical|by eapply normalize_wf|done..|].
  intros g root context. unfold resolve_decision. cbn [fmap option_fmap option_map].
  by rewrite Hcfg, Hhk, (normalize_filtered _ _ _ Hn).
Qed.

(** Rebasing an extension on a newer root gives a canonical extension that
    validation accepts, whatever the old extension held, and the rebased
    patterns are a selection of the old ones. *)
Theorem rebase_extension_valid root s :
  wf_snapshot root -> wf_snapshot s -> canonical root -> canonical s ->
  let r := rebase_extension root s in
  validate_extension root r = 0 /\ normalize_snapshot r = inr r /\ wf_snapshot r /\
  forall i e, (sn_paths r !! i = Some e -> e = zero_pattern \/ sn_paths s !! i = Some e) /\
              (sn_cgroups r !! i = Some e -> e = zero_pattern \/ sn_cgroups s !! i = Some e).
Proof.
  intros Hr Hs Cr Cs r. split_and!; [by apply rebase_validates|by apply rebase_canonical|by apply rebase_wf|].
  intros i e. cbn [r rebase_extension sn_paths sn_cgroups]. rewrite !list_lookup_fmap.
  unfold rebase_pattern. split; intros (x & -> & Hx)%fmap_Some; rewrite Hx; destruct (pattern_covered _ x); auto.
Qed.

Ltac solve_concrete_Forall :=
  match goal with |- Forall ?P ?l => let v := eval vm_compute in l in change (Forall P v) end;
  repeat (apply Forall_cons; split; [vm_compute; repeat split; discriminate|]); constructor.

Lemma default_snapshot_wf : wf_snapshot bpfima_init_default_snapshot.
Proof.
  split; [|reflexivity|reflexivity|reflexivity|solve_concrete_Forall|solve_concrete_Forall|solve_concrete_Forall].
  vm_compute. repeat split; discriminate.
Qed.

Lemma default_snapshot_canonical : canonical bpfima_init_default_snapshot.
Proof. reflexivity. Qed.

Lemma validate_extension_sound_witness :
  validate_extension bpfima_init_default_snapshot bpfima_init_default_snapshot = 0 /\
  forall context, filtered bpfima_init_default_snapshot context = true ->
    filtered bpfima_init_default_snapshot context = true.
Proof.
  destruct (validate_extension_sound bpfima_init_default_snapshot bpfima_init_default_snapshot
    default_snapshot_wf default_snapshot_wf) as (_ & _ & H).
  split; [reflexivity|]. apply H. reflexivity.
Defined.

Lemma normalize_snapshot_canonical_witness :
  wf_snapshot bpfima_init_default_snapshot /\
  normalize_snapshot bpfima_init_default_snapshot = inr bpfima_init_default_snapshot.
Proof.
  destruct (normalize_snapshot_canonical bpfima_init_default_snapshot bpfima_init_default_snapshot
    default_snapshot_wf eq_refl) as (H & Hw & _). split; [exact Hw|exact H].
Defined.

Lemma rebase_extension_valid_witness :
  validate_extension bpfima_init_default_snapshot
    (rebase_extension bpfima_init_default_snapshot bpfima_init_default_snapshot) = 0.
Proof.
  apply (rebase_extension_valid bpfima_init_default_snapshot bpfima_init_default_snapshot
    default_snapshot_wf default_snapshot_wf default_snapshot_canonical default_snapshot_canonical).
Defined.
