(* ===== verification/Wire.v ===== *)
(** * Object representation and the little-endian wire format

    A policy request crosses the SecurityFS boundary as the raw bytes of
    [struct bpfima_policy_request]: the tool encodes its integers with
    [bpfima_policy_encode_request] ([include/bpfima_policy_user.h]) and
    [policy_apply_write] ([src/policy_securityfs.c]) decodes them; the digest of
    a policy change ([snapshot_digest], [src/policy_manager.c]) hashes the bytes
    of a record encoded the same way.  The layouts are built from a small
    library of codecs; the parameter [be] says whether the host is
    big-endian. *)

From S2P Require Import Prelude CString Types Pattern Snapshot.
From coqutil Require Import Word.LittleEndianList.

(** ** Codecs *)

Record codec (A : Type) := Codec {
  c_size : nat;
  c_wf : A -> Prop;
  c_put : A -> bytes;
  c_get : bytes -> A * bytes;
}.
Arguments Codec {A}.
Arguments c_size {A}.
Arguments c_wf {A}.
Arguments c_put {A}.
Arguments c_get {A}.

Class CodecOk {A} (k : codec A) : Prop := {
  put_length : forall a, c_wf k a -> length (c_put k a) = c_size k;
  get_put : forall a rest, c_wf k a -> c_get k (c_put k a ++ rest) = (a, rest);
}.

Section Combinators.
Context {A B : Type}.

(** A C character array. *)
Definition chars (n : nat) : codec bytes :=
  Codec n (fun b => length b = n) (fun b => b) (fun bs => (take n bs, drop n bs)).

(** A value followed by [n] padding bytes. *)
Definition padded (n : nat) (k : codec A) : codec A :=
  Codec (c_size k + n) (c_wf k) (fun a => c_put k a ++ zeros n)
    (fun bs => let '(a, bs) := c_get k bs in (a, drop n bs)).

Definition pair_codec (ka : codec A) (kb : codec B) : codec (A * B) :=
  Codec (c_size ka + c_size kb) (fun p => c_wf ka p.1 /\ c_wf kb p.2)
    (fun p => c_put ka p.1 ++ c_put kb p.2)
    (fun bs => let '(a, bs) := c_get ka bs in let '(b, bs) := c_get kb bs in ((a, b), bs)).

Fixpoint get_array (k : codec A) (n : nat) (bs : bytes) : list A * bytes :=
  match n with
  | O => ([], bs)
  | S n => let '(a, bs) := c_get k bs in let '(l, bs) := get_array k n bs in (a :: l, bs)
  end.

Definition array (n : nat) (k : codec A) : codec (list A) :=
  Codec (n * c_size k) (fun l => length l = n /\ Forall (c_wf k) l)
    (flat_map (c_put k)) (get_array k n).

(** A record seen as the tuple of its fields. *)
Definition iso (f : B -> A) (g : A -> B) (k : codec A) : codec B :=
  Codec (c_size k) (fun b => c_wf k (f b)) (fun b => c_put k (f b))
    (fun bs => let '(a, bs) := c_get k bs in (g a, bs)).
End Combinators.

Notation "k1 ⊗ k2" := (pair_codec k1 k2) (at level 62, right associativity) : bpfima_scope.
Open Scope bpfima_scope.

#[global] Instance chars_ok n : CodecOk (chars n).
Proof.
  split; simpl; [done|]. intros a rest <-. by rewrite take_app_length, drop_app_length.
Qed.

#[global] Instance padded_ok {A} n (k : codec A) : CodecOk k -> CodecOk (padded n k).
Proof.
  intros Hk. split; simpl.
  - intros a Ha. rewrite length_app, length_zeros, (put_length (k := k)) by done. done.
  - intros a rest Ha. rewrite <- app_assoc, get_put by done.
    by rewrite drop_app_length' by (by rewrite length_zeros).
Qed.

#[global] Instance pair_ok {A B} (ka : codec A) (kb : codec B) :
  CodecOk ka -> CodecOk kb -> CodecOk (ka ⊗ kb).
Proof.
  intros Ha Hb. split; simpl.
  - intros [a b] [? ?]; simpl in *. by rewrite length_app, !put_length.
  - intros [a b] rest [? ?]; simpl in *. by rewrite <- app_assoc, !get_put.
Qed.

#[global] Instance array_ok {A} n (k : codec A) : CodecOk k -> CodecOk (array n k).
Proof.
  intros Hk. split; simpl.
  - intros l [<- Hl]. induction Hl as [|a l Ha _ IH]; [done|].
    simpl. by rewrite length_app, IH, put_length.
  - intros l rest [<- Hl]. induction Hl as [|a l Ha _ IH]; [done|].
    simpl. by rewrite <- app_assoc, get_put, IH.
Qed.

Lemma iso_ok {A B} (f : B -> A) (g : A -> B) (k : codec A) :
  (forall b, g (f b) = b) -> CodecOk k -> CodecOk (iso f g k).
Proof.
  intros Hfg Hk. split; simpl.
  - intros b Hb. by apply put_length.
  - intros b rest Hb. by rewrite get_put, Hfg.
Qed.

Lemma put_inj {A} (k : codec A) `{!CodecOk k} a b :
  c_wf k a -> c_wf k b -> c_put k a = c_put k b -> a = b.
Proof.
  intros Ha Hb H. pose proof (get_put a [] Ha) as Ga. pose proof (get_put b [] Hb) as Gb.
  rewrite H in Ga. congruence.
Qed.

(** ** Integers in memory and byte-order conversion *)

(** The bytes of an [n]-byte unsigned integer on the host. *)
Definition mem (be : bool) (n : nat) (z : Z) : bytes :=
  if be then rev (le_split n z) else le_split n z.

Definition of_mem (be : bool) (bs : bytes) : Z :=
  le_combine (if be then rev bs else bs).

Definition uint (be : bool) (n : nat) : codec Z :=
  Codec n (fun z => 0 <= z < 2 ^ (Z.of_nat n * 8)) (mem be n)
    (fun bs => (of_mem be (take n bs), drop n bs)).

Definition bswap (n : nat) (z : Z) : Z := le_combine (rev (le_split n z)).

(** [htole32], [htole64], [cpu_to_le32] and their inverses [le32_to_cpu],
    [le64_to_cpu]: byte swaps on a big-endian host, the identity otherwise. *)
Definition htole (be : bool) (n : nat) (z : Z) : Z := if be then bswap n z else z.
Definition le_to_cpu (be : bool) (n : nat) (z : Z) : Z := if be then bswap n z else z.

Lemma length_mem be n z : length (mem be n z) = n.
Proof. unfold mem. destruct be; by rewrite ?length_rev, length_le_split. Qed.

Lemma of_mem_mem be n z : 0 <= z < 2 ^ (Z.of_nat n * 8) -> of_mem be (mem be n z) = z.
Proof.
  intros Hz. unfold of_mem, mem. destruct be; rewrite ?rev_involutive, le_combine_split;
    by apply Z.mod_small.
Qed.

#[global] Instance uint_ok be n : CodecOk (uint be n).
Proof.
  split; simpl.
  - intros z _. apply length_mem.
  - intros z rest Hz. rewrite take_app_length', drop_app_length' by (by rewrite length_mem).
    by rewrite of_mem_mem.
Qed.

Lemma bswap_bound n z : 0 <= bswap n z < 2 ^ (Z.of_nat n * 8).
Proof.
  unfold bswap. pose proof (le_combine_bound (rev (le_split n z))) as H.
  rewrite length_rev, length_le_split in H. by rewrite Z.mul_comm.
Qed.

Lemma le_split_bswap n z : le_split n (bswap n z) = rev (le_split n z).
Proof. unfold bswap. apply split_le_combine'. by rewrite length_rev, length_le_split. Qed.

Lemma bswap_bswap n z : 0 <= z < 2 ^ (Z.of_nat n * 8) -> bswap n (bswap n z) = z.
Proof.
  intros Hz. unfold bswap at 1. rewrite le_split_bswap, rev_involutive, le_combine_split.
  by apply Z.mod_small.
Qed.

(** The bytes of an encoded integer do not depend on the host. *)
Lemma mem_htole be n z : mem be n (htole be n z) = le_split n z.
Proof. unfold mem, htole. destruct be; [|done]. by rewrite le_split_bswap, rev_involutive. Qed.

Lemma le_to_cpu_htole be n z :
  0 <= z < 2 ^ (Z.of_nat n * 8) -> le_to_cpu be n (htole be n z) = z.
Proof. unfold le_to_cpu, htole. destruct be; [apply bswap_bswap|done]. Qed.

Lemma htole_bound be n z :
  0 <= z < 2 ^ (Z.of_nat n * 8) -> 0 <= htole be n z < 2 ^ (Z.of_nat n * 8).
Proof. unfold htole. destruct be; [intros; apply bswap_bound|done]. Qed.

(** ** The structures of the policy interface *)

Section Layouts.
Variable be : bool.

Definition config_codec : codec bpfima_policy_config :=
  iso (fun p => (cfg_enabled p, (cfg_filter_flags p, (cfg_action_flags p, (cfg_min_file_size p,
         (cfg_max_path_depth p, (cfg_log_level p, (cfg_merkle_history_max_size p,
         (cfg_merkle_history_scope p, cfg_reserved p)))))))))
    (fun '(a, (b, (c, (d, (e, (f, (g, (h, i)))))))) => PolicyConfig a b c d e f g h i)
    (padded 3 (uint be 1) ⊗ uint be 4 ⊗ uint be 4 ⊗ uint be 4 ⊗ uint be 4 ⊗ uint be 4 ⊗
     uint be 4 ⊗ padded 3 (uint be 1) ⊗ uint be 4).

Definition pattern_codec : codec bpfima_pattern_entry :=
  iso (fun e => (pat_pattern e, (pat_enabled e, (pat_match_type e, pat_reserved e))))
    (fun '(a, (b, (c, d))) => PatternEntry a b c d)
    (chars MAX_PATTERN_LEN ⊗ uint be 1 ⊗ uint be 1 ⊗ uint be 2).

Definition hook_codec : codec bpfima_hook_config :=
  iso (fun h => (hk_flags h, (hk_filter_override h, (hk_action_override h, hk_reserved h))))
    (fun '(a, (b, (c, d))) => HookConfig a b c d)
    (uint be 4 ⊗ uint be 4 ⊗ uint be 4 ⊗ uint be 4).

Definition snapshot_codec : codec bpfima_policy_snapshot :=
  iso (fun s => (sn_config s, (sn_cgroups s, (sn_paths s, sn_hooks s))))
    (fun '(a, (b, (c, d))) => PolicySnapshot a b c d)
    (config_codec ⊗ array MAX_IGNORE_PATTERNS pattern_codec ⊗
     array MAX_PATH_FILTERS pattern_codec ⊗ array HOOK_MAX hook_codec).

Definition record_codec : codec bpfima_policy_record :=
  iso (fun r => (rec_namespace_id r, rec_snapshot r)) (fun '(a, b) => PolicyRecord a b)
    (chars BPFIMA_NAMESPACE_SIZE ⊗ snapshot_codec).

Definition state_codec : codec bpfima_policy_state :=
  iso (fun s => (st_generation s, (st_namespace_count s, (st_reserved s, st_records s))))
    (fun '(a, (b, (c, d))) => PolicyState a b c d)
    (padded 4 (uint be 8 ⊗ uint be 4 ⊗ uint be 4 ⊗
     array (BPFIMA_POLICY_NAMESPACES + 1) record_codec)).

Definition request_codec : codec bpfima_policy_request :=
  iso (fun q => (rq_version q, (rq_reserved q, (rq_expected_generation q, rq_record q))))
    (fun '(a, (b, (c, d))) => PolicyRequest a b c d)
    (padded 4 (uint be 4 ⊗ uint be 4 ⊗ uint be 8 ⊗ record_codec)).

#[global] Instance config_codec_ok : CodecOk config_codec.
Proof. apply iso_ok; [by intros []|apply _]. Qed.
#[global] Instance pattern_codec_ok : CodecOk pattern_codec.
Proof. apply iso_ok; [by intros []|apply _]. Qed.
#[global] Instance hook_codec_ok : CodecOk hook_codec.
Proof. apply iso_ok; [by intros []|apply _]. Qed.
#[global] Instance snapshot_codec_ok : CodecOk snapshot_codec.
Proof. apply iso_ok; [by intros []|apply _]. Qed.
#[global] Instance record_codec_ok : CodecOk record_codec.
Proof. apply iso_ok; [by intros []|apply _]. Qed.
#[global] Instance state_codec_ok : CodecOk state_codec.
Proof. apply iso_ok; [by intros []|apply _]. Qed.
#[global] Instance request_codec_ok : CodecOk request_codec.
Proof. apply iso_ok; [by intros []|apply _]. Qed.

Lemma config_codec_wf p : c_wf config_codec p <-> wf_config p.
Proof. unfold wf_config, is_u8, is_u32; cbn. tauto. Qed.
Lemma pattern_codec_wf e : c_wf pattern_codec e <-> wf_pattern e.
Proof. unfold wf_pattern, is_u8, is_u16; cbn. tauto. Qed.
Lemma hook_codec_wf h : c_wf hook_codec h <-> wf_hook h.
Proof. unfold wf_hook, is_u32; cbn. tauto. Qed.

Lemma snapshot_codec_wf s : c_wf snapshot_codec s <-> wf_snapshot s.
Proof.
  cbn [c_wf snapshot_codec iso pair_codec array fst snd].
  rewrite config_codec_wf, !(Forall_iff _ _ _ pattern_codec_wf), (Forall_iff _ _ _ hook_codec_wf).
  split; [by intros (? & (? & ?) & (? & ?) & ? & ?)|by intros []].
Qed.

Lemma record_codec_wf r : c_wf record_codec r <-> wf_record r.
Proof.
  unfold wf_record. rewrite <- snapshot_codec_wf. done.
Qed.

Lemma request_codec_wf q : c_wf request_codec q <-> wf_request q.
Proof.
  cbn [c_wf request_codec iso padded pair_codec fst snd]. rewrite record_codec_wf.
  cbn [c_wf uint]. split; [by intros (? & ? & ? & ?)|by intros []].
Qed.
End Layouts.

(** ** Encoding a request and decoding it *)

(** Convert the 32-bit words of a configuration that the sources convert. *)
Definition convert_config (f : Z -> Z) (p : bpfima_policy_config) : bpfima_policy_config :=
  PolicyConfig (cfg_enabled p) (f (cfg_filter_flags p)) (f (cfg_action_flags p))
    (f (cfg_min_file_size p)) (f (cfg_max_path_depth p)) (f (cfg_log_level p))
    (f (cfg_merkle_history_max_size p)) (cfg_merkle_history_scope p) (cfg_reserved p).

Definition convert_hook (f : Z -> Z) (h : bpfima_hook_config) : bpfima_hook_config :=
  HookConfig (f (hk_flags h)) (f (hk_filter_override h)) (f (hk_action_override h)) (hk_reserved h).

Definition convert_record (f : Z -> Z) (r : bpfima_policy_record) : bpfima_policy_record :=
  let s := rec_snapshot r in
  PolicyRecord (rec_namespace_id r)
    (PolicySnapshot (convert_config f (sn_config s)) (sn_cgroups s) (sn_paths s)
       (convert_hook f <$> sn_hooks s)).

(** The request's own [reserved] word is left as it is. *)
Definition bpfima_policy_encode_request (be : bool) (request : bpfima_policy_request)
    : bpfima_policy_request :=
  PolicyRequest (htole be 4 (rq_version request)) (rq_reserved request)
    (htole be 8 (rq_expected_generation request)) (convert_record (htole be 4) (rq_record request)).

(** The conversion in [policy_apply_write]. *)
Definition decode_request (be : bool) (request : bpfima_policy_request) : bpfima_policy_request :=
  PolicyRequest (le_to_cpu be 4 (rq_version request)) (le_to_cpu be 4 (rq_reserved request))
    (le_to_cpu be 8 (rq_expected_generation request)) (convert_record (le_to_cpu be 4) (rq_record request)).

(** The copy that [snapshot_digest] hashes converts the configuration and the
    hook flags; the override words of a normalised hook are zero. *)
Definition wire_record (be : bool) (r : bpfima_policy_record) : bpfima_policy_record :=
  let s := rec_snapshot r in
  PolicyRecord (rec_namespace_id r)
    (PolicySnapshot (convert_config (htole be 4) (sn_config s)) (sn_cgroups s) (sn_paths s)
       ((fun h => HookConfig (htole be 4 (hk_flags h)) (hk_filter_override h)
          (hk_action_override h) (hk_reserved h)) <$> sn_hooks s)).

(** ** Host independence *)

Record reserved_zero (s : bpfima_policy_snapshot) : Prop := ReservedZero {
  rz_config : cfg_reserved (sn_config s) = 0;
  rz_cgroups : Forall (fun e => pat_reserved e = 0) (sn_cgroups s);
  rz_paths : Forall (fun e => pat_reserved e = 0) (sn_paths s);
  rz_hooks : Forall (fun h => hk_reserved h = 0) (sn_hooks s);
}.

Lemma mem_byte be z : mem be 1 z = mem false 1 z.
Proof. by destruct be. Qed.

Lemma mem_zero be n : mem be n 0 = mem false n 0.
Proof.
  unfold mem. destruct be; [|done].
  assert (H : le_split n 0 = repeat x00 n).
  { induction n as [|n IH]; [done|].
    change (le_split (S n) 0) with (x00 :: le_split n (Z.shiftr 0 8)). by rewrite Z.shiftr_0_l, IH. }
  by rewrite H, rev_repeat.
Qed.

Lemma flat_map_Forall {A B} (P : A -> Prop) (f g : A -> list B) l :
  Forall P l -> (forall a, P a -> f a = g a) -> flat_map f l = flat_map g l.
Proof. intros Hl Hfg. induction Hl as [|a l Ha _ IH]; [done|]. simpl. by rewrite IH, Hfg. Qed.

Lemma flat_map_fmap {A B C} (h : A -> B) (f : B -> list C) l :
  flat_map f (h <$> l) = flat_map (fun a => f (h a)) l.
Proof. induction l as [|a l IH]; [done|]. rewrite fmap_cons. cbn [flat_map]. by rewrite IH. Qed.

Lemma config_put_htole be p :
  cfg_reserved p = 0 ->
  c_put (config_codec be) (convert_config (htole be 4) p) = c_put (config_codec false) p.
Proof.
  intros H. cbn [config_codec c_put iso pair_codec padded uint fst snd convert_config cfg_enabled
    cfg_filter_flags cfg_action_flags cfg_min_file_size cfg_max_path_depth cfg_log_level
    cfg_merkle_history_max_size cfg_merkle_history_scope cfg_reserved].
  by rewrite H, !mem_htole, !(mem_byte be), mem_zero.
Qed.

Lemma pattern_put_host be e :
  pat_reserved e = 0 -> c_put (pattern_codec be) e = c_put (pattern_codec false) e.
Proof.
  intros H. cbn [pattern_codec c_put iso pair_codec uint chars fst snd].
  by rewrite H, !(mem_byte be), mem_zero.
Qed.

Lemma hook_put_htole be h :
  hk_reserved h = 0 ->
  c_put (hook_codec be) (convert_hook (htole be 4) h) = c_put (hook_codec false) h.
Proof.
  intros H. cbn [hook_codec c_put iso pair_codec uint fst snd convert_hook hk_flags
    hk_filter_override hk_action_override hk_reserved].
  by rewrite H, !mem_htole, mem_zero.
Qed.

Lemma record_put_htole be r :
  reserved_zero (rec_snapshot r) ->
  c_put (record_codec be) (convert_record (htole be 4) r) = c_put (record_codec false) r.
Proof.
  intros [Hc Hg Hp Hh]. cbn [record_codec snapshot_codec c_put iso pair_codec chars array fst snd
    convert_record rec_namespace_id rec_snapshot sn_config sn_cgroups sn_paths sn_hooks].
  rewrite config_put_htole, flat_map_fmap by done. do 2 f_equal. f_equal; [|f_equal].
  - eapply flat_map_Forall; [exact Hg|apply pattern_put_host].
  - eapply flat_map_Forall; [exact Hp|apply pattern_put_host].
  - eapply flat_map_Forall; [exact Hh|apply hook_put_htole].
Qed.

(** The bytes written to [policy_apply] are the little-endian ones on every host. *)
Lemma request_put_encode be q :
  rq_reserved q = 0 -> reserved_zero (rec_snapshot (rq_record q)) ->
  c_put (request_codec be) (bpfima_policy_encode_request be q) = c_put (request_codec false) q.
Proof.
  intros H Hz. cbn [request_codec c_put iso padded pair_codec uint fst snd
    bpfima_policy_encode_request rq_version rq_reserved rq_expected_generation rq_record].
  by rewrite H, !mem_htole, mem_zero, record_put_htole.
Qed.

Lemma canonical_reserved_zero s : canonical s -> reserved_zero s.
Proof.
  intros (Hc & Hg & Hp & Hh)%normalize_snapshot_inv.
  assert (Hpat : forall l, Forall2 (fun x y => normalize_pattern x = inr y) l l ->
    Forall (fun e => pat_reserved e = 0) l).
  { intros l Hl. apply Forall_lookup. intros i e Hi. eapply Forall2_lookup_lr in Hl; [|exact Hi..].
    apply normalize_pattern_inv in Hl as (_ & _ & _ & _ & ->).
    by destruct (truth _). }
  split; [|by apply Hpat..|].
  - revert Hc. unfold normalize_config. destruct (truth _); [done|]. destruct (_ || _); [done|].
    intros [= Hc]. by rewrite <- Hc.
  - apply Forall_lookup. intros i h Hi. eapply Forall2_lookup_lr in Hh; [|exact Hi..].
    unfold normalize_hook in Hh. destruct (_ || _); [done|]. injection Hh as Hh. by rewrite <- Hh.
Qed.

(** ** Decoding inverts encoding *)

Lemma convert_config_id f g p :
  wf_config p -> (forall z, is_u32 z -> f (g z) = z) ->
  convert_config f (convert_config g p) = p.
Proof.
  intros (? & ? & ? & ? & ? & ? & ? & ? & ?) Hfg. destruct p; unfold convert_config; simpl in *.
  by rewrite !Hfg.
Qed.

Lemma convert_record_id f g r :
  wf_record r -> (forall z, is_u32 z -> f (g z) = z) ->
  convert_record f (convert_record g r) = r.
Proof.
  intros [_ Hs] Hfg. destruct r as [id s], s as [p cg pa hs]. unfold convert_record; simpl.
  rewrite convert_config_id by (done || apply (wf_sn_config _ Hs)). do 2 f_equal.
  rewrite <- list_fmap_compose. pose proof (wf_sn_hooks _ Hs) as Hh; simpl in Hh.
  rewrite <- (list_fmap_id hs) at 2. apply list_fmap_ext. intros i h Hi.
  rewrite Forall_lookup in Hh. apply Hh in Hi as (? & ? & ? & ?).
  destruct h; unfold convert_hook; simpl in *. by rewrite !Hfg.
Qed.

Lemma decode_encode be q :
  wf_request q -> rq_reserved q = 0 -> decode_request be (bpfima_policy_encode_request be q) = q.
Proof.
  intros [Hv _ Hg Hr] H0. destruct q as [v rsv g r]; simpl in *. subst rsv.
  unfold decode_request, bpfima_policy_encode_request; simpl.
  rewrite !le_to_cpu_htole by done. rewrite convert_record_id; [|done|].
  - f_equal. unfold le_to_cpu. by destruct be.
  - intros z Hz. by apply le_to_cpu_htole.
Qed.

Lemma convert_record_wf be r : wf_record r -> wf_record (convert_record (htole be 4) r).
Proof.
  intros [Hn [Hc ? ? ? ? ? Hh]]. split; [done|]. split; cbn; try done.
  - destruct Hc as (? & ? & ? & ? & ? & ? & ? & ? & ?). unfold wf_config; cbn.
    split_and!; try done; by apply (htole_bound be 4).
  - by rewrite length_fmap.
  - apply Forall_fmap. eapply Forall_impl; [exact Hh|]. intros h (? & ? & ? & ?).
    unfold wf_hook; cbn. split_and!; try done; by apply (htole_bound be 4).
Qed.

Lemma encode_wf be q : wf_request q -> wf_request (bpfima_policy_encode_request be q).
Proof.
  intros [Hv ? Hg Hr]. split; cbn.
  - by apply (htole_bound be 4).
  - done.
  - by apply (htole_bound be 8).
  - by apply convert_record_wf.
Qed.

(** ** Decoding any bytes *)

(** Enough bytes always decode to a well-formed value. *)
Class CodecTotal {A} (k : codec A) : Prop :=
  get_total : forall bs, (c_size k <= length bs)%nat -> c_wf k (c_get k bs).1 /\ (c_get k bs).2 = drop (c_size k) bs.

#[global] Instance chars_total n : CodecTotal (chars n).
Proof. intros bs Hl. cbn in *. split; [by rewrite length_take_le|done]. Qed.

#[global] Instance uint_total be n : CodecTotal (uint be n).
Proof.
  intros bs Hl. cbn in *. split; [|done]. unfold of_mem. pose proof (le_combine_bound (if be then rev (take n bs) else take n bs)) as Hb.
  assert (Hn : length (if be then rev (take n bs) else take n bs) = n) by (destruct be; rewrite ?length_rev; by apply length_take_le).
  rewrite Hn in Hb. by rewrite Z.mul_comm.
Qed.

#[global] Instance padded_total {A} n (k : codec A) : CodecTotal k -> CodecTotal (padded n k).
Proof.
  intros Hk bs Hl. cbn in *. destruct (Hk bs) as [Hw Hd]; [lia|]. destruct (c_get k bs) as [a rest]. cbn in *.
  split; [done|]. by rewrite Hd, drop_drop.
Qed.

#[global] Instance pair_total {A B} (ka : codec A) (kb : codec B) : CodecTotal ka -> CodecTotal kb -> CodecTotal (ka ⊗ kb).
Proof.
  intros Ha Hb bs Hl. cbn in *. destruct (Ha bs) as [Hw Hd]; [lia|]. destruct (c_get ka bs) as [a rest]. cbn in *. subst rest.
  destruct (Hb (drop (c_size ka) bs)) as [Hw' Hd']; [rewrite length_drop; lia|].
  destruct (c_get kb (drop (c_size ka) bs)) as [b rest]. cbn in *. split; [done|]. by rewrite Hd', drop_drop.
Qed.

#[global] Instance array_total {A} n (k : codec A) : CodecTotal k -> CodecTotal (array n k).
Proof.
  intros Hk bs. cbn. revert bs. induction n as [|n IH]; intros bs Hl; cbn in *; [done|].
  destruct (Hk bs) as [Hw Hd]; [lia|]. destruct (c_get k bs) as [a rest]. cbn in *. subst rest.
  destruct (IH (drop (c_size k) bs)) as [[Hn Hf] Hd]; [rewrite length_drop; lia|].
  destruct (get_array k n (drop (c_size k) bs)) as [l rest]. cbn in *. split; [split; [by rewrite Hn|by constructor]|].
  by rewrite Hd, drop_drop.
Qed.

Lemma iso_total {A B} (f : B -> A) (g : A -> B) (k : codec A) : (forall a, f (g a) = a) -> CodecTotal k -> CodecTotal (iso f g k).
Proof.
  intros Hfg Hk bs Hl. cbn in *. destruct (Hk bs Hl) as [Hw Hd]. destruct (c_get k bs) as [a rest]. cbn in *. by rewrite Hfg.
Qed.

#[global] Instance request_codec_total be : CodecTotal (request_codec be).
Proof.
  assert (CodecTotal (config_codec be)) by (apply iso_total; [by intros (?&?&?&?&?&?&?&?&?)|apply _]).
  assert (CodecTotal (pattern_codec be)) by (apply iso_total; [by intros (?&?&?&?)|apply _]).
  assert (CodecTotal (hook_codec be)) by (apply iso_total; [by intros (?&?&?&?)|apply _]).
  assert (CodecTotal (snapshot_codec be)) by (apply iso_total; [by intros (?&?&?&?)|apply _]).
  assert (CodecTotal (record_codec be)) by (apply iso_total; [by intros (?&?)|apply _]).
  apply iso_total; [by intros (?&?&?&?)|apply _].
Qed.

(** Whatever is written, the decoded request has the widths of the structure. *)
Lemma decode_wf be bs :
  length bs = 1400%nat -> wf_request (decode_request be (c_get (request_codec be) bs).1).
Proof.
  intros Hl. destruct (get_total (k := request_codec be) bs) as [Hw _]; [by rewrite Hl|]. apply request_codec_wf in Hw.
  destruct Hw as [Hv Hr Hg Hrec]. split; cbn.
  - by apply (htole_bound be 4).
  - by apply (htole_bound be 4).
  - by apply (htole_bound be 8).
  - by apply (convert_record_wf be).
Qed.

(** ** Theorems *)

Lemma htole_zero be n : htole be n 0 = 0.
Proof.
  unfold htole. destruct be; [|done]. unfold bswap.
  pose proof (mem_zero true n) as H. unfold mem in H. by rewrite H, le_combine_split, Z.mod_0_l by lia.
Qed.

(** On a normalised record the hashed copy is the wire encoding. *)
Lemma wire_record_canonical be r :
  canonical (rec_snapshot r) -> wire_record be r = convert_record (htole be 4) r.
Proof.
  intros (_ & _ & _ & Hh)%normalize_snapshot_inv. unfold wire_record, convert_record. do 2 f_equal.
  apply list_fmap_ext. intros i h Hi. eapply Forall2_lookup_lr in Hh; [|exact Hi..].
  unfold normalize_hook in Hh. destruct (_ || _); [done|]. injection Hh as Hh. rewrite <- Hh.
  unfold convert_hook; cbn. by rewrite htole_zero.
Qed.

(** Encoding on one host and decoding on another. *)
Lemma request_roundtrip be be' q :
  wf_request q -> rq_reserved q = 0 -> reserved_zero (rec_snapshot (rq_record q)) ->
  let wire := c_put (request_codec be) (bpfima_policy_encode_request be q) in
  length wire = 1400%nat /\
  c_put (request_codec be') (bpfima_policy_encode_request be' q) = wire /\
  decode_request be' (fst (c_get (request_codec be') wire)) = q.
Proof.
  intros Hq H0 Hz wire.
  assert (Hsame : c_put (request_codec be') (bpfima_policy_encode_request be' q) = wire).
  { unfold wire. by rewrite !request_put_encode. }
  assert (Hwf : forall b, c_wf (request_codec b) (bpfima_policy_encode_request b q)).
  { intros b. by apply request_codec_wf, encode_wf. }
  split_and!; [|done|].
  - unfold wire. rewrite put_length by apply Hwf. reflexivity.
  - rewrite <- Hsame, <- (app_nil_r (c_put _ _)), get_put by apply Hwf. by apply decode_encode.
Qed.

(** C32: Policy requests survive the SecurityFS interface between any two
    hosts: the bytes that the encoder of one writes are the 1400 bytes that
    [policy_apply] expects, and the decoder of the other returns exactly the
    request. *)
Theorem policy_request_roundtrip be be' q :
  wf_request q -> rq_reserved q = 0 -> reserved_zero (rec_snapshot (rq_record q)) ->
  let wire := c_put (request_codec be) (bpfima_policy_encode_request be q) in
  length wire = 1400%nat /\
  c_put (request_codec be') (bpfima_policy_encode_request be' q) = wire /\
  decode_request be' (fst (c_get (request_codec be') wire)) = q.
Proof. apply request_roundtrip. Qed.

(** The hashed form of a policy record identifies it: on any hosts, two
    normalised records with the same bytes to hash are the same record, and
    the bytes have the size of the structure. *)
Theorem policy_digest_input_injective be be' r r' :
  wf_record r -> wf_record r' -> canonical (rec_snapshot r) -> canonical (rec_snapshot r') ->
  length (c_put (record_codec be) (wire_record be r)) = 1380%nat /\
  (c_put (record_codec be) (wire_record be r) = c_put (record_codec be') (wire_record be' r') -> r = r').
Proof.
  intros Hr Hr' Cr Cr'. rewrite !wire_record_canonical by done. split.
  - rewrite put_length; [reflexivity|]. by apply record_codec_wf, convert_record_wf.
  - rewrite !record_put_htole by (by apply canonical_reserved_zero).
    apply put_inj; [apply _|by apply record_codec_wf..].
Qed.

Definition default_request : bpfima_policy_request :=
  PolicyRequest BPFIMA_POLICY_VERSION 0 5
    (PolicyRecord (zeros BPFIMA_NAMESPACE_SIZE) bpfima_init_default_snapshot).

Lemma default_request_wf : wf_request default_request.
Proof.
  split; [vm_compute; split; congruence..|]. split; [reflexivity|apply default_snapshot_wf].
Qed.

Lemma policy_request_roundtrip_witness :
  decode_request true (fst (c_get (request_codec true)
    (c_put (request_codec false) (bpfima_policy_encode_request false default_request)))) = default_request.
Proof.
  apply (policy_request_roundtrip false true default_request default_request_wf eq_refl
    (canonical_reserved_zero _ default_snapshot_canonical)).
Defined.

Lemma policy_digest_input_injective_witness :
  length (c_put (record_codec true) (wire_record true (rq_record default_request))) = 1380%nat.
Proof.
  apply (policy_digest_input_injective true false (rq_record default_request) (rq_record default_request)
    (wf_rq_record _ default_request_wf) (wf_rq_record _ default_request_wf)
    default_snapshot_canonical default_snapshot_canonical).
Defined.

(** The sizes of the structures; 33 records and 20 bytes make 45560. *)
Lemma struct_sizes be :
  c_size (config_codec be) = 36%nat /\ c_size (snapshot_codec be) = 1252%nat /\
  c_size (record_codec be) = 1380%nat /\ c_size (request_codec be) = 1400%nat /\
  c_size (state_codec be) = (33 * c_size (record_codec be) + 20)%nat.
Proof.
  split_and!; [reflexivity..|].
  change (c_size (state_codec be)) with (8 + (4 + (4 + 33 * c_size (record_codec be))) + 4)%nat. lia.
Qed.
