(* ===== verification/KfuncBuffer.v ===== *)
(** * Bounded kfunc inputs

    [include/bpfima_kfunc_buffer.h]: copying a verifier-sized string, the
    namespace check, and the preparation of a measurement request.  Pointers
    that the code tests are options ([None] is NULL); output buffers are passed
    in and returned. *)

From S2P Require Import Prelude CString Types.

Definition bpfima_copy_kfunc_string (dest : option bytes) (dest_size : Z)
    (src : option bytes) (src_size : Z) (allow_empty : bool) : Z * option bytes :=
  match dest, src with
  | Some dest, Some src =>
      if (src_size =? 0) || (src_size >? dest_size) then (- EINVAL, Some dest) else
      let dest := blit dest 0 (take (Z.to_nat src_size) src) in
      if negb (memchr dest NUL (Z.to_nat src_size)) then (- EINVAL, Some dest)
      else if negb allow_empty && Byte.eqb (char_at dest 0) NUL then (- EINVAL, Some dest)
      else (0, Some dest)
  | _, _ => (- EINVAL, dest)
  end.

Definition bpfima_validate_namespace (namespace_id : option bytes) : Z :=
  match namespace_id with
  | None => - EINVAL
  | Some id =>
      if Byte.eqb (char_at id 0) NUL || (strcmp id (lit ".") =? 0) || (strcmp id (lit "..") =? 0) ||
        bool_decide (is_Some (strchr id x2f))
      then - EINVAL else 0
  end.

Definition SIZEOF_MEASUREMENT_REQUEST : Z := 904.

(** [additional_data[len] = NUL] on the copied request. *)
Definition terminate_data (r : bpfima_measurement_request) : bpfima_measurement_request :=
  MeasurementRequest (mr_event_name r) (mr_namespace_id r) (mr_dependencies r)
    (<[Z.to_nat (mr_additional_data_len r) := NUL]> (mr_additional_data r))
    (mr_additional_data_len r) (mr_flags r).

(** [data] is the request the BPF program passes. On success the copied
    request, the filled buffer and [*total_len] are returned. *)
Definition bpfima_prepare_measurement (data : option bpfima_measurement_request) (data_size : Z)
    (concat_data : bytes) (concat_size : Z) : Z + (bpfima_measurement_request * bytes * Z) :=
  match data with
  | None => inl (- EINVAL)
  | Some request =>
      if negb (data_size =? SIZEOF_MEASUREMENT_REQUEST) then inl (- EINVAL) else
      let has_deps := truth (Z.land (mr_flags request) BPFIMA_MEASUREMENT_HAS_DEPENDENCIES) in
      if negb (memchr (mr_event_name request) NUL BPFIMA_EVENT_NAME_SIZE) ||
        Byte.eqb (char_at (mr_event_name request) 0) NUL ||
        negb (memchr (mr_namespace_id request) NUL BPFIMA_NAMESPACE_SIZE) ||
        negb (memchr (mr_dependencies request) NUL BPFIMA_DEPENDENCIES_SIZE) ||
        (mr_additional_data_len request >=? Z.of_nat BPFIMA_EVENT_DATA_SIZE) ||
        truth (Z.land (mr_flags request) (not_u32 BPFIMA_MEASUREMENT_HAS_DEPENDENCIES))
      then inl (- EINVAL)
      else if negb (Byte.eqb (char_at (mr_namespace_id request) 0) NUL) &&
        truth (bpfima_validate_namespace (Some (mr_namespace_id request)))
      then inl (- EINVAL)
      else if negb has_deps && negb (Byte.eqb (char_at (mr_dependencies request) 0) NUL)
      then inl (- EINVAL)
      else
        let request := terminate_data request in
        let dependencies_len := Z.of_nat (strlen (mr_dependencies request)) in
        let offset := mr_additional_data_len request in
        if offset >? concat_size then inl (- E2BIG) else
        let concat_data := blit concat_data 0 (take (Z.to_nat offset) (mr_additional_data request)) in
        let sep := truth offset && has_deps in
        if sep && (offset =? concat_size) then inl (- E2BIG) else
        let '(concat_data, offset) :=
          if sep then (<[Z.to_nat offset := x20]> concat_data, offset + 1)
          else (concat_data, offset) in
        if dependencies_len >? concat_size - offset then inl (- E2BIG) else
        let concat_data := blit concat_data (Z.to_nat offset)
          (take (Z.to_nat dependencies_len) (mr_dependencies request)) in
        let offset := offset + dependencies_len in
        if offset =? 0 then inl (- EINVAL) else inr (request, concat_data, offset)
  end.

(** ** Well-formed requests and their payload *)

Record wf_measurement (r : bpfima_measurement_request) : Prop := WfMeasurement {
  wf_mr_event : length (mr_event_name r) = BPFIMA_EVENT_NAME_SIZE;
  wf_mr_ns : length (mr_namespace_id r) = BPFIMA_NAMESPACE_SIZE;
  wf_mr_deps : length (mr_dependencies r) = BPFIMA_DEPENDENCIES_SIZE;
  wf_mr_data : length (mr_additional_data r) = BPFIMA_EVENT_DATA_SIZE;
  wf_mr_len : is_u32 (mr_additional_data_len r);
  wf_mr_flags : is_u32 (mr_flags r);
}.

Definition has_dependencies (r : bpfima_measurement_request) : bool :=
  truth (Z.land (mr_flags r) BPFIMA_MEASUREMENT_HAS_DEPENDENCIES).

(** The bytes that are hashed: the data, a space when there is data and a
    dependency string, and the dependencies. *)
Definition measurement_payload (r : bpfima_measurement_request) : bytes :=
  let data := take (Z.to_nat (mr_additional_data_len r)) (mr_additional_data r) in
  data ++ (if has_dependencies r && negb (bool_decide (data = [])) then [x20] else []) ++
  cstr (mr_dependencies r).

Definition namespace_ok (id : bytes) : Prop :=
  cstr id <> [] /\ cstr id <> lit "." /\ cstr id <> lit ".." /\ x2f ∉ cstr id.

(** The documented input contract of the measurement kfunc. *)
Record measurement_valid (r : bpfima_measurement_request) : Prop := MeasurementValid {
  mv_event_terminated : (strlen (mr_event_name r) < BPFIMA_EVENT_NAME_SIZE)%nat;
  mv_event : cstr (mr_event_name r) <> [];
  mv_ns_terminated : (strlen (mr_namespace_id r) < BPFIMA_NAMESPACE_SIZE)%nat;
  mv_deps_terminated : (strlen (mr_dependencies r) < BPFIMA_DEPENDENCIES_SIZE)%nat;
  mv_len : mr_additional_data_len r < 256;
  mv_flags : mr_flags r = 0 \/ mr_flags r = BPFIMA_MEASUREMENT_HAS_DEPENDENCIES;
  mv_namespace : cstr (mr_namespace_id r) <> [] -> namespace_ok (mr_namespace_id r);
  mv_no_deps : has_dependencies r = false -> cstr (mr_dependencies r) = [];
}.

Lemma validate_namespace_spec id :
  bpfima_validate_namespace (Some id) = 0 <-> namespace_ok id.
Proof.
  unfold bpfima_validate_namespace, namespace_ok. destruct (_ || _) eqn:E.
  - split; [done|]. intros (H1 & H2 & H3 & H4). exfalso. apply not_false_iff_true in E. destruct E.
    rewrite !orb_false_iff, char_at_cstr_nonempty, !strcmp_eqb, !bool_decide_eq_false.
    rewrite strchr_spec by done. done.
  - rewrite !orb_false_iff, char_at_cstr_nonempty, !strcmp_eqb, !bool_decide_eq_false in E.
    rewrite strchr_spec in E by done. split; [|done]. intros _. tauto.
Qed.

Lemma validate_namespace_range id :
  bpfima_validate_namespace id = 0 \/ bpfima_validate_namespace id = - EINVAL.
Proof. destruct id as [id|]; simpl; [|by right]. destruct (_ || _); auto. Qed.

Lemma flags_only_dependencies f :
  is_u32 f -> Z.land f (not_u32 1) = 0 <-> f = 0 \/ f = 1.
Proof.
  intros Hf. rewrite land_not_u32_zero by done. split.
  - intros H. assert (Hd : Z.shiftr f 1 = 0).
    { apply Z.bits_inj'. intros n Hn. rewrite Z.shiftr_spec, Z.testbit_0_l by done.
      apply not_true_is_false. intros Ht. apply H in Ht; [|lia].
      by rewrite (Z.bits_above_log2 1) in Ht by (simpl; lia). }
    rewrite Z.shiftr_div_pow2 in Hd by lia. change (2 ^ 1) with 2 in Hd.
    pose proof (Z.div_mod f 2 ltac:(lia)). pose proof (Z.mod_pos_bound f 2 ltac:(lia)). lia.
  - intros [->| ->] n _; [by rewrite Z.testbit_0_l|done].
Qed.

(** ** When a request is accepted and what is hashed *)

Lemma strlen_lt_memchr b n : length b = n -> memchr b NUL n = true <-> (strlen b < n)%nat.
Proof.
  intros Hl. split; [by intros [? _]%memchr_split|]. intros H. apply memchr_true; lia.
Qed.

Lemma char_at_nil_iff b : Byte.eqb (char_at b 0) NUL = true <-> cstr b = [].
Proof.
  rewrite <- not_false_iff_true, char_at_cstr_nonempty.
  destruct (cstr b); naive_solver.
Qed.

(** The guards of the preparation, before anything is copied. *)
Definition measurement_checked (r : bpfima_measurement_request) : bool :=
  negb (negb (memchr (mr_event_name r) NUL BPFIMA_EVENT_NAME_SIZE) ||
        Byte.eqb (char_at (mr_event_name r) 0) NUL ||
        negb (memchr (mr_namespace_id r) NUL BPFIMA_NAMESPACE_SIZE) ||
        negb (memchr (mr_dependencies r) NUL BPFIMA_DEPENDENCIES_SIZE) ||
        (mr_additional_data_len r >=? Z.of_nat BPFIMA_EVENT_DATA_SIZE) ||
        truth (Z.land (mr_flags r) (not_u32 BPFIMA_MEASUREMENT_HAS_DEPENDENCIES))) &&
  negb (negb (Byte.eqb (char_at (mr_namespace_id r) 0) NUL) &&
        truth (bpfima_validate_namespace (Some (mr_namespace_id r)))) &&
  negb (negb (has_dependencies r) && negb (Byte.eqb (char_at (mr_dependencies r) 0) NUL)).

Lemma measurement_checked_spec r :
  wf_measurement r -> measurement_checked r = true <-> measurement_valid r.
Proof.
  intros [H1 H2 H3 H4 H5 H6]. unfold measurement_checked.
  rewrite !andb_true_iff, !negb_true_iff, !orb_false_iff, !andb_false_iff, !negb_false_iff,
    !char_at_nil_iff, !truth_false, !strlen_lt_memchr, char_at_cstr_nonempty,
    validate_namespace_spec, flags_only_dependencies by done.
  rewrite Z.geb_leb, Z.leb_gt. change (Z.of_nat BPFIMA_EVENT_DATA_SIZE) with 256.
  split.
  - intros [[[[[[[? ?] ?] ?] ?] ?] Hns] Hd]. split; try done.
    + intros Hne. by destruct Hns.
    + intros Hh. destruct Hd as [Hd|Hd]; [congruence|done].
  - intros []. split_and!; try done.
    + destruct (decide (cstr (mr_namespace_id r) = [])); [by left|right; auto].
    + destruct (has_dependencies r) eqn:E; [by left|right; auto].
Qed.

Lemma prepare_unchecked r size buf n :
  measurement_checked r = false -> bpfima_prepare_measurement (Some r) size buf n = inl (- EINVAL).
Proof.
  unfold measurement_checked, bpfima_prepare_measurement. fold (has_dependencies r).
  intros H. rewrite !andb_false_iff, !negb_false_iff in H.
  destruct (negb (size =? SIZEOF_MEASUREMENT_REQUEST)); [done|]. cbv zeta.
  destruct H as [[->|H]|H]; [done|..]; (destruct (_ || truth (Z.land _ _)); [done|]).
  - by rewrite H.
  - rewrite H. by destruct (_ && truth _).
Qed.

(** The bytes before the copied dependency string. *)
Definition payload_head (r : bpfima_measurement_request) : bytes :=
  let data := take (Z.to_nat (mr_additional_data_len r)) (mr_additional_data r) in
  data ++ (if has_dependencies r && negb (bool_decide (data = [])) then [x20] else []).

Lemma payload_head_length r :
  wf_measurement r -> mr_additional_data_len r < 256 ->
  Z.of_nat (length (payload_head r)) = mr_additional_data_len r +
    (if truth (mr_additional_data_len r) && has_dependencies r then 1 else 0).
Proof.
  intros [_ _ _ H4 [H5 _] _] Hlt. unfold payload_head.
  assert (Hl : length (take (Z.to_nat (mr_additional_data_len r)) (mr_additional_data r)) =
    Z.to_nat (mr_additional_data_len r)).
  { rewrite length_take, H4. unfold BPFIMA_EVENT_DATA_SIZE. lia. }
  rewrite length_app, Hl. rewrite andb_comm. rewrite Nat2Z.inj_add, Z2Nat.id by lia. f_equal.
  case_bool_decide as E.
  - apply (f_equal length) in E. rewrite Hl in E. simpl in E.
    assert (mr_additional_data_len r = 0) as -> by lia. by destruct (has_dependencies r).
  - destruct (Z.eq_dec (mr_additional_data_len r) 0) as [E0|E0].
    { exfalso. apply E. apply length_zero_iff_nil. rewrite Hl, E0. done. }
    apply truth_true in E0. rewrite E0. by destruct (has_dependencies r).
Qed.

Lemma take_S_insert {A} (l : list A) n x :
  (n < length l)%nat -> take (S n) (<[n := x]> l) = take n l ++ [x].
Proof.
  intros H. rewrite (take_S_r _ _ x) by (by apply list_lookup_insert_eq).
  by rewrite take_insert_ge.
Qed.

(** Copying the data and the separator writes exactly [payload_head]. *)
Lemma head_written r buf :
  wf_measurement r -> mr_additional_data_len r < 256 -> (512 <= length buf)%nat ->
  let buf1 := blit buf 0 (take (Z.to_nat (mr_additional_data_len r))
    (mr_additional_data (terminate_data r))) in
  let buf2 := if truth (mr_additional_data_len r) && has_dependencies r
    then <[Z.to_nat (mr_additional_data_len r) := x20]> buf1 else buf1 in
  take (length (payload_head r)) buf2 = payload_head r /\ length buf2 = length buf.
Proof.
  intros Hwf Hlt Hbuf. pose proof (payload_head_length r Hwf Hlt) as Hl.
  destruct Hwf as [_ _ _ H4 [H5 _] _]. cbn [terminate_data mr_additional_data].
  rewrite take_insert_ge by lia.
  set (data := take (Z.to_nat (mr_additional_data_len r)) (mr_additional_data r)).
  assert (Hd : length data = Z.to_nat (mr_additional_data_len r)).
  { unfold data. rewrite length_take, H4. unfold BPFIMA_EVENT_DATA_SIZE. lia. }
  pose proof (take_blit buf 0 data ltac:(lia)) as Ht. rewrite Nat.add_0_l, Hd in Ht.
  cbv zeta. unfold payload_head in *. fold data. fold data in Hl.
  destruct (truth (mr_additional_data_len r) && has_dependencies r) eqn:E.
  - apply andb_true_iff in E as [E1 E2]. rewrite E2. case_bool_decide as En.
    { exfalso. apply truth_true in E1. rewrite En in Hd. simpl in Hd. lia. }
    cbn [negb andb]. rewrite length_app, Hd, Nat.add_1_r.
    rewrite take_S_insert, Ht, length_insert, length_blit; rewrite ?length_blit; lia || done.
  - replace (length _) with (length data) by lia. rewrite Hd, Ht, length_blit by lia. simpl.
    split; [|done]. destruct (has_dependencies r); [|by rewrite app_nil_r].
    rewrite andb_true_r in E. apply truth_false in E. rewrite E in Hd.
    apply length_zero_iff_nil in Hd. by rewrite Hd.
Qed.

Lemma take_blit_app buf head tail :
  take (length head) buf = head -> (length head + length tail <= length buf)%nat ->
  take (length (head ++ tail)) (blit buf (length head) tail) = head ++ tail.
Proof. intros H Hl. rewrite length_app, take_blit, H by lia. done. Qed.

Lemma prepare_checked r buf :
  wf_measurement r -> length buf = 512%nat -> measurement_checked r = true ->
  exists buf',
    bpfima_prepare_measurement (Some r) SIZEOF_MEASUREMENT_REQUEST buf 512 =
      (if Z.of_nat (length (measurement_payload r)) =? 0 then inl (- EINVAL)
       else inr (terminate_data r, buf', Z.of_nat (length (measurement_payload r)))) /\
    take (length (measurement_payload r)) buf' = measurement_payload r /\
    length buf' = 512%nat /\ (length (measurement_payload r) <= 511)%nat.
Proof.
  intros Hwf Hbuf Hc. pose proof (proj1 (measurement_checked_spec r Hwf) Hc) as [_ _ _ Hdeps Hlt _ _ _].
  pose proof (payload_head_length r Hwf Hlt) as Hl.
  destruct (head_written r buf Hwf Hlt ltac:(lia)) as [Hw Hwl].
  assert (Hp : measurement_payload r = payload_head r ++ cstr (mr_dependencies r)).
  { unfold measurement_payload, payload_head. by rewrite app_assoc. }
  pose proof (wf_mr_len r Hwf) as [H0 _]. unfold BPFIMA_DEPENDENCIES_SIZE, strlen in Hdeps.
  unfold measurement_checked in Hc. rewrite !andb_true_iff, !negb_true_iff in Hc.
  destruct Hc as [[Hc1 Hc2] Hc3].
  unfold bpfima_prepare_measurement. fold (has_dependencies r). rewrite Z.eqb_refl. cbv zeta.
  rewrite Hc1, Hc2, Hc3.
  cbn [negb mr_additional_data_len terminate_data mr_dependencies mr_additional_data].
  destruct (Z.gtb_spec (mr_additional_data_len r) 512); [lia|].
  destruct (Z.eqb_spec (mr_additional_data_len r) 512); [lia|]. rewrite andb_false_r.
  cbv zeta in Hw, Hwl. cbn [terminate_data mr_additional_data] in Hw, Hwl.
  set (buf2 := if truth _ && _ then _ else _) in Hw, Hwl.
  assert (Hpair : (if truth (mr_additional_data_len r) && has_dependencies r
     then (<[Z.to_nat (mr_additional_data_len r):=x20]>
        (blit buf 0 (take (Z.to_nat (mr_additional_data_len r)) (mr_additional_data (terminate_data r)))),
        mr_additional_data_len r + 1)
     else (blit buf 0 (take (Z.to_nat (mr_additional_data_len r)) (mr_additional_data (terminate_data r))),
        mr_additional_data_len r)) = (buf2, Z.of_nat (length (payload_head r)))).
  { rewrite Hl. subst buf2. destruct (truth (mr_additional_data_len r) && has_dependencies r); [done|].
    by rewrite Z.add_0_r. }
  cbn [terminate_data mr_additional_data] in Hpair. rewrite Hpair. clear Hpair. clearbody buf2.
  assert (length (payload_head r) <= 256)%nat.
  { revert Hl. destruct (truth (mr_additional_data_len r) && has_dependencies r); lia. }
  destruct (Z.gtb_spec (Z.of_nat (strlen (mr_dependencies r)))
    (512 - Z.of_nat (length (payload_head r)))); [unfold strlen in *; lia|].
  rewrite !Nat2Z.id, cstr_take_strlen. unfold strlen. rewrite <- Nat2Z.inj_add, <- length_app, <- Hp.
  eexists. split; [done|]. rewrite Hp, take_blit_app, length_blit by (done || lia).
  rewrite length_app. split_and!; [done|lia|lia].
Qed.

(** The two outcomes of the preparation. *)
Lemma prepare_cases r buf :
  wf_measurement r -> length buf = 512%nat ->
  (measurement_valid r /\ measurement_payload r <> [] ->
   exists buf',
     bpfima_prepare_measurement (Some r) SIZEOF_MEASUREMENT_REQUEST buf 512 =
       inr (terminate_data r, buf', Z.of_nat (length (measurement_payload r))) /\
     take (length (measurement_payload r)) buf' = measurement_payload r /\
     length buf' = 512%nat /\ (length (measurement_payload r) <= 511)%nat) /\
  (~ (measurement_valid r /\ measurement_payload r <> []) ->
   bpfima_prepare_measurement (Some r) SIZEOF_MEASUREMENT_REQUEST buf 512 = inl (- EINVAL)).
Proof.
  intros Hwf Hbuf. rewrite <- measurement_checked_spec by done.
  destruct (measurement_checked r) eqn:Hc.
  - destruct (prepare_checked r buf Hwf Hbuf Hc) as (buf' & -> & Ht & Hl & Hle).
    destruct (Z.eqb_spec (Z.of_nat (length (measurement_payload r))) 0) as [E|E].
    + assert (measurement_payload r = []) as -> by (apply length_zero_iff_nil; lia).
      split; [by intros [_ ?]|done].
    + assert (measurement_payload r <> []) by (intros E'; rewrite E' in E; done).
      split; [eauto 10|]. intros Hn. destruct Hn. done.
  - split; [by intros [? _]|]. intros _. by apply prepare_unchecked.
Qed.

(** The measurement request is accepted exactly when it meets the input
    contract. A well-formed request that satisfies [measurement_valid] and has
    something to hash is prepared: the bytes written are the data, a space and
    the dependency string, never more than 511 bytes of the 512-byte buffer;
    every other request is rejected with [-EINVAL]. *)
Theorem prepare_measurement_contract r buf :
  wf_measurement r -> length buf = 512%nat ->
  (measurement_valid r /\ measurement_payload r <> [] ->
   exists buf',
     bpfima_prepare_measurement (Some r) SIZEOF_MEASUREMENT_REQUEST buf 512 =
       inr (terminate_data r, buf', Z.of_nat (length (measurement_payload r))) /\
     take (length (measurement_payload r)) buf' = measurement_payload r /\
     length buf' = 512%nat /\ (length (measurement_payload r) <= 511)%nat) /\
  (~ (measurement_valid r /\ measurement_payload r <> []) ->
   bpfima_prepare_measurement (Some r) SIZEOF_MEASUREMENT_REQUEST buf 512 = inl (- EINVAL)).
Proof. apply prepare_cases. Qed.

Definition sample_measurement : bpfima_measurement_request :=
  MeasurementRequest (strscpy (zeros 256) (lit "exec") 256) (zeros 128)
    (strscpy (zeros 256) (lit "dep") 256) (strscpy (zeros 256) (lit "data") 256) 4 1.

Lemma sample_measurement_wf : wf_measurement sample_measurement.
Proof. by split. Qed.

Lemma prepare_measurement_contract_witness :
  exists buf',
    bpfima_prepare_measurement (Some sample_measurement) SIZEOF_MEASUREMENT_REQUEST (zeros 512) 512 =
      inr (terminate_data sample_measurement, buf', 8) /\
    take 8 buf' = lit "data dep".
Proof.
  destruct (prepare_measurement_contract sample_measurement (zeros 512)) as [H _];
    [apply sample_measurement_wf|reflexivity|].
  destruct H as (buf' & H1 & H2 & _).
  - split; [|done]. apply measurement_checked_spec; [apply sample_measurement_wf|reflexivity].
  - exists buf'. split; [exact H1|exact H2].
Defined.

(** ** Copying a bounded string *)

Lemma memchr_take b n m : (n <= m)%nat -> memchr (take m b) NUL n = memchr b NUL n.
Proof. intros Hm. unfold memchr. by rewrite take_take, Nat.min_l. Qed.

Lemma cstr_take_terminated b n : memchr b NUL n = true -> cstr (take n b) = cstr b.
Proof.
  revert n. induction b as [|e b IH]; intros [|n]; try done. unfold memchr. cbn [take existsb cstr].
  rewrite orb_true_iff. intros H. destruct (byte_eqb_spec e NUL) as [|He]; [done|].
  rewrite IH; [done|]. destruct H as [H|H]; [|done].
  destruct (byte_eqb_spec NUL e); congruence.
Qed.

(** The copy succeeds exactly on a terminated (and, unless allowed, non-empty)
    source that fits; the destination then holds the source string. *)
Lemma copy_kfunc_string_spec dest src n allow_empty dest' :
  0 <= n <= Z.of_nat (length src) ->
  bpfima_copy_kfunc_string (Some dest) (Z.of_nat (length dest)) (Some src) n allow_empty =
    (0, Some dest') <->
  0 < n <= Z.of_nat (length dest) /\ memchr src NUL (Z.to_nat n) = true /\
  (allow_empty = true \/ cstr src <> []) /\ dest' = blit dest 0 (take (Z.to_nat n) src).
Proof.
  intros Hn. unfold bpfima_copy_kfunc_string.
  destruct (Z.eqb_spec n 0) as [->|Hn0]; [split; [done|lia]|].
  destruct (Z.gtb_spec n (Z.of_nat (length dest))); [split; [done|lia]|]. cbn [orb].
  assert (Ht : take (Z.to_nat n) (blit dest 0 (take (Z.to_nat n) src)) = take (Z.to_nat n) src).
  { pose proof (take_blit dest 0 (take (Z.to_nat n) src) ltac:(lia)) as Hb.
    by rewrite length_take, Nat.min_l, Nat.add_0_l in Hb by lia. }
  assert (Hm : memchr (blit dest 0 (take (Z.to_nat n) src)) NUL (Z.to_nat n) = memchr src NUL (Z.to_nat n)).
  { rewrite <- (memchr_take _ _ (Z.to_nat n)), Ht, memchr_take by lia. done. }
  rewrite Hm. destruct (memchr src NUL (Z.to_nat n)) eqn:E; cbn [negb]; [|by split; [|intros (_ & ? & _)]].
  assert (Hc : cstr (blit dest 0 (take (Z.to_nat n) src)) = cstr src).
  { rewrite <- (cstr_take_terminated _ (Z.to_nat n)), Ht by (by rewrite Hm).
    by apply cstr_take_terminated. }
  destruct (Byte.eqb (char_at _ 0) NUL) eqn:Ec.
  - apply char_at_nil_iff in Ec. rewrite Hc in Ec. destruct allow_empty; cbn [negb andb].
    + split; [intros [= <-]; split_and!; (lia || auto)|]. by intros (_ & _ & _ & ->).
    + split; [done|]. intros (_ & _ & [?|?] & _); congruence.
  - apply char_at_cstr_nonempty in Ec. rewrite Hc in Ec. rewrite andb_false_r.
    split; [intros [= <-]; split_and!; (lia || auto)|]. by intros (_ & _ & _ & ->).
Qed.

Lemma copy_kfunc_string_cstr dest src n allow_empty dest' :
  0 <= n <= Z.of_nat (length src) ->
  bpfima_copy_kfunc_string (Some dest) (Z.of_nat (length dest)) (Some src) n allow_empty =
    (0, Some dest') ->
  cstr dest' = cstr src /\ length dest' = length dest.
Proof.
  intros Hn (Hb & Hm & _ & ->)%copy_kfunc_string_spec; [|done].
  pose proof (take_blit dest 0 (take (Z.to_nat n) src)) as Ht.
  rewrite length_take, Nat.min_l, Nat.add_0_l in Ht by lia. specialize (Ht ltac:(lia)). split.
  - rewrite <- (cstr_take_terminated _ (Z.to_nat n)), Ht; [by apply cstr_take_terminated|].
    rewrite <- (memchr_take _ _ (Z.to_nat n)), Ht, take_0 by lia. simpl. by rewrite memchr_take.
  - apply length_blit. rewrite length_take. lia.
Qed.
