(* ===== verification/Kernel.v ===== *)
(** * Kernel state, services and the effect monad

    The mutable state of the module as one record with a part per source file,
    the kernel services the module calls (allocation, the crypto API, the TPM
    driver, securityfs, the map file descriptors) as the class [KernelEnv], and
    a state monad whose computations can fault: [None] is a dereference of a
    NULL, error or freed pointer.  A service that can answer differently on
    every call is a function of a counter that every call advances, so that
    theorems quantify over all its behaviours.  [wp m Q s] says that [m], run
    in [s], does not fault and ends in [Q]. *)

From S2P Require Import Prelude CString Types.
From stdpp Require Export gmap.

Global Open Scope Z_scope.

(** ** Kernel data *)

(** A pointer result: NULL, [ERR_PTR(e)] or a valid pointer. *)
Inductive ptr (A : Type) := PNull | PErr (e : Z) | PVal (a : A).
Arguments PNull {A}.
Arguments PErr {A} _.
Arguments PVal {A} _.

Record measurement_entry := MeasurementEntry {
  en_event_name : bytes;
  en_event_data : bytes;
  en_dependencies : bytes;
  en_digest : bytes;
}.

Record container_node := ContainerNode {
  cn_refcnt : Z;
  cn_id : bytes;
  cn_measurement_list : list measurement_entry;
  cn_tfm : bool;
  cn_leaf_hash : bytes;
  cn_measurement_count : Z;
  cn_securityfs_dir : ptr nat;
  cn_securityfs_measurements_file : ptr nat;
  cn_securityfs_policy_file : ptr nat;
  cn_securityfs_policy_changes_file : ptr nat;
}.

Record merkle_root_entry := MerkleRootEntry {
  me_value : bytes;
  me_source_container_id : bytes;
  me_is_aggregate : bool;
  me_aggregated_count : Z;
}.

Record hash_entry := HashEntry {
  he_sha256_hash : bytes;
  he_namespace_id : bytes;
}.

Record policy_change_entry := PolicyChangeEntry {
  pc_change_hash : bytes;
  pc_policy_string : bytes;
}.

Record bpfima_policy_namespace := PolicyNamespace {
  pn_namespace_id : bytes;
  pn_changes_str : bytes;
  pn_changes_hash : bytes;
  pn_change_history : list policy_change_entry;
}.

(** The fields of [struct bpf_map] that the module reads, the values of the
    array and the reference count behind [bpf_map_get]/[bpf_map_put]. *)
Record bpf_map := BpfMap {
  mp_map_type : Z;
  mp_key_size : Z;
  mp_value_size : Z;
  mp_max_entries : Z;
  mp_map_flags : Z;
  mp_frozen : bool;
  mp_writecnt : Z;
  mp_id : Z;
  mp_refcnt : Z;
  mp_values : list bpfima_policy_state;
}.

(** ** The state of each source file *)

(** [merkle.c]: the commit latch and the two mode flags. *)
Record commit_state := CommitState {
  bpfima_commit_error : Z;
  hardware_anchored : bool;
  software_committed : bool;
}.

(** [merkle.c]: the root and its history. The atomic counter is kept as the
    [u32] its readers use. *)
Record merkle_state := MerkleState {
  root_hash : bytes;
  root_tfm : bool;
  merkle_root_history : list merkle_root_entry;
  merkle_root_history_count : Z;
}.

(** [hash_utils.c]: the transform and the table of committed digests. *)
Record hash_state := HashState {
  sha256_tfm : ptr unit;
  sha256_hash_table : list (list hash_entry);
}.

(** [container.c]: the allocated nodes by address, the published list in
    order, the counter, and the queue of nodes to free. *)
Record container_state := ContainerState {
  container_heap : gmap nat container_node;
  container_list : list nat;
  container_count : Z;
  container_cleanup_wq : option (list nat);
}.

(** [policy_manager.c]: the bound map, the map objects of the kernel by
    address and the audit history of the root policy. *)
Record manager_state := ManagerState {
  policy_map : option nat;
  bpf_maps : list bpf_map;
  global_policy_change_history : list policy_change_entry;
}.

(** The global [struct dentry *] variables of [securityfs_utils.c] and
    [policy_securityfs.c]. *)
Inductive dentry_name :=
  | bpfima_dir | status_file | merkle_root_history_file | containers_dir
  | global_policy_file | policy_map_file | policy_apply_file | global_policy_changes_file.

#[global] Instance dentry_name_eq_dec : EqDecision dentry_name.
Proof. solve_decision. Defined.

(** The securityfs entries that exist and the values of those variables. *)
Record securityfs_state := SecurityfsState {
  live_dentries : list nat;
  dentry_of : dentry_name -> ptr nat;
}.

(** [k_pcr] is the SHA-256 bank of the configured PCR; [k_next] is the number
    of service calls made so far. *)
Record kstate := KState {
  k_next : nat;
  k_pcr : bytes;
  k_commit : commit_state;
  k_merkle : merkle_state;
  k_hash : hash_state;
  k_containers : container_state;
  k_policy : manager_state;
  k_namespaces : list bpfima_policy_namespace;
  k_securityfs : securityfs_state;
}.

Definition set_next (n : nat) (s : kstate) : kstate :=
  KState n (k_pcr s) (k_commit s) (k_merkle s) (k_hash s) (k_containers s) (k_policy s)
    (k_namespaces s) (k_securityfs s).
Definition set_pcr (x : bytes) (s : kstate) : kstate :=
  KState (k_next s) x (k_commit s) (k_merkle s) (k_hash s) (k_containers s) (k_policy s)
    (k_namespaces s) (k_securityfs s).
Definition set_commit (x : commit_state) (s : kstate) : kstate :=
  KState (k_next s) (k_pcr s) x (k_merkle s) (k_hash s) (k_containers s) (k_policy s)
    (k_namespaces s) (k_securityfs s).
Definition set_merkle (x : merkle_state) (s : kstate) : kstate :=
  KState (k_next s) (k_pcr s) (k_commit s) x (k_hash s) (k_containers s) (k_policy s)
    (k_namespaces s) (k_securityfs s).
Definition set_hash (x : hash_state) (s : kstate) : kstate :=
  KState (k_next s) (k_pcr s) (k_commit s) (k_merkle s) x (k_containers s) (k_policy s)
    (k_namespaces s) (k_securityfs s).
Definition set_containers (x : container_state) (s : kstate) : kstate :=
  KState (k_next s) (k_pcr s) (k_commit s) (k_merkle s) (k_hash s) x (k_policy s)
    (k_namespaces s) (k_securityfs s).
Definition set_policy (x : manager_state) (s : kstate) : kstate :=
  KState (k_next s) (k_pcr s) (k_commit s) (k_merkle s) (k_hash s) (k_containers s) x
    (k_namespaces s) (k_securityfs s).
Definition set_namespaces (x : list bpfima_policy_namespace) (s : kstate) : kstate :=
  KState (k_next s) (k_pcr s) (k_commit s) (k_merkle s) (k_hash s) (k_containers s) (k_policy s)
    x (k_securityfs s).
Definition set_securityfs (x : securityfs_state) (s : kstate) : kstate :=
  KState (k_next s) (k_pcr s) (k_commit s) (k_merkle s) (k_hash s) (k_containers s) (k_policy s)
    (k_namespaces s) x.

(** ** Kernel services *)

Definition TPM_ALG_SHA256 : Z := 11.

Class KernelEnv := {
  (** the SHA-256 function of the crypto API *)
  sha256 : bytes -> bytes;
  (** [hash_min(key, 8)]: the bucket of a key in a 256-bucket table *)
  hash_min : Z -> nat;
  (** does the n-th call, an allocation, succeed? *)
  env_alloc : nat -> bool;
  (** return code of a [crypto_shash_*] operation, and of [crypto_alloc_shash] *)
  env_shash : nat -> Z;
  env_shash_alloc : nat -> Z;
  (** [crypto_shash_descsize] of the SHA-256 transform *)
  env_descsize : Z;
  (** [!in_atomic() && !irqs_disabled()] *)
  env_can_sleep : nat -> bool;
  (** [tpm_default_chip()]: the algorithms of the chip's allocated banks *)
  env_chip : nat -> option (list Z);
  (** return code of [tpm_pcr_extend] and whether the TPM executed it *)
  env_pcr_extend : nat -> Z * bool;
  (** return code of [tpm_pcr_read] *)
  env_pcr_read : nat -> Z;
  (** return code of [securityfs_create_dir] and [securityfs_create_file] *)
  env_securityfs : nat -> Z;
  (** return code of [register_btf_kfunc_id_set] *)
  env_register : nat -> Z;
  (** [bpf_map_get(fd)]: the address of the map or an error code *)
  env_map_get : Z -> Z + nat;
  (** does [copy_from_user] copy all bytes? *)
  env_copy_from_user : nat -> bool;
  (** [capable(CAP_SYS_ADMIN)] *)
  env_capable : nat -> bool;
  (** the module parameter [securityfs_policy_writable] *)
  securityfs_policy_writable : bool;
  (** the module parameter [tpm_pcr_index] *)
  bpfima_tpm_pcr_index : Z;
  (** the contents of an uninitialised local array of this size *)
  uninit : nat -> bytes;
  (** is the host big-endian? *)
  big_endian : bool;
}.

(** What the module relies on: SHA-256 digests have 32 bytes, a bucket number
    is below 256, an array has its size, a crypto call returns 0 or a negative
    error, and a TPM command that reports success was executed. *)
Class KernelLaws (E : KernelEnv) : Prop := {
  sha256_length : forall data, length (sha256 data) = MERKLE_HASH_SIZE;
  hash_min_bound : forall key, (hash_min key < 256)%nat;
  uninit_length : forall n, length (uninit n) = n;
  shash_result : forall n, env_shash n <= 0;
  pcr_extend_executed : forall n, fst (env_pcr_extend n) = 0 -> snd (env_pcr_extend n) = true;
}.

(** ** The monad *)

Definition K (A : Type) : Type := kstate -> option (A * kstate).

Definition ret {A} (a : A) : K A := fun s => Some (a, s).
Definition bind {A B} (m : K A) (f : A -> K B) : K B :=
  fun s => match m s with Some (a, s') => f a s' | None => None end.
Definition fault {A} : K A := fun _ => None.
Definition gets {A} (f : kstate -> A) : K A := fun s => Some (f s, s).
Definition modify (f : kstate -> kstate) : K unit := fun s => Some (tt, f s).
(** Read through a pointer: [None] faults. *)
Definition deref {A} (o : option A) : K A := match o with Some a => ret a | None => fault end.

Notation "'let*' x := m 'in' k" := (bind m (fun x => k))
  (at level 10, x pattern, m at level 99, k at level 200) : bpfima_scope.
Notation "m ;; k" := (bind m (fun _ => k))
  (at level 100, k at level 200, right associativity) : bpfima_scope.
Global Open Scope bpfima_scope.

(** Number of this service call. *)
Definition call : K nat := fun s => Some (k_next s, set_next (S (k_next s)) s).

Definition wp {A} (m : K A) (Q : A -> kstate -> Prop) (s : kstate) : Prop :=
  match m s with Some (a, s') => Q a s' | None => False end.

Section Services.
Context {E : KernelEnv}.

(** [kzalloc], [kvmalloc], [kcalloc]: does the allocation succeed? *)
Definition kalloc : K bool := let* n := call in ret (env_alloc n).
Definition can_sleep : K bool := let* n := call in ret (env_can_sleep n).
Definition shash_op : K Z := let* n := call in ret (env_shash n).
Definition tpm_default_chip : K (option (list Z)) := let* n := call in ret (env_chip n).

Definition crypto_alloc_shash : K (ptr unit) :=
  let* n := call in
  ret (if env_shash_alloc n =? 0 then PVal tt else PErr (env_shash_alloc n)).

(** The digest that a command extends into the SHA-256 bank. *)
Definition sha256_digest_of (digests : list (Z * bytes)) : option bytes :=
  snd <$> List.find (fun d => fst d =? TPM_ALG_SHA256) digests.

(** [tpm_pcr_extend]: an executed command replaces the PCR by
    SHA-256(PCR || digest). *)
Definition tpm_pcr_extend (digests : list (Z * bytes)) : K Z :=
  let* n := call in
  let '(rc, executed) := env_pcr_extend n in
  match sha256_digest_of digests with
  | Some d => if executed then modify (fun s => set_pcr (sha256 (k_pcr s ++ d)) s);; ret rc else ret rc
  | None => ret rc
  end.
End Services.

(** ** Rules of [wp] *)

Lemma wp_bind {A B} (m : K A) (f : A -> K B) Q s :
  wp (bind m f) Q s <-> wp m (fun a s' => wp (f a) Q s') s.
Proof. unfold wp, bind. by destruct (m s) as [[a s']|]. Qed.

Lemma wp_bind_assoc {A B C} (m : K A) (f : A -> K B) (k : B -> K C) Q s :
  wp (bind m (fun a => bind (f a) k)) Q s <-> wp (bind (bind m f) k) Q s.
Proof. unfold wp, bind. by destruct (m s) as [[a s']|]. Qed.

Lemma bind_ext {A B} (m : K A) (f g : A -> K B) s :
  (forall a s', f a s' = g a s') -> bind m f s = bind m g s.
Proof. intros H. unfold bind. by destruct (m s) as [[a s']|]. Qed.

Lemma wp_ret {A} (a : A) Q s : wp (ret a) Q s <-> Q a s.
Proof. done. Qed.

Lemma wp_gets {A} (f : kstate -> A) Q s : wp (gets f) Q s <-> Q (f s) s.
Proof. done. Qed.

Lemma wp_modify f Q s : wp (modify f) Q s <-> Q tt (f s).
Proof. done. Qed.

Lemma wp_call Q s : wp call Q s <-> Q (k_next s) (set_next (S (k_next s)) s).
Proof. done. Qed.

Lemma wp_mono {A} (m : K A) (P Q : A -> kstate -> Prop) s :
  wp m P s -> (forall a s', P a s' -> Q a s') -> wp m Q s.
Proof. unfold wp. destruct (m s) as [[a s']|]; eauto. Qed.

Lemma wp_conj {A} (m : K A) (P Q : A -> kstate -> Prop) s :
  wp m P s -> wp m Q s -> wp m (fun a s' => P a s' /\ Q a s') s.
Proof. unfold wp. by destruct (m s) as [[a s']|]. Qed.

Lemma wp_run {A} (m : K A) Q s a s' : m s = Some (a, s') -> wp m Q s -> Q a s'.
Proof. unfold wp. by intros ->. Qed.

Lemma wp_deref {A} (o : option A) Q s : wp (deref o) Q s <-> exists a, o = Some a /\ Q a s.
Proof.
  destruct o as [a|]; unfold wp; simpl.
  - split; [by exists a|]. by intros (? & [= <-] & ?).
  - split; [done|]. by intros (? & ? & ?).
Qed.

(** A service call: any answer, and only the call counter moves. *)
Lemma set_next_set_next n m s : set_next n (set_next m s) = set_next n s.
Proof. done. Qed.

Lemma set_next_eta s : set_next (k_next s) s = s.
Proof. by destruct s. Qed.

Section ServiceRules.
Context {E : KernelEnv}.

Lemma wp_kalloc Q s : (forall b n, Q b (set_next n s)) -> wp kalloc Q s.
Proof. intros H. apply H. Qed.
Lemma wp_can_sleep Q s : (forall b n, Q b (set_next n s)) -> wp can_sleep Q s.
Proof. intros H. apply H. Qed.
Lemma wp_shash_op Q s : (forall rc n, Q rc (set_next n s)) -> wp shash_op Q s.
Proof. intros H. apply H. Qed.
Lemma wp_shash_op_law `{!KernelLaws E} Q s : (forall rc n, rc <= 0 -> Q rc (set_next n s)) -> wp shash_op Q s.
Proof. intros H. apply H, shash_result. Qed.
Lemma wp_default_chip Q s : (forall c n, Q c (set_next n s)) -> wp tpm_default_chip Q s.
Proof. intros H. apply H. Qed.
Lemma wp_alloc_shash Q s : (forall p n, p <> PNull -> Q p (set_next n s)) -> wp crypto_alloc_shash Q s.
Proof. intros H. apply H. by destruct (_ =? 0). Qed.

Lemma wp_alloc_shash_cases Q s :
  (forall n, Q (PVal tt) (set_next n s)) -> (forall e n, e <> 0 -> Q (PErr e) (set_next n s)) ->
  wp crypto_alloc_shash Q s.
Proof.
  intros Hv He. apply wp_bind, wp_call, wp_ret. by destruct (Z.eqb_spec (env_shash_alloc (k_next s)) 0); auto.
Qed.

Lemma wp_pcr_extend {L : KernelLaws E} digests d Q s :
  sha256_digest_of digests = Some d ->
  (forall rc n p, (rc = 0 -> p = sha256 (k_pcr s ++ d)) -> Q rc (set_next n (set_pcr p s))) ->
  wp (tpm_pcr_extend digests) Q s.
Proof.
  intros Hd HQ. unfold tpm_pcr_extend. apply wp_bind, wp_call.
  pose proof (pcr_extend_executed (k_next s)) as Hx.
  destruct (env_pcr_extend (k_next s)) as [rc executed]. rewrite Hd.
  destruct executed; [apply (HQ rc (S (k_next s)) (sha256 (k_pcr s ++ d))); done|].
  apply (HQ rc (S (k_next s)) (k_pcr s)). intros Hrc. by apply Hx in Hrc.
Qed.
End ServiceRules.

(** Step through a computation built from the primitives. *)
Ltac wp_step :=
  lazymatch goal with
  | |- wp (bind _ _) _ _ => apply wp_bind
  | |- wp (ret _) _ _ => apply wp_ret
  | |- wp (gets _) _ _ => apply wp_gets
  | |- wp (modify _) _ _ => apply wp_modify
  | |- wp kalloc _ _ => apply wp_kalloc; intros
  | |- wp can_sleep _ _ => apply wp_can_sleep; intros
  | |- wp shash_op _ _ => apply wp_shash_op; intros
  | |- wp tpm_default_chip _ _ => apply wp_default_chip; intros
  | |- wp (if ?b then _ else _) _ _ => destruct b eqn:?
  | |- wp (match ?o with _ => _ end) _ _ => destruct o eqn:?
  end.
Ltac wp_steps := repeat (wp_step; cbv beta; rewrite ?set_next_set_next).
