(* ===== verification/Sample.v ===== *)
(** * A concrete kernel

    An instance of the kernel services whose every call succeeds, with a small
    checksum in place of SHA-256, and a freshly loaded module. The theorems
    that assume the services' laws are instantiated with it. *)

From S2P Require Import Prelude CString Types Kernel.

Definition checksum (data : bytes) : bytes :=
  replicate MERKLE_HASH_SIZE (to_u8 (foldl (fun acc b => (31 * acc + u8_val b + 7) mod 251) 1 data)).

Definition sample_env (chip : option (list Z)) : KernelEnv := {|
  sha256 := checksum;
  hash_min := fun key => Z.to_nat (key mod 256);
  env_alloc := fun _ => true;
  env_shash := fun _ => 0;
  env_shash_alloc := fun _ => 0;
  env_descsize := 112;
  env_can_sleep := fun _ => true;
  env_chip := fun _ => chip;
  env_pcr_extend := fun _ => (0, true);
  env_pcr_read := fun _ => 0;
  env_securityfs := fun _ => 0;
  env_register := fun _ => 0;
  env_map_get := fun fd => if fd =? 3 then inr 0%nat else inl (- 9);
  env_copy_from_user := fun _ => true;
  env_capable := fun _ => true;
  securityfs_policy_writable := true;
  bpfima_tpm_pcr_index := 23;
  uninit := fun n => replicate n x5a;
  big_endian := false;
|}.

#[global] Instance sample_laws chip : KernelLaws (sample_env chip).
Proof.
  split; cbn.
  - done.
  - intros key. pose proof (Z.mod_pos_bound key 256 ltac:(lia)). lia.
  - intros n. apply length_replicate.
  - done.
  - done.
Qed.

Definition sample_node : container_node :=
  ContainerNode 1 (strscpy (zeros CONTAINER_ID_MAX_LEN) (lit "web") CONTAINER_ID_MAX_LEN) [] true
    (zeros MERKLE_HASH_SIZE) 0 (PVal 1%nat) (PVal 2%nat) (PVal 3%nat) (PVal 4%nat).

(** A policy array map as userspace creates and freezes it. *)
Definition sample_map : bpf_map :=
  BpfMap 2 4 45560 3 BPFIMA_POLICY_MAP_FLAGS true 0 7 1 (replicate 3 zero_state).

(** One container and no policy map bound. *)
Definition sample_state : kstate :=
  KState 0 (zeros MERKLE_HASH_SIZE) (CommitState 0 false false)
    (MerkleState (zeros MERKLE_HASH_SIZE) true [] 0)
    (HashState (PVal tt) (replicate 256 []))
    (ContainerState {[1%nat := sample_node]} [1%nat] 1 (Some []))
    (ManagerState None [sample_map] []) [] (SecurityfsState (seq 0 5) (fun x => if decide (x = containers_dir) then PVal 0%nat else PNull)).

Definition sample_entry (digest : byte) : measurement_entry :=
  MeasurementEntry (strscpy (zeros 256) (lit "exec") 256) (zeros 256) (zeros 256)
    (replicate MERKLE_HASH_SIZE digest).
