(* ===== verification/HashUtils.v ===== *)
(** * Digests and the table of committed digests

    [src/hash_utils.c]. The table of 256 buckets refines a set of pairs of a
    digest and a namespace: lookup is membership, publication is insertion. *)

From S2P Require Import Prelude CString Types Kernel.

#[global] Instance byte_countable : Countable byte.
Proof. apply (inj_countable Byte.to_N Byte.of_N). intros b. apply Byte.of_to_N. Defined.

Definition HASH_TABLE_BITS : Z := 8.

(** [get_unaligned_le32]. *)
Definition get_unaligned_le32 (p : bytes) : Z :=
  u8_val (char_at p 0) + Z.shiftl (u8_val (char_at p 1)) 8 +
  Z.shiftl (u8_val (char_at p 2)) 16 + Z.shiftl (u8_val (char_at p 3)) 24.

(** [memcmp(a, b, n) == 0]. *)
Definition mem_equal (a b : bytes) (n : nat) : bool := bool_decide (take n a = take n b).

Section HashUtils.
Context {E : KernelEnv}.

Definition bpfima_hash_init : K Z :=
  let* tfm := crypto_alloc_shash in
  modify (fun s => set_hash (HashState tfm (sha256_hash_table (k_hash s))) s);;
  match tfm with
  | PErr e => ret e
  | _ => if env_descsize >? 128 then ret (- EINVAL) else ret 0
  end.

(** The transform is passed to [crypto_shash_digest]; an error pointer there
    is a fault. *)
Definition calculate_sha256_hash (data : bytes) (len : nat) : K (Z + bytes) :=
  let* tfm := gets (fun s => sha256_tfm (k_hash s)) in
  match tfm with
  | PNull => ret (inl (- EINVAL))
  | PErr _ => fault
  | PVal _ =>
      let* rc := shash_op in
      ret (if rc =? 0 then inr (sha256 (take len data)) else inl rc)
  end.

Definition hash_bucket (table : list (list hash_entry)) (hash_value : bytes) : list hash_entry :=
  nth (hash_min (get_unaligned_le32 hash_value)) table [].

Definition hash_exists (hash_value : bytes) (namespace_id : option bytes) : K bool :=
  let ns_to_check := default [] namespace_id in
  gets (fun s => existsb (fun entry =>
      mem_equal (he_sha256_hash entry) hash_value MERKLE_HASH_SIZE &&
      (strcmp (he_namespace_id entry) ns_to_check =? 0))
    (hash_bucket (sha256_hash_table (k_hash s)) hash_value)).

Definition bpfima_alloc_hash_entry (hash_value : bytes) (namespace_id : option bytes)
    : K (option hash_entry) :=
  let* ok := kalloc in
  ret (if ok then Some (HashEntry (take MERKLE_HASH_SIZE hash_value)
      (strscpy (zeros CONTAINER_ID_MAX_LEN) (default [] namespace_id) CONTAINER_ID_MAX_LEN))
    else None).

Definition hash_add (table : list (list hash_entry)) (entry : hash_entry) : list (list hash_entry) :=
  alter (cons entry) (hash_min (get_unaligned_le32 (he_sha256_hash entry))) table.

Definition bpfima_publish_hash_entry_locked (entry : hash_entry) : K unit :=
  modify (fun s => set_hash (HashState (sha256_tfm (k_hash s))
    (hash_add (sha256_hash_table (k_hash s)) entry)) s).

Definition cleanup_hash_table : K unit :=
  modify (fun s => set_hash (HashState (sha256_tfm (k_hash s))
    ((fun _ => []) <$> sha256_hash_table (k_hash s))) s).

Definition bpfima_hash_cleanup : K unit :=
  modify (fun s => set_hash (HashState PNull (sha256_hash_table (k_hash s))) s);;
  cleanup_hash_table.

Definition bpfima_extend_hash (tfm : bool) (old_hash new_data : option bytes) : K (Z + bytes) :=
  match tfm, old_hash, new_data with
  | true, Some old_hash, Some new_data =>
      let* rc := shash_op in
      if rc <? 0 then ret (inl rc) else
      let* rc := shash_op in
      if rc <? 0 then ret (inl rc) else
      let* rc := shash_op in
      if rc <? 0 then ret (inl rc) else
      let* rc := shash_op in
      ret (if rc =? 0 then inr (sha256 (take MERKLE_HASH_SIZE old_hash ++ take MERKLE_HASH_SIZE new_data))
           else inl rc)
  | _, _, _ => ret (inl (- EINVAL))
  end.

(** ** The table as a set *)

Definition entry_key (e : hash_entry) : bytes * bytes := (he_sha256_hash e, cstr (he_namespace_id e)).

Definition table_set (table : list (list hash_entry)) : gset (bytes * bytes) :=
  list_to_set (entry_key <$> concat table).

(** Every entry is in the bucket of its digest, there are 256 buckets and
    digests have full length. *)
Record wf_table (table : list (list hash_entry)) : Prop := WfTable {
  wt_buckets : length table = 256%nat;
  wt_entries : forall i bucket e, table !! i = Some bucket -> e ∈ bucket ->
    i = hash_min (get_unaligned_le32 (he_sha256_hash e)) /\
    length (he_sha256_hash e) = MERKLE_HASH_SIZE;
}.

Lemma elem_of_table_set table k :
  k ∈ table_set table <-> exists i bucket e, table !! i = Some bucket /\ e ∈ bucket /\ entry_key e = k.
Proof.
  unfold table_set. rewrite elem_of_list_to_set, list_elem_of_fmap. split.
  - intros (e & -> & He). apply list_elem_of_In, in_concat in He as (b & Hb & He).
    apply list_elem_of_In, list_elem_of_lookup_1 in Hb as [i Hi].
    exists i, b, e. split_and!; [done|by apply list_elem_of_In|done].
  - intros (i & b & e & Hi & He & <-). exists e. split; [done|].
    apply list_elem_of_In, in_concat. exists b. split; apply list_elem_of_In; [|done].
    by eapply list_elem_of_lookup_2.
Qed.

Lemma hash_lookup_member table d ns :
  wf_table table -> length d = MERKLE_HASH_SIZE ->
  existsb (fun e => mem_equal (he_sha256_hash e) d MERKLE_HASH_SIZE &&
                    (strcmp (he_namespace_id e) ns =? 0)) (hash_bucket table d) =
  bool_decide ((d, cstr ns) ∈ table_set table).
Proof.
  intros [Hb Hw] Hd. apply eq_iff_eq_true. rewrite bool_decide_eq_true, elem_of_table_set, existsb_exists.
  unfold hash_bucket, mem_equal.
  setoid_rewrite andb_true_iff. setoid_rewrite bool_decide_eq_true. setoid_rewrite Z.eqb_eq.
  setoid_rewrite strcmp_spec. rewrite (take_ge d) by lia. split.
  - intros (e & Hin & Heq & Hns). destruct (table !! hash_min (get_unaligned_le32 d)) as [b|] eqn:Eb.
    2:{ by rewrite nth_overflow in Hin by (by apply lookup_ge_None). }
    erewrite nth_lookup_Some in Hin by done. apply list_elem_of_In in Hin.
    exists (hash_min (get_unaligned_le32 d)), b, e. split_and!; [done..|]. unfold entry_key.
    destruct (Hw _ _ _ Eb Hin) as [_ Hl]. rewrite take_ge in Heq by lia. by rewrite Heq, Hns.
  - intros (i & b & e & Hi & He & [= Hd' Hns]). destruct (Hw _ _ _ Hi He) as [-> Hl].
    exists e. rewrite <- Hd'. erewrite nth_lookup_Some by done. rewrite take_ge by lia.
    split_and!; [by apply list_elem_of_In|done..].
Qed.
End HashUtils.

Section HashLaws.
Context {E : KernelEnv} {L : KernelLaws E}.

(** What the buckets hold after an insertion. *)
Lemma hash_add_lookup table e i b :
  hash_add table e !! i = Some b <->
  (i <> hash_min (get_unaligned_le32 (he_sha256_hash e)) /\ table !! i = Some b) \/
  (i = hash_min (get_unaligned_le32 (he_sha256_hash e)) /\
   exists b', table !! i = Some b' /\ b = e :: b').
Proof.
  unfold hash_add. destruct (decide (i = hash_min (get_unaligned_le32 (he_sha256_hash e)))) as [->|Hne].
  - rewrite list_lookup_alter_eq, fmap_Some. naive_solver.
  - rewrite list_lookup_alter_ne by done. naive_solver.
Qed.

Lemma hash_add_wf table e :
  wf_table table -> length (he_sha256_hash e) = MERKLE_HASH_SIZE -> wf_table (hash_add table e).
Proof.
  intros [Hb Hw] He. split; [unfold hash_add; by rewrite length_alter|].
  intros i b x [[_ Hi]|[-> (b' & Hi & ->)]]%hash_add_lookup; [by apply Hw|].
  intros [->|Hx]%elem_of_cons; [done|]. by eapply Hw.
Qed.

Lemma hash_add_set table e :
  wf_table table -> table_set (hash_add table e) = {[entry_key e]} ∪ table_set table.
Proof.
  intros [Hb Hw]. apply set_eq. intros k.
  rewrite elem_of_union, elem_of_singleton, !elem_of_table_set. split.
  - intros (i & b & x & [[_ Hi]|[-> (b' & Hi & ->)]]%hash_add_lookup & Hx & <-).
    + right. by exists i, b, x.
    + apply elem_of_cons in Hx as [->|Hx]; [by left|]. right. by eexists _, b', x.
  - assert (Hbk : is_Some (table !! hash_min (get_unaligned_le32 (he_sha256_hash e)))).
    { apply lookup_lt_is_Some. rewrite Hb. apply hash_min_bound. }
    destruct Hbk as [b0 Hb0]. intros [->|(i & b & x & Hi & Hx & <-)].
    + eexists _, (e :: b0), e. rewrite hash_add_lookup. split_and!; [|apply elem_of_cons; by left|done].
      right. split; [done|]. by exists b0.
    + destruct (decide (i = hash_min (get_unaligned_le32 (he_sha256_hash e)))) as [->|Hne].
      * eexists _, (e :: b), x. rewrite hash_add_lookup. split_and!; [|apply elem_of_cons; by right|done].
        right. split; [done|]. by exists b.
      * exists i, b, x. rewrite hash_add_lookup. auto.
Qed.
End HashLaws.
