(* ===== verification/Tpm.v ===== *)
(** * TPM operations

    [src/tpm_ops.c]: whether a TPM is present, and the extension of the
    configured PCR with a SHA-256 digest. *)

From S2P Require Import Prelude CString Types Kernel.

Definition TPM_MAX_DIGEST_SIZE : nat := 64.

Section Tpm.
Context {E : KernelEnv}.

Definition bpfima_tpm_available : K bool :=
  let* chip := tpm_default_chip in
  ret (match chip with Some _ => true | None => false end).

(** The digest array: the hash in SHA-256 banks, zeros in the others. *)
Definition bank_digests (banks : list Z) (hash_value : bytes) : list (Z * bytes) :=
  (fun alg_id => (alg_id, if alg_id =? TPM_ALG_SHA256 then take MERKLE_HASH_SIZE hash_value
                          else zeros TPM_MAX_DIGEST_SIZE)) <$> banks.

(** Returns the result and [*command_started]. *)
Definition extend_tpm_pcr (hash_value event_name : option bytes) (hardware_allowed : bool)
    : K (Z * bool) :=
  match hash_value, event_name with
  | Some hash_value, Some _ =>
      let* sleep := can_sleep in
      if negb sleep then ret (- EAGAIN, false) else
      if (bpfima_tpm_pcr_index <? 0) || (bpfima_tpm_pcr_index >? 23) then ret (- EINVAL, false) else
      let* chip := tpm_default_chip in
      match chip with
      | None => ret (- ENODEV, false)
      | Some banks =>
          if negb hardware_allowed then ret (- EIO, false) else
          let sha256_bank := existsb (fun alg_id => alg_id =? TPM_ALG_SHA256) banks in
          if negb sha256_bank then ret (- EOPNOTSUPP, false) else
          let* ok := kalloc in
          if negb ok then ret (- ENOMEM, false) else
          let* rc := tpm_pcr_extend (bank_digests banks hash_value) in
          if negb (rc =? 0) then ret (if rc >? 0 then - EIO else rc, true) else ret (0, true)
      end
  | _, _ => ret (- EINVAL, false)
  end.

Definition extend_tpm_pcr_with_root (root_hash event_name : option bytes) (hardware_allowed : bool)
    : K (Z * bool) :=
  extend_tpm_pcr root_hash event_name hardware_allowed.

Lemma sha256_digest_of_banks banks h :
  existsb (fun a => a =? TPM_ALG_SHA256) banks = true ->
  sha256_digest_of (bank_digests banks h) = Some (take MERKLE_HASH_SIZE h).
Proof.
  unfold sha256_digest_of, bank_digests. induction banks as [|a banks IH]; [done|].
  rewrite fmap_cons. cbn [existsb List.find fst]. destruct (a =? TPM_ALG_SHA256) eqn:Ea; [done|].
  exact IH.
Qed.
End Tpm.

Section TpmLaws.
Context {E : KernelEnv} {L : KernelLaws E}.

(** The result of an extension: success means the hash was extended into the
    PCR; without a started command the PCR is as before. *)
Lemma wp_extend_tpm_pcr h name allowed (Q : Z * bool -> kstate -> Prop) s :
  (forall rc started n p, rc <= 0 ->
    (rc = 0 -> started = true /\ allowed = true /\ p = sha256 (k_pcr s ++ take MERKLE_HASH_SIZE h)) ->
    (started = false -> p = k_pcr s) -> Q (rc, started) (set_next n (set_pcr p s))) ->
  wp (extend_tpm_pcr_with_root (Some h) (Some name) allowed) Q s.
Proof.
  intros HQ. unfold extend_tpm_pcr_with_root, extend_tpm_pcr.
  assert (H0 : forall rc n, rc < 0 -> Q (rc, false) (set_next n s)).
  { intros rc n Hrc. apply (HQ rc false n (k_pcr s)); [lia..|done]. }
  apply wp_bind, wp_can_sleep. intros sleep n0. destruct sleep; cbn [negb]; [|by apply H0].
  destruct (_ || _); [by apply H0|].
  apply wp_bind, wp_default_chip. intros [banks|] n1; [|by apply H0].
  destruct allowed; cbn [negb]; [|by apply H0].
  destruct (existsb _ _) eqn:Eb; cbn [negb]; [|by apply H0].
  apply wp_bind, wp_kalloc. intros [] n2; cbn [negb]; [|by apply H0].
  apply wp_bind. eapply wp_pcr_extend; [by apply sha256_digest_of_banks|].
  intros rc n3 p Hp. destruct (Z.eqb_spec rc 0) as [->|Hrc]; cbn [negb].
  - apply wp_ret. apply (HQ 0 true n3 p); [lia|auto|done].
  - apply wp_ret. destruct (Z.gtb_spec rc 0).
    + by apply (HQ (- EIO) true n3 p).
    + apply (HQ rc true n3 p); [lia|lia|done].
Qed.
End TpmLaws.
