(* ===== verification/PolicyMap.v ===== *)
(** * The policy map

    The accessors of [src/policy_manager.c] that read the bound BPF array map:
    entry 0 is the control entry whose generation selects, by its low bit, one
    of the two state entries. *)

From S2P Require Import Prelude CString Types Kernel Pattern Snapshot.

(** The address of a map value: the map and the index. *)
Definition state_ref : Type := nat * nat.

Definition map_state (map : nat) (key : nat) : K (option state_ref) :=
  let* maps := gets (fun s => bpf_maps (k_policy s)) in
  let* m := deref (maps !! map) in
  ret (if bool_decide (key < length (mp_values m))%nat then Some (map, key) else None).

(** Read and write through a pointer to a map value. *)
Definition load_state (r : option state_ref) : K bpfima_policy_state :=
  let* (map, key) := deref r in
  let* maps := gets (fun s => bpf_maps (k_policy s)) in
  let* m := deref (maps !! map) in
  deref (mp_values m !! key).

Definition set_values (m : bpf_map) (v : list bpfima_policy_state) : bpf_map :=
  BpfMap (mp_map_type m) (mp_key_size m) (mp_value_size m) (mp_max_entries m) (mp_map_flags m)
    (mp_frozen m) (mp_writecnt m) (mp_id m) (mp_refcnt m) v.

Definition set_maps (v : list bpf_map) (s : kstate) : kstate :=
  set_policy (ManagerState (policy_map (k_policy s)) v (global_policy_change_history (k_policy s))) s.

Definition store_state (r : option state_ref) (v : bpfima_policy_state) : K unit :=
  let* (map, key) := deref r in
  let* maps := gets (fun s => bpf_maps (k_policy s)) in
  let* m := deref (maps !! map) in
  modify (set_maps (<[map := set_values m (<[key := v]> (mp_values m))]> maps)).

Definition active_state (map : nat) : K (option state_ref) :=
  let* control := map_state map 0 in
  let* control := load_state control in
  let generation := st_generation control in
  if truth generation then map_state map (Z.to_nat (1 + Z.land generation 1)) else ret None.

Definition record_at (state : bpfima_policy_state) (i : nat) : bpfima_policy_record :=
  nth i (st_records state) zero_record.

Definition namespace_index (state : bpfima_policy_state) (id : option bytes) : Z :=
  match id with
  | None => 0
  | Some id =>
      if Byte.eqb (char_at id 0) NUL then 0 else
      match List.find (fun i => strcmp (rec_namespace_id (record_at state i)) id =? 0)
              (seq 1 (Z.to_nat (st_namespace_count state))) with
      | Some i => Z.of_nat i
      | None => - ENOENT
      end
  end.

Definition bpfima_policy_get_config : K bpfima_policy_config :=
  let* map := gets (fun s => policy_map (k_policy s)) in
  match map with
  | None => ret (bpfima_init_default_config zero_config)
  | Some map =>
      let* control := map_state map 0 in
      let* control := load_state control in
      let* state := map_state map (Z.to_nat (1 + Z.land (st_generation control) 1)) in
      let* state := load_state state in
      ret (sn_config (rec_snapshot (record_at state 0)))
  end.

Definition bpfima_policy_generation : K Z :=
  let* map := gets (fun s => policy_map (k_policy s)) in
  match map with
  | None => ret 0
  | Some map =>
      let* control := map_state map 0 in
      let* control := load_state control in
      ret (st_generation control)
  end.

Definition bpfima_policy_map_id : K Z :=
  let* map := gets (fun s => policy_map (k_policy s)) in
  match map with
  | None => ret 0
  | Some map =>
      let* maps := gets (fun s => bpf_maps (k_policy s)) in
      let* m := deref (maps !! map) in
      ret (mp_id m)
  end.

(** ** A map whose three entries exist *)

(** The bound map, if any, is a live object with its three entries. *)
Definition map_bound (s : kstate) : Prop :=
  forall map, policy_map (k_policy s) = Some map ->
  exists m, bpf_maps (k_policy s) !! map = Some m /\ length (mp_values m) = BPFIMA_POLICY_MAP_ENTRIES.

Lemma land_1_cases g : Z.land g 1 = 0 \/ Z.land g 1 = 1.
Proof.
  assert (Z.land g 1 = g mod 2) as -> by (apply (Z.land_ones g 1); lia).
  pose proof (Z.mod_pos_bound g 2 ltac:(lia)). lia.
Qed.

Lemma wp_map_state map key m Q s :
  bpf_maps (k_policy s) !! map = Some m -> (key < length (mp_values m))%nat ->
  Q (Some (map, key)) s -> wp (map_state map key) Q s.
Proof. intros Hm Hk HQ. unfold wp, map_state, bind, gets, ret. rewrite Hm. simpl. by rewrite bool_decide_true. Qed.

Lemma wp_load_state map key m v Q s :
  bpf_maps (k_policy s) !! map = Some m -> mp_values m !! key = Some v ->
  Q v s -> wp (load_state (Some (map, key))) Q s.
Proof. intros Hm Hk HQ. unfold wp, load_state, bind, gets, ret. simpl. rewrite Hm. simpl. by rewrite Hk. Qed.

(** Reading the configuration does not fault and changes nothing. *)
Lemma wp_get_config Q s :
  map_bound s -> (forall c, Q c s) -> wp bpfima_policy_get_config Q s.
Proof.
  intros Hb HQ. unfold bpfima_policy_get_config. apply wp_bind, wp_gets.
  destruct (policy_map (k_policy s)) as [map|] eqn:Em; [|by apply wp_ret].
  destruct (Hb map Em) as (m & Hm & Hl). unfold BPFIMA_POLICY_MAP_ENTRIES in Hl.
  assert (Hv : forall k, (k < 3)%nat -> exists v, mp_values m !! k = Some v).
  { intros k Hk. apply lookup_lt_is_Some. lia. }
  apply wp_bind. apply (wp_map_state _ _ m); [done|lia|].
  destruct (Hv 0%nat) as [control Hc]; [lia|]. apply wp_bind. eapply wp_load_state; [done..|].
  apply wp_bind. apply (wp_map_state _ _ m); [done|destruct (land_1_cases (st_generation control)); lia|].
  destruct (Hv (Z.to_nat (1 + Z.land (st_generation control) 1))) as [st Hst];
    [destruct (land_1_cases (st_generation control)); lia|].
  apply wp_bind. eapply wp_load_state; [done..|]. by apply wp_ret.
Qed.
