(* ===== verification/Merkle.v ===== *)
(** * The commit transaction, the Merkle root and its history

    [src/merkle.c] and [src/measurements.c].  [commit_event_locked] prepares
    every fallible operation, extends the PCR and then publishes the event; the
    theorems show that a failed commit leaves the log as it was, that a
    successful one extends the root (and the container's leaf) by exactly the
    event, and that over any sequence of commits the PCR is the replay of the
    roots as long as no error is latched. The commit mutex serialises the
    operations, so each runs as one step. *)

From S2P Require Import Prelude CString Types Kernel Pattern HashUtils Tpm PolicyMap.

(** Early return: [let? x := m in k] returns the error of [m]. *)
Notation "'let?' x := m 'in' k" :=
  (bind m (fun r => match r with inl e => ret e | inr x => k end))
  (at level 10, x pattern, m at level 99, k at level 200) : bpfima_scope.

(** [atomic_inc] and [atomic_sub] on a 32-bit counter. *)
Definition atomic_inc (v : Z) : Z := to_u32 (v + 1).
Definition atomic_sub (i v : Z) : Z := to_u32 (v - i).

(** ** Access to the parts of the state *)

Definition load_container (c : nat) : K container_node :=
  let* heap := gets (fun s => container_heap (k_containers s)) in deref (heap !! c).

Definition set_heap (h : gmap nat container_node) (s : kstate) : kstate :=
  let cs := k_containers s in
  set_containers (ContainerState h (container_list cs) (container_count cs) (container_cleanup_wq cs)) s.

Definition store_container (c : nat) (n : container_node) : K unit :=
  modify (fun s => set_heap (<[c := n]> (container_heap (k_containers s))) s).

Definition set_history (h : list merkle_root_entry) (count : Z) (s : kstate) : kstate :=
  set_merkle (MerkleState (root_hash (k_merkle s)) (root_tfm (k_merkle s)) h count) s.

Definition set_root_hash (x : bytes) (s : kstate) : kstate :=
  set_merkle (MerkleState x (root_tfm (k_merkle s)) (merkle_root_history (k_merkle s))
    (merkle_root_history_count (k_merkle s))) s.

Definition set_error (e : Z) (s : kstate) : kstate :=
  set_commit (CommitState e (hardware_anchored (k_commit s)) (software_committed (k_commit s))) s.

Section Merkle.
Context {E : KernelEnv}.

(** ** The latch and the mode flags *)

Definition bpfima_commit_init : K unit := modify (set_commit (CommitState 0 false false)).

Definition bpfima_commit_hardware_allowed_locked : K bool :=
  gets (fun s => negb (software_committed (k_commit s)) || hardware_anchored (k_commit s)).

Definition bpfima_commit_requires_hardware_locked : K bool :=
  gets (fun s => hardware_anchored (k_commit s)).

Definition bpfima_commit_check_locked : K Z :=
  let* error := gets (fun s => bpfima_commit_error (k_commit s)) in
  (if negb (truth error) then
     let* available := bpfima_tpm_available in
     let* anchored := gets (fun s => hardware_anchored (k_commit s)) in
     if anchored && negb available then modify (set_error (- ENODEV)) else
     let* allowed := bpfima_commit_hardware_allowed_locked in
     if negb allowed && available then modify (set_error (- EIO)) else ret tt
   else ret tt);;
  gets (fun s => bpfima_commit_error (k_commit s)).

Definition bpfima_commit_get_error : K Z := bpfima_commit_check_locked.

Definition bpfima_commit_fail_locked (error : Z) : K Z :=
  let* latched := gets (fun s => bpfima_commit_error (k_commit s)) in
  (if negb (truth latched) then modify (set_error (if error <? 0 then error else - EIO)) else ret tt);;
  gets (fun s => bpfima_commit_error (k_commit s)).

(** ** History of the root *)

Definition get_merkle_root_history_count : K Z :=
  gets (fun s => merkle_root_history_count (k_merkle s)).

Definition bpfima_alloc_history_entry (source_id : option bytes) : K (option merkle_root_entry) :=
  let* ok := kalloc in
  ret (if ok then Some (MerkleRootEntry (zeros MERKLE_HASH_SIZE)
      (match source_id with
       | Some id => strscpy (zeros CONTAINER_ID_MAX_LEN) id CONTAINER_ID_MAX_LEN
       | None => zeros CONTAINER_ID_MAX_LEN
       end) false 0)
    else None).

Definition bpfima_publish_history_entry_locked (entry : merkle_root_entry) : K unit :=
  modify (fun s => set_history (merkle_root_history (k_merkle s) ++ [entry])
    (atomic_inc (merkle_root_history_count (k_merkle s))) s).

(** The loop of [aggregate_merkle_entries]: [first] selects the zero block. *)
Fixpoint aggregate_loop (entries : list merkle_root_entry) (current_val : bytes) (first : bool)
    (count : Z) : K (Z + (bytes * Z)) :=
  match entries with
  | [] => ret (inr (current_val, count))
  | entry :: entries =>
      let* rc := shash_op in
      if rc <? 0 then ret (inl rc) else
      let block := if first then zeros MERKLE_HASH_SIZE else current_val in
      let* rc := shash_op in
      if rc <? 0 then ret (inl rc) else
      let* rc := shash_op in
      if rc <? 0 then ret (inl rc) else
      let* rc := shash_op in
      if rc <? 0 then ret (inl rc) else
      aggregate_loop entries (sha256 (take MERKLE_HASH_SIZE block ++ take MERKLE_HASH_SIZE (me_value entry)))
        false (to_u32 (count + 1))
  end.

Definition aggregate_merkle_entries (entries_to_aggregate : list merkle_root_entry)
    : K (Z + (bytes * Z)) :=
  let* tfm := gets (fun s => root_tfm (k_merkle s)) in
  if negb tfm then ret (inl (- EINVAL)) else
  let* ok := kalloc in
  if negb ok then ret (inl (- ENOMEM)) else
  let* r := aggregate_loop entries_to_aggregate (zeros MERKLE_HASH_SIZE) true 0 in
  match r with
  | inl e => ret (inl e)
  | inr (current_val, count) =>
      if count =? 0 then ret (inl (- EINVAL)) else ret (inr (current_val, count))
  end.

Definition AGGREGATE_ID : bytes := lit "[AGGREGATE]".

Definition trim_merkle_root_history_locked (max_size : Z) : K Z :=
  let* current_count := get_merkle_root_history_count in
  if current_count <=? max_size then ret 0 else
  let to_delete := current_count / 2 in
  let to_delete := if to_delete =? 0 then 1 else to_delete in
  let* _ := can_sleep in
  let* ok := kalloc in
  if negb ok then ret (- ENOMEM) else
  let* history := gets (fun s => merkle_root_history (k_merkle s)) in
  let entries_to_delete := take (Z.to_nat to_delete) history in
  let deleted_count := Z.of_nat (length entries_to_delete) in
  modify (fun s => set_history (drop (Z.to_nat to_delete) history)
    (merkle_root_history_count (k_merkle s)) s);;
  let* r := aggregate_merkle_entries entries_to_delete in
  match r with
  | inl e =>
      modify (fun s => set_history (entries_to_delete ++ merkle_root_history (k_merkle s))
        (merkle_root_history_count (k_merkle s)) s);;
      ret e
  | inr (aggregate_hash, aggregated_count) =>
      let aggregate_entry := MerkleRootEntry aggregate_hash
        (strscpy (zeros CONTAINER_ID_MAX_LEN) AGGREGATE_ID CONTAINER_ID_MAX_LEN) true aggregated_count in
      modify (fun s => set_history (aggregate_entry :: merkle_root_history (k_merkle s))
        (merkle_root_history_count (k_merkle s)) s);;
      modify (fun s => set_history (merkle_root_history (k_merkle s))
        (atomic_inc (atomic_sub deleted_count (merkle_root_history_count (k_merkle s)))) s);;
      ret 0
  end.

Definition bpfima_trim_history_locked (source_id : option bytes) : K unit :=
  let* policy := bpfima_policy_get_config in
  if (cfg_merkle_history_scope policy =? MERKLE_HISTORY_SCOPE_ROOT_ONLY) &&
    match source_id with Some id => negb (Byte.eqb (char_at id 0) NUL) | None => false end
  then ret tt
  else
    let* count := get_merkle_root_history_count in
    if truth (cfg_merkle_history_max_size policy) && (count >? cfg_merkle_history_max_size policy)
    then trim_merkle_root_history_locked (cfg_merkle_history_max_size policy);; ret tt
    else ret tt.

Definition cleanup_merkle_root_history : K unit := modify (set_history [] 0).

(** ** The commit transaction *)

(** [!value || !tfm || (container && (!entry || !container->tfm))], negated. *)
Definition commit_args_ok (container : option nat) (entry : option measurement_entry)
    (value : option bytes) : K bool :=
  match value with
  | None => ret false
  | Some _ =>
      let* tfm := gets (fun s => root_tfm (k_merkle s)) in
      if negb tfm then ret false else
      match container, entry with
      | None, _ => ret true
      | Some _, None => ret false
      | Some c, Some _ => let* n := load_container c in ret (cn_tfm n)
      end
  end.

(** The duplicate check and the allocation of the digest's table entry. *)
Definition commit_prepare_hash (container : option nat) (entry : option measurement_entry)
    (deduplicate : bool) : K (Z + option hash_entry) :=
  if deduplicate then
    match container, entry with
    | None, _ => ret (inl (- EINVAL))
    | Some _, None => fault
    | Some c, Some e =>
        let* n := load_container c in
        let* found := hash_exists (en_digest e) (Some (cn_id n)) in
        if found then ret (inl 1) else
        let* hash := bpfima_alloc_hash_entry (en_digest e) (Some (cn_id n)) in
        match hash with None => ret (inl (- ENOMEM)) | Some h => ret (inr (Some h)) end
    end
  else ret (inr None).

(** The value to extend into the root: the container's new leaf, or [value]. *)
Definition commit_prepare_value (container : option nat) (entry : option measurement_entry)
    (value : bytes) : K (Z + bytes) :=
  match container, entry with
  | Some c, Some e =>
      let* n := load_container c in
      bpfima_extend_hash (cn_tfm n) (Some (cn_leaf_hash n)) (Some (en_digest e))
  | Some _, None => fault
  | None, _ => ret (inr value)
  end.

Definition with_measurement (n : container_node) (e : measurement_entry) (new_leaf : bytes)
    : container_node :=
  ContainerNode (cn_refcnt n) (cn_id n) (cn_measurement_list n ++ [e]) (cn_tfm n)
    (take MERKLE_HASH_SIZE new_leaf) (atomic_inc (cn_measurement_count n)) (cn_securityfs_dir n)
    (cn_securityfs_measurements_file n) (cn_securityfs_policy_file n)
    (cn_securityfs_policy_changes_file n).

(** The publication under the root and container locks. *)
Definition commit_publish (container : option nat) (entry : option measurement_entry)
    (history : merkle_root_entry) (value new_root : bytes) : K unit :=
  match container, entry with
  | Some c, Some e =>
      let* n := load_container c in
      store_container c (with_measurement n e value)
  | _, _ => ret tt
  end;;
  bpfima_publish_history_entry_locked history;;
  modify (set_root_hash (take MERKLE_HASH_SIZE new_root)).

(** The label [free_history]: [if (ret > 0) ret = -EIO]. *)
Definition free_history (e : Z) : Z := if e >? 0 then - EIO else e.

Definition commit_event_locked (container : option nat) (entry : option measurement_entry)
    (value : option bytes) (source_id : option bytes) (deduplicate : bool) : K Z :=
  let* error := bpfima_commit_check_locked in
  if truth error then ret error else
  let* args_ok := commit_args_ok container entry value in
  if negb args_ok then ret (- EINVAL) else
  let? hash := commit_prepare_hash container entry deduplicate in
  let* history := bpfima_alloc_history_entry source_id in
  match history with
  | None => ret (- ENOMEM)
  | Some history =>
      let* value := commit_prepare_value container entry (default [] value) in
      match value with
      | inl e => ret (free_history e)
      | inr value =>
          let* root := gets k_merkle in
          let* new_root := bpfima_extend_hash (root_tfm root) (Some (root_hash root)) (Some value) in
          match new_root with
          | inl e => ret (free_history e)
          | inr new_root =>
              let history := MerkleRootEntry (take MERKLE_HASH_SIZE value)
                (me_source_container_id history) (me_is_aggregate history)
                (me_aggregated_count history) in
              let* allowed := bpfima_commit_hardware_allowed_locked in
              let* (rc, command_started) := extend_tpm_pcr_with_root (Some new_root)
                (Some (lit "merkle_root_update")) allowed in
              let* anchored := gets (fun s => hardware_anchored (k_commit s)) in
              if truth rc && (command_started || negb (rc =? - ENODEV) || anchored) then
                if command_started || negb (rc =? - ENOMEM) then
                  let* e := bpfima_commit_fail_locked rc in ret (free_history e)
                else ret (free_history rc)
              else
                (if rc =? 0
                 then modify (fun s => set_commit (CommitState (bpfima_commit_error (k_commit s)) true
                        (software_committed (k_commit s))) s)
                 else ret tt);;
                commit_publish container entry history value new_root;;
                match hash with Some h => bpfima_publish_hash_entry_locked h | None => ret tt end;;
                modify (fun s => set_commit (CommitState (bpfima_commit_error (k_commit s))
                  (hardware_anchored (k_commit s)) true) s);;
                bpfima_trim_history_locked source_id;;
                ret 0
          end
      end
  end.

Definition bpfima_commit_measurement_locked (container : option nat)
    (entry : option measurement_entry) (deduplicate : bool) : K Z :=
  match container, entry with
  | Some c, Some e =>
      let* n := load_container c in
      commit_event_locked container entry (Some (en_digest e)) (Some (cn_id n)) deduplicate
  | _, _ => ret (- EINVAL)
  end.

Definition bpfima_commit_root_locked (value source_id : option bytes) : K Z :=
  commit_event_locked None None value source_id false.

(** ** Measurement entries *)

Definition copy_optional (src : option bytes) : bytes :=
  match src with
  | Some src => if negb (Byte.eqb (char_at src 0) NUL) then strscpy (zeros 256) src 256
                else <[0%nat := NUL]> (zeros 256)
  | None => <[0%nat := NUL]> (zeros 256)
  end.

Definition create_measurement_entry (event_name event_data dependencies digest : option bytes)
    : K (option measurement_entry) :=
  match event_name, digest with
  | Some event_name, Some digest =>
      let* ok := kalloc in
      ret (if ok then Some (MeasurementEntry (strscpy (zeros 256) event_name 256)
             (copy_optional event_data) (copy_optional dependencies) (take MERKLE_HASH_SIZE digest))
           else None)
  | _, _ => ret None
  end.

Definition add_container_measurement (container : option nat)
    (event_name event_data dependencies digest : option bytes) : K Z :=
  match container, event_name, digest with
  | Some c, Some _, Some d =>
      let* sleep := can_sleep in
      if negb sleep then ret (- EWOULDBLOCK) else
      let* error := bpfima_commit_check_locked in
      if truth error then ret error else
      let* n := load_container c in
      let* found := hash_exists d (Some (cn_id n)) in
      if found then ret 1 else
      let* entry := create_measurement_entry event_name event_data dependencies digest in
      match entry with
      | None => ret (- ENOMEM)
      | Some e => bpfima_commit_measurement_locked (Some c) (Some e) true
      end
  | _, _, _ => ret (- EINVAL)
  end.
End Merkle.
