(* ===== verification/MerkleSpec.v ===== *)
(** * Properties of the commit transaction

    The effect of a commit as a relation between the states before and after
    ([commit_done], [commit_failed]), the rule that [commit_event_locked]
    satisfies, and the invariants that follow over sequences of commits. *)

From S2P Require Import Prelude CString Types Kernel HashUtils Tpm PolicyMap Merkle.

Section Spec.
Context {E : KernelEnv} {L : KernelLaws E}.

(** ** Replay *)

(** One extension step and the replay of a list of values. *)
Definition extend (old value : bytes) : bytes :=
  sha256 (take MERKLE_HASH_SIZE old ++ take MERKLE_HASH_SIZE value).

Definition replay (start : bytes) (values : list bytes) : bytes := foldl extend start values.

Lemma replay_app start vs ws : replay start (vs ++ ws) = replay (replay start vs) ws.
Proof. apply foldl_app. Qed.

Lemma extend_length a b : length (extend a b) = MERKLE_HASH_SIZE.
Proof. apply sha256_length. Qed.

Lemma take_extend a b : take MERKLE_HASH_SIZE (extend a b) = extend a b.
Proof. apply take_ge. rewrite extend_length. done. Qed.

(** ** Trimming *)

(** [agg] is the aggregate entry that replaces the entries [d]. *)
Record aggregate_of (d : list merkle_root_entry) (agg : merkle_root_entry) : Prop := AggregateOf {
  ag_value : me_value agg = replay (zeros MERKLE_HASH_SIZE) (me_value <$> d);
  ag_flag : me_is_aggregate agg = true;
  ag_count : me_aggregated_count agg = to_u32 (Z.of_nat (length d));
  ag_nonempty : d <> [];
}.

(** The number of entries a trim removes. *)
Definition to_delete (count : Z) : Z := if count / 2 =? 0 then 1 else count / 2.

Inductive trimmed (h : list merkle_root_entry) (count : Z) : list merkle_root_entry -> Z -> Prop :=
  | trimmed_none : trimmed h count h count
  | trimmed_half agg :
      aggregate_of (take (Z.to_nat (to_delete count)) h) agg ->
      trimmed h count (agg :: drop (Z.to_nat (to_delete count)) h)
        (atomic_inc (atomic_sub (Z.of_nat (length (take (Z.to_nat (to_delete count)) h))) count)).

Lemma to_u32_add_mod a b : to_u32 (to_u32 a + b) = to_u32 (a + b).
Proof. unfold to_u32. by rewrite Z.add_mod_idemp_l. Qed.

Lemma wp_aggregate_loop entries cur first count Q s :
  (first = true -> cur = zeros MERKLE_HASH_SIZE) ->
  (forall e n, e < 0 -> Q (inl e) (set_next n s)) ->
  (forall n, Q (inr (replay cur (me_value <$> entries),
     if bool_decide (entries = []) then count else to_u32 (count + Z.of_nat (length entries))))
     (set_next n s)) ->
  wp (aggregate_loop entries cur first count) Q s.
Proof.
  revert cur first count s. induction entries as [|x entries IH]; intros cur first count s Hf He HQ.
  { apply wp_ret. specialize (HQ (k_next s)). rewrite set_next_eta, bool_decide_true in HQ by done. exact HQ. }
  cbn [aggregate_loop].
  do 4 (apply wp_bind, wp_shash_op; intros rc ?; rewrite ?set_next_set_next;
    destruct (Z.ltb_spec rc 0) as [Hrc|_]; [apply wp_ret, He; exact Hrc|]; clear rc).
  replace (if first then zeros MERKLE_HASH_SIZE else cur) with cur
    by (destruct first; auto).
  apply IH; [done|intros e m He'; rewrite set_next_set_next; by apply He|].
  intros m. rewrite set_next_set_next. specialize (HQ m). rewrite fmap_cons in HQ.
  unfold replay in *. cbn [foldl] in HQ. unfold extend at 2 in HQ.
  rewrite bool_decide_false in HQ by done.
  case_bool_decide as Hn; [|rewrite to_u32_add_mod].
  - subst. exact HQ.
  - replace (count + 1 + Z.of_nat (length entries)) with (count + Z.of_nat (length (x :: entries)))
      by (cbn [length]; lia). exact HQ.
Qed.

Lemma wp_aggregate entries Q s :
  (forall e n, e < 0 -> Q (inl e) (set_next n s)) ->
  (forall v c n, entries <> [] -> v = replay (zeros MERKLE_HASH_SIZE) (me_value <$> entries) ->
     c = to_u32 (Z.of_nat (length entries)) -> Q (inr (v, c)) (set_next n s)) ->
  wp (aggregate_merkle_entries entries) Q s.
Proof.
  intros He HQ. unfold aggregate_merkle_entries. apply wp_bind, wp_gets.
  destruct (root_tfm (k_merkle s)); cbn [negb]; [|apply wp_ret; rewrite <- (set_next_eta s); by apply He].
  apply wp_bind, wp_kalloc. intros [] n; cbn [negb]; [|by apply He].
  apply wp_bind. apply wp_aggregate_loop; [done| |].
  - intros e m Hm. apply wp_ret, He. done.
  - intros m. rewrite set_next_set_next. case_bool_decide as Hn; [by apply wp_ret, He|].
    rewrite Z.add_0_l. destruct (_ =? 0); [by apply wp_ret, He|]. by apply wp_ret, HQ.
Qed.

Lemma set_history_eta s :
  set_history (merkle_root_history (k_merkle s)) (merkle_root_history_count (k_merkle s)) s = s.
Proof. by destruct s as [? ? ? [] ? ? ? ? ?]. Qed.

(** Trimming does nothing below the limit; above it, it fails with the history
    as before or replaces the oldest half by its aggregate. *)
Lemma wp_trim_locked max_size Q s :
  let hist := merkle_root_history (k_merkle s) in
  let cnt := merkle_root_history_count (k_merkle s) in
  (cnt <= max_size -> Q 0 s) ->
  (forall e n, max_size < cnt -> e < 0 -> Q e (set_next n s)) ->
  (forall agg n, max_size < cnt -> aggregate_of (take (Z.to_nat (to_delete cnt)) hist) agg ->
     Q 0 (set_next n (set_history (agg :: drop (Z.to_nat (to_delete cnt)) hist)
       (atomic_inc (atomic_sub (Z.of_nat (length (take (Z.to_nat (to_delete cnt)) hist))) cnt)) s))) ->
  wp (trim_merkle_root_history_locked max_size) Q s.
Proof.
  intros hist cnt Hsmall Hfail Hok. unfold trim_merkle_root_history_locked, get_merkle_root_history_count.
  apply wp_bind, wp_gets. fold cnt. destruct (Z.leb_spec cnt max_size); [by apply wp_ret, Hsmall|].
  apply wp_bind, wp_can_sleep. intros _ n1. apply wp_bind, wp_kalloc.
  intros [] n2; cbn [negb]; [|by apply wp_ret, Hfail].
  apply wp_bind, wp_gets. apply wp_bind, wp_modify.
  change (k_merkle (set_next n2 (set_next n1 s))) with (k_merkle s). fold hist.
  fold (to_delete cnt). apply wp_bind, wp_aggregate.
  - intros e n3 He. apply wp_bind, wp_modify, wp_ret. specialize (Hfail e n3 H He).
    rewrite <- (set_history_eta s) in Hfail.
    cbn [merkle_root_history set_history set_next set_merkle k_merkle]. rewrite take_drop. exact Hfail.
  - intros v c n3 Hne Hv Hc. apply wp_bind, wp_modify, wp_bind, wp_modify, wp_ret.
    apply (Hok (MerkleRootEntry v _ true c) n3); [done|]. by split.
Qed.

Lemma wp_trim_history source_id Q s :
  map_bound s ->
  (forall h c n, trimmed (merkle_root_history (k_merkle s)) (merkle_root_history_count (k_merkle s)) h c ->
     Q tt (set_next n (set_history h c s))) ->
  wp (bpfima_trim_history_locked source_id) Q s.
Proof.
  intros Hb HQ. unfold bpfima_trim_history_locked, get_merkle_root_history_count.
  assert (Hsame : Q tt s).
  { specialize (HQ _ _ (k_next s) (trimmed_none _ _)). by rewrite set_history_eta, set_next_eta in HQ. }
  apply wp_bind, wp_get_config; [done|]. intros policy. destruct (_ && _); [done|].
  apply wp_bind, wp_gets. destruct (_ && _); [|done].
  apply wp_bind, wp_trim_locked; intros; apply wp_ret; [done| |by eapply HQ, trimmed_half].
  rewrite <- (set_history_eta s). apply HQ. constructor.
Qed.

(** ** The effect of a commit *)

(** The measured container with its node and the entry, when there is one. *)
Definition subject : Type := option (nat * container_node * measurement_entry).

Definition subject_container (who : subject) : option nat := (fun '(c, _, _) => c) <$> who.
Definition subject_entry (who : subject) : option measurement_entry := (fun '(_, _, e) => e) <$> who.

(** The value that the event extends into the root. *)
Definition committed_value (who : subject) (value : bytes) : bytes :=
  match who with
  | Some (_, n, e) => extend (cn_leaf_hash n) (en_digest e)
  | None => take MERKLE_HASH_SIZE value
  end.

Definition source_field (source_id : option bytes) : bytes :=
  match source_id with
  | Some id => strscpy (zeros CONTAINER_ID_MAX_LEN) id CONTAINER_ID_MAX_LEN
  | None => zeros CONTAINER_ID_MAX_LEN
  end.

Definition digest_entry (n : container_node) (e : measurement_entry) : hash_entry :=
  HashEntry (take MERKLE_HASH_SIZE (en_digest e))
    (strscpy (zeros CONTAINER_ID_MAX_LEN) (cn_id n) CONTAINER_ID_MAX_LEN).

(** Is the digest already recorded for the container? *)
Definition recorded (n : container_node) (d : bytes) (s : kstate) : bool :=
  existsb (fun entry => mem_equal (he_sha256_hash entry) d MERKLE_HASH_SIZE &&
                        (strcmp (he_namespace_id entry) (cn_id n) =? 0))
    (hash_bucket (sha256_hash_table (k_hash s)) d).

Record commit_done (who : subject) (value : bytes) (source_id : option bytes) (dedup : bool)
    (s s' : kstate) : Prop := CommitDone {
  cd_root : root_hash (k_merkle s') = extend (root_hash (k_merkle s)) (committed_value who value);
  cd_root_tfm : root_tfm (k_merkle s') = root_tfm (k_merkle s);
  cd_history : trimmed
    (merkle_root_history (k_merkle s) ++
      [MerkleRootEntry (committed_value who value) (source_field source_id) false 0])
    (atomic_inc (merkle_root_history_count (k_merkle s)))
    (merkle_root_history (k_merkle s')) (merkle_root_history_count (k_merkle s'));
  cd_containers : k_containers s' = match who with
    | Some (c, n, e) => k_containers (set_heap (<[c := with_measurement n e (committed_value who value)]>
        (container_heap (k_containers s))) s)
    | None => k_containers s end;
  cd_hash : k_hash s' = match who with
    | Some (_, n, e) => if dedup then HashState (sha256_tfm (k_hash s))
        (hash_add (sha256_hash_table (k_hash s)) (digest_entry n e)) else k_hash s
    | None => k_hash s end;
  cd_fresh : dedup = true -> match who with
    | Some (_, n, e) => recorded n (en_digest e) s = false | None => False end;
  cd_no_error : bpfima_commit_error (k_commit s) = 0 /\ bpfima_commit_error (k_commit s') = 0;
  cd_software : software_committed (k_commit s') = true;
  cd_pcr :
    (hardware_anchored (k_commit s') = true /\
     (software_committed (k_commit s) = false \/ hardware_anchored (k_commit s) = true) /\
     k_pcr s' = sha256 (k_pcr s ++ root_hash (k_merkle s'))) \/
    (hardware_anchored (k_commit s') = false /\ hardware_anchored (k_commit s) = false /\
     k_pcr s' = k_pcr s);
  cd_policy : k_policy s' = k_policy s;
  cd_namespaces : k_namespaces s' = k_namespaces s;
  cd_securityfs : k_securityfs s' = k_securityfs s;
}.

(** Only the call counter, the PCR and the latch may differ. *)
Definition same_log (s s' : kstate) : Prop :=
  s' = set_next (k_next s') (set_pcr (k_pcr s') (set_error (bpfima_commit_error (k_commit s')) s)).

Record commit_failed (who : subject) (dedup : bool) (rc : Z) (s s' : kstate) : Prop := CommitFailed {
  cf_log : same_log s s';
  cf_rc : rc = 1 \/ rc < 0;
  cf_error : bpfima_commit_error (k_commit s') <= 0;
  cf_latched : bpfima_commit_error (k_commit s) <> 0 ->
    bpfima_commit_error (k_commit s') = bpfima_commit_error (k_commit s) /\ k_pcr s' = k_pcr s;
  cf_pcr : k_pcr s' = k_pcr s \/ bpfima_commit_error (k_commit s') <> 0;
  cf_duplicate : rc = 1 -> dedup = true /\ match who with
    | Some (_, n, e) => recorded n (en_digest e) s = true | None => False end;
}.

(** ** Rules *)

Lemma set_error_same s e : bpfima_commit_error (k_commit s) = e -> set_error e s = s.
Proof. intros <-. by destruct s as [? ? [] ? ? ? ? ? ?]. Qed.

Lemma wp_commit_check Q s :
  (forall e n, e <> 0 -> e < 0 \/ e = bpfima_commit_error (k_commit s) ->
    (bpfima_commit_error (k_commit s) <> 0 -> e = bpfima_commit_error (k_commit s)) ->
    Q e (set_next n (set_error e s))) ->
  (forall n, bpfima_commit_error (k_commit s) = 0 -> Q 0 (set_next n s)) ->
  wp bpfima_commit_check_locked Q s.
Proof.
  intros He H0. unfold bpfima_commit_check_locked. apply wp_bind, wp_gets.
  destruct (truth (bpfima_commit_error (k_commit s))) eqn:Et; cbn [negb].
  - apply truth_true in Et. apply wp_bind, wp_ret, wp_gets.
    rewrite <- (set_next_eta s) at 2. rewrite <- (set_error_same s _ eq_refl) at 3.
    apply He; auto.
  - apply truth_false in Et. unfold bpfima_tpm_available.
    apply wp_bind, wp_bind, wp_bind, wp_default_chip. intros chip n.
    apply wp_ret, wp_bind, wp_gets. destruct (_ && _).
    { apply wp_modify, wp_gets. apply (He (- ENODEV) n); [done|by left|done]. }
    apply wp_bind, wp_gets. destruct (_ && _).
    { apply wp_modify, wp_gets. apply (He (- EIO) n); [done|by left|done]. }
    apply wp_ret, wp_gets. cbn [k_commit set_next]. rewrite Et. by apply H0.
Qed.

Lemma wp_extend_hash tfm old new Q s :
  (forall e n, e <> 0 -> Q (inl e) (set_next n s)) ->
  (forall n, tfm = true -> Q (inr (extend old new)) (set_next n s)) ->
  wp (bpfima_extend_hash tfm (Some old) (Some new)) Q s.
Proof.
  intros He HQ. destruct tfm; [|apply wp_ret; rewrite <- (set_next_eta s); by apply He].
  cbn [bpfima_extend_hash].
  do 3 (apply wp_bind, wp_shash_op; intros rc ?; rewrite ?set_next_set_next;
    destruct (Z.ltb_spec rc 0); [apply wp_ret, He; lia|]; clear dependent rc).
  apply wp_bind, wp_shash_op. intros rc n'. rewrite set_next_set_next. apply wp_ret.
  destruct (Z.eqb_spec rc 0); [by apply HQ|by apply He].
Qed.

Lemma wp_commit_fail rc Q s :
  bpfima_commit_error (k_commit s) = 0 -> rc < 0 -> Q rc (set_error rc s) ->
  wp (bpfima_commit_fail_locked rc) Q s.
Proof.
  intros H0 Hrc HQ. unfold bpfima_commit_fail_locked. apply wp_bind, wp_gets. rewrite H0. cbn [truth Z.eqb negb].
  apply wp_bind, wp_modify, wp_gets. by destruct (Z.ltb_spec rc 0); [|lia].
Qed.

Definition subject_live (who : subject) (s : kstate) : Prop :=
  match who with
  | Some (c, n, _) => container_heap (k_containers s) !! c = Some n
  | None => True
  end.

Definition prepared_hash (who : subject) (dedup : bool) : option hash_entry :=
  match who with
  | Some (_, n, e) => if dedup then Some (digest_entry n e) else None
  | None => None
  end.

Lemma wp_load_container c n Q s :
  container_heap (k_containers s) !! c = Some n -> Q n s -> wp (load_container c) Q s.
Proof. intros H HQ. unfold load_container, wp, bind, gets. by rewrite H. Qed.

Lemma wp_args_ok who value Q s :
  subject_live who s -> Q true s -> Q false s ->
  wp (commit_args_ok (subject_container who) (subject_entry who) (Some value)) Q s.
Proof.
  intros Hl Ht Hf. unfold commit_args_ok. apply wp_bind, wp_gets.
  destruct (root_tfm _); [|done]. destruct who as [[[c n] e]|]; [|done].
  cbn. apply wp_bind. eapply wp_load_container; [exact Hl|]. apply wp_ret. by destruct (cn_tfm n).
Qed.

Lemma wp_prepare_hash who dedup Q s :
  subject_live who s ->
  (forall rc n, rc = 1 \/ rc < 0 ->
    (rc = 1 -> dedup = true /\ match who with
      | Some (_, n, e) => recorded n (en_digest e) s = true | None => False end) ->
    Q (inl rc) (set_next n s)) ->
  (forall n, (dedup = true -> match who with
      | Some (_, n, e) => recorded n (en_digest e) s = false | None => False end) ->
    Q (inr (prepared_hash who dedup)) (set_next n s)) ->
  wp (commit_prepare_hash (subject_container who) (subject_entry who) dedup) Q s.
Proof.
  intros Hl He HQ. unfold commit_prepare_hash. destruct dedup.
  - destruct who as [[[c n] e]|]; cbn [subject_container subject_entry fmap option_fmap option_map].
    2:{ apply wp_ret. rewrite <- (set_next_eta s). apply He; [by right|done]. }
    apply wp_bind. eapply wp_load_container; [exact Hl|]. apply wp_bind, wp_gets.
    change (existsb _ _) with (recorded n (en_digest e) s).
    destruct (recorded n (en_digest e) s) eqn:Er.
    { apply wp_ret. rewrite <- (set_next_eta s). apply He; [by left|done]. }
    unfold bpfima_alloc_hash_entry. apply wp_bind, wp_bind, wp_kalloc. intros [] m; apply wp_ret.
    + apply wp_ret, HQ. by intros _.
    + apply wp_ret, He; [by right|done].
  - apply wp_ret. rewrite <- (set_next_eta s). destruct who as [[[c n] e]|]; by apply HQ.
Qed.

Lemma wp_prepare_value who value Q s :
  subject_live who s ->
  (forall e n, e <> 0 -> Q (inl e) (set_next n s)) ->
  (forall v n, extend (root_hash (k_merkle s)) v = extend (root_hash (k_merkle s)) (committed_value who value) ->
     take MERKLE_HASH_SIZE v = committed_value who value -> Q (inr v) (set_next n s)) ->
  wp (commit_prepare_value (subject_container who) (subject_entry who) value) Q s.
Proof.
  intros Hl He HQ. destruct who as [[[c n] e]|]; cbn.
  - apply wp_bind. eapply wp_load_container; [exact Hl|]. apply wp_extend_hash; [done|].
    intros m _. apply HQ; [done|apply take_extend].
  - apply wp_ret. rewrite <- (set_next_eta s). apply HQ; [|done]. unfold extend, committed_value.
    by rewrite take_take, Nat.min_id.
Qed.

Lemma free_history_neg e : e <> 0 -> free_history e < 0.
Proof. intros H. unfold free_history. destruct (Z.gtb_spec e 0); unfold EIO; lia. Qed.

(** A failure before the TPM command leaves everything but the counter. *)
Lemma commit_failed_early who dedup rc n s :
  bpfima_commit_error (k_commit s) = 0 -> rc = 1 \/ rc < 0 ->
  (rc = 1 -> dedup = true /\ match who with
    | Some (_, n, e) => recorded n (en_digest e) s = true | None => False end) ->
  commit_failed who dedup rc s (set_next n s).
Proof.
  intros H0 Hrc Hdup. split; auto.
  - unfold same_log. cbn [k_next k_pcr set_next k_commit]. by rewrite set_error_same; [destruct s|].
  - cbn [k_commit set_next]. lia.
Qed.

Lemma commit_failed_tpm who dedup rc rc' e p n s :
  e <= 0 -> rc' < 0 -> rc' = rc -> bpfima_commit_error (k_commit s) = 0 ->
  p = k_pcr s \/ e <> 0 ->
  commit_failed who dedup rc' s (set_next n (set_pcr p (set_error e s))).
Proof.
  intros He Hrc -> H0 Hp. split; cbn; auto; [done|congruence|lia].
Qed.

(** The publication of a prepared event. *)
Lemma wp_commit_publish who h value new_root Q s :
  subject_live who s ->
  (forall s', s' = set_root_hash (take MERKLE_HASH_SIZE new_root)
      (set_history (merkle_root_history (k_merkle s) ++ [h])
        (atomic_inc (merkle_root_history_count (k_merkle s)))
        (match who with
         | Some (c, n, e) => set_heap (<[c := with_measurement n e value]> (container_heap (k_containers s))) s
         | None => s end)) -> Q tt s') ->
  wp (commit_publish (subject_container who) (subject_entry who) h value new_root) Q s.
Proof.
  intros Hl HQ. unfold commit_publish. apply wp_bind.
  destruct who as [[[c n] e]|]; cbn [subject_container subject_entry fmap option_fmap option_map].
  - apply wp_bind. eapply wp_load_container; [exact Hl|]. apply wp_modify, wp_bind, wp_modify, wp_modify.
    by apply HQ.
  - apply wp_ret, wp_bind, wp_modify, wp_modify. by apply HQ.
Qed.

(** The mode flags and the PCR after the TPM command of a commit. *)
Definition commit_mode (s : kstate) (cm : commit_state) (p root' : bytes) : Prop :=
  bpfima_commit_error cm = 0 /\
  ((hardware_anchored cm = true /\
    (software_committed (k_commit s) = false \/ hardware_anchored (k_commit s) = true) /\
    p = sha256 (k_pcr s ++ root')) \/
   (hardware_anchored cm = false /\ hardware_anchored (k_commit s) = false /\ p = k_pcr s)).

Lemma wp_commit_mode rc started root' p n Q s :
  bpfima_commit_error (k_commit s) = 0 ->
  truth rc && (started || negb (rc =? - ENODEV) || hardware_anchored (k_commit s)) = false ->
  (rc = 0 -> started = true /\
     negb (software_committed (k_commit s)) || hardware_anchored (k_commit s) = true /\
     p = sha256 (k_pcr s ++ root')) ->
  (started = false -> p = k_pcr s) ->
  (forall cm, commit_mode s cm p root' -> Q tt (set_next n (set_pcr p (set_commit cm s)))) ->
  wp (if rc =? 0
      then modify (fun s => set_commit (CommitState (bpfima_commit_error (k_commit s)) true
             (software_committed (k_commit s))) s)
      else ret tt) Q (set_next n (set_pcr p s)).
Proof.
  intros H0 Ef Hok Hns HQ. destruct (Z.eqb_spec rc 0) as [->|Hne].
  - destruct (Hok eq_refl) as (-> & Hallow & ->). apply wp_modify.
    apply (HQ (CommitState (bpfima_commit_error (k_commit s)) true (software_committed (k_commit s)))).
    split; [done|]. left. rewrite orb_true_iff, negb_true_iff in Hallow. auto.
  - apply truth_true in Hne. rewrite Hne in Ef. cbn [andb] in Ef.
    rewrite !orb_false_iff in Ef. destruct Ef as [[-> _] Ha]. apply wp_ret.
    replace (set_pcr p s) with (set_pcr p (set_commit (k_commit s) s)) by (by destruct s).
    apply HQ. split; [done|]. right. auto.
Qed.

Lemma take_committed who value :
  take MERKLE_HASH_SIZE (committed_value who value) = committed_value who value.
Proof.
  destruct who as [[[? ?] ?]|]; [apply take_extend|]. cbn. by rewrite take_take, Nat.min_id.
Qed.

(** From the publication to the end of the transaction. *)
Lemma wp_commit_finish who value v source_id dedup cm p n Q s :
  map_bound s -> subject_live who s -> bpfima_commit_error (k_commit s) = 0 ->
  commit_mode s cm p (extend (root_hash (k_merkle s)) (committed_value who value)) ->
  (dedup = true -> match who with
    | Some (_, n, e) => recorded n (en_digest e) s = false | None => False end) ->
  take MERKLE_HASH_SIZE v = committed_value who value ->
  (forall s', commit_done who value source_id dedup s s' -> Q 0 s') ->
  wp (commit_publish (subject_container who) (subject_entry who)
        (MerkleRootEntry (take MERKLE_HASH_SIZE v) (source_field source_id) false 0) v
        (extend (root_hash (k_merkle s)) (committed_value who value));;
      match prepared_hash who dedup with
      | Some h => bpfima_publish_hash_entry_locked h | None => ret tt end;;
      modify (fun s => set_commit (CommitState (bpfima_commit_error (k_commit s))
        (hardware_anchored (k_commit s)) true) s);;
      bpfima_trim_history_locked source_id;;
      ret 0) Q (set_next n (set_pcr p (set_commit cm s))).
Proof.
  intros Hb Hl H0 [Hcm0 Hcase] Hfresh Htake Hdone.
  apply wp_bind, wp_commit_publish; [done|]. intros s2 Hs2.
  assert (Hnode : forall n e, with_measurement n e v = with_measurement n e (committed_value who value)).
  { intros n' e. unfold with_measurement. by rewrite Htake, take_committed. }
  assert (Hs3 : wp (match prepared_hash who dedup with
      | Some h => bpfima_publish_hash_entry_locked h | None => ret tt end)
    (fun _ s3 => s3 = set_hash (match who with
      | Some (_, n, e) => if dedup then HashState (sha256_tfm (k_hash s))
          (hash_add (sha256_hash_table (k_hash s)) (digest_entry n e)) else k_hash s
      | None => k_hash s end) s2) s2).
  { subst s2. destruct who as [[[c n'] e]|]; [destruct dedup|]; done. }
  apply wp_bind. eapply wp_mono; [exact Hs3|]. intros _ s3 ->. cbv beta.
  apply wp_bind, wp_modify, wp_bind, wp_trim_history.
  { subst s2. by destruct who as [[[c n'] e]|]. }
  intros h c n6 Ht. apply wp_ret, Hdone. rewrite Htake, take_extend in Hs2. subst s2.
  destruct who as [[[cc nn] ee]|]; split; cbn in *; rewrite ?Hnode; auto.
Qed.

(** What [commit_event_locked] does: it never faults on a live container, it
    fails without touching the log, or it commits the event. *)
Lemma wp_commit_event who value source_id dedup Q s :
  map_bound s -> subject_live who s -> bpfima_commit_error (k_commit s) <= 0 ->
  (forall rc s', rc <> 0 -> commit_failed who dedup rc s s' -> Q rc s') ->
  (forall s', commit_done who value source_id dedup s s' -> Q 0 s') ->
  wp (commit_event_locked (subject_container who) (subject_entry who) (Some value) source_id dedup) Q s.
Proof.
  intros Hb Hl Hle Hfail Hdone. unfold commit_event_locked. apply wp_bind, wp_commit_check.
  { intros e n He Hcase Hlat. apply truth_true in He as Ht. rewrite Ht. apply wp_ret, Hfail; [done|].
    split; cbn; [done|lia|lia|intros H; by rewrite (Hlat H)|by left|lia]. }
  intros n0 H0. cbn [truth Z.eqb negb].
  assert (Hearly : forall rc n, rc < 0 -> Q rc (set_next n s)).
  { intros rc n Hrc. apply Hfail; [lia|]. apply commit_failed_early; [done|lia|lia]. }
  apply wp_bind, wp_args_ok; [done| |by apply wp_ret, Hearly]. cbn [negb].
  apply wp_bind, wp_prepare_hash; [done| |].
  { intros rc n1 Hrc Hdup. apply wp_ret, Hfail; [lia|].
    by apply (commit_failed_early who dedup rc n1 s). }
  intros n1 Hfresh. rewrite set_next_set_next. unfold bpfima_alloc_history_entry.
  apply wp_bind, wp_bind, wp_kalloc. intros [] n2; apply wp_ret; [|by apply wp_ret, Hearly].
  apply wp_bind, wp_prepare_value; [done|intros e n3 He; by apply wp_ret, Hearly, free_history_neg|].
  intros v n3 Hv Htake. apply wp_bind, wp_gets, wp_bind, wp_extend_hash;
    [intros e n4 He; by apply wp_ret, Hearly, free_history_neg|].
  intros n4 Htfm. rewrite !set_next_set_next. cbn [set_next k_merkle] in Hv |- *.
  rewrite Hv. set (root' := extend _ _). apply wp_bind, wp_gets, wp_bind, wp_extend_tpm_pcr.
  intros rc started n5 p Hrc Hok Hns. apply wp_bind, wp_gets.
  cbn [set_next set_pcr k_commit k_pcr] in *.
  destruct (truth rc && _) eqn:Ef.
  { apply andb_true_iff in Ef as [Et _]. apply truth_true in Et. assert (rc < 0) by lia.
    destruct (started || negb (rc =? - ENOMEM)) eqn:Es.
    - apply wp_bind, wp_commit_fail; [done|done|]. apply wp_ret, Hfail; [apply Z.lt_neq, free_history_neg; lia|].
      eapply (commit_failed_tpm who dedup rc _ rc p n5); [lia|by apply free_history_neg| |done|right; lia].
      unfold free_history. by destruct (Z.gtb_spec rc 0); [lia|].
    - apply orb_false_iff in Es as [-> _]. apply wp_ret. rewrite Hns by done.
      assert (free_history rc < 0) by (by apply free_history_neg). by apply Hearly. }
  apply wp_bind. apply (wp_commit_mode rc started root'); [done|done| |done|].
  { intros H. destruct (Hok H) as (? & ? & ->). subst root'. by rewrite take_extend. }
  intros cm Hcm. cbv beta. by apply (wp_commit_finish who value v source_id dedup cm p n5 Q s).
Qed.

(** ** Adding a measurement *)

Lemma commit_done_next who value value' source_id dedup n s s' :
  match who with Some _ => True | None => value = value' end ->
  commit_done who value source_id dedup (set_next n s) s' ->
  commit_done who value' source_id dedup s s'.
Proof.
  intros Hw. assert (committed_value who value = committed_value who value') as Hv.
  { destruct who as [[[? ?] ?]|]; [done|]. by rewrite Hw. }
  intros []. rewrite Hv in *. split; auto.
Qed.

Lemma commit_failed_next who dedup rc n s s' :
  commit_failed who dedup rc (set_next n s) s' -> commit_failed who dedup rc s s'.
Proof. intros []. split; auto. Qed.

Definition new_entry (event_name : bytes) (event_data dependencies : option bytes) (digest : bytes)
    : measurement_entry :=
  MeasurementEntry (strscpy (zeros 256) event_name 256) (copy_optional event_data)
    (copy_optional dependencies) (take MERKLE_HASH_SIZE digest).

Lemma wp_add_measurement c n name data deps d Q s :
  map_bound s -> container_heap (k_containers s) !! c = Some n ->
  bpfima_commit_error (k_commit s) <= 0 -> length d = MERKLE_HASH_SIZE ->
  (forall rc s', rc <> 0 -> commit_failed (Some (c, n, new_entry name data deps d)) true rc s s' -> Q rc s') ->
  (forall s', commit_done (Some (c, n, new_entry name data deps d)) d (Some (cn_id n)) true s s' -> Q 0 s') ->
  wp (add_container_measurement (Some c) (Some name) data deps (Some d)) Q s.
Proof.
  intros Hb Hc Hle Hd Hfail Hdone. unfold add_container_measurement.
  assert (Hd' : take MERKLE_HASH_SIZE d = d) by (apply take_ge; lia).
  apply wp_bind, wp_can_sleep. intros sleep n0. destruct sleep; cbn [negb].
  2:{ apply wp_ret, Hfail; [done|]. split; cbn; auto; [by destruct s as [? ? [] ? ? ? ? ? ?]|by right|done]. }
  apply wp_bind, wp_commit_check.
  { intros e m He Hcase Hlat. apply truth_true in He as Ht. rewrite Ht. apply wp_ret, Hfail; [done|].
    apply (commit_failed_next _ _ _ n0). split; cbn in *; [done|lia|lia|intros H; by rewrite (Hlat H)|by left|lia]. }
  intros m H0. cbn [truth Z.eqb negb k_commit set_next] in *. apply wp_bind.
  eapply wp_load_container; [exact Hc|]. apply wp_bind, wp_gets.
  change (existsb _ _) with (recorded n d s).
  set (e := new_entry name data deps d).
  destruct (recorded n d s) eqn:Er.
  { apply wp_ret, Hfail; [done|]. apply (commit_failed_early _ _ _ _ s); [done|by left|].
    intros _. split; [done|]. cbn [new_entry en_digest]. by rewrite Hd'. }
  unfold create_measurement_entry. apply wp_bind, wp_bind, wp_kalloc. intros [] m2; apply wp_ret.
  2:{ apply wp_ret, Hfail; [done|]. by apply (commit_failed_early _ _ _ _ s); [done|by right|]. }
  cbn [bpfima_commit_measurement_locked]. fold (new_entry name data deps d). fold e.
  apply wp_bind. eapply wp_load_container; [exact Hc|].
  apply (wp_commit_event (Some (c, n, e)) (en_digest e) (Some (cn_id n)) true Q); [done|done|done| |].
  - intros rc s' Hrc Hf. apply Hfail; [done|]. by eapply commit_failed_next.
  - intros s' Hdn. apply Hdone. by eapply commit_done_next.
Qed.
End Spec.
