(* ===== verification/MerkleInv.v ===== *)
(** * Invariants and theorems of the measurement log

    What holds of the log over sequences of commits: the root is the replay of
    the committed values, the history is a compressed form of them, and the
    PCR is the replay of the roots while no error is latched. *)

From S2P Require Import Prelude CString Types Kernel Sample HashUtils Tpm PolicyMap Merkle MerkleSpec.

Section Inv.
Context {E : KernelEnv} {L : KernelLaws E}.

(** The successive roots, and the PCR after extending them. *)
Fixpoint roots (start : bytes) (values : list bytes) : list bytes :=
  match values with
  | [] => []
  | v :: values => extend start v :: roots (extend start v) values
  end.

Definition pcr_replay (pcr0 : bytes) (rs : list bytes) : bytes :=
  foldl (fun p r => sha256 (p ++ r)) pcr0 rs.

Lemma roots_snoc start vs v :
  roots start (vs ++ [v]) = roots start vs ++ [replay start (vs ++ [v])].
Proof.
  revert start. induction vs as [|w vs IH]; intros start; [done|].
  cbn [roots app]. by rewrite IH.
Qed.

(** [expands h vs]: the history [h] stands for the committed values [vs]; an
    aggregate stands for the entries it replaced. *)
Inductive expands : list merkle_root_entry -> list bytes -> Prop :=
  | expands_nil : expands [] []
  | expands_snoc h vs e :
      expands h vs -> me_is_aggregate e = false -> expands (h ++ [e]) (vs ++ [me_value e])
  | expands_aggregate d r vs agg :
      expands (d ++ r) vs -> aggregate_of d agg -> expands (agg :: r) vs.

Record log_inv (pcr0 : bytes) (vs : list bytes) (s : kstate) : Prop := LogInv {
  li_root : root_hash (k_merkle s) = replay (zeros MERKLE_HASH_SIZE) vs;
  li_history : expands (merkle_root_history (k_merkle s)) vs;
  li_count : merkle_root_history_count (k_merkle s) =
             to_u32 (Z.of_nat (length (merkle_root_history (k_merkle s))));
  li_error : bpfima_commit_error (k_commit s) <= 0;
  li_software : software_committed (k_commit s) = negb (bool_decide (vs = []));
  li_anchored : hardware_anchored (k_commit s) = true -> vs <> [];
  li_pcr : bpfima_commit_error (k_commit s) = 0 ->
    k_pcr s = if hardware_anchored (k_commit s)
              then pcr_replay pcr0 (roots (zeros MERKLE_HASH_SIZE) vs) else pcr0;
  li_table : wf_table (sha256_hash_table (k_hash s));
  li_values : Forall (fun v => length v = MERKLE_HASH_SIZE) vs;
}.

Lemma to_delete_pos c : 0 <= c -> 0 < to_delete c.
Proof.
  intros H. unfold to_delete. destruct (Z.eqb_spec (c / 2) 0); [lia|].
  pose proof (Z.div_pos c 2). lia.
Qed.

Lemma trimmed_expands h c h' c' vs : trimmed h c h' c' -> expands h vs -> expands h' vs.
Proof.
  intros [|agg Ha] He; [done|]. eapply expands_aggregate; [|exact Ha]. by rewrite take_drop.
Qed.

Lemma trimmed_count h c h' c' :
  trimmed h c h' c' -> c = to_u32 (Z.of_nat (length h)) -> c' = to_u32 (Z.of_nat (length h')).
Proof.
  intros [|agg _] ->; [done|]. set (k := Z.to_nat _). unfold atomic_inc, atomic_sub.
  rewrite to_u32_add_mod, <- Z.add_opp_r, <- Z.add_assoc, to_u32_add_mod. f_equal.
  rewrite <- (take_drop k h) at 1. rewrite length_app, length_cons. lia.
Qed.

(** A commit keeps the invariant: a failure with the same values, a success
    with the committed value appended. *)
Lemma commit_failed_inv who dedup rc pcr0 vs s s' :
  commit_failed who dedup rc s s' -> log_inv pcr0 vs s -> log_inv pcr0 vs s'.
Proof.
  intros [Hlog Hrc Herr Hlat Hpcr _] [H1 H2 H3 H4 H5 H6 H7 H8 H9].
  unfold same_log in Hlog. rewrite Hlog. split; cbn; auto. intros H0.
  destruct (Z.eq_dec (bpfima_commit_error (k_commit s)) 0) as [E0|E0].
  - destruct Hpcr as [->|Hne]; [auto|congruence].
  - destruct (Hlat E0) as (Heq & _). congruence.
Qed.

Lemma digest_entry_wf n e : length (en_digest e) = MERKLE_HASH_SIZE ->
  length (he_sha256_hash (digest_entry n e)) = MERKLE_HASH_SIZE.
Proof. intros H. cbn. rewrite length_take, H. done. Qed.

(** The sizes of the arrays: the entry's digest, or the caller's value. *)
Definition subject_digest_ok (who : subject) (value : bytes) : Prop :=
  match who with
  | Some (_, _, e) => length (en_digest e) = MERKLE_HASH_SIZE
  | None => (MERKLE_HASH_SIZE <= length value)%nat
  end.

Lemma committed_value_length who value :
  subject_digest_ok who value -> length (committed_value who value) = MERKLE_HASH_SIZE.
Proof.
  destruct who as [[[c n] e]|]; cbn; [intros _; apply extend_length|]. intros H. rewrite length_take. apply Nat.min_l, H.
Qed.

Lemma commit_done_inv who value source_id dedup pcr0 vs s s' :
  subject_digest_ok who value ->
  commit_done who value source_id dedup s s' -> log_inv pcr0 vs s ->
  log_inv pcr0 (vs ++ [committed_value who value]) s'.
Proof.
  intros Hd [Hroot _ Hhist _ Hhash _ [He He'] Hsw Hpcr _ _ _] [H1 H2 H3 H4 H5 H6 H7 H8 H9].
  assert (Hroot' : root_hash (k_merkle s') =
    replay (zeros MERKLE_HASH_SIZE) (vs ++ [committed_value who value])).
  { by rewrite Hroot, H1, replay_app. }
  split.
  - done.
  - eapply trimmed_expands; [exact Hhist|]. by apply (expands_snoc _ _ (MerkleRootEntry _ _ _ _)).
  - eapply trimmed_count; [exact Hhist|]. rewrite H3. unfold atomic_inc.
    rewrite to_u32_add_mod, length_app. f_equal. cbn [length]. lia.
  - lia.
  - rewrite Hsw, bool_decide_false; [done|]. intros H. by destruct vs.
  - intros _ H. by destruct vs.
  - intros _. specialize (H7 He). destruct Hpcr as [(-> & Hmode & ->)|(-> & Hna & ->)].
    + rewrite roots_snoc, <- Hroot'. unfold pcr_replay. rewrite foldl_app. cbn [foldl].
      f_equal. f_equal. rewrite H7. destruct (hardware_anchored (k_commit s)) eqn:Ea; [done|].
      destruct Hmode as [Hs|]; [|done]. rewrite H5, negb_false_iff, bool_decide_eq_true in Hs. by subst.
    + by rewrite H7, Hna.
  - rewrite Hhash. destruct who as [[[c n] e]|]; [|done]. destruct dedup; [|done].
    by apply hash_add_wf, digest_entry_wf.
  - apply Forall_app. split; [done|]. constructor; [by apply committed_value_length|done].
Qed.

(** C12: The commit transaction is atomic and does not fault. On a live
    container (or for a root-only event) [commit_event_locked] returns, and
    either the result is non-zero and the log, the digest table, the containers
    and the policy are as before, with the PCR unchanged unless an error is
    latched, or the result is 0 and the event is committed completely: root
    and leaf extended, history entry appended (and possibly trimmed), digest
    recorded, and the PCR extended with the new root when a TPM is used. *)
Theorem commit_event_atomic who value source_id dedup s :
  map_bound s -> subject_live who s -> bpfima_commit_error (k_commit s) <= 0 ->
  wp (commit_event_locked (subject_container who) (subject_entry who) (Some value) source_id dedup)
    (fun rc s' => (rc = 0 /\ commit_done who value source_id dedup s s') \/
                  (rc <> 0 /\ commit_failed who dedup rc s s')) s.
Proof. intros. apply wp_commit_event; auto. Qed.

(** C13: Attestation soundness of a commit. If the root is the replay of the
    committed values, the history expands to them, and the PCR is the replay
    of all roots (or untouched in software mode) unless an error is latched,
    then the same holds after a commit, with the committed value of 32 bytes appended
    exactly when the commit succeeded. *)
Theorem commit_preserves_log_inv pcr0 vs who value source_id dedup s :
  log_inv pcr0 vs s -> map_bound s -> subject_live who s -> subject_digest_ok who value ->
  wp (commit_event_locked (subject_container who) (subject_entry who) (Some value) source_id dedup)
    (fun rc s' => log_inv pcr0 (if rc =? 0 then vs ++ [committed_value who value] else vs) s') s.
Proof.
  intros Hinv Hb Hl Hd. apply wp_commit_event; [done|done|apply Hinv| |].
  - intros rc s' Hrc Hf. destruct (Z.eqb_spec rc 0); [done|]. by eapply commit_failed_inv.
  - intros s' Hdone. cbn [Z.eqb]. by eapply commit_done_inv.
Qed.

(** A latched error is final: every later commit returns it and changes
    nothing at all. *)
Theorem commit_latched_error container entry value source_id dedup s :
  bpfima_commit_error (k_commit s) <> 0 ->
  commit_event_locked container entry value source_id dedup s =
    Some (bpfima_commit_error (k_commit s), s).
Proof.
  intros H. apply truth_true in H. unfold commit_event_locked, bpfima_commit_check_locked, bind, gets, ret.
  rewrite H. cbn [negb]. by rewrite H.
Qed.

(** The anchoring mode never changes within an epoch. After a software
    commit no commit succeeds by extending the PCR, and after a hardware
    commit every successful commit extends it with the new root. *)
Theorem commit_mode_stable who value source_id dedup s :
  map_bound s -> subject_live who s -> bpfima_commit_error (k_commit s) <= 0 ->
  software_committed (k_commit s) = true ->
  wp (commit_event_locked (subject_container who) (subject_entry who) (Some value) source_id dedup)
    (fun rc s' => hardware_anchored (k_commit s') = hardware_anchored (k_commit s) /\
       (rc = 0 -> k_pcr s' = if hardware_anchored (k_commit s)
          then sha256 (k_pcr s ++ root_hash (k_merkle s')) else k_pcr s)) s.
Proof.
  intros Hb Hl He Hsw. apply wp_commit_event; [done..| |].
  - intros rc s' Hrc Hf. split; [|done]. rewrite (cf_log _ _ _ _ _ Hf). done.
  - intros s' Hd. destruct (cd_pcr _ _ _ _ _ _ Hd) as [(-> & [?|Ha] & Hp)|(-> & Ha & Hp)].
    + congruence.
    + by rewrite Ha.
    + by rewrite Ha.
Qed.

Lemma recorded_member n d s :
  wf_table (sha256_hash_table (k_hash s)) -> length d = MERKLE_HASH_SIZE ->
  recorded n d s = bool_decide ((d, cstr (cn_id n)) ∈ table_set (sha256_hash_table (k_hash s))).
Proof. apply hash_lookup_member. Qed.

Lemma digest_entry_key n e :
  length (en_digest e) = MERKLE_HASH_SIZE -> (strlen (cn_id n) < CONTAINER_ID_MAX_LEN)%nat ->
  entry_key (digest_entry n e) = (en_digest e, cstr (cn_id n)).
Proof.
  intros Hd Hid. unfold entry_key, digest_entry; cbn [he_sha256_hash he_namespace_id].
  rewrite take_ge by lia. by rewrite cstr_strscpy_fits.
Qed.

(** Duplicate suppression refines a set of pairs of digest and container.
    [add_container_measurement] never faults on a live container; a pair that
    is in the set is never committed again and leaves the log as it was; the
    result 1 means exactly that; a success inserts the pair, appends the entry
    to the container's list, counts it and extends the leaf; a failure leaves
    the set unchanged. *)
Theorem add_measurement_dedup c n name data deps d s :
  map_bound s -> container_heap (k_containers s) !! c = Some n ->
  bpfima_commit_error (k_commit s) <= 0 -> wf_table (sha256_hash_table (k_hash s)) ->
  length d = MERKLE_HASH_SIZE -> (strlen (cn_id n) < CONTAINER_ID_MAX_LEN)%nat ->
  wp (add_container_measurement (Some c) (Some name) data deps (Some d)) (fun rc s' =>
    let seen := table_set (sha256_hash_table (k_hash s)) in
    let pair := (d, cstr (cn_id n)) in
    let e := new_entry name data deps d in
    (pair ∈ seen -> rc <> 0) /\ (rc = 1 -> pair ∈ seen) /\
    (rc <> 0 -> same_log s s') /\
    (rc = 0 ->
      table_set (sha256_hash_table (k_hash s')) = {[pair]} ∪ seen /\
      container_heap (k_containers s') !! c =
        Some (with_measurement n e (extend (cn_leaf_hash n) d)))) s.
Proof.
  intros Hb Hc He Hw Hd Hid. apply (wp_add_measurement c n); [done..| |].
  - intros rc s' Hrc Hf. split_and!; [done| | |done].
    + intros H1. destruct (cf_duplicate _ _ _ _ _ Hf H1) as [_ Hr]. cbn [new_entry en_digest] in Hr.
      rewrite take_ge in Hr by lia. rewrite recorded_member in Hr by done. by apply bool_decide_eq_true in Hr.
    + intros _. apply Hf.
  - intros s' Hdn. pose proof (cd_fresh _ _ _ _ _ _ Hdn eq_refl) as Hf.
    pose proof (cd_hash _ _ _ _ _ _ Hdn) as Hh. pose proof (cd_containers _ _ _ _ _ _ Hdn) as Hct.
    assert (Hde : en_digest (new_entry name data deps d) = d) by (cbn [new_entry en_digest]; apply take_ge; lia).
    change (recorded n (en_digest (new_entry name data deps d)) s = false) in Hf.
    rewrite Hde, recorded_member in Hf by done. apply bool_decide_eq_false in Hf.
    split_and!; [done|done|done|]. intros _. split.
    + rewrite Hh. cbn [sha256_hash_table]. rewrite hash_add_set, digest_entry_key, Hde; rewrite ?Hde; done.
    + rewrite Hct. cbn [committed_value]. rewrite Hde. cbn. by rewrite lookup_insert_eq.
Qed.

(** C31: Trimming the history. Below the limit nothing happens. Above it the
    trim fails and leaves the history as it was, or it replaces the oldest
    half of the [n] entries by one aggregate that is their replay, so that
    [n - n/2 + 1] entries remain (at most the limit when the limit is at
    least 3 and was exceeded by one) and the counter still counts them. *)
Theorem trim_history_spec max_size s :
  let h := merkle_root_history (k_merkle s) in
  let n := Z.of_nat (length h) in
  1 <= max_size -> n < 2 ^ 32 -> merkle_root_history_count (k_merkle s) = n ->
  wp (trim_merkle_root_history_locked max_size) (fun rc s' =>
    let h' := merkle_root_history (k_merkle s') in
    (n <= max_size -> rc = 0 /\ s' = s) /\
    (max_size < n ->
      (rc < 0 /\ h' = h /\ merkle_root_history_count (k_merkle s') = n) \/
      (rc = 0 /\ exists agg, aggregate_of (take (Z.to_nat (n / 2)) h) agg /\
         h' = agg :: drop (Z.to_nat (n / 2)) h /\
         Z.of_nat (length h') = n - n / 2 + 1 /\
         (3 <= max_size -> n = max_size + 1 -> Z.of_nat (length h') <= max_size) /\
         merkle_root_history_count (k_merkle s') = Z.of_nat (length h')))) s.
Proof.
  intros h n Hm Hn Hc. apply wp_trim_locked; rewrite Hc; fold h.
  - intros Hle. split; [done|lia].
  - intros e m Hlt He. split; [lia|]. intros _. left. done.
  - intros agg m Hlt Hagg. split; [lia|]. intros _. right. split; [done|]. exists agg.
    assert (H2 : 1 <= n / 2 /\ n / 2 < n).
    { split; [apply Z.div_le_lower_bound; lia|apply Z.div_lt; lia]. }
    assert (Htd : to_delete n = n / 2).
    { unfold to_delete. by destruct (Z.eqb_spec (n / 2) 0); [lia|]. }
    rewrite Htd in Hagg |- *. cbn [set_next set_history set_merkle k_merkle merkle_root_history
      merkle_root_history_count]. 
    assert (Hl : Z.of_nat (length (agg :: drop (Z.to_nat (n / 2)) h)) = n - n / 2 + 1).
    { rewrite length_cons, length_drop. lia. }
    split_and!; [done|done|done| |].
    + intros H3 Hn1. rewrite Hl. assert (2 <= n / 2) by (apply Z.div_le_lower_bound; lia). lia.
    + rewrite Hl, length_take, Nat.min_l by lia. rewrite Z2Nat.id by lia.
      unfold atomic_inc, atomic_sub, to_u32. rewrite (Z.mod_small (n - n / 2)) by lia.
      apply Z.mod_small. lia.
Qed.

(** The root that a reader recomputes from an exported history: an aggregate
    at the front is the starting value. *)
Definition history_root (h : list merkle_root_entry) : bytes :=
  match h with
  | e :: r => if me_is_aggregate e then replay (me_value e) (me_value <$> r)
              else replay (zeros MERKLE_HASH_SIZE) (me_value <$> h)
  | [] => zeros MERKLE_HASH_SIZE
  end.

(** The first trim keeps the root recomputable: when the history holds no
    aggregate and its replay is the root, then after a trim (successful or
    not) the root recomputed from the history is still the root. *)
Theorem first_trim_replays max_size s :
  Forall (fun e => me_is_aggregate e = false) (merkle_root_history (k_merkle s)) ->
  history_root (merkle_root_history (k_merkle s)) = root_hash (k_merkle s) ->
  wp (trim_merkle_root_history_locked max_size) (fun _ s' =>
    root_hash (k_merkle s') = root_hash (k_merkle s) /\
    history_root (merkle_root_history (k_merkle s')) = root_hash (k_merkle s')) s.
Proof.
  intros Hno Hroot. apply wp_trim_locked; [done|done|]. intros agg n _ [Hv Hf _ Hne].
  split; [done|]. cbn. rewrite Hf, Hv, <- replay_app, <- fmap_app, take_drop.
  rewrite <- Hroot. destruct (merkle_root_history (k_merkle s)) as [|e r]; [done|].
  cbn [history_root]. by inversion_clear Hno as [|? ? He _]; rewrite He.
Qed.
End Inv.

(** ** The theorems on a concrete kernel *)

Definition tpm_env : KernelEnv := sample_env (Some [TPM_ALG_SHA256]).
#[global] Instance tpm_env_laws : KernelLaws tpm_env := sample_laws _.

Definition web : subject := Some (1%nat, sample_node, sample_entry x41).

Lemma sample_map_bound : map_bound sample_state.
Proof. intros map H. discriminate H. Qed.

Lemma sample_log_inv : log_inv (E := tpm_env) (zeros MERKLE_HASH_SIZE) [] sample_state.
Proof.
  split; try done.
  - constructor.
  - split; [done|]. intros i b e [-> _]%lookup_replicate He. by apply not_elem_of_nil in He.
Qed.

Lemma commit_event_atomic_witness :
  wp (commit_event_locked (E := tpm_env) (Some 1%nat) (Some (sample_entry x41)) (Some []) (Some (lit "web")) true)
    (fun rc s' => rc = 0 /\ commit_done (E := tpm_env) web [] (Some (lit "web")) true sample_state s')
    sample_state.
Proof.
  pose proof (commit_event_atomic (E := tpm_env) web [] (Some (lit "web")) true sample_state
    sample_map_bound eq_refl (Z.le_refl 0)) as H.
  assert (H0 : wp (commit_event_locked (E := tpm_env) (subject_container web) (subject_entry web)
    (Some []) (Some (lit "web")) true) (fun rc _ => rc = 0) sample_state) by (vm_compute; reflexivity).
  eapply wp_mono; [exact (wp_conj _ _ _ _ H0 H)|].
  intros rc s' [Hrc [Hd|[Hne _]]]; [exact Hd|contradiction].
Defined.

Lemma commit_preserves_log_inv_witness :
  wp (commit_event_locked (E := tpm_env) (Some 1%nat) (Some (sample_entry x41)) (Some []) (Some (lit "web")) true)
    (fun rc s' => log_inv (E := tpm_env) (zeros MERKLE_HASH_SIZE)
       (if rc =? 0 then [committed_value (E := tpm_env) web []] else []) s') sample_state.
Proof.
  apply (commit_preserves_log_inv (E := tpm_env) (zeros MERKLE_HASH_SIZE) [] web [] (Some (lit "web")) true).
  - apply sample_log_inv.
  - apply sample_map_bound.
  - reflexivity.
  - reflexivity.
Defined.

Definition latched_state : kstate := set_error (- EIO) sample_state.

Lemma commit_latched_error_witness :
  commit_event_locked (E := tpm_env) None None (Some (zeros 32)) None false latched_state =
    Some (- EIO, latched_state).
Proof. apply (commit_latched_error (E := tpm_env) None None (Some (zeros 32)) None false latched_state). discriminate. Defined.

Definition software_state : kstate := set_commit (CommitState 0 false true) sample_state.

Lemma commit_mode_stable_witness :
  wp (commit_event_locked (E := sample_env None) (Some 1%nat) (Some (sample_entry x41)) (Some []) None true)
    (fun rc s' => hardware_anchored (k_commit s') = false /\ (rc = 0 -> k_pcr s' = k_pcr software_state))
    software_state.
Proof.
  apply (commit_mode_stable (E := sample_env None) web [] None true software_state).
  - intros map H. discriminate H.
  - reflexivity.
  - vm_compute. discriminate.
  - reflexivity.
Defined.

Lemma add_measurement_dedup_witness :
  wp (add_container_measurement (E := tpm_env) (Some 1%nat) (Some (lit "exec")) None None
        (Some (replicate MERKLE_HASH_SIZE x41))) (fun rc s' =>
    rc = 0 -> table_set (sha256_hash_table (k_hash s')) =
      {[(replicate MERKLE_HASH_SIZE x41, cstr (cn_id sample_node))]} ∪
      table_set (sha256_hash_table (k_hash sample_state))) sample_state.
Proof.
  pose proof (add_measurement_dedup (E := tpm_env) 1 sample_node (lit "exec") None None
    (replicate MERKLE_HASH_SIZE x41) sample_state sample_map_bound eq_refl (Z.le_refl 0)
    (li_table _ _ _ sample_log_inv) eq_refl) as H.
  eapply wp_mono; [apply H|].
  - apply (Nat.leb_le 4 128). reflexivity.
  - cbv beta zeta. intros rc s' (_ & _ & _ & Hok) Hrc. apply (Hok Hrc).
Defined.

Definition history_entry (v : byte) : merkle_root_entry :=
  MerkleRootEntry (replicate MERKLE_HASH_SIZE v) (zeros CONTAINER_ID_MAX_LEN) false 0.

(** Four committed values with a limit of three. *)
Definition full_state : kstate :=
  set_merkle (MerkleState (replay (E := tpm_env) (zeros MERKLE_HASH_SIZE)
    (me_value <$> [history_entry x01; history_entry x02; history_entry x03; history_entry x04]))
    true [history_entry x01; history_entry x02; history_entry x03; history_entry x04] 4) sample_state.

Lemma trim_history_spec_witness :
  wp (trim_merkle_root_history_locked (E := tpm_env) 3) (fun rc s' =>
    rc = 0 -> length (merkle_root_history (k_merkle s')) = 3%nat) full_state.
Proof.
  eapply wp_mono; [apply (trim_history_spec (E := tpm_env) 3 full_state); vm_compute; congruence|].
  cbv beta zeta. intros rc s' [_ H] Hrc. destruct H as [[H _]|(_ & agg & _ & _ & Hl & _)].
  - vm_compute. reflexivity.
  - lia.
  - change (Z.of_nat (length (merkle_root_history (k_merkle s'))) = 3) in Hl. lia.
Defined.

Lemma first_trim_replays_witness :
  wp (trim_merkle_root_history_locked (E := tpm_env) 3) (fun _ s' =>
    root_hash (k_merkle s') = root_hash (k_merkle full_state) /\
    history_root (E := tpm_env) (merkle_root_history (k_merkle s')) = root_hash (k_merkle s')) full_state.
Proof.
  apply (first_trim_replays (E := tpm_env) 3 full_state).
  - repeat constructor.
  - vm_compute. reflexivity.
Defined.

(** After a second trim the root can no longer be recomputed: the new
    aggregate extends the zero block with the old aggregate instead of
    starting from it. *)
Lemma second_trim_loses_root :
  exists s, match (trim_merkle_root_history_locked (E := tpm_env) 3;;
                   bpfima_publish_history_entry_locked (history_entry x05);;
                   modify (set_root_hash (extend (E := tpm_env) (root_hash (k_merkle full_state))
                     (replicate MERKLE_HASH_SIZE x05)));;
                   trim_merkle_root_history_locked (E := tpm_env) 3) full_state with
            | Some (rc, s') => s' = s /\ rc = 0 | None => False end /\
    history_root (E := tpm_env) (merkle_root_history (k_merkle s)) <> root_hash (k_merkle s).
Proof. eexists. split; [vm_compute; split; reflexivity|]. vm_compute. discriminate. Qed.
