(* ===== verification/PolicyNamespace.v ===== *)
(** * Audit metadata of namespaces

    [src/policy_namespace.c]: the list of per-namespace audit records. A record
    is addressed by its position, which is stable while the namespace mutex is
    held. *)

From S2P Require Import Prelude CString Types Kernel KfuncBuffer.

Definition MAX_POLICY_CHANGES_STR : nat := 1024.
Definition MAX_POLICY_STRING_SIZE : nat := 512.

Section PolicyNamespaceOps.
Context {E : KernelEnv}.

(** The position of the first entry with this identifier. *)
Fixpoint find_entry (l : list bpfima_policy_namespace) (id : bytes) : option nat :=
  match l with
  | [] => None
  | e :: l => if strcmp (pn_namespace_id e) id =? 0 then Some O else S <$> find_entry l id
  end.

Definition find_policy_namespace (id : bytes) : K (option nat) :=
  gets (fun s => find_entry (k_namespaces s) id).

Definition bpfima_policy_namespace_get_locked (id : bytes) : K (ptr nat) :=
  if truth (bpfima_validate_namespace (Some id)) || (BPFIMA_NAMESPACE_SIZE <=? strlen id)%nat
  then ret (PErr (- EINVAL)) else
  let* entry := find_policy_namespace id in
  match entry with
  | Some i => ret (PVal i)
  | None =>
      let* ok := kalloc in
      if negb ok then ret (PErr (- ENOMEM)) else
      let* l := gets k_namespaces in
      let entry := PolicyNamespace (strscpy (zeros CONTAINER_ID_MAX_LEN) id CONTAINER_ID_MAX_LEN)
        (zeros MAX_POLICY_CHANGES_STR) (zeros MERKLE_HASH_SIZE) [] in
      modify (set_namespaces (l ++ [entry]));;
      ret (PVal (length l))
  end.

Definition bpfima_policy_namespace_get_or_create (id : bytes) : K (ptr nat) :=
  bpfima_policy_namespace_get_locked id.

Definition bpfima_policy_namespace_get_changes_hash (id : bytes) (hash : option bytes) (size : Z)
    : K (Z + bytes) :=
  match hash with
  | None => ret (inl (- EINVAL))
  | Some _ =>
      if negb (size =? Z.of_nat MERKLE_HASH_SIZE) then ret (inl (- EINVAL)) else
      let* entry := find_policy_namespace id in
      match entry with
      | None => ret (inl (- ENOENT))
      | Some i =>
          let* l := gets k_namespaces in
          let* e := deref (l !! i) in
          ret (inr (take MERKLE_HASH_SIZE (pn_changes_hash e)))
      end
  end.

Definition bpfima_policy_namespace_init : K Z := ret 0.

(** [free_namespace]: the entry and its history leave the list. *)
Definition free_namespace (i : nat) : K unit :=
  modify (fun s => set_namespaces (delete i (k_namespaces s)) s).

Definition bpfima_policy_namespace_remove (id : bytes) : K unit :=
  let* entry := find_policy_namespace id in
  match entry with
  | Some i => free_namespace i
  | None => ret tt
  end.

Definition bpfima_policy_namespace_cleanup : K unit := modify (set_namespaces []).

(** ** Properties *)

Lemma find_entry_Some l id i :
  find_entry l id = Some i ->
  exists e, l !! i = Some e /\ cstr (pn_namespace_id e) = cstr id.
Proof.
  revert i. induction l as [|e l IH]; intros i; [done|]. cbn [find_entry].
  destruct (Z.eqb_spec (strcmp (pn_namespace_id e) id) 0) as [Hs|Hs].
  - intros [= <-]. exists e. split; [done|]. by apply strcmp_spec.
  - intros (j & Hj & ->)%fmap_Some. destruct (IH j Hj) as (x & ? & ?). by exists x.
Qed.

Lemma find_entry_None l id :
  find_entry l id = None -> Forall (fun e => cstr (pn_namespace_id e) <> cstr id) l.
Proof.
  induction l as [|e l IH]; [constructor|]. cbn [find_entry].
  destruct (Z.eqb_spec (strcmp (pn_namespace_id e) id) 0) as [Hs|Hs]; [done|].
  intros H%fmap_None. constructor; [|by apply IH]. by rewrite <- strcmp_spec.
Qed.

(** A valid pointer returned by the lookup refers to an entry of the
    namespace; only the audit list grows. *)
Lemma wp_namespace_get id Q s :
  (forall e n, e < 0 -> Q (PErr e) (set_next n s)) ->
  (forall i l n, l = k_namespaces s \/ (exists e, l = k_namespaces s ++ [e]) -> (i < length l)%nat ->
     Q (PVal i) (set_next n (set_namespaces l s))) ->
  wp (bpfima_policy_namespace_get_locked id) Q s.
Proof.
  intros He HQ. unfold bpfima_policy_namespace_get_locked, find_policy_namespace.
  destruct (_ || _); [apply wp_ret; rewrite <- (set_next_eta s); by apply He|].
  apply wp_bind, wp_gets. destruct (find_entry (k_namespaces s) id) as [i|] eqn:Ef.
  - apply wp_ret. apply find_entry_Some in Ef as (e & Hi & _).
    assert (Heta : set_next (k_next s) (set_namespaces (k_namespaces s) s) = s) by (by destruct s).
    rewrite <- Heta. apply HQ; [by left|]. by eapply lookup_lt_Some.
  - apply wp_bind, wp_kalloc. intros [] n; cbn [negb]; [|by apply wp_ret, He].
    apply wp_bind, wp_gets, wp_bind, wp_modify, wp_ret.
    apply (HQ (length (k_namespaces s)) (k_namespaces s ++ [_]) n); [right; eauto|].
    rewrite length_app. simpl. lia.
Qed.
End PolicyNamespaceOps.
