(* ===== verification/PolicyManager.v ===== *)
(** * The policy manager

    The stateful part of [src/policy_manager.c]: binding the map, applying and
    reading policies.  A change is prepared completely, written to the inactive
    entry of the map, committed to the measurement log, and only then made
    active by storing the new generation. The namespace mutex serialises the
    writers, so each operation runs as one step. *)

From S2P Require Import Prelude CString Types Kernel Pattern Snapshot Wire KfuncBuffer HashUtils Tpm PolicyMap Merkle PolicyNamespace.

(** ** Text *)

(** [%llu]: at most 20 digits for a 64-bit value. *)
Definition decimal_digit (z : Z) : byte := to_u8 (48 + z).
Fixpoint decimal_fuel (n : nat) (z : Z) : bytes :=
  match n with
  | O => []
  | S n => (if z <? 10 then [] else decimal_fuel n (z / 10)) ++ [decimal_digit (z mod 10)]
  end.
Definition decimal (z : Z) : bytes := decimal_fuel 20 z.

(** [%02x] of a byte. *)
Definition hex_digit (z : Z) : byte := nth (Z.to_nat z) (lit "0123456789abcdef") x00.
Definition hex_byte (b : byte) : bytes := [hex_digit (u8_val b / 16); hex_digit (u8_val b mod 16)].
Definition hex (d : bytes) : bytes := flat_map hex_byte d.

(** [snprintf] of a text into a zeroed array. *)
Definition snprintf (size : nat) (text : bytes) : bytes :=
  blit (zeros size) 0 (take (size - 1) text ++ [NUL]).

Definition ROOT_NAME : bytes := lit "[root]".

(** A control or separator character ends the validity of an identifier. *)
Definition bad_char (ch : byte) : bool :=
  (u8_val ch <=? 32) || (u8_val ch =? 58) || (u8_val ch =? 127).

Definition valid_namespace (id : bytes) : bool :=
  if negb (memchr id NUL BPFIMA_NAMESPACE_SIZE) || truth (bpfima_validate_namespace (Some id)) ||
    (strcmp id ROOT_NAME =? 0)
  then false else negb (existsb bad_char (cstr id)).

(** The audit string of a change. *)
Definition policy_change_text (generation : Z) (id digest : bytes) : bytes :=
  lit "policy_v2:" ++ decimal generation ++ [x3a] ++
  (if Byte.eqb (char_at id 0) NUL then ROOT_NAME else cstr id) ++ [x3a] ++ hex (take MERKLE_HASH_SIZE digest).

(** ** Pieces of the state *)

Definition with_generation (st : bpfima_policy_state) (g : Z) : bpfima_policy_state :=
  PolicyState g (st_namespace_count st) (st_reserved st) (st_records st).

Definition with_namespace_count (st : bpfima_policy_state) (n : Z) : bpfima_policy_state :=
  PolicyState (st_generation st) n (st_reserved st) (st_records st).

Definition with_record (st : bpfima_policy_state) (i : nat) (r : bpfima_policy_record)
    : bpfima_policy_state :=
  PolicyState (st_generation st) (st_namespace_count st) (st_reserved st) (<[i := r]> (st_records st)).

Definition with_refcnt (m : bpf_map) (r : Z) : bpf_map :=
  BpfMap (mp_map_type m) (mp_key_size m) (mp_value_size m) (mp_max_entries m) (mp_map_flags m)
    (mp_frozen m) (mp_writecnt m) (mp_id m) r (mp_values m).

Definition with_change (e : bpfima_policy_namespace) (c : policy_change_entry) (next_hash : bytes)
    : bpfima_policy_namespace :=
  PolicyNamespace (pn_namespace_id e)
    (strscpy (pn_changes_str e) (pc_policy_string c) MAX_POLICY_CHANGES_STR)
    (take MERKLE_HASH_SIZE next_hash) (pn_change_history e ++ [c]).

Definition set_policy_map (map : option nat) (s : kstate) : kstate :=
  set_policy (ManagerState map (bpf_maps (k_policy s)) (global_policy_change_history (k_policy s))) s.

Definition set_global_history (h : list policy_change_entry) (s : kstate) : kstate :=
  set_policy (ManagerState (policy_map (k_policy s)) (bpf_maps (k_policy s)) h) s.

Section PolicyManager.
Context {E : KernelEnv}.

Definition SIZEOF_RECORD : nat := 1380.

Definition snapshot_digest (record : bpfima_policy_record) : K (Z + bytes) :=
  let* ok := kalloc in
  if negb ok then ret (inl (- ENOMEM)) else
  calculate_sha256_hash (c_put (record_codec big_endian) (wire_record big_endian record)) SIZEOF_RECORD.

(** The rolling hash of a namespace's changes, when it has metadata. *)
Definition next_changes_hash (metadata : option nat) (event_digest : bytes) : K (Z + bytes) :=
  match metadata with
  | None => ret (inr [])
  | Some i =>
      let* l := gets k_namespaces in
      let* e := deref (l !! i) in
      calculate_sha256_hash (take MERKLE_HASH_SIZE (pn_changes_hash e) ++
        take MERKLE_HASH_SIZE event_digest) (2 * MERKLE_HASH_SIZE)
  end.

(** Record the committed change in the namespace's or the root's history. *)
Definition record_change (metadata : option nat) (change : policy_change_entry) (next_hash : bytes)
    : K unit :=
  match metadata with
  | Some i =>
      let* l := gets k_namespaces in
      let* e := deref (l !! i) in
      modify (set_namespaces (<[i := with_change e change next_hash]> l))
  | None =>
      modify (fun s => set_global_history (global_policy_change_history (k_policy s) ++ [change]) s)
  end.

Definition GLOBAL_POLICY_SOURCE : bytes := lit "global_policy".

Definition publish_policy_locked (map : nat) (candidate : bpfima_policy_state) (index : nat)
    (metadata : option nat) : K Z :=
  let* control := map_state map 0 in
  let id := rec_namespace_id (record_at candidate index) in
  let* c := load_state control in
  let generation := st_generation c in
  if generation =? U64_MAX then ret (- EOVERFLOW) else
  let candidate := with_generation candidate (generation + 1) in
  let* staged := map_state map (Z.to_nat (1 + Z.land (st_generation candidate) 1)) in
  match staged with
  | None => ret (- EINVAL)
  | Some _ =>
      let* ok := kalloc in
      if negb ok then ret (- ENOMEM) else
      let? digest := snapshot_digest (record_at candidate index) in
      let policy_string := snprintf MAX_POLICY_STRING_SIZE
        (policy_change_text (st_generation candidate) id digest) in
      let? event_digest := calculate_sha256_hash policy_string (strlen policy_string) in
      let change := PolicyChangeEntry (take MERKLE_HASH_SIZE event_digest) policy_string in
      let? next_hash := next_changes_hash metadata event_digest in
      store_state staged candidate;;
      let* rc := bpfima_commit_root_locked (Some event_digest)
        (Some (if Byte.eqb (char_at id 0) NUL then GLOBAL_POLICY_SOURCE else id)) in
      if rc =? 0 then
        record_change metadata change next_hash;;
        let* c := load_state control in
        store_state control (with_generation c (st_generation candidate));;
        ret 0
      else ret rc
  end.

(** ** Binding the map *)

Definition BPF_MAP_TYPE_ARRAY : Z := 2.
Definition SIZEOF_STATE : Z := 45560.

(** [bpf_map_get] takes a reference, [bpf_map_put] drops it. *)
Definition bpf_map_get (fd : Z) : K (Z + nat) :=
  match env_map_get fd with
  | inl e => ret (inl e)
  | inr map =>
      let* maps := gets (fun s => bpf_maps (k_policy s)) in
      let* m := deref (maps !! map) in
      modify (set_maps (<[map := with_refcnt m (mp_refcnt m + 1)]> maps));;
      ret (inr map)
  end.

Definition bpf_map_put (map : nat) : K unit :=
  let* maps := gets (fun s => bpf_maps (k_policy s)) in
  let* m := deref (maps !! map) in
  modify (set_maps (<[map := with_refcnt m (mp_refcnt m - 1)]> maps)).

(** [memchr_inv(state, 0, sizeof( *state))] finds a byte, or the entry is missing. *)
Definition entry_stale (map : nat) (i : nat) : K bool :=
  let* r := map_state map i in
  match r with
  | None => ret true
  | Some _ => let* st := load_state r in ret (negb (bool_decide (st = zero_state)))
  end.

Definition zero_entry (map : nat) (i : nat) : K unit :=
  let* r := map_state map i in store_state r zero_state.

(** The section that runs under the namespace mutex. *)
Definition bind_map_locked (map : nat) : K (Z * bool) :=
  let* existing := gets (fun s => policy_map (k_policy s)) in
  match existing with
  | Some e =>
      if bool_decide (e = map) then let* rc := bpfima_commit_get_error in ret (rc, false)
      else ret (- EBUSY, false)
  | None =>
      let* stale0 := entry_stale map 0 in
      if stale0 then ret (- ESTALE, false) else
      let* stale1 := entry_stale map 1 in
      if stale1 then ret (- ESTALE, false) else
      let* stale2 := entry_stale map 2 in
      if stale2 then ret (- ESTALE, false) else
      let initial := with_record zero_state 0
        (PolicyRecord (rec_namespace_id zero_record) bpfima_init_default_snapshot) in
      let* rc := publish_policy_locked map initial 0 None in
      if rc =? 0 then modify (set_policy_map (Some map));; ret (0, true)
      else zero_entry map 0;; zero_entry map 1;; zero_entry map 2;; ret (rc, false)
  end.

(** The second component is whether the map pointer was stored (and its
    reference kept). *)
Definition bind_map_checked (map : nat) : K (Z * bool) :=
  let* maps := gets (fun s => bpf_maps (k_policy s)) in
  let* m := deref (maps !! map) in
  if negb (mp_map_type m =? BPF_MAP_TYPE_ARRAY) || negb (mp_key_size m =? 4) ||
    negb (mp_value_size m =? SIZEOF_STATE) ||
    negb (mp_max_entries m =? Z.of_nat BPFIMA_POLICY_MAP_ENTRIES) ||
    negb (mp_map_flags m =? BPFIMA_POLICY_MAP_FLAGS)
  then ret (- EINVAL, false)
  else if negb (mp_frozen m) then ret (- EPERM, false)
  else if truth (mp_writecnt m) then ret (- EBUSY, false)
  else
    let* ok := kalloc in
    if negb ok then ret (- ENOMEM, false) else bind_map_locked map.

Definition bpfima_policy_bind_map (fd : Z) : K Z :=
  let? map := bpf_map_get fd in
  let* (rc, kept) := bind_map_checked map in
  (if kept then ret tt else bpf_map_put map);;
  ret rc.

(** ** Applying a policy *)

(** A write into [records[index]] outside the array is a fault. *)
Definition put_record (st : bpfima_policy_state) (i : nat) (r : bpfima_policy_record)
    : K bpfima_policy_state :=
  if bool_decide (i < length (st_records st))%nat then ret (with_record st i r) else fault.

(** The record to change: an existing one, or a new one at the end. *)
Definition select_record (active : bpfima_policy_state) (id : bytes)
    : K (Z + (nat * bpfima_policy_state)) :=
  let index := namespace_index active (Some id) in
  if index <? 0 then
    if st_namespace_count active =? Z.of_nat BPFIMA_POLICY_NAMESPACES then ret (inl (- ENOSPC)) else
    let count := to_u32 (st_namespace_count active + 1) in
    let candidate := with_namespace_count active count in
    let* candidate := put_record candidate (Z.to_nat count)
      (PolicyRecord (strscpy (zeros BPFIMA_NAMESPACE_SIZE) id BPFIMA_NAMESPACE_SIZE) zero_snapshot) in
    ret (inr (Z.to_nat count, candidate))
  else ret (inr (Z.to_nat index, active)).

(** Validation and metadata of a namespace record; the root has neither. *)
Definition check_extension (candidate : bpfima_policy_state) (index : nat) (id : bytes)
    (snapshot : bpfima_policy_snapshot) : K (Z + option nat) :=
  if bool_decide (index = O) then ret (inr None) else
  let rc := validate_extension (rec_snapshot (record_at candidate 0)) snapshot in
  if truth rc then ret (inl rc) else
  let* metadata := bpfima_policy_namespace_get_locked id in
  match metadata with
  | PErr e => ret (inl e)
  | PNull => ret (inr None)
  | PVal i => ret (inr (Some i))
  end.

Definition apply_locked (request : bpfima_policy_request) : K Z :=
  let* map := gets (fun s => policy_map (k_policy s)) in
  let id := rec_namespace_id (rq_record request) in
  match map with
  | None => ret (- ENXIO)
  | Some map =>
      let* rc := bpfima_commit_get_error in
      if truth rc then ret rc else
      let* active := active_state map in
      let* stale :=
        if truth (rq_expected_generation request) then
          let* a := load_state active in
          ret (negb (rq_expected_generation request =? st_generation a))
        else ret false in
      if (stale : bool) then ret (- EAGAIN) else
      let* ok := kalloc in
      if negb ok then ret (- ENOMEM) else
      let* active := load_state active in
      let? (index, candidate) := select_record active id in
      match normalize_snapshot (rec_snapshot (rq_record request)) with
      | inl e => ret e
      | inr snapshot =>
          let* candidate := put_record candidate index
            (PolicyRecord (rec_namespace_id (record_at candidate index)) snapshot) in
          let? metadata := check_extension candidate index id snapshot in
          if (Z.of_nat index <=? st_namespace_count active) &&
            bool_decide (snapshot = rec_snapshot (record_at active index))
          then ret 0
          else publish_policy_locked map candidate index metadata
      end
  end.

Definition bpfima_policy_apply (request : option bpfima_policy_request) : K Z :=
  match request with
  | None => ret (- EINVAL)
  | Some request =>
      let id := rec_namespace_id (rq_record request) in
      if negb (rq_version request =? BPFIMA_POLICY_VERSION) || truth (rq_reserved request) ||
        negb (memchr id NUL BPFIMA_NAMESPACE_SIZE) ||
        (negb (Byte.eqb (char_at id 0) NUL) && negb (valid_namespace id))
      then ret (- EINVAL)
      else apply_locked request
  end.

(** ** Scalar updates *)

Definition set_config (s : bpfima_policy_snapshot) (p : bpfima_policy_config) : bpfima_policy_snapshot :=
  PolicySnapshot p (sn_cgroups s) (sn_paths s) (sn_hooks s).

(** The field assignment; [None] is the jump to the exit with [-EINVAL]. *)
Definition edit_field (field : bytes) (value : Z) (p : bpfima_policy_config)
    : option bpfima_policy_config :=
  if strcmp field (lit "enabled") =? 0 then
    if value >? 1 then None else
    (* stored in an unsigned char *)
    Some (PolicyConfig (value mod 256) (cfg_filter_flags p) (cfg_action_flags p) (cfg_min_file_size p)
      (cfg_max_path_depth p) (cfg_log_level p) (cfg_merkle_history_max_size p)
      (cfg_merkle_history_scope p) (cfg_reserved p))
  else if strcmp field (lit "filter_flags") =? 0 then
    Some (PolicyConfig (cfg_enabled p) value (cfg_action_flags p) (cfg_min_file_size p)
      (cfg_max_path_depth p) (cfg_log_level p) (cfg_merkle_history_max_size p)
      (cfg_merkle_history_scope p) (cfg_reserved p))
  else if strcmp field (lit "action_flags") =? 0 then
    Some (PolicyConfig (cfg_enabled p) (cfg_filter_flags p) value (cfg_min_file_size p)
      (cfg_max_path_depth p) (cfg_log_level p) (cfg_merkle_history_max_size p)
      (cfg_merkle_history_scope p) (cfg_reserved p))
  else if strcmp field (lit "min_file_size") =? 0 then
    Some (PolicyConfig (cfg_enabled p) (cfg_filter_flags p) (cfg_action_flags p) value
      (cfg_max_path_depth p) (cfg_log_level p) (cfg_merkle_history_max_size p)
      (cfg_merkle_history_scope p) (cfg_reserved p))
  else if strcmp field (lit "log_level") =? 0 then
    Some (PolicyConfig (cfg_enabled p) (cfg_filter_flags p) (cfg_action_flags p) (cfg_min_file_size p)
      (cfg_max_path_depth p) value (cfg_merkle_history_max_size p)
      (cfg_merkle_history_scope p) (cfg_reserved p))
  else None.

Definition bpfima_policy_update_field (id field : option bytes) (value : Z) : K Z :=
  match field with
  | None => ret (- EINVAL)
  | Some field =>
      if match id with Some id => negb (valid_namespace id) | None => false end
      then ret (- EINVAL) else
      let* ok := kalloc in
      if negb ok then ret (- ENOMEM) else
      let* map := gets (fun s => policy_map (k_policy s)) in
      match map with
      | None => ret (- ENXIO)
      | Some map =>
          let* r := active_state map in
          let* state := load_state r in
          let index := namespace_index state id in
          let index := if index <? 0 then 0 else index in
          let snapshot := rec_snapshot (record_at state (Z.to_nat index)) in
          let snapshot := if index >? 0
            then rebase_extension (rec_snapshot (record_at state 0)) snapshot else snapshot in
          let ns := match id with
            | Some id => strscpy (zeros BPFIMA_NAMESPACE_SIZE) id BPFIMA_NAMESPACE_SIZE
            | None => zeros BPFIMA_NAMESPACE_SIZE end in
          match edit_field field value (sn_config snapshot) with
          | None => ret (- EINVAL)
          | Some config =>
              apply_locked (PolicyRequest BPFIMA_POLICY_VERSION 0 0
                (PolicyRecord ns (set_config snapshot config)))
          end
      end
  end.

(** ** Reading *)

(** The snapshot of the namespace, when it has a record of its own. *)
Definition extension_of (state : bpfima_policy_state) (index : Z) : option bpfima_policy_snapshot :=
  if index >? 0 then Some (rec_snapshot (record_at state (Z.to_nat index))) else None.

Definition bpfima_policy_read_locked (id : option bytes) : K (Z + (bpfima_policy_config * Z)) :=
  let* map := gets (fun s => policy_map (k_policy s)) in
  match map with
  | None => ret (inl (- ENXIO))
  | Some map =>
      let* r := active_state map in
      let* state := load_state r in
      let index := namespace_index state id in
      ret (inr (bpfima_policy_merge_config (sn_config (rec_snapshot (record_at state 0)))
        (sn_config <$> extension_of state index), st_generation state))
  end.

Definition bpfima_policy_read (id : option bytes) : K (Z + bpfima_policy_config) :=
  let* r := bpfima_policy_read_locked id in
  ret (match r with inl e => inl e | inr (config, _) => inr config end).

Definition bpfima_policy_resolve_context (context : bpfima_policy_context)
    : K (Z + bpfima_policy_result) :=
  if (cx_hook context >=? Z.of_nat HOOK_MAX) || truth (Z.land (cx_flags context) (not_u32 7)) ||
    negb (memchr (cx_namespace_id context) NUL BPFIMA_NAMESPACE_SIZE) ||
    negb (memchr (cx_cgroup context) NUL BPFIMA_NAMESPACE_SIZE) ||
    negb (memchr (cx_path context) NUL BPFIMA_PATH_SIZE)
  then ret (inl (- EINVAL)) else
  let* map := gets (fun s => policy_map (k_policy s)) in
  match map with
  | None => ret (inl (- ENXIO))
  | Some map =>
      let* r := active_state map in
      let* state := load_state r in
      let index := namespace_index state (Some (cx_namespace_id context)) in
      ret (inr (resolve_decision (st_generation state) (rec_snapshot (record_at state 0))
        (extension_of state index) context))
  end.

Definition set_filter_flags (s : bpfima_policy_snapshot) (flags : Z) : bpfima_policy_snapshot :=
  let p := sn_config s in
  set_config s (PolicyConfig (cfg_enabled p) flags (cfg_action_flags p) (cfg_min_file_size p)
    (cfg_max_path_depth p) (cfg_log_level p) (cfg_merkle_history_max_size p)
    (cfg_merkle_history_scope p) (cfg_reserved p)).

Definition match_context (text : bytes) (path : bool) : bpfima_policy_context :=
  PolicyContext (zeros BPFIMA_NAMESPACE_SIZE)
    (if path then zeros BPFIMA_NAMESPACE_SIZE
     else strscpy (zeros BPFIMA_NAMESPACE_SIZE) text BPFIMA_NAMESPACE_SIZE)
    (if path then strscpy (zeros BPFIMA_PATH_SIZE) text BPFIMA_PATH_SIZE else zeros BPFIMA_PATH_SIZE)
    0 0 0.

Definition bpfima_policy_match_root (text : bytes) (flags : Z) (path : bool) : K bool :=
  let context := match_context text path in
  let* map := gets (fun s => policy_map (k_policy s)) in
  match map with
  | None => ret false
  | Some map =>
      let* r := active_state map in
      let* state := load_state r in
      let* ok := kalloc in
      if negb ok then ret false else
      ret (filtered (set_filter_flags (rec_snapshot (record_at state 0)) flags) context)
  end.

(** ** Initialisation and cleanup *)

Definition bpfima_policy_init : K Z := ret 0.

Definition bpfima_global_policy_cleanup_history : K unit := modify (set_global_history []).

Definition bpfima_policy_cleanup : K unit :=
  let* map := gets (fun s => policy_map (k_policy s)) in
  modify (set_policy_map None);;
  match map with Some map => bpf_map_put map | None => ret tt end;;
  bpfima_global_policy_cleanup_history.
End PolicyManager.
