(* ===== verification/PolicySpec.v ===== *)
(** * Properties of the policy manager: publication

    The rule that [publish_policy_locked] satisfies: it fails with the active
    policy unchanged, or it commits the change to the log and activates it. *)

From S2P Require Import Prelude CString Types Kernel Pattern Snapshot Wire KfuncBuffer HashUtils Tpm PolicyMap Merkle MerkleSpec PolicyNamespace PolicyManager.

(** The index of the entry that a generation selects. *)
Definition slot (generation : Z) : nat := Z.to_nat (1 + Z.land generation 1).

Lemma slot_range g : (1 <= slot g < 3)%nat.
Proof. unfold slot. destruct (land_1_cases g) as [->| ->]; simpl; lia. Qed.

Lemma slot_next g : slot (g + 1) <> slot g.
Proof.
  unfold slot. assert (H : forall z, Z.land z 1 = z mod 2) by (intros z; apply (Z.land_ones z 1); lia).
  rewrite !H. pose proof (Z.div_mod g 2 ltac:(lia)). pose proof (Z.div_mod (g + 1) 2 ltac:(lia)).
  pose proof (Z.mod_pos_bound g 2 ltac:(lia)). pose proof (Z.mod_pos_bound (g + 1) 2 ltac:(lia)). lia.
Qed.

(** The hash transform is not an error pointer: the module is loaded. *)
Definition hash_ready (s : kstate) : Prop := forall e, sha256_tfm (k_hash s) <> PErr e.

Section Spec.
Context {E : KernelEnv} {L : KernelLaws E}.

Lemma wp_sha256 data len Q s :
  hash_ready s ->
  (forall e n, e < 0 -> Q (inl e) (set_next n s)) ->
  (forall n, Q (inr (sha256 (take len data))) (set_next n s)) ->
  wp (calculate_sha256_hash data len) Q s.
Proof.
  intros Hr He HQ. unfold calculate_sha256_hash. apply wp_bind, wp_gets.
  destruct (sha256_tfm (k_hash s)) eqn:Et; [|by destruct (Hr e)|].
  - apply wp_ret. rewrite <- (set_next_eta s). by apply He.
  - apply wp_bind, wp_shash_op_law. intros rc n Hrc. apply wp_ret.
    destruct (Z.eqb_spec rc 0); [by apply HQ|apply He; lia].
Qed.

Lemma wp_snapshot_digest r Q s :
  hash_ready s ->
  (forall e n, e < 0 -> Q (inl e) (set_next n s)) ->
  (forall d n, length d = MERKLE_HASH_SIZE -> Q (inr d) (set_next n s)) ->
  wp (snapshot_digest r) Q s.
Proof.
  intros Hr He HQ. unfold snapshot_digest. apply wp_bind, wp_kalloc. intros [] n; cbn [negb].
  - apply wp_sha256; [done|intros e m ?; by apply He|]. intros m. apply HQ, sha256_length.
  - apply wp_ret. by apply He.
Qed.

Lemma wp_next_hash metadata d Q s :
  hash_ready s -> (forall i, metadata = Some i -> (i < length (k_namespaces s))%nat) ->
  (forall e n, e < 0 -> Q (inl e) (set_next n s)) ->
  (forall h n, Q (inr h) (set_next n s)) ->
  wp (next_changes_hash metadata d) Q s.
Proof.
  intros Hr Hm He HQ. unfold next_changes_hash. destruct metadata as [i|].
  - apply wp_bind, wp_gets. destruct (lookup_lt_is_Some_2 _ _ (Hm i eq_refl)) as [e Hi].
    rewrite Hi. apply wp_bind, wp_ret, wp_sha256; auto.
  - apply wp_ret. rewrite <- (set_next_eta s). apply HQ.
Qed.

(** Stores into the map. *)
Definition put_value (map : nat) (m : bpf_map) (k : nat) (v : bpfima_policy_state) (s : kstate) : kstate :=
  set_maps (<[map := set_values m (<[k := v]> (mp_values m))]> (bpf_maps (k_policy s))) s.

Lemma wp_store_state map k m v Q s :
  bpf_maps (k_policy s) !! map = Some m -> Q tt (put_value map m k v s) ->
  wp (store_state (Some (map, k)) v) Q s.
Proof. intros Hm HQ. unfold store_state, wp, bind, gets, ret, modify. simpl. by rewrite Hm. Qed.

(** The namespace list after a change was recorded. *)
Definition recorded_change (metadata : option nat) (change : policy_change_entry) (h : bytes)
    (s s' : kstate) : Prop :=
  match metadata with
  | Some i => exists e, k_namespaces s !! i = Some e /\
      s' = set_namespaces (<[i := with_change e change h]> (k_namespaces s)) s
  | None => s' = set_global_history (global_policy_change_history (k_policy s) ++ [change]) s
  end.

Lemma wp_record_change metadata change h Q s :
  (forall i, metadata = Some i -> (i < length (k_namespaces s))%nat) ->
  (forall s', recorded_change metadata change h s s' -> Q tt s') ->
  wp (record_change metadata change h) Q s.
Proof.
  intros Hm HQ. unfold record_change. destruct metadata as [i|].
  - apply wp_bind, wp_gets. destruct (lookup_lt_is_Some_2 _ _ (Hm i eq_refl)) as [e Hi].
    rewrite Hi. apply wp_bind, wp_ret, wp_modify, HQ. by exists e.
  - apply wp_modify, HQ. done.
Qed.

(** The change entry of a publication and the source name in the log. *)
Definition change_of (generation : Z) (id : bytes) (snapshot_hash : bytes) : policy_change_entry :=
  let text := snprintf MAX_POLICY_STRING_SIZE (policy_change_text generation id snapshot_hash) in
  PolicyChangeEntry (sha256 (cstr text)) text.

Definition change_source (id : bytes) : bytes :=
  if Byte.eqb (char_at id 0) NUL then GLOBAL_POLICY_SOURCE else id.

(** The state with the candidate written to the inactive entry. *)
Definition staged (map : nat) (m : bpf_map) (g : Z) (cand : bpfima_policy_state) (s : kstate) : kstate :=
  put_value map m (slot (g + 1)) (with_generation cand (g + 1)) s.

(** A completed publication: the change is committed to the log, recorded, and
    the control entry [c] gets the next generation. *)
Definition publish_done (map : nat) (m : bpf_map) (c cand : bpfima_policy_state) (index : nat)
    (metadata : option nat) (s s' : kstate) : Prop :=
  let g := st_generation c in
  let id := rec_namespace_id (record_at cand index) in
  exists digest h s1 s2,
    length digest = MERKLE_HASH_SIZE /\
    commit_done None (pc_change_hash (change_of (g + 1) id digest)) (Some (change_source id)) false
      (staged map m g cand s) s1 /\
    recorded_change metadata (change_of (g + 1) id digest) h s1 s2 /\
    s' = put_value map (set_values m (<[slot (g + 1) := with_generation cand (g + 1)]> (mp_values m)))
      0 (with_generation c (g + 1)) s2.

(** A failed one: nothing changed, or only the inactive entry and what a
    failed commit changes. *)
Definition publish_failed (map : nat) (m : bpf_map) (c cand : bpfima_policy_state) (rc : Z)
    (s s' : kstate) : Prop :=
  (exists n, s' = set_next n s) \/
  commit_failed None false rc (staged map m (st_generation c) cand s) s'.

Lemma staged_lookup map m g cand s :
  bpf_maps (k_policy s) !! map = Some m ->
  bpf_maps (k_policy (staged map m g cand s)) !! map =
    Some (set_values m (<[slot (g + 1) := with_generation cand (g + 1)]> (mp_values m))).
Proof. intros Hm. cbn. rewrite list_lookup_insert_eq; [done|]. by eapply lookup_lt_Some. Qed.

Lemma put_value_map_bound map m k v s :
  bpf_maps (k_policy s) !! map = Some m -> map_bound s -> map_bound (put_value map m k v s).
Proof.
  intros Hm Hb map' Hp. destruct (Hb map' Hp) as (m' & Hm' & Hl). cbn.
  destruct (decide (map = map')) as [<-|Hne].
  - rewrite list_lookup_insert_eq by (by eapply lookup_lt_Some). eexists. split; [done|].
    cbn. rewrite length_insert. congruence.
  - rewrite list_lookup_insert_ne by done. eauto.
Qed.

Lemma recorded_change_maps metadata change h s s' :
  recorded_change metadata change h s s' ->
  bpf_maps (k_policy s') = bpf_maps (k_policy s) /\ policy_map (k_policy s') = policy_map (k_policy s).
Proof. destruct metadata as [i|]; [intros (e & _ & ->)|intros ->]; done. Qed.

(** From the commit to the activation. *)
Lemma wp_activate map m c cand index metadata digest h Q s s1 :
  let g := st_generation c in
  let id := rec_namespace_id (record_at cand index) in
  bpf_maps (k_policy s) !! map = Some m -> mp_values m !! 0%nat = Some c ->
  (forall i, metadata = Some i -> (i < length (k_namespaces s))%nat) ->
  length digest = MERKLE_HASH_SIZE ->
  commit_done None (pc_change_hash (change_of (g + 1) id digest)) (Some (change_source id)) false
    (staged map m g cand s) s1 ->
  (forall s', publish_done map m c cand index metadata s s' -> Q 0 s') ->
  wp (record_change metadata (change_of (g + 1) id digest) h;;
      let* c := load_state (Some (map, 0%nat)) in
      store_state (Some (map, 0%nat)) (with_generation c (g + 1));;
      ret 0) Q s1.
Proof.
  intros g id Hm Hc Hmd Hdig Hdone HQ.
  assert (Hns : k_namespaces s1 = k_namespaces s) by apply (cd_namespaces _ _ _ _ _ _ Hdone).
  assert (Hpol : k_policy s1 = k_policy (staged map m g cand s)) by apply (cd_policy _ _ _ _ _ _ Hdone).
  apply wp_bind, wp_record_change; [by rewrite Hns|]. intros s2 Hs2.
  destruct (recorded_change_maps _ _ _ _ _ Hs2) as [Hmaps _]. rewrite Hpol in Hmaps.
  pose proof (staged_lookup map m g cand s Hm) as Hm2. rewrite <- Hmaps in Hm2.
  apply wp_bind. eapply wp_load_state; [exact Hm2| |].
  { cbn. rewrite list_lookup_insert_ne; [exact Hc|]. pose proof (slot_range (g + 1)). lia. }
  apply wp_bind. eapply wp_store_state; [exact Hm2|]. apply wp_ret, HQ.
  exists digest, h, s1, s2. split_and!; done.
Qed.

(** A commit that does not look for duplicates reports none. *)
Lemma commit_failed_neg who rc s s' : commit_failed who false rc s s' -> rc < 0.
Proof. intros Hcf. destruct (cf_rc _ _ _ _ _ Hcf) as [H|H]; [|done]. by apply (cf_duplicate _ _ _ _ _ Hcf) in H as [? _]. Qed.

Lemma wp_publish map m c cand index metadata Q s :
  bpf_maps (k_policy s) !! map = Some m -> length (mp_values m) = BPFIMA_POLICY_MAP_ENTRIES ->
  mp_values m !! 0%nat = Some c -> map_bound s -> hash_ready s ->
  bpfima_commit_error (k_commit s) <= 0 ->
  (forall i, metadata = Some i -> (i < length (k_namespaces s))%nat) ->
  (forall rc s', rc < 0 -> publish_failed map m c cand rc s s' -> Q rc s') ->
  (forall s', st_generation c <> U64_MAX -> publish_done map m c cand index metadata s s' -> Q 0 s') ->
  wp (publish_policy_locked map cand index metadata) Q s.
Proof.
  intros Hm Hl Hc Hb Hr Herr Hmd Hfail Hok. unfold BPFIMA_POLICY_MAP_ENTRIES in Hl.
  assert (Hf : forall rc n, rc < 0 -> Q rc (set_next n s)).
  { intros rc n Hrc. apply Hfail; [done|]. left. eauto. }
  assert (Hf0 : forall rc, rc < 0 -> Q rc s).
  { intros rc Hrc. rewrite <- (set_next_eta s). by apply Hf. }
  unfold publish_policy_locked. apply wp_bind. apply (wp_map_state _ _ m); [done|lia|].
  apply wp_bind. eapply wp_load_state; [done..|].
  destruct (Z.eqb_spec (st_generation c) U64_MAX) as [|Hg]; [by apply wp_ret, Hf0|].
  set (g := st_generation c) in *. cbn [with_generation st_generation]. fold (slot (g + 1)).
  apply wp_bind. apply (wp_map_state _ _ m); [done|pose proof (slot_range (g + 1)); lia|].
  apply wp_bind, wp_kalloc. intros [] n0; cbn [negb]; [|by apply wp_ret, Hf].
  apply wp_bind, wp_snapshot_digest; [done|intros; by apply wp_ret, Hf|]. intros digest n1 Hdig.
  apply wp_bind, wp_sha256; [done|intros; by apply wp_ret, Hf|]. intros n2. rewrite !set_next_set_next.
  apply wp_bind, wp_next_hash; [done|done|intros; by apply wp_ret, Hf|]. intros h n3.
  rewrite set_next_set_next, cstr_take_strlen.
  set (id := rec_namespace_id (record_at cand index)).
  apply wp_bind. eapply wp_store_state; [done|].
  change (put_value map m (slot (g + 1)) (with_generation cand (g + 1)) (set_next n3 s))
    with (set_next n3 (staged map m g cand s)).
  apply wp_bind. unfold bpfima_commit_root_locked. fold (change_source id).
  set (event := sha256 _). assert (Hev : take MERKLE_HASH_SIZE event = event).
  { apply take_ge. unfold event. by rewrite sha256_length. }
  rewrite Hev. change (PolicyChangeEntry event _) with (change_of (g + 1) id digest).
  apply (wp_commit_event None event (Some (change_source id)) false); [|done|done| |].
  - by apply put_value_map_bound.
  - intros rc s' Hrc Hcf. destruct (Z.eqb_spec rc 0); [done|]. apply wp_ret, Hfail; [by eapply commit_failed_neg|].
    right. by apply commit_failed_next in Hcf.
  - intros s1 Hdone. cbn [Z.eqb]. apply (wp_activate map m c cand index metadata digest h Q s s1); try done.
    + by eapply commit_done_next in Hdone.
    + intros s' Hpd. by apply Hok.
Qed.
End Spec.
