(* ===== verification/PolicyInv.v ===== *)
(** * The policy store: invariant and refinement

    The active state refines a finite map from namespace identifiers (the empty
    one is the root) to snapshots.  [policy_inv] is the invariant of the bound
    map; the theorems show that every operation keeps it, that applying a
    policy either leaves the finite map as it was or updates exactly one key
    and advances the generation by one, and that lookups read the finite
    map. *)

From S2P Require Import Prelude CString Types Kernel Sample Pattern Snapshot Wire KfuncBuffer HashUtils Tpm PolicyMap Merkle MerkleSpec PolicyNamespace PolicyManager PolicySpec.

(** ** The abstract policy *)

Definition live_records (st : bpfima_policy_state) : list bpfima_policy_record :=
  take (S (Z.to_nat (st_namespace_count st))) (st_records st).

Definition record_key (r : bpfima_policy_record) : bytes := cstr (rec_namespace_id r).

Definition record_pair (r : bpfima_policy_record) : bytes * bpfima_policy_snapshot :=
  (record_key r, rec_snapshot r).

Definition policies (st : bpfima_policy_state) : gmap bytes bpfima_policy_snapshot :=
  list_to_map (record_pair <$> live_records st).

(** ** Well-formed states *)

Definition record_ok (r : bpfima_policy_record) : Prop :=
  wf_record r /\ canonical (rec_snapshot r) /\ (strlen (rec_namespace_id r) < BPFIMA_NAMESPACE_SIZE)%nat.

Record wf_state (st : bpfima_policy_state) : Prop := WfState {
  ws_count : 0 <= st_namespace_count st <= Z.of_nat BPFIMA_POLICY_NAMESPACES;
  ws_len : length (st_records st) = S BPFIMA_POLICY_NAMESPACES;
  ws_records : Forall record_ok (live_records st);
  ws_root : record_key (record_at st 0) = [];
  ws_nodup : NoDup (record_key <$> live_records st);
}.

(** A map whose control entry selects the state [st]. *)
Record map_ok (m : bpf_map) (st : bpfima_policy_state) : Prop := MapOk {
  mo_len : length (mp_values m) = BPFIMA_POLICY_MAP_ENTRIES;
  mo_control : exists c, mp_values m !! 0%nat = Some c /\ st_generation c = st_generation st;
  mo_generation : 0 < st_generation st <= U64_MAX;
  mo_active : mp_values m !! slot (st_generation st) = Some st;
  mo_state : wf_state st;
}.

Definition policy_inv (s : kstate) : Prop :=
  forall map, policy_map (k_policy s) = Some map ->
  exists m st, bpf_maps (k_policy s) !! map = Some m /\ map_ok m st.

(** The state that readers see. *)
Definition map_view (m : bpf_map) : option bpfima_policy_state :=
  c ← mp_values m !! 0%nat;
  if truth (st_generation c) then mp_values m !! slot (st_generation c) else None.

Definition policy_view (s : kstate) : option bpfima_policy_state :=
  map ← policy_map (k_policy s); m ← bpf_maps (k_policy s) !! map; map_view m.

Lemma map_ok_view m st : map_ok m st -> map_view m = Some st.
Proof.
  intros [_ (c & Hc & Hg) Hgen Hst _]. unfold map_view. rewrite Hc. simpl. rewrite Hg.
  assert (truth (st_generation st) = true) as -> by (apply truth_true; lia). done.
Qed.

(** What the invariant and the view give about the bound map. *)
Lemma policy_inv_view s map :
  policy_inv s -> policy_map (k_policy s) = Some map ->
  exists m st, bpf_maps (k_policy s) !! map = Some m /\ map_ok m st /\ policy_view s = Some st.
Proof.
  intros Hi Hp. destruct (Hi map Hp) as (m & st & Hm & Hok). exists m, st. split_and!; [done..|].
  unfold policy_view. rewrite Hp. simpl. rewrite Hm. simpl. by apply map_ok_view.
Qed.

Lemma policy_inv_bound s : policy_inv s -> map_bound s.
Proof. intros Hi map Hp. destruct (Hi map Hp) as (m & st & Hm & Hok). exists m. split; [done|apply Hok]. Qed.

(** ** Lookup in a well-formed state *)

Lemma record_at_lookup st i r : st_records st !! i = Some r -> record_at st i = r.
Proof. intros H. unfold record_at. by erewrite nth_lookup_Some. Qed.

Lemma live_lookup st i r :
  live_records st !! i = Some r <-> st_records st !! i = Some r /\ (i <= Z.to_nat (st_namespace_count st))%nat.
Proof. unfold live_records. rewrite lookup_take_Some. split; intros [? ?]; split; (done || lia). Qed.

Lemma live_record_at st i :
  wf_state st -> (i <= Z.to_nat (st_namespace_count st))%nat ->
  live_records st !! i = Some (record_at st i).
Proof.
  intros [Hc Hl _ _ _] Hi. apply live_lookup. split; [|done].
  destruct (lookup_lt_is_Some_2 (st_records st) i) as [r Hr].
  { rewrite Hl. unfold BPFIMA_POLICY_NAMESPACES in *. lia. }
  by rewrite Hr, (record_at_lookup _ _ _ Hr).
Qed.

Lemma policies_lookup st i r :
  wf_state st -> live_records st !! i = Some r -> policies st !! record_key r = Some (rec_snapshot r).
Proof.
  intros Hw Hr. unfold policies. apply elem_of_list_to_map_1.
  - rewrite <- list_fmap_compose. apply Hw.
  - apply list_elem_of_fmap. exists r. split; [done|]. by eapply list_elem_of_lookup_2.
Qed.

Lemma policies_lookup_None st id :
  (forall i r, live_records st !! i = Some r -> record_key r <> id) -> policies st !! id = None.
Proof.
  intros H. apply not_elem_of_list_to_map_1. rewrite <- list_fmap_compose.
  intros (r & Hk & Hin)%list_elem_of_fmap. apply list_elem_of_lookup_1 in Hin as [i Hi].
  by apply (H i r Hi).
Qed.

Lemma find_seq_Some f a n i :
  List.find f (seq a n) = Some i -> f i = true /\ (a <= i < a + n)%nat.
Proof. intros H. apply find_some in H as [Hin Hf]. apply in_seq in Hin. done. Qed.

(** [namespace_index] is the position of the key, 0 for the root, and
    [-ENOENT] when the key is absent. *)
Lemma namespace_index_spec st id :
  wf_state st ->
  (cstr id = [] /\ namespace_index st (Some id) = 0) \/
  (cstr id <> [] /\ exists i, (1 <= i <= Z.to_nat (st_namespace_count st))%nat /\
     namespace_index st (Some id) = Z.of_nat i /\ record_key (record_at st i) = cstr id) \/
  (cstr id <> [] /\ namespace_index st (Some id) = - ENOENT /\
   forall i r, live_records st !! i = Some r -> record_key r <> cstr id).
Proof.
  intros Hw. unfold namespace_index. destruct (Byte.eqb (char_at id 0) NUL) eqn:Ec.
  { left. by apply char_at_nil_iff in Ec. }
  apply char_at_cstr_nonempty in Ec. right. destruct (List.find _ _) as [i|] eqn:Ef.
  - left. split; [done|]. exists i. apply find_seq_Some in Ef as [Hs Hi].
    apply Z.eqb_eq, strcmp_spec in Hs. split_and!; [lia..|done].
  - right. split_and!; [done..|]. intros i r Hi Hk.
    destruct i as [|i].
    + rewrite (live_record_at st 0 Hw) in Hi by lia. injection Hi as <-.
      rewrite (ws_root _ Hw) in Hk. by symmetry in Hk.
    + apply live_lookup in Hi as [Hr Hi]. rewrite <- (record_at_lookup _ _ _ Hr) in Hk.
      apply find_none with (x := S i) in Ef; [|apply in_seq; lia].
      apply Z.eqb_neq in Ef. apply Ef. by apply strcmp_spec.
Qed.

Lemma namespace_index_policies st id :
  wf_state st -> cstr id <> [] ->
  extension_of st (namespace_index st (Some id)) = policies st !! cstr id.
Proof.
  intros Hw Hne. unfold extension_of.
  destruct (namespace_index_spec st id Hw) as [[? _]|[(_ & i & Hi & -> & Hk)|(_ & -> & Hnone)]]; [done| |].
  - destruct (Z.gtb_spec (Z.of_nat i) 0); [|lia]. rewrite Nat2Z.id, <- Hk.
    symmetry. eapply policies_lookup; [done|]. apply live_record_at; [done|lia].
  - simpl. symmetry. by apply policies_lookup_None.
Qed.

Lemma policies_root st : wf_state st -> policies st !! [] = Some (rec_snapshot (record_at st 0)).
Proof.
  intros Hw. rewrite <- (ws_root _ Hw) at 1. eapply policies_lookup; [done|].
  apply live_record_at; [done|lia].
Qed.

(** ** Updating one record *)

Lemma list_to_map_insert_at {A} (l : list (bytes * A)) i k v0 v :
  l !! i = Some (k, v0) -> NoDup l.*1 ->
  (list_to_map (<[i := (k, v)]> l) : gmap bytes A) = <[k := v]> (list_to_map l).
Proof.
  revert i. induction l as [|[k' v'] l IH]; intros i Hi Hnd; [done|].
  apply NoDup_cons in Hnd as [Hk Hnd]. destruct i as [|i].
  - injection Hi as -> ->. cbn. by rewrite insert_insert_eq.
  - change (<[k' := v']> (list_to_map (<[i := (k, v)]> l) : gmap bytes A) =
      <[k := v]> (<[k' := v']> (list_to_map l))).
    rewrite (IH i Hi Hnd). apply insert_insert_ne. intros ->. apply Hk.
    apply list_elem_of_fmap. exists (k, v0). split; [done|]. by eapply list_elem_of_lookup_2.
Qed.

Lemma live_with_record st i r :
  (i <= Z.to_nat (st_namespace_count st))%nat ->
  live_records (with_record st i r) = <[i := r]> (live_records st).
Proof. intros Hi. unfold live_records, with_record; cbn. apply take_insert_lt. lia. Qed.

Lemma fmap_insert_same {A B} (f : A -> B) (l : list A) i x y :
  l !! i = Some x -> f x = f y -> f <$> <[i := y]> l = f <$> l.
Proof.
  intros Hi Hf. rewrite list_fmap_insert, <- Hf. apply list_insert_id. by rewrite list_lookup_fmap, Hi.
Qed.

Lemma record_at_insert st i r j :
  (i < length (st_records st))%nat ->
  record_at (with_record st i r) j = if decide (i = j) then r else record_at st j.
Proof.
  intros Hi. unfold record_at, with_record; cbn. rewrite !nth_lookup.
  destruct (decide (i = j)) as [->|Hne].
  - by rewrite list_lookup_insert_eq.
  - by rewrite list_lookup_insert_ne.
Qed.

Lemma update_existing st i snapshot :
  wf_state st -> (i <= Z.to_nat (st_namespace_count st))%nat ->
  wf_snapshot snapshot -> canonical snapshot ->
  let st' := with_record st i (PolicyRecord (rec_namespace_id (record_at st i)) snapshot) in
  wf_state st' /\ policies st' = <[record_key (record_at st i) := snapshot]> (policies st).
Proof.
  intros Hw Hi Hs Hcan st'. pose proof (live_record_at st i Hw Hi) as Hl.
  pose proof Hw as [Hc Hlen Hr Hroot Hnd]. rewrite Forall_lookup in Hr.
  destruct (Hr _ _ Hl) as ([Hidl _] & _ & Hid).
  assert (Hlive : live_records st' = <[i := PolicyRecord (rec_namespace_id (record_at st i)) snapshot]>
    (live_records st)) by (by apply live_with_record).
  split.
  - split; [done|by cbn; rewrite length_insert| | |].
    + rewrite Hlive. apply Forall_insert; [by apply Forall_lookup|]. by split_and!.
    + unfold st'. rewrite record_at_insert by (rewrite Hlen; unfold BPFIMA_POLICY_NAMESPACES in *; lia).
      destruct (decide (i = 0%nat)) as [->|]; done.
    + rewrite Hlive. by erewrite fmap_insert_same.
  - unfold policies. rewrite Hlive, list_fmap_insert. eapply list_to_map_insert_at.
    + by rewrite list_lookup_fmap, Hl.
    + by rewrite <- list_fmap_compose.
Qed.

Lemma update_new st id snapshot :
  wf_state st -> st_namespace_count st < Z.of_nat BPFIMA_POLICY_NAMESPACES ->
  (forall i r, live_records st !! i = Some r -> record_key r <> cstr id) ->
  (strlen id < BPFIMA_NAMESPACE_SIZE)%nat -> wf_snapshot snapshot -> canonical snapshot ->
  let n := st_namespace_count st + 1 in
  let st' := with_record (with_namespace_count st n) (Z.to_nat n)
    (PolicyRecord (strscpy (zeros BPFIMA_NAMESPACE_SIZE) id BPFIMA_NAMESPACE_SIZE) snapshot) in
  wf_state st' /\ policies st' = <[cstr id := snapshot]> (policies st).
Proof.
  intros Hw Hlt Habs Hid Hs Hcan n st'. pose proof Hw as [Hc Hlen Hr Hroot Hnd].
  unfold BPFIMA_POLICY_NAMESPACES in *.
  set (r := PolicyRecord _ _) in *.
  assert (Hkey : record_key r = cstr id) by (by apply cstr_strscpy_fits).
  assert (Hlive : live_records st' = live_records st ++ [r]).
  { unfold live_records, st', with_record, with_namespace_count; cbn [st_namespace_count st_records].
    unfold n. rewrite Z2Nat.inj_add, Nat.add_1_r, take_S_insert by lia. done. }
  split.
  - split.
    + cbn [st_namespace_count st' with_record with_namespace_count]. unfold n, BPFIMA_POLICY_NAMESPACES. lia.
    + cbn. by rewrite length_insert.
    + rewrite Hlive. apply Forall_app. split; [done|]. constructor; [|constructor].
      split; [split; [by cbn [r rec_namespace_id]; rewrite length_strscpy; rewrite length_zeros|done]|]. split; [done|].
      unfold strlen. cbn [r rec_namespace_id]. by rewrite cstr_strscpy_fits.
    + unfold st'. rewrite record_at_insert by (cbn; rewrite Hlen; lia).
      destruct (decide (Z.to_nat n = 0%nat)); [lia|]. done.
    + rewrite Hlive, fmap_app. apply NoDup_app. split_and!; [done| |by apply NoDup_singleton].
      intros k Hk [->|Hk']%elem_of_cons; [|by apply not_elem_of_nil in Hk'].
      apply list_elem_of_fmap in Hk as (x & Hx & Hin). apply list_elem_of_lookup_1 in Hin as [j Hj].
      apply (Habs _ _ Hj). congruence.
  - unfold policies. rewrite Hlive, fmap_app. cbn [fmap list_fmap]. unfold record_pair at 2. rewrite Hkey.
    apply list_to_map_snoc. rewrite <- list_fmap_compose.
    intros (x & Hx & Hin)%list_elem_of_fmap. apply list_elem_of_lookup_1 in Hin as [j Hj].
    by apply (Habs _ _ Hj).
Qed.

(** ** Selecting the record of a request *)

Definition set_snapshot (cand : bpfima_policy_state) (index : nat) (snapshot : bpfima_policy_snapshot)
    : bpfima_policy_state :=
  with_record cand index (PolicyRecord (rec_namespace_id (record_at cand index)) snapshot).

(** What the selected index and candidate give for every snapshot written there. *)
Record selected (st : bpfima_policy_state) (id : bytes) (index : nat) (cand : bpfima_policy_state)
    : Prop := Selected {
  sl_bound : (index < length (st_records cand))%nat;
  sl_root_index : index = 0%nat <-> cstr id = [];
  sl_old : (Z.of_nat index <=? st_namespace_count st) = true ->
    policies st !! cstr id = Some (rec_snapshot (record_at st index));
  sl_new : (Z.of_nat index <=? st_namespace_count st) = false -> policies st !! cstr id = None;
  sl_update : forall snapshot, wf_snapshot snapshot -> canonical snapshot ->
    let cand' := set_snapshot cand index snapshot in
    wf_state cand' /\ policies cand' = <[cstr id := snapshot]> (policies st) /\
    record_key (record_at cand' index) = cstr id /\
    (index <> 0%nat -> record_at cand' 0 = record_at st 0);
}.

Lemma record_at_set st i r : (i < length (st_records st))%nat -> record_at (with_record st i r) i = r.
Proof. intros H. rewrite record_at_insert by done. by rewrite decide_True. Qed.

Lemma record_at_other st i r j :
  (i < length (st_records st))%nat -> i <> j -> record_at (with_record st i r) j = record_at st j.
Proof. intros H Hne. rewrite record_at_insert by done. by rewrite decide_False. Qed.

Lemma selected_existing st id i :
  wf_state st -> (i <= Z.to_nat (st_namespace_count st))%nat -> record_key (record_at st i) = cstr id ->
  (i = 0%nat <-> cstr id = []) -> selected st id i st.
Proof.
  intros Hw Hi Hk Hz. pose proof Hw as [Hc Hlen _ _ _].
  assert (Hb : (i < length (st_records st))%nat).
  { rewrite Hlen. unfold BPFIMA_POLICY_NAMESPACES in *. lia. }
  split; [done|done| | |].
  - intros _. rewrite <- Hk. eapply policies_lookup; [done|]. by apply live_record_at.
  - intros Hgt%Z.leb_gt. lia.
  - intros snapshot Hs Hcan cand'. destruct (update_existing st i snapshot Hw Hi Hs Hcan) as [Hw' Hp].
    split_and!; [done|by rewrite <- Hk| |].
    + unfold cand', set_snapshot. by rewrite record_at_set.
    + intros Hne. unfold cand', set_snapshot. by rewrite record_at_other.
Qed.

Lemma selected_new st id :
  wf_state st -> st_namespace_count st < Z.of_nat BPFIMA_POLICY_NAMESPACES -> cstr id <> [] ->
  (strlen id < BPFIMA_NAMESPACE_SIZE)%nat ->
  (forall i r, live_records st !! i = Some r -> record_key r <> cstr id) ->
  let n := st_namespace_count st + 1 in
  selected st id (Z.to_nat n) (with_record (with_namespace_count st n) (Z.to_nat n)
    (PolicyRecord (strscpy (zeros BPFIMA_NAMESPACE_SIZE) id BPFIMA_NAMESPACE_SIZE) zero_snapshot)).
Proof.
  intros Hw Hlt Hne Hid Habs n. pose proof Hw as [Hc Hlen _ _ _].
  unfold BPFIMA_POLICY_NAMESPACES in *.
  assert (Hb : (Z.to_nat n < length (st_records st))%nat) by (rewrite Hlen; lia).
  split.
  - cbn. by rewrite length_insert.
  - split; [lia|done].
  - intros Hle%Z.leb_le. lia.
  - intros _. by apply policies_lookup_None.
  - intros snapshot Hs Hcan cand'.
    destruct (update_new st id snapshot Hw Hlt Habs Hid Hs Hcan) as [Hw' Hp]. fold n in Hw', Hp.
    assert (Heq : cand' = with_record (with_namespace_count st n) (Z.to_nat n)
      (PolicyRecord (strscpy (zeros BPFIMA_NAMESPACE_SIZE) id BPFIMA_NAMESPACE_SIZE) snapshot)).
    { unfold cand', set_snapshot. rewrite record_at_set by done. unfold with_record; cbn.
      by rewrite list_insert_insert_eq. }
    rewrite Heq. split_and!; [done|done| |].
    + rewrite record_at_set by done. by apply cstr_strscpy_fits.
    + intros _. rewrite record_at_other by (done || lia). done.
Qed.

Lemma wp_select st id Q s :
  wf_state st -> (strlen id < BPFIMA_NAMESPACE_SIZE)%nat ->
  Q (inl (- ENOSPC)) s ->
  (forall index cand, selected st id index cand -> Q (inr (index, cand)) s) ->
  wp (select_record st id) Q s.
Proof.
  intros Hw Hid He HQ. unfold select_record. pose proof Hw as [Hc Hlen _ _ _].
  destruct (namespace_index_spec st id Hw) as [[Hz ->]|[(Hne & i & Hi & -> & Hk)|(Hne & -> & Habs)]].
  - cbn. apply wp_ret, HQ. apply selected_existing; [done|lia| |done]. rewrite Hz. apply (ws_root _ Hw).
  - destruct (Z.ltb_spec (Z.of_nat i) 0); [lia|]. rewrite Nat2Z.id. apply wp_ret, HQ.
    apply selected_existing; [done|lia|done|]. split; [lia|done].
  - destruct (Z.ltb_spec (- ENOENT) 0) as [_|]; [|done].
    destruct (Z.eqb_spec (st_namespace_count st) (Z.of_nat BPFIMA_POLICY_NAMESPACES)); [by apply wp_ret|].
    assert (Hn : to_u32 (st_namespace_count st + 1) = st_namespace_count st + 1).
    { unfold to_u32. apply Z.mod_small. unfold BPFIMA_POLICY_NAMESPACES in *. lia. }
    rewrite Hn. unfold put_record. rewrite bool_decide_true.
    + apply wp_bind, wp_ret, wp_ret, HQ. apply selected_new; try done. lia.
    + cbn [with_namespace_count st_records]. rewrite Hlen. unfold BPFIMA_POLICY_NAMESPACES in *. lia.
Qed.

(** ** Publication and the invariant *)

Lemma wf_with_generation st g : wf_state st -> wf_state (with_generation st g).
Proof. intros []. by split. Qed.

Section Apply.
Context {E : KernelEnv} {L : KernelLaws E}.

Lemma publish_done_map map m c cand index metadata s s' :
  bpf_maps (k_policy s) !! map = Some m -> length (mp_values m) = BPFIMA_POLICY_MAP_ENTRIES ->
  mp_values m !! 0%nat = Some c -> 0 <= st_generation c <= U64_MAX -> st_generation c <> U64_MAX ->
  wf_state cand -> publish_done map m c cand index metadata s s' ->
  policy_map (k_policy s') = policy_map (k_policy s) /\
  exists m', bpf_maps (k_policy s') = <[map := m']> (bpf_maps (k_policy s)) /\
    mp_refcnt m' = mp_refcnt m /\ map_ok m' (with_generation cand (st_generation c + 1)).
Proof.
  intros Hm Hl Hc Hg Hgm Hw (digest & h & s1 & s2 & _ & Hdone & Hrec & ->).
  destruct (recorded_change_maps _ _ _ _ _ Hrec) as [Hmaps Hpm].
  rewrite (cd_policy _ _ _ _ _ _ Hdone) in Hmaps, Hpm. unfold BPFIMA_POLICY_MAP_ENTRIES in Hl.
  pose proof (slot_range (st_generation c + 1)) as Hslot. split; [done|].
  eexists. split; [|split].
  - cbn. rewrite Hmaps. cbn. by rewrite list_insert_insert_eq.
  - done.
  - split; cbn; rewrite ?length_insert; try done.
    + eexists. rewrite list_lookup_insert_eq; [done|]. rewrite length_insert. lia.
    + lia.
    + rewrite list_lookup_insert_ne by lia. rewrite list_lookup_insert_eq by lia. done.
    + by apply wf_with_generation.
Qed.

Lemma publish_failed_map map m c st cand rc s s' :
  bpf_maps (k_policy s) !! map = Some m -> mp_values m !! 0%nat = Some c -> map_ok m st ->
  publish_failed map m c cand rc s s' ->
  policy_map (k_policy s') = policy_map (k_policy s) /\ k_namespaces s' = k_namespaces s /\
  exists m', bpf_maps (k_policy s') = <[map := m']> (bpf_maps (k_policy s)) /\
    mp_refcnt m' = mp_refcnt m /\ map_ok m' st.
Proof.
  intros Hm Hc Hok [[n ->]|Hcf].
  - split; [done|]. split; [done|]. exists m. split; [|done]. cbn. by rewrite list_insert_id.
  - rewrite (cf_log _ _ _ _ _ Hcf). split; [done|]. split; [done|].
    destruct Hok as [Hl (c' & Hc' & Hg) Hgen Hact Hw]. rewrite Hc in Hc'. injection Hc' as <-.
    pose proof (slot_range (st_generation c + 1)) as Hslot. pose proof (slot_next (st_generation c)) as Hne.
    eexists. split; [done|]. split; [done|].
    split; cbn; rewrite ?length_insert; try done.
    + exists c. rewrite list_lookup_insert_ne by lia. done.
    + rewrite list_lookup_insert_ne by congruence. done.
Qed.

(** ** Changes that do not touch the policy *)

(** The latch may have been set and an audit record added. *)
Definition quiet (s s' : kstate) : Prop :=
  exists n e l, s' = set_next n (set_error e (set_namespaces l s)) /\ e <= 0 /\
    (bpfima_commit_error (k_commit s) <> 0 -> e = bpfima_commit_error (k_commit s)) /\
    (l = k_namespaces s \/ exists x, l = k_namespaces s ++ [x]).

Lemma quiet_check n e s :
  bpfima_commit_error (k_commit s) <= 0 -> e < 0 \/ e = bpfima_commit_error (k_commit s) ->
  (bpfima_commit_error (k_commit s) <> 0 -> e = bpfima_commit_error (k_commit s)) ->
  quiet s (set_next n (set_error e s)).
Proof.
  intros Hle He Hl. exists n, e, (k_namespaces s). split; [by destruct s|]. split; [lia|]. auto.
Qed.

Lemma quiet_next n l s :
  bpfima_commit_error (k_commit s) <= 0 -> l = k_namespaces s \/ (exists x, l = k_namespaces s ++ [x]) ->
  quiet s (set_next n (set_namespaces l s)).
Proof.
  intros Hle Hl. exists n, (bpfima_commit_error (k_commit s)), l.
  split; [by destruct s as [? ? [] ? ? ? ? ? ?]|]. auto.
Qed.

Lemma quiet_refl n s : bpfima_commit_error (k_commit s) <= 0 -> quiet s (set_next n s).
Proof.
  intros Hle. assert (set_next n s = set_next n (set_namespaces (k_namespaces s) s)) as -> by (by destruct s).
  apply quiet_next; auto.
Qed.

Lemma wp_active_state map m st Q s :
  bpf_maps (k_policy s) !! map = Some m -> map_ok m st ->
  Q (Some (map, slot (st_generation st))) s -> wp (active_state map) Q s.
Proof.
  intros Hm [Hl (c & Hc & Hg) Hgen Hact _] HQ. unfold BPFIMA_POLICY_MAP_ENTRIES in Hl.
  unfold active_state. apply wp_bind. apply (wp_map_state _ _ m); [done|lia|].
  apply wp_bind. eapply wp_load_state; [done..|]. rewrite Hg.
  assert (truth (st_generation st) = true) as -> by (apply truth_true; lia).
  apply (wp_map_state _ _ m); [done|apply (lookup_lt_Some _ _ _ Hact)|exact HQ].
Qed.

(** ** The rule for [apply_locked] *)

Lemma validate_extension_error root extra :
  truth (validate_extension root extra) = true -> validate_extension root extra < 0.
Proof. unfold validate_extension. destruct (_ || _); [done|]. destruct (existsb _ _); [done|]. by destruct (negb _). Qed.

(** The part after the record was selected. *)
Lemma wp_check_extension cand index id snapshot Q s :
  bpfima_commit_error (k_commit s) <= 0 ->
  (forall rc s', rc < 0 -> quiet s s' -> Q (inl rc) s') ->
  (forall md s', (index = 0%nat /\ md = None \/
       index <> 0%nat /\ validate_extension (rec_snapshot (record_at cand 0)) snapshot = 0) ->
     quiet s s' -> (forall i, md = Some i -> (i < length (k_namespaces s'))%nat) ->
     Q (inr md) s') ->
  wp (check_extension cand index id snapshot) Q s.
Proof.
  intros Hle He HQ. unfold check_extension. case_bool_decide as Hz.
  - apply wp_ret. rewrite <- (set_next_eta s). apply HQ; [by left|by apply quiet_refl|done].
  - destruct (truth (validate_extension _ _)) eqn:Et.
    { apply wp_ret. rewrite <- (set_next_eta s). apply He; [by apply validate_extension_error|by apply quiet_refl]. }
    apply truth_false in Et. apply wp_bind, wp_namespace_get.
    + intros e n Hneg. apply wp_ret, He; [lia|by apply quiet_refl].
    + intros i l n Hl Hi. apply wp_ret, HQ; [by right|by apply quiet_next|]. by intros ? [= <-].
Qed.

(** A rejected snapshot gives a negative error. *)
Lemma map_err_inl {A B} (f : A -> Z + B) l e : map_err f l = inl e -> exists x, f x = inl e.
Proof.
  induction l as [|x l IH]; [done|]. cbn [map_err]. destruct (f x) as [e'|y] eqn:Ef.
  - intros [= <-]. by exists x.
  - destruct (map_err f l) as [e'|ys]; [|done]. intros [= <-]. by apply IH.
Qed.

Lemma normalize_error s e : normalize_snapshot s = inl e -> e < 0.
Proof.
  assert (Hpat : forall x e, normalize_pattern x = inl e -> e < 0).
  { intros x e'. unfold normalize_pattern. destruct (_ || _); [by intros [= <-]|]. by destruct (truth _). }
  unfold normalize_snapshot. destruct (normalize_config (sn_config s)) as [e'|] eqn:Ec.
  { intros [= <-]. revert Ec. unfold normalize_config. destruct (truth _); [by intros [= <-]|].
    destruct (_ || _); [by intros [= <-]|done]. }
  destruct (map_err _ (sn_cgroups s)) as [e'|] eqn:Eg.
  { intros [= <-]. apply map_err_inl in Eg as [x Hx]. by eapply Hpat. }
  destruct (map_err _ (sn_paths s)) as [e'|] eqn:Ep.
  { intros [= <-]. apply map_err_inl in Ep as [x Hx]. by eapply Hpat. }
  destruct (map_err _ (sn_hooks s)) as [e'|] eqn:Eh; [|done].
  intros [= <-]. apply map_err_inl in Eh as [x Hx]. revert Hx. unfold normalize_hook.
  destruct (_ || _); [by intros [= <-]|done].
Qed.

Lemma quiet_from_next n s s' : quiet (set_next n s) s' -> quiet s s'.
Proof. intros (m & e & l & -> & H). by exists m, e, l. Qed.

Lemma quiet_frame s s' :
  quiet s s' -> k_policy s' = k_policy s /\ k_hash s' = k_hash s /\
  bpfima_commit_error (k_commit s') <= 0.
Proof. intros (m & e & l & -> & He & _). by split_and!. Qed.

(** The check of the expected generation. *)
Lemma wp_stale_check map k m st eg Q s :
  bpf_maps (k_policy s) !! map = Some m -> mp_values m !! k = Some st ->
  (forall b, (b = false -> eg <> 0 -> eg = st_generation st) -> Q b s) ->
  wp (if truth eg then let* a := load_state (Some (map, k)) in ret (negb (eg =? st_generation a))
      else ret false) Q s.
Proof.
  intros Hm Hk HQ. destruct (truth eg) eqn:Et.
  - apply wp_bind. eapply wp_load_state; [done..|]. apply wp_ret, HQ.
    rewrite negb_false_iff, Z.eqb_eq. done.
  - apply wp_ret, HQ. intros _ Hne. by apply truth_false in Et.
Qed.

(** The outcomes of a request on the bound map [m] with active state [st]. *)
Lemma wp_apply_locked q map m st Q s :
  policy_map (k_policy s) = Some map -> bpf_maps (k_policy s) !! map = Some m -> map_ok m st ->
  map_bound s -> hash_ready s -> bpfima_commit_error (k_commit s) <= 0 ->
  wf_snapshot (rec_snapshot (rq_record q)) ->
  (strlen (rec_namespace_id (rq_record q)) < BPFIMA_NAMESPACE_SIZE)%nat ->
  let id := rec_namespace_id (rq_record q) in
  (forall rc s', rc < 0 -> quiet s s' -> Q rc s') ->
  (forall snapshot s', quiet s s' -> normalize_snapshot (rec_snapshot (rq_record q)) = inr snapshot ->
     policies st !! cstr id = Some snapshot ->
     (cstr id <> [] -> validate_extension (rec_snapshot (record_at st 0)) snapshot = 0) -> Q 0 s') ->
  (forall rc c cand s1 s', rc < 0 -> quiet s s1 -> mp_values m !! 0%nat = Some c ->
     publish_failed map m c cand rc s1 s' -> Q rc s') ->
  (forall snapshot c cand index md s1 s', quiet s s1 ->
     normalize_snapshot (rec_snapshot (rq_record q)) = inr snapshot ->
     (rq_expected_generation q <> 0 -> rq_expected_generation q = st_generation st) ->
     (cstr id <> [] -> validate_extension (rec_snapshot (record_at st 0)) snapshot = 0) ->
     mp_values m !! 0%nat = Some c -> st_generation c <> U64_MAX ->
     wf_state cand -> policies cand = <[cstr id := snapshot]> (policies st) ->
     record_key (record_at cand index) = cstr id ->
     publish_done map m c cand index md s1 s' -> Q 0 s') ->
  wp (apply_locked q) Q s.
Proof.
  intros Hp Hm Hok Hb Hr Herr Hws Hid id Hquiet Hsame Hpf Hpd. unfold apply_locked.
  apply wp_bind, wp_gets. rewrite Hp. unfold bpfima_commit_get_error. apply wp_bind, wp_commit_check.
  { intros e n He Hcase Hlat. apply truth_true in He as Ht. rewrite Ht. apply wp_ret, Hquiet; [lia|].
    by apply quiet_check. }
  intros n0 _. cbn [truth Z.eqb negb]. assert (Hq : forall rc n, rc < 0 -> Q rc (set_next n s)).
  { intros rc n Hrc. apply Hquiet; [done|]. by apply quiet_refl. }
  apply wp_bind. eapply wp_active_state; [exact Hm|exact Hok|].
  pose proof (mo_active _ _ Hok) as Hact. pose proof (mo_state _ _ Hok) as Hst. fold id.
  destruct (mo_control _ _ Hok) as (c & Hc & Hg).
  apply wp_bind. eapply wp_stale_check; [exact Hm|exact Hact|]. intros stale Heg.
  destruct stale; [by apply wp_ret, Hq|]. specialize (Heg eq_refl).
  apply wp_bind, wp_kalloc. intros [] n1; cbn [negb]; [|by apply wp_ret, Hq]. rewrite set_next_set_next.
  apply wp_bind. eapply wp_load_state; [exact Hm|exact Hact|].
  apply wp_bind, wp_select; [done|done|by apply wp_ret, Hq|]. intros index cand [Hbd Hzero Hold Hnew Hupd].
  destruct (normalize_snapshot (rec_snapshot (rq_record q))) as [e|snapshot] eqn:Hn.
  { apply wp_ret, Hq. apply normalize_error in Hn. lia. }
  destruct (Hupd snapshot (normalize_wf _ _ Hws Hn) (normalize_canonical _ _ Hn)) as (Hw' & Hpol & Hkey & Hroot).
  unfold put_record. rewrite bool_decide_true by done. apply wp_bind, wp_ret.
  fold (set_snapshot cand index snapshot). apply wp_bind, wp_check_extension; [done| |].
  { intros rc s' Hrc Hqs. apply wp_ret, Hquiet; [done|]. by eapply quiet_from_next. }
  intros md s1 Hval Hqs Hmd. apply quiet_from_next in Hqs.
  assert (Hfloor : cstr id <> [] -> validate_extension (rec_snapshot (record_at st 0)) snapshot = 0)
    by (intros Hne; destruct Hval as [[Hi0 _]|[Hi0 Hv]]; [by apply Hzero in Hi0|by rewrite Hroot in Hv]).
  destruct (Z.of_nat index <=? st_namespace_count st) eqn:Ei; cbn [andb];
    [case_bool_decide as Heq; [apply wp_ret, (Hsame snapshot); [done..|rewrite Heq; by apply Hold|done]|]|].
  all: destruct (quiet_frame _ _ Hqs) as (Hkp & Hkh & Hke); apply (wp_publish map m c); rewrite ?Hkp;
    [done|apply Hok|done|by intros map'; rewrite Hkp; apply Hb|by intros e; rewrite Hkh; apply Hr|done|done| |].
  1, 3: intros rc s' Hrc Hf; by eapply Hpf.
  all: intros s' Hgm Hd; by eapply Hpd.
Qed.

(** ** Invariant and view after each outcome *)

Lemma policy_inv_maps s s' map m m' st :
  policy_map (k_policy s) = Some map -> bpf_maps (k_policy s) !! map = Some m ->
  policy_map (k_policy s') = policy_map (k_policy s) ->
  bpf_maps (k_policy s') = <[map := m']> (bpf_maps (k_policy s)) -> map_ok m' st ->
  policy_inv s' /\ policy_view s' = Some st.
Proof.
  intros Hp Hm Hp' Hmaps Hok.
  assert (Hm' : bpf_maps (k_policy s') !! map = Some m').
  { rewrite Hmaps. apply list_lookup_insert_eq. by eapply lookup_lt_Some. }
  split.
  - intros map' H. rewrite Hp', Hp in H. injection H as <-. eauto.
  - unfold policy_view. rewrite Hp', Hp. simpl. rewrite Hm'. simpl. by apply map_ok_view.
Qed.

Lemma policy_inv_frame s s' :
  k_policy s' = k_policy s -> policy_inv s -> policy_inv s' /\ policy_view s' = policy_view s.
Proof. intros Hk Hi. split; [intros map; rewrite Hk; apply Hi|]. unfold policy_view. by rewrite Hk. Qed.

Lemma policy_view_map s st :
  policy_inv s -> policy_view s = Some st ->
  exists map m, policy_map (k_policy s) = Some map /\ bpf_maps (k_policy s) !! map = Some m /\ map_ok m st.
Proof.
  intros Hi Hv. destruct (policy_map (k_policy s)) as [map|] eqn:Hp.
  - destruct (policy_inv_view s map Hi Hp) as (m & st' & Hm & Hok & Hv'). exists map, m.
    split_and!; [done..|]. congruence.
  - unfold policy_view in Hv. by rewrite Hp in Hv.
Qed.

(** What an operation that may change one policy does to the store. *)
Definition store_step (id : bytes) (st : bpfima_policy_state) (rc : Z) (s' : kstate) : Prop :=
  policy_inv s' /\
  exists st', policy_view s' = Some st' /\
    (st' = st \/
     (rc = 0 /\ st_generation st' = st_generation st + 1 /\
      exists sn, wf_snapshot sn /\ canonical sn /\ policies st' = <[cstr id := sn]> (policies st))).

Lemma apply_locked_store q st s :
  policy_inv s -> policy_view s = Some st -> hash_ready s -> bpfima_commit_error (k_commit s) <= 0 ->
  wf_snapshot (rec_snapshot (rq_record q)) ->
  (strlen (rec_namespace_id (rq_record q)) < BPFIMA_NAMESPACE_SIZE)%nat ->
  let id := rec_namespace_id (rq_record q) in
  wp (apply_locked q) (fun rc s' =>
    rc <= 0 /\ policy_inv s' /\
    exists st', policy_view s' = Some st' /\
      ((st' = st /\ (rc = 0 -> exists sn, normalize_snapshot (rec_snapshot (rq_record q)) = inr sn /\
          policies st !! cstr id = Some sn)) \/
       (rc = 0 /\ st_generation st' = st_generation st + 1 /\
        (rq_expected_generation q <> 0 -> rq_expected_generation q = st_generation st) /\
        exists sn, normalize_snapshot (rec_snapshot (rq_record q)) = inr sn /\
          policies st' = <[cstr id := sn]> (policies st) /\
          (cstr id <> [] -> exists root, policies st !! [] = Some root /\ validate_extension root sn = 0)))) s.
Proof.
  intros Hi Hv Hr He Hws Hid id. destruct (policy_view_map s st Hi Hv) as (map & m & Hp & Hm & Hok).
  pose proof (mo_state _ _ Hok) as Hw. destruct (mo_control _ _ Hok) as (c0 & Hc0 & Hg0).
  apply (wp_apply_locked q map m st); try done; [by apply policy_inv_bound|..].
  - intros rc s' Hrc Hqs. destruct (quiet_frame _ _ Hqs) as (Hk & _).
    destruct (policy_inv_frame _ _ Hk Hi) as [Hi' Hv']. split_and!; [lia|done|]. exists st.
    split; [by rewrite Hv'|]. left. split; [done|lia].
  - intros sn s' Hqs Hn Hsame _. destruct (quiet_frame _ _ Hqs) as (Hk & _).
    destruct (policy_inv_frame _ _ Hk Hi) as [Hi' Hv']. split_and!; [lia|done|]. exists st.
    split; [by rewrite Hv'|]. left. split; [done|]. by exists sn.
  - intros rc c cand s1 s' Hrc Hqs Hc Hf. destruct (quiet_frame _ _ Hqs) as (Hk & _).
    destruct (publish_failed_map map m c st cand rc s1 s') as (Hp' & _ & m' & Hmaps & _ & Hok');
      [by rewrite Hk|done..|].
    destruct (policy_inv_maps s1 s' map m m' st) as [Hi' Hv']; try done; [by rewrite Hk..|].
    split_and!; [lia|done|]. exists st. split; [done|]. left. split; [done|lia].
  - intros sn c cand index md s1 s' Hqs Hn Heg Hval Hc Hgm Hwc Hpol Hkey Hd.
    destruct (quiet_frame _ _ Hqs) as (Hk & _). rewrite Hc0 in Hc. injection Hc as <-.
    pose proof (mo_generation _ _ Hok) as Hgen.
    destruct (publish_done_map map m c0 cand index md s1 s') as (Hp' & m' & Hmaps & _ & Hok');
      [by rewrite Hk|apply Hok|done|lia|done|done|done|].
    destruct (policy_inv_maps s1 s' map m m' (with_generation cand (st_generation c0 + 1))) as [Hi' Hv'];
      try done; [by rewrite Hk..|].
    split_and!; [lia|done|]. eexists. split; [done|]. right. cbn. rewrite Hg0. split_and!; [done..|].
    exists sn. split_and!; [done|exact Hpol|]. intros Hne. exists (rec_snapshot (record_at st 0)).
    split; [by apply policies_root|by apply Hval].
Qed.

(** Result 0 means that an extension respects the root, stored anew or not. *)
Lemma apply_locked_valid q st s :
  policy_inv s -> policy_view s = Some st -> hash_ready s -> bpfima_commit_error (k_commit s) <= 0 ->
  wf_snapshot (rec_snapshot (rq_record q)) ->
  (strlen (rec_namespace_id (rq_record q)) < BPFIMA_NAMESPACE_SIZE)%nat ->
  wp (apply_locked q) (fun rc _ => rc = 0 -> cstr (rec_namespace_id (rq_record q)) <> [] ->
    exists sn, normalize_snapshot (rec_snapshot (rq_record q)) = inr sn /\
      validate_extension (rec_snapshot (record_at st 0)) sn = 0) s.
Proof.
  intros Hi Hv Hr He Hws Hid. destruct (policy_view_map s st Hi Hv) as (map & m & Hp & Hm & Hok).
  apply (wp_apply_locked q map m st); try done; [by apply policy_inv_bound|lia|..].
  - intros sn s' _ Hn _ Hval _ Hne. exists sn. auto.
  - lia.
  - intros sn c cand index md s1 s' _ Hn _ Hval _ _ _ _ _ _ _ Hne. exists sn. auto.
Qed.

Lemma wp_policy_apply q st s :
  policy_inv s -> policy_view s = Some st -> hash_ready s -> bpfima_commit_error (k_commit s) <= 0 ->
  wf_request q ->
  let id := rec_namespace_id (rq_record q) in
  wp (bpfima_policy_apply (Some q)) (fun rc s' =>
    rc <= 0 /\ policy_inv s' /\
    exists st', policy_view s' = Some st' /\
      ((st' = st /\ (rc = 0 -> exists sn, normalize_snapshot (rec_snapshot (rq_record q)) = inr sn /\
          policies st !! cstr id = Some sn)) \/
       (rc = 0 /\ st_generation st' = st_generation st + 1 /\
        (rq_expected_generation q <> 0 -> rq_expected_generation q = st_generation st) /\
        exists sn, normalize_snapshot (rec_snapshot (rq_record q)) = inr sn /\
          policies st' = <[cstr id := sn]> (policies st) /\
          (cstr id <> [] -> exists root, policies st !! [] = Some root /\ validate_extension root sn = 0)))) s.
Proof.
  intros Hi Hv Hr He Hq id. unfold bpfima_policy_apply. destruct (_ || _) eqn:Eo.
  - apply wp_ret. split_and!; [by apply Z.leb_le|done|]. exists st. split; [done|]. by left.
  - rewrite !orb_false_iff, negb_false_iff in Eo. destruct Eo as [[_ Hm] _].
    destruct (wf_rq_record _ Hq) as [Hl Hs]. rewrite negb_false_iff in Hm.
    apply apply_locked_store; try done. by apply memchr_split in Hm as [? _].
Qed.

(** C14: Applying a policy refines an update of a finite map from namespaces to
    snapshots. On a bound store [bpfima_policy_apply] never faults, keeps the
    store well formed, and either leaves the active policy exactly as it was
    (every error, and a request equal to the stored policy) or, with result 0,
    replaces exactly the requested namespace's snapshot by the normalised
    request and advances the generation by one; the expected generation, when
    given, was the active one, and an extension was validated against the
    root. *)
Theorem policy_apply_refines q st s :
  policy_inv s -> policy_view s = Some st -> hash_ready s -> bpfima_commit_error (k_commit s) <= 0 ->
  wf_request q ->
  let id := rec_namespace_id (rq_record q) in
  wp (bpfima_policy_apply (Some q)) (fun rc s' =>
    policy_inv s' /\
    exists st', policy_view s' = Some st' /\
      ((st' = st /\ (rc = 0 -> exists sn, normalize_snapshot (rec_snapshot (rq_record q)) = inr sn /\
          policies st !! cstr id = Some sn)) \/
       (rc = 0 /\ st_generation st' = st_generation st + 1 /\
        (rq_expected_generation q <> 0 -> rq_expected_generation q = st_generation st) /\
        exists sn, normalize_snapshot (rec_snapshot (rq_record q)) = inr sn /\
          policies st' = <[cstr id := sn]> (policies st) /\
          (cstr id <> [] -> exists root, policies st !! [] = Some root /\ validate_extension root sn = 0)))) s.
Proof.
  intros Hi Hv Hr He Hq id. eapply wp_mono; [by apply (wp_policy_apply q st s)|]. intros rc s' [_ H]. exact H.
Qed.

(** C28: Resolution reads the finite map. For a valid context and a bound
    store, [bpfima_policy_resolve_context] returns the decision of the root
    snapshot and the namespace's extension, if it has one, at the active
    generation, and changes nothing; invalid contexts give [-EINVAL]. *)
Theorem resolve_context_reads_policies context st s :
  policy_inv s -> policy_view s = Some st ->
  length (cx_namespace_id context) = BPFIMA_NAMESPACE_SIZE ->
  length (cx_cgroup context) = BPFIMA_NAMESPACE_SIZE -> length (cx_path context) = BPFIMA_PATH_SIZE ->
  is_u32 (cx_flags context) ->
  let valid := cx_hook context < Z.of_nat HOOK_MAX /\ bits_subset (cx_flags context) 7 /\
    (strlen (cx_namespace_id context) < BPFIMA_NAMESPACE_SIZE)%nat /\
    (strlen (cx_cgroup context) < BPFIMA_NAMESPACE_SIZE)%nat /\
    (strlen (cx_path context) < BPFIMA_PATH_SIZE)%nat in
  (valid -> exists root, policies st !! [] = Some root /\
    bpfima_policy_resolve_context context s =
      Some (inr (resolve_decision (st_generation st) root
        (if decide (cstr (cx_namespace_id context) = []) then None
         else policies st !! cstr (cx_namespace_id context)) context), s)) /\
  (~ valid -> bpfima_policy_resolve_context context s = Some (inl (- EINVAL), s)).
Proof.
  intros Hi Hv H1 H2 H3 H4 valid. unfold bpfima_policy_resolve_context.
  assert (Hg : (cx_hook context >=? Z.of_nat HOOK_MAX) || truth (Z.land (cx_flags context) (not_u32 7)) ||
    negb (memchr (cx_namespace_id context) NUL BPFIMA_NAMESPACE_SIZE) ||
    negb (memchr (cx_cgroup context) NUL BPFIMA_NAMESPACE_SIZE) ||
    negb (memchr (cx_path context) NUL BPFIMA_PATH_SIZE) = false <-> valid).
  { rewrite !orb_false_iff, !negb_false_iff, truth_false, land_not_u32_zero, !strlen_lt_memchr, Z.geb_leb,
      Z.leb_gt by done. unfold valid. tauto. }
  destruct (_ || _) eqn:Eo.
  - split; [|done]. intros Hvalid. apply Hg in Hvalid. congruence.
  - split; [|intros Hn; destruct Hn; by apply Hg]. intros _.
    destruct (policy_view_map s st Hi Hv) as (map & m & Hp & Hm & Hok).
    pose proof (mo_state _ _ Hok) as Hw. exists (rec_snapshot (record_at st 0)).
    split; [by apply policies_root|].
    assert (Hwp : wp (active_state map) (fun r s' => r = Some (map, slot (st_generation st)) /\ s' = s) s)
      by (by eapply wp_active_state).
    unfold bind, gets, wp in *. rewrite Hp. destruct (active_state map s) as [[r s']|]; [|done].
    destruct Hwp as [-> ->].
    assert (Hld : wp (load_state (Some (map, slot (st_generation st)))) (fun v s' => v = st /\ s' = s) s).
    { eapply wp_load_state; [exact Hm|apply Hok|done]. }
    unfold wp in Hld. destruct (load_state _ s) as [[v s']|]; [|done]. destruct Hld as [-> ->].
    unfold ret. do 3 f_equal. case_decide as Hns.
    + destruct (namespace_index_spec st (cx_namespace_id context) Hw) as [[_ ->]|[[? _]|[? _]]]; done.
    + by rewrite namespace_index_policies.
Qed.
End Apply.
