(* ===== verification/PolicyLog.v ===== *)
(** * How policy operations move the log

    [moves s ws s']: from [s] to [s'] the log grew by the values [ws] and only
    through commits; between commits only the policy store, the namespaces,
    the call counter and the latch changed. Binding a map, applying a policy
    and updating a field are such moves, so the invariants of the log survive
    them. *)

From S2P Require Import Prelude CString Types Kernel Sample Pattern Snapshot Wire KfuncBuffer HashUtils Tpm PolicyMap Merkle MerkleSpec MerkleInv PolicyNamespace PolicyManager PolicySpec PolicyInv.

Section Log.
Context {E : KernelEnv} {L : KernelLaws E}.

(** Everything but the policy store, the namespaces and the counter. *)
Record same_core (s s' : kstate) : Prop := SameCore {
  sc_pcr : k_pcr s' = k_pcr s;
  sc_commit : k_commit s' = k_commit s;
  sc_merkle : k_merkle s' = k_merkle s;
  sc_hash : k_hash s' = k_hash s;
  sc_containers : k_containers s' = k_containers s;
  sc_securityfs : k_securityfs s' = k_securityfs s;
}.

Inductive moves : kstate -> list bytes -> kstate -> Prop :=
  | mv_frame s s' : same_core s s' -> moves s [] s'
  | mv_error e n s :
      e <= 0 -> (bpfima_commit_error (k_commit s) <> 0 -> e = bpfima_commit_error (k_commit s)) ->
      moves s [] (set_next n (set_error e s))
  | mv_failed rc s s' : commit_failed None false rc s s' -> moves s [] s'
  | mv_done value src s s' :
      (MERKLE_HASH_SIZE <= length value)%nat ->
      commit_done None value src false s s' -> moves s [take MERKLE_HASH_SIZE value] s'
  | mv_trans s1 vs s2 ws s3 : moves s1 vs s2 -> moves s2 ws s3 -> moves s1 (vs ++ ws) s3.

Lemma mv_then s1 vs s2 s3 : moves s1 vs s2 -> same_core s2 s3 -> moves s1 vs s3.
Proof. intros H1 H2. rewrite <- (app_nil_r vs). eapply mv_trans; [exact H1|by apply mv_frame]. Qed.

Lemma mv_after s1 s2 ws s3 : same_core s1 s2 -> moves s2 ws s3 -> moves s1 ws s3.
Proof. intros H1 H2. change ws with ([] ++ ws). eapply mv_trans; [by apply mv_frame|exact H2]. Qed.

Lemma log_inv_moves pcr0 vs s ws s' : moves s ws s' -> log_inv pcr0 vs s -> log_inv pcr0 (vs ++ ws) s'.
Proof.
  intros Hm. revert vs. induction Hm as [s s' [H1 H2 H3 H4 _ _]|e n s He Hl|rc s s' Hf|v src s s' Hv Hd|s1 vs1 s2 ws s3 _ IH1 _ IH2];
    intros vs Hi; rewrite ?app_nil_r.
  - destruct Hi. split; rewrite ?H1, ?H2, ?H3, ?H4; done.
  - destruct Hi as [I1 I2 I3 I4 I5 I6 I7 I8 I9]. split; cbn; auto. intros ->. apply I7.
    destruct (Z.eq_dec (bpfima_commit_error (k_commit s)) 0); [done|]. by symmetry; apply Hl.
  - by eapply commit_failed_inv.
  - by eapply (commit_done_inv None v).
  - rewrite app_assoc. apply IH2, IH1, Hi.
Qed.

(** The parts that no policy operation touches. *)
Lemma moves_frame s ws s' :
  moves s ws s' -> k_containers s' = k_containers s /\ k_securityfs s' = k_securityfs s /\
    k_hash s' = k_hash s.
Proof.
  induction 1 as [s s' []|e n s|rc s s' [Hlog]|v src s s' _ Hd|s1 vs1 s2 ws s3 _ IH1 _ IH2].
  - done.
  - done.
  - unfold same_log in Hlog. by rewrite Hlog.
  - split_and!; [apply (cd_containers _ _ _ _ _ _ Hd)|apply (cd_securityfs _ _ _ _ _ _ Hd)|apply (cd_hash _ _ _ _ _ _ Hd)].
  - destruct IH1 as (? & ? & ?), IH2 as (? & ? & ?). split_and!; congruence.
Qed.

(** ** The outcomes of a publication as moves *)

Lemma moves_staged map m g cand s : same_core s (staged map m g cand s).
Proof. done. Qed.

Lemma moves_publish_done map m c cand index md s s' :
  publish_done map m c cand index md s s' -> exists ws, moves s ws s'.
Proof.
  intros (digest & h & s1 & s2 & _ & Hd & Hr & ->). eexists.
  eapply mv_after; [apply (moves_staged map m (st_generation c) cand)|].
  eapply mv_then; [eapply mv_done; [|exact Hd]; cbn; by rewrite sha256_length|]. destruct md as [i|]; [destruct Hr as (e & _ & ->)|rewrite Hr]; done.
Qed.

Lemma moves_publish_failed map m c cand rc s s' :
  publish_failed map m c cand rc s s' -> moves s [] s'.
Proof.
  intros [[n ->]|Hf]; [by apply mv_frame|].
  eapply mv_after; [apply (moves_staged map m (st_generation c) cand)|by eapply mv_failed].
Qed.

Lemma moves_quiet s s' : quiet s s' -> moves s [] s'.
Proof.
  intros (n & e & l & -> & He & Hlat & _).
  eapply (mv_after _ (set_namespaces l s)); [done|]. by apply mv_error.
Qed.

(** ** Applying and updating *)

Definition moved (s : kstate) (rc : Z) (s' : kstate) : Prop := exists ws, moves s ws s' /\ (rc <> 0 -> ws = []).

Lemma moved_refl rc n s : moved s rc (set_next n s).
Proof. exists []. split; [by apply mv_frame|done]. Qed.

Lemma apply_locked_moved q s :
  policy_inv s -> hash_ready s -> bpfima_commit_error (k_commit s) <= 0 ->
  wf_snapshot (rec_snapshot (rq_record q)) ->
  (strlen (rec_namespace_id (rq_record q)) < BPFIMA_NAMESPACE_SIZE)%nat ->
  wp (apply_locked q) (fun rc s' => moved s rc s' /\ policy_inv s') s.
Proof.
  intros Hi Hr He Hws Hid. destruct (policy_map (k_policy s)) as [map|] eqn:Hp.
  2:{ unfold apply_locked. apply wp_bind, wp_gets. rewrite Hp. apply wp_ret.
      split; [|done]. rewrite <- (set_next_eta s) at 2. apply moved_refl. }
  destruct (policy_inv_view s map Hi Hp) as (m & st & Hm & Hok & Hv).
  apply wp_conj; [|eapply wp_mono; [by eapply (apply_locked_store q st)|by intros rc s' (_ & ? & _)]].
  eapply (wp_apply_locked q map m st); try done; [by apply policy_inv_bound|..].
  - intros rc s' _ Hq. exists []. split; [by apply moves_quiet|done].
  - intros sn s' Hq _ _ _. exists []. split; [by apply moves_quiet|done].
  - intros rc c cand s1 s' _ Hq _ Hf. exists []. split; [|done]. change (@nil bytes) with ([] ++ [] : list bytes).
    eapply mv_trans; [by apply moves_quiet|by eapply moves_publish_failed].
  - intros sn c cand index md s1 s' Hq _ _ _ _ _ _ _ _ Hd.
    destruct (moves_publish_done _ _ _ _ _ _ _ _ Hd) as [ws Hws']. exists ws. split; [|done].
    change ws with ([] ++ ws). eapply mv_trans; [by apply moves_quiet|done].
Qed.

Lemma policy_apply_moved q s :
  policy_inv s -> hash_ready s -> bpfima_commit_error (k_commit s) <= 0 -> wf_request q ->
  wp (bpfima_policy_apply (Some q)) (fun rc s' => moved s rc s' /\ policy_inv s') s.
Proof.
  intros Hi Hr He Hq. unfold bpfima_policy_apply. destruct (_ || _) eqn:Eo.
  - apply wp_ret. split; [|done]. rewrite <- (set_next_eta s) at 2. apply moved_refl.
  - rewrite !orb_false_iff, negb_false_iff in Eo. destruct Eo as [[_ Hm] _].
    destruct (wf_rq_record _ Hq) as [Hl Hs]. rewrite negb_false_iff in Hm.
    apply apply_locked_moved; try done. by apply memchr_split in Hm as [? _].
Qed.
End Log.
