(* ===== verification/PolicyBind.v ===== *)
(** * Binding the policy map

    [bpfima_policy_bind_map]: from an unbound store, a suitable frozen and
    empty map becomes the store with the default root policy at generation 1,
    and every failure leaves the map objects, their contents and their
    reference counts as they were. *)

From S2P Require Import Prelude CString Types Kernel Sample Pattern Snapshot Wire KfuncBuffer HashUtils Tpm PolicyMap Merkle MerkleSpec MerkleInv PolicyNamespace PolicyManager PolicySpec PolicyInv PolicyLog.

Definition initial_state : bpfima_policy_state :=
  with_record zero_state 0 (PolicyRecord (rec_namespace_id zero_record) bpfima_init_default_snapshot).

Lemma initial_live g : live_records (with_generation initial_state g) =
  [PolicyRecord (rec_namespace_id zero_record) bpfima_init_default_snapshot].
Proof. reflexivity. Qed.

Lemma initial_wf : wf_state initial_state.
Proof.
  split.
  - done.
  - reflexivity.
  - change (live_records initial_state) with (live_records (with_generation initial_state 0)).
    rewrite initial_live. apply Forall_singleton.
    split; [split; [reflexivity|apply default_snapshot_wf]|]. split; [apply default_snapshot_canonical|].
    unfold strlen. cbn [rec_namespace_id zero_record]. rewrite cstr_zeros. apply Nat.lt_0_succ.
  - apply cstr_zeros.
  - apply NoDup_singleton.
Qed.

Lemma initial_policies g : policies (with_generation initial_state g) = {[ [] := bpfima_init_default_snapshot ]}.
Proof.
  unfold policies. rewrite initial_live. cbn [fmap list_fmap list_to_map foldr]. unfold record_pair, record_key.
  cbn [rec_namespace_id zero_record rec_snapshot]. by rewrite cstr_zeros.
Qed.

Section Bind.
Context {E : KernelEnv} {L : KernelLaws E}.

Lemma wp_entry_stale map i m Q s :
  bpf_maps (k_policy s) !! map = Some m -> Q true s ->
  (mp_values m !! i = Some zero_state -> Q false s) -> wp (entry_stale map i) Q s.
Proof.
  intros Hm Ht Hf. unfold entry_stale. apply wp_bind. unfold map_state.
  apply wp_bind, wp_gets. rewrite Hm. apply wp_bind, wp_ret, wp_ret.
  case_bool_decide as Hi; [|by apply wp_ret].
  destruct (lookup_lt_is_Some_2 _ _ Hi) as [v Hv]. apply wp_bind. eapply wp_load_state; [done..|].
  apply wp_ret. case_bool_decide; [subst; by apply Hf|done].
Qed.

Lemma wp_zero_entry map i m Q s :
  bpf_maps (k_policy s) !! map = Some m -> (i < length (mp_values m))%nat ->
  Q tt (put_value map m i zero_state s) -> wp (zero_entry map i) Q s.
Proof.
  intros Hm Hi HQ. unfold zero_entry. apply wp_bind. apply (wp_map_state _ _ m); [done..|].
  by apply (wp_store_state _ _ m).
Qed.

Lemma put_value_lookup map m k v s :
  bpf_maps (k_policy s) !! map = Some m ->
  bpf_maps (k_policy (put_value map m k v s)) !! map = Some (set_values m (<[k := v]> (mp_values m))).
Proof. intros Hm. cbn. apply list_lookup_insert_eq. by eapply lookup_lt_Some. Qed.

(** Resetting the three entries. *)
Lemma wp_zero_entries {A} map m (rc : A) (Q : A -> kstate -> Prop) s :
  bpf_maps (k_policy s) !! map = Some m -> length (mp_values m) = 3%nat ->
  (forall s', bpf_maps (k_policy s') = <[map := set_values m (replicate 3 zero_state)]> (bpf_maps (k_policy s)) ->
     policy_map (k_policy s') = policy_map (k_policy s) -> same_core s s' -> Q rc s') ->
  wp (zero_entry map 0;; zero_entry map 1;; zero_entry map 2;; ret rc) Q s.
Proof.
  intros Hm Hl HQ.
  apply wp_bind. apply (wp_zero_entry _ _ m); [done|lia|]. pose proof (put_value_lookup map m 0 zero_state s Hm) as Hm1.
  apply wp_bind. eapply wp_zero_entry; [exact Hm1|cbn; rewrite length_insert; lia|].
  pose proof (put_value_lookup _ _ 1 zero_state _ Hm1) as Hm2.
  apply wp_bind. eapply wp_zero_entry; [exact Hm2|cbn; rewrite !length_insert; lia|].
  apply wp_ret, HQ; [|done|done]. cbn. rewrite !list_insert_insert_eq. f_equal. unfold set_values; cbn. f_equal.
  destruct (mp_values m) as [|a [|b [|d [|]]]]; try done.
Qed.

(** The section under the mutex, from an unbound store. *)
Lemma wp_bind_locked map m Q s :
  policy_map (k_policy s) = None -> bpf_maps (k_policy s) !! map = Some m ->
  length (mp_values m) = 3%nat -> hash_ready s -> bpfima_commit_error (k_commit s) <= 0 ->
  (forall rc s', rc <> 0 -> rc < 2 -> bpf_maps (k_policy s') = bpf_maps (k_policy s) ->
     policy_map (k_policy s') = None -> moves s [] s' -> Q (rc, false) s') ->
  (forall m' ws s', moves s ws s' -> policy_map (k_policy s') = Some map ->
     bpf_maps (k_policy s') = <[map := m']> (bpf_maps (k_policy s)) -> mp_refcnt m' = mp_refcnt m ->
     map_ok m' (with_generation initial_state 1) -> Q (0, true) s') ->
  wp (bind_map_locked map) Q s.
Proof.
  intros Hp Hm Hl Hr He Hfail Hok. unfold bind_map_locked. apply wp_bind, wp_gets. rewrite Hp.
  apply wp_bind, (wp_entry_stale _ _ m); [done|by apply wp_ret, Hfail, mv_frame|]. intros H0.
  apply wp_bind, (wp_entry_stale _ _ m); [done|by apply wp_ret, Hfail, mv_frame|]. intros H1.
  apply wp_bind, (wp_entry_stale _ _ m); [done|by apply wp_ret, Hfail, mv_frame|]. intros H2.
  fold initial_state.
  assert (Hvals : mp_values m = replicate 3 zero_state).
  { destruct (mp_values m) as [|a [|b [|d [|]]]]; try done. by simplify_eq/=. }
  assert (Hb : map_bound s) by (intros map' Hmap'; congruence).
  apply wp_bind. apply (wp_publish map m zero_state); [done|by rewrite Hl|done|done|done|done|done| |].
  - intros rc s' Hrc Hf. destruct (Z.eqb_spec rc 0); [lia|].
    assert (Hm' : exists k x, bpf_maps (k_policy s') =
        <[map := set_values m (<[k := x]> (mp_values m))]> (bpf_maps (k_policy s)) /\
        policy_map (k_policy s') = None).
    { destruct Hf as [[n' ->]|Hcf].
      - exists 0%nat, zero_state. split; [|done]. cbn. rewrite (list_insert_id (mp_values m)) by done.
        symmetry. apply list_insert_id. rewrite Hm. by destruct m.
      - rewrite (cf_log _ _ _ _ _ Hcf). by eexists _, _. }
    destruct Hm' as (k & x & Hmaps & Hpm).
    apply (wp_zero_entries map (set_values m (<[k := x]> (mp_values m)))).
    + rewrite Hmaps. apply list_lookup_insert_eq. by eapply lookup_lt_Some.
    + cbn. by rewrite length_insert.
    + intros s2 Hmaps2 Hpm2 Hc2. apply Hfail; [done|lia| |by rewrite Hpm2|
        eapply mv_then; [by eapply moves_publish_failed|exact Hc2]].
      rewrite Hmaps2, Hmaps, list_insert_insert_eq. apply list_insert_id. rewrite Hm. f_equal.
      rewrite <- Hvals. by destruct m.
  - intros s' Hgm Hd. cbn [Z.eqb]. apply wp_bind, wp_modify, wp_ret.
    destruct (publish_done_map map m zero_state initial_state 0 None s s') as (Hp' & m' & Hmaps & Href & Hok');
      [done|by rewrite Hl|done|done|done|apply initial_wf|done|].
    destruct (moves_publish_done _ _ _ _ _ _ _ _ Hd) as [ws Hws].
    apply (Hok m' ws); try done. by eapply mv_then.
Qed.

(** The two outcomes: bound to the default policy with one more reference, or
    nothing changed. *)
Definition bind_outcome (map : nat) (m : bpf_map) (s : kstate) (rc : Z) (s' : kstate) : Prop :=
  moved s rc s' /\
  ((rc = 0 /\ policy_inv s' /\ policy_map (k_policy s') = Some map /\
   (exists m', bpf_maps (k_policy s') = <[map := m']> (bpf_maps (k_policy s)) /\
      mp_refcnt m' = mp_refcnt m + 1) /\
   exists st, policy_view s' = Some st /\ st_generation st = 1 /\
     policies st = {[ [] := bpfima_init_default_snapshot ]}) \/
  (rc <> 0 /\ rc < 2 /\ policy_map (k_policy s') = None /\ bpf_maps (k_policy s') = bpf_maps (k_policy s))).

Lemma wp_bind_map fd map m s :
  env_map_get fd = inr map -> bpf_maps (k_policy s) !! map = Some m ->
  Z.of_nat (length (mp_values m)) = mp_max_entries m ->
  policy_map (k_policy s) = None -> hash_ready s -> bpfima_commit_error (k_commit s) <= 0 ->
  wp (bpfima_policy_bind_map fd) (bind_outcome map m s) s.
Proof.
  intros Hfd Hm Hlen Hp Hr He. unfold bpfima_policy_bind_map, bpf_map_get. rewrite Hfd.
  apply wp_bind, wp_bind, wp_gets. rewrite Hm. apply wp_bind, wp_ret, wp_bind, wp_modify, wp_ret.
  set (m1 := with_refcnt m (mp_refcnt m + 1)).
  set (s1 := set_maps (<[map := m1]> (bpf_maps (k_policy s))) s).
  assert (Hm1 : bpf_maps (k_policy s1) !! map = Some m1).
  { apply list_lookup_insert_eq. by eapply lookup_lt_Some. }
  assert (Hfail : forall rc s2, rc <> 0 -> rc < 2 -> bpf_maps (k_policy s2) = bpf_maps (k_policy s1) ->
    policy_map (k_policy s2) = None -> moves s [] s2 ->
    wp (bpf_map_put map;; ret rc) (bind_outcome map m s) s2).
  { intros rc s2 Hrc Hlt Hmaps Hpm Hmv. unfold bpf_map_put. apply wp_bind, wp_bind, wp_gets. rewrite Hmaps, Hm1.
    apply wp_bind, wp_ret, wp_modify, wp_ret.
    split; [exists []; split; [by eapply mv_then|done]|]. right. split_and!; [done|done|done|]. cbn.
    rewrite list_insert_insert_eq. apply list_insert_id. rewrite Hm. f_equal.
    destruct m; unfold with_refcnt; cbn. f_equal. lia. }
  apply wp_bind. unfold bind_map_checked. apply wp_bind, wp_gets. rewrite Hm1. apply wp_bind, wp_ret.
  destruct (_ || _) eqn:Eo; [by apply wp_ret, Hfail, mv_frame|].
  rewrite !orb_false_iff, !negb_false_iff, !Z.eqb_eq in Eo. destruct Eo as [[_ Hme] _].
  destruct (negb (mp_frozen m1)); [by apply wp_ret, Hfail, mv_frame|].
  destruct (truth (mp_writecnt m1)); [by apply wp_ret, Hfail, mv_frame|].
  apply wp_bind, wp_kalloc. intros [] n; cbn [negb]; [|by apply wp_ret, Hfail, mv_frame].
  assert (Hl3 : length (mp_values m1) = 3%nat).
  { change (mp_values m1) with (mp_values m). change (mp_max_entries m1) with (mp_max_entries m) in Hme.
    rewrite Hme in Hlen. unfold BPFIMA_POLICY_MAP_ENTRIES in Hlen. lia. }
  apply (wp_bind_locked map m1); [done|exact Hm1|exact Hl3|done|done| |].
  - intros rc s2 Hrc Hlt Hmaps Hpm Hmv. apply Hfail; [done..|].
    by apply (mv_after _ (set_next n s1)).
  - intros m' ws s2 Hmv Hpm Hmaps Href Hok. apply wp_bind, wp_ret, wp_ret.
    split; [exists ws; split; [by apply (mv_after _ (set_next n s1))|done]|]. left.
    assert (Hmaps' : bpf_maps (k_policy s2) = <[map := m']> (bpf_maps (k_policy s))).
    { rewrite Hmaps. cbn. by rewrite list_insert_insert_eq. }
    assert (Hm2 : bpf_maps (k_policy s2) !! map = Some m').
    { rewrite Hmaps'. apply list_lookup_insert_eq. by eapply lookup_lt_Some. }
    split; [done|]. split; [intros map' Hmap'; rewrite Hpm in Hmap'; injection Hmap' as <-; eauto|].
    split; [done|]. split; [exists m'; by split|].
    exists (with_generation initial_state 1). split_and!; [|done|apply initial_policies].
    unfold policy_view. rewrite Hpm. simpl. rewrite Hm2. simpl. by apply map_ok_view.
Qed.

(** C29: Binding is all or nothing. From an unbound store, binding the map
    behind [fd] never faults; on success the store is well formed, holds
    exactly the default root policy at generation 1 and keeps one reference on
    the map; on every failure the store stays unbound and all map objects,
    their values and their reference counts are exactly as before. *)
Theorem policy_bind_map_spec fd map m s :
  env_map_get fd = inr map -> bpf_maps (k_policy s) !! map = Some m ->
  Z.of_nat (length (mp_values m)) = mp_max_entries m ->
  policy_map (k_policy s) = None -> hash_ready s -> bpfima_commit_error (k_commit s) <= 0 ->
  wp (bpfima_policy_bind_map fd) (bind_outcome map m s) s.
Proof. exact (wp_bind_map fd map m s). Qed.

(** A descriptor that the kernel resolves to a live array. *)
Definition fd_ok (fd : Z) (s : kstate) : Prop :=
  match env_map_get fd with
  | inl e => e < 0
  | inr map => exists m, bpf_maps (k_policy s) !! map = Some m /\ Z.of_nat (length (mp_values m)) = mp_max_entries m
  end.

(** Taking and dropping a reference is invisible. *)
Lemma refcnt_roundtrip map m s s' :
  bpf_maps (k_policy s) !! map = Some m ->
  k_policy s' = k_policy (set_maps (<[map := with_refcnt m (mp_refcnt m + 1)]> (bpf_maps (k_policy s))) s) ->
  forall (rc : Z) (Q : Z -> kstate -> Prop),
  (forall s'', k_policy s'' = k_policy s -> same_core s' s'' -> Q rc s'') ->
  wp (bpf_map_put map;; ret rc) Q s'.
Proof.
  intros Hm Hs rc Q HQ. unfold bpf_map_put. apply wp_bind, wp_bind, wp_gets. rewrite Hs. cbn.
  apply wp_bind, wp_deref. eexists. split; [apply list_lookup_insert_eq; by eapply lookup_lt_Some|].
  apply wp_modify, wp_ret, HQ; [|done]. cbn. rewrite Hs. cbn. rewrite list_insert_insert_eq, list_insert_id.
  - by destruct (k_policy s).
  - rewrite Hm. f_equal. destruct m; unfold with_refcnt; cbn. f_equal. lia.
Qed.

(** Binding again, or another map, changes nothing. *)
Lemma bind_map_bound fd e s :
  policy_map (k_policy s) = Some e -> fd_ok fd s -> bpfima_commit_error (k_commit s) <= 0 ->
  wp (bpfima_policy_bind_map fd) (fun rc s' => moved s rc s' /\ k_policy s' = k_policy s) s.
Proof.
  intros Hp Hfd He. unfold bpfima_policy_bind_map, bpf_map_get, fd_ok in *.
  destruct (env_map_get fd) as [err|map]; [apply wp_bind, wp_ret, wp_ret; split; [|done];
    rewrite <- (set_next_eta s) at 2; apply moved_refl|].
  destruct Hfd as (m & Hm & _). apply wp_bind, wp_bind, wp_gets. rewrite Hm.
  apply wp_bind, wp_ret, wp_bind, wp_modify, wp_ret.
  set (m1 := with_refcnt m (mp_refcnt m + 1)).
  set (s1 := set_maps (<[map := m1]> (bpf_maps (k_policy s))) s).
  assert (Hm1 : bpf_maps (k_policy s1) !! map = Some m1).
  { apply list_lookup_insert_eq. by eapply lookup_lt_Some. }
  assert (Hend : forall rc s2, k_policy s2 = k_policy s1 -> moves s [] s2 ->
    wp (bpf_map_put map;; ret rc) (fun rc s' => moved s rc s' /\ k_policy s' = k_policy s) s2).
  { intros rc s2 Hs2 Hmv. apply (refcnt_roundtrip map m s s2 Hm Hs2). intros s3 Hs3 Hc. split; [|done].
    exists []. split; [by eapply mv_then|done]. }
  apply wp_bind. unfold bind_map_checked. apply wp_bind, wp_gets. rewrite Hm1. apply wp_bind, wp_ret.
  destruct (_ || _); [by apply wp_ret, Hend, mv_frame|].
  destruct (negb (mp_frozen m1)); [by apply wp_ret, Hend, mv_frame|].
  destruct (truth (mp_writecnt m1)); [by apply wp_ret, Hend, mv_frame|].
  apply wp_bind, wp_kalloc. intros [] n; cbn [negb]; [|by apply wp_ret, Hend, mv_frame].
  unfold bind_map_locked. apply wp_bind, wp_gets. change (policy_map (k_policy (set_next n s1))) with
    (policy_map (k_policy s)). rewrite Hp. case_bool_decide; [|by apply wp_ret, Hend, mv_frame].
  apply wp_bind, wp_commit_check.
  - intros rc n' Hrc Hcase Hlat. apply wp_ret, Hend; [done|]. apply (mv_after _ s1); [done|].
    change (set_next n' (set_error rc (set_next n s1))) with (set_next n' (set_error rc s1)).
    apply mv_error; [|done]. cbn in Hcase. destruct Hcase as [Hlt| ->]; [lia|done].
  - intros n' _. by apply wp_ret, Hend, mv_frame.
Qed.
End Bind.

(** ** The theorems on a concrete kernel *)

(** The sample module with the default policy at generation 1. *)
Definition bound_map : bpf_map :=
  set_values sample_map [with_generation zero_state 1; zero_state; with_generation initial_state 1].

Definition bound_state : kstate :=
  set_policy (ManagerState (Some 0%nat) [bound_map] []) sample_state.

Lemma bound_map_ok : map_ok bound_map (with_generation initial_state 1).
Proof.
  split.
  - reflexivity.
  - by eexists.
  - by vm_compute.
  - reflexivity.
  - apply wf_with_generation, initial_wf.
Qed.

Lemma bound_state_inv : policy_inv bound_state.
Proof. intros map [= <-]. exists bound_map, (with_generation initial_state 1). split; [done|apply bound_map_ok]. Qed.

Lemma bound_state_view : policy_view bound_state = Some (with_generation initial_state 1).
Proof. reflexivity. Qed.

Lemma sample_hash_ready : hash_ready bound_state.
Proof. intros e. discriminate. Qed.

Lemma policy_bind_map_spec_witness :
  wp (bpfima_policy_bind_map (E := tpm_env) 3) (bind_outcome (E := tpm_env) 0 sample_map sample_state) sample_state.
Proof.
  apply (policy_bind_map_spec (E := tpm_env) 3 0 sample_map sample_state).
  - reflexivity.
  - reflexivity.
  - reflexivity.
  - reflexivity.
  - intros e. discriminate.
  - vm_compute. discriminate.
Defined.

Lemma policy_apply_refines_witness :
  wp (bpfima_policy_apply (E := tpm_env) (Some default_request)) (fun rc s' => policy_inv s') bound_state.
Proof.
  eapply wp_mono.
  - apply (policy_apply_refines (E := tpm_env) default_request (with_generation initial_state 1) bound_state
      bound_state_inv bound_state_view sample_hash_ready).
    + vm_compute. discriminate.
    + apply default_request_wf.
  - intros rc s' [H _]. exact H.
Defined.

Definition sample_context : bpfima_policy_context :=
  PolicyContext (strscpy (zeros 128) (lit "web") 128) (zeros 128) (strscpy (zeros 256) (lit "/bin/sh") 256)
    100 0 1.

Lemma resolve_context_reads_policies_witness :
  exists root, policies (with_generation initial_state 1) !! [] = Some root /\
    bpfima_policy_resolve_context sample_context bound_state =
      Some (inr (resolve_decision 1 root (policies (with_generation initial_state 1) !! lit "web")
        sample_context), bound_state).
Proof.
  destruct (resolve_context_reads_policies sample_context (with_generation initial_state 1) bound_state
    bound_state_inv bound_state_view) as [H _].
  - reflexivity.
  - reflexivity.
  - reflexivity.
  - vm_compute. split; congruence.
  - destruct H as (root & Hr & H).
    + split; [reflexivity|]. split; [apply bits_subset_lor_l with (b := 7)|].
      split; [apply (Nat.ltb_lt 3 128); reflexivity|].
      split; [apply (Nat.ltb_lt 0 128); reflexivity|apply (Nat.ltb_lt 7 256); reflexivity].
    + exists root. split; [exact Hr|exact H].
Defined.
