(* ===== verification/PolicyAudit.v ===== *)
(** * Policy audit records and scalar updates

    The audit string of a policy change identifies the generation, the
    namespace and the snapshot digest; [bpfima_policy_update_field] refines an
    update of one field of one policy. *)

From S2P Require Import Prelude CString Types Kernel Sample Pattern Snapshot Wire KfuncBuffer HashUtils Tpm PolicyMap Merkle MerkleSpec MerkleInv PolicyNamespace PolicyManager PolicySpec PolicyInv PolicyLog PolicyBind.

(** ** The audit string *)

Lemma split_first {A} (x : A) a b a' b' :
  x ∉ a -> x ∉ a' -> a ++ x :: b = a' ++ x :: b' -> a = a' /\ b = b'.
Proof.
  revert a'. induction a as [|y a IH]; intros [|y' a'] Ha Ha' H; simplify_eq/=; try done.
  - exfalso. apply Ha'. apply elem_of_cons. by left.
  - exfalso. apply Ha. apply elem_of_cons. by left.
  - rewrite not_elem_of_cons in Ha, Ha'. destruct (IH a') as [-> ->]; naive_solver.
Qed.

Definition decimal_value (bs : bytes) : Z := foldl (fun acc b => acc * 10 + (u8_val b - 48)) 0 bs.

Lemma decimal_digit_val z : 0 <= z < 10 -> u8_val (decimal_digit z) = 48 + z.
Proof. intros Hz. unfold decimal_digit. rewrite u8_val_to_u8. apply Z.mod_small. lia. Qed.

Lemma decimal_fuel_value n z : 0 <= z < 10 ^ Z.of_nat n -> decimal_value (decimal_fuel n z) = z.
Proof.
  revert z. induction n as [|n IH]; intros z Hz;
    [change (10 ^ Z.of_nat 0) with 1 in Hz; cbn; lia|]. cbn [decimal_fuel].
  pose proof (Z.mod_pos_bound z 10 ltac:(lia)) as Hm. unfold decimal_value. rewrite foldl_app. cbn [foldl].
  rewrite decimal_digit_val by lia. fold (decimal_value (if z <? 10 then [] else decimal_fuel n (z / 10))).
  rewrite Nat2Z.inj_succ, Z.pow_succ_r in Hz by lia.
  destruct (Z.ltb_spec z 10).
  - cbn. rewrite Z.mod_small by lia. lia.
  - rewrite IH; [pose proof (Z.div_mod z 10); lia|].
    split; [apply Z.div_pos; lia|apply Z.div_lt_upper_bound; lia].
Qed.

Lemma decimal_fuel_digits n z b : b ∈ decimal_fuel n z -> 48 <= u8_val b < 58.
Proof.
  revert z. induction n as [|n IH]; intros z; [by intros ?%not_elem_of_nil|]. cbn [decimal_fuel].
  rewrite elem_of_app, list_elem_of_singleton. intros [H| ->].
  - destruct (z <? 10); [by apply not_elem_of_nil in H|]. by eapply IH.
  - pose proof (Z.mod_pos_bound z 10 ltac:(lia)). rewrite decimal_digit_val by lia. lia.
Qed.

Lemma decimal_fuel_length n z : (length (decimal_fuel n z) <= n)%nat.
Proof.
  revert z. induction n as [|n IH]; intros z; [done|]. cbn [decimal_fuel]. rewrite length_app. cbn [length].
  destruct (z <? 10); [simpl; lia|]. pose proof (IH (z / 10)). lia.
Qed.

Lemma hex_byte_inj a b : hex_byte a = hex_byte b -> a = b.
Proof.
  intros [= H1 H2].
  assert (Hd : forall x y, 0 <= x < 16 -> 0 <= y < 16 -> hex_digit x = hex_digit y -> x = y).
  { intros x y Hx Hy H. rewrite <- (Z2Nat.id x), <- (Z2Nat.id y) by lia. f_equal.
    assert (Hnx : (Z.to_nat x < 16)%nat) by lia. assert (Hny : (Z.to_nat y < 16)%nat) by lia.
    revert H Hnx Hny. unfold hex_digit. generalize (Z.to_nat x), (Z.to_nat y).
    intros i j. do 16 (destruct i as [|i]; [do 16 (destruct j as [|j]; [try done; vm_compute; congruence|]); lia|]). lia. }
  pose proof (u8_val_bound a). pose proof (u8_val_bound b).
  apply Hd in H1; [|split; [apply Z.div_pos|apply Z.div_lt_upper_bound]; lia..].
  apply Hd in H2; [|apply Z.mod_pos_bound; lia..].
  apply u8_val_inj. rewrite (Z.div_mod (u8_val a) 16), (Z.div_mod (u8_val b) 16), H1, H2; lia.
Qed.

Lemma hex_inj d d' : length d = length d' -> hex d = hex d' -> d = d'.
Proof.
  revert d'. induction d as [|a d IH]; intros [|b d'] Hl H; simplify_eq/=; try done.
  f_equal; [apply hex_byte_inj; unfold hex_byte; congruence|by apply IH].
Qed.

Lemma hex_length d : length (hex d) = (2 * length d)%nat.
Proof. induction d as [|a d IH]; [done|]. cbn. unfold hex in IH. rewrite IH. lia. Qed.

(** The name of a namespace in the audit string. *)
Definition audit_name (id : bytes) : bytes := if Byte.eqb (char_at id 0) NUL then ROOT_NAME else cstr id.

Definition audit_id_ok (id : bytes) : Prop := cstr id = [] \/ valid_namespace id = true.

Lemma valid_namespace_chars id b : valid_namespace id = true -> b ∈ cstr id -> bad_char b = false.
Proof.
  unfold valid_namespace. destruct (_ || _); [done|]. rewrite negb_true_iff. intros H Hin.
  apply (proj1 (existsb_false _ _) H). by apply list_elem_of_In.
Qed.

Lemma valid_namespace_nonroot id : valid_namespace id = true -> cstr id <> [] /\ cstr id <> ROOT_NAME.
Proof.
  unfold valid_namespace. destruct (_ || _) eqn:Eo; [done|]. intros _.
  rewrite !orb_false_iff, truth_false, validate_namespace_spec, strcmp_eqb, bool_decide_eq_false in Eo.
  destruct Eo as [[_ (Hne & _)] Hroot]. split; [done|]. by change (cstr ROOT_NAME) with ROOT_NAME in Hroot.
Qed.

Lemma audit_name_no_colon id : audit_id_ok id -> x3a ∉ audit_name id.
Proof.
  unfold audit_name. intros Hok Hin. destruct (Byte.eqb (char_at id 0) NUL) eqn:Ec.
  - by repeat (apply elem_of_cons in Hin as [Hin|Hin]; [discriminate Hin|]); apply not_elem_of_nil in Hin.
  - apply char_at_cstr_nonempty in Ec. destruct Hok as [?|Hv]; [done|].
    by pose proof (valid_namespace_chars _ _ Hv Hin).
Qed.

Lemma audit_name_inj id id' :
  audit_id_ok id -> audit_id_ok id' -> audit_name id = audit_name id' -> cstr id = cstr id'.
Proof.
  unfold audit_name. intros H H'.
  destruct (Byte.eqb (char_at id 0) NUL) eqn:Ec, (Byte.eqb (char_at id' 0) NUL) eqn:Ec'.
  - apply char_at_nil_iff in Ec, Ec'. congruence.
  - apply char_at_cstr_nonempty in Ec'. destruct H' as [?|Hv]; [done|].
    apply valid_namespace_nonroot in Hv as [_ Hv]. congruence.
  - apply char_at_cstr_nonempty in Ec. destruct H as [?|Hv]; [done|].
    apply valid_namespace_nonroot in Hv as [_ Hv]. congruence.
  - done.
Qed.

(** A policy change is identified by its audit string: it fits the 512-byte
    field, so nothing is cut off, and two strings that are equal name the same
    generation, the same namespace and the same snapshot digest. *)
Theorem policy_change_text_injective g id d g' id' d' :
  0 <= g <= U64_MAX -> 0 <= g' <= U64_MAX -> audit_id_ok id -> audit_id_ok id' ->
  (strlen id < BPFIMA_NAMESPACE_SIZE)%nat ->
  length d = MERKLE_HASH_SIZE -> length d' = MERKLE_HASH_SIZE ->
  (length (policy_change_text g id d) < MAX_POLICY_STRING_SIZE)%nat /\
  (policy_change_text g id d = policy_change_text g' id' d' -> g = g' /\ cstr id = cstr id' /\ d = d').
Proof.
  intros Hg Hg' Hid Hid' Hlen Hd Hd'. unfold policy_change_text. fold (audit_name id). fold (audit_name id').
  rewrite !take_ge by lia. split.
  - rewrite !length_app, hex_length, Hd. pose proof (decimal_fuel_length 20 g) as Hdec. unfold decimal.
    assert (length (audit_name id) <= 128)%nat.
    { unfold audit_name. destruct (Byte.eqb _ _); [vm_compute; lia|].
      unfold strlen, BPFIMA_NAMESPACE_SIZE in Hlen. lia. }
    unfold MAX_POLICY_STRING_SIZE, MERKLE_HASH_SIZE. cbn [length lit]. 
    change (length (lit "policy_v2:")) with 10%nat. lia.
  - intros H. apply app_inv_head in H. cbn [app] in H.
    assert (Hdig : forall z, x3a ∉ decimal z).
    { intros z Hin. apply decimal_fuel_digits in Hin. vm_compute in Hin. destruct Hin. congruence. }
    apply split_first in H as [Hgen H]; [|apply Hdig..].
    apply split_first in H as [Hname Hhex]; [|by apply audit_name_no_colon..].
    assert (Hpow : U64_MAX < 10 ^ Z.of_nat 20) by (by vm_compute).
    split_and!.
    + rewrite <- (decimal_fuel_value 20 g), <- (decimal_fuel_value 20 g') by lia. by f_equal.
    + by apply audit_name_inj.
    + apply hex_inj; [congruence|done].
Qed.

Lemma policy_change_text_injective_witness :
  (length (policy_change_text 2 (strscpy (zeros 128) (lit "web") 128) (replicate 32 x41)) <
   MAX_POLICY_STRING_SIZE)%nat.
Proof.
  destruct (policy_change_text_injective 2 (strscpy (zeros 128) (lit "web") 128) (replicate 32 x41) 3 (zeros 128) (replicate 32 x41))
    as [H _].
  - vm_compute. split; discriminate.
  - vm_compute. split; discriminate.
  - right. reflexivity.
  - left. reflexivity.
  - apply (Nat.ltb_lt 3 128). reflexivity.
  - reflexivity.
  - reflexivity.
  - exact H.
Defined.

(** ** Scalar updates *)

Lemma edit_field_wf field value p p' :
  is_u32 value -> wf_config p -> edit_field field value p = Some p' -> wf_config p'.
Proof.
  intros Hv (H1 & H2 & H3 & H4 & H5 & H6 & H7 & H8 & H9). unfold edit_field.
  assert (is_u8 (value mod 256)) by (unfold is_u8; apply Z.mod_pos_bound; lia).
  repeat (destruct (_ =? 0); [first [destruct (value >? 1); [done|]|idtac]; intros [= <-]; by split_and!|]). done.
Qed.

(** Normalising an edited canonical snapshot changes nothing. *)
Lemma normalize_set_config s p sn :
  canonical s -> normalize_snapshot (set_config s p) = inr sn -> sn = set_config s p.
Proof.
  intros (_ & C2 & C3 & C4)%normalize_snapshot_inv (N1 & N2 & N3 & N4)%normalize_snapshot_inv.
  cbn [set_config sn_config sn_cgroups sn_paths sn_hooks] in *.
  assert (Heq : forall A (f : A -> Z + A) l l', Forall2 (fun x y => f x = inr y) l l ->
    Forall2 (fun x y => f x = inr y) l l' -> l = l').
  { intros A f l l' H H'. revert l' H'. induction l as [|x l IH]; intros [|y l'] H'; try (by inversion H').
    apply Forall2_cons in H as [Hx H], H' as [Hx' H']. f_equal; [congruence|by apply IH]. }
  apply normalize_config_fixed in N1. destruct sn as [p' cg pa hk]; cbn in *. unfold set_config.
  rewrite <- (Heq _ _ _ _ C2 N2), <- (Heq _ _ _ _ C3 N3), <- (Heq _ _ _ _ C4 N4). by subst.
Qed.

(** The snapshot that a scalar update starts from. *)
Definition update_base (st : bpfima_policy_state) (id : option bytes) : bpfima_policy_snapshot :=
  let root := rec_snapshot (record_at st 0) in
  match id with
  | None => root
  | Some id => match policies st !! cstr id with Some s => rebase_extension root s | None => root end
  end.

Lemma live_record_ok st i :
  wf_state st -> (i <= Z.to_nat (st_namespace_count st))%nat ->
  wf_snapshot (rec_snapshot (record_at st i)) /\ canonical (rec_snapshot (record_at st i)).
Proof.
  intros Hw Hi. pose proof (ws_records _ Hw) as H. rewrite Forall_lookup in H.
  destruct (H _ _ (live_record_at st i Hw Hi)) as ([_ ?] & ? & _). done.
Qed.

(** The base that the code computes from the index is [update_base]. *)
Lemma update_base_code st id :
  wf_state st -> match id with Some id => cstr id <> [] | None => True end ->
  let index := namespace_index st id in
  let index := if index <? 0 then 0 else index in
  (if index >? 0 then rebase_extension (rec_snapshot (record_at st 0))
     (rec_snapshot (record_at st (Z.to_nat index))) else rec_snapshot (record_at st (Z.to_nat index))) =
  update_base st id /\ wf_snapshot (update_base st id) /\ canonical (update_base st id).
Proof.
  intros Hw Hid. destruct (live_record_ok st 0 Hw ltac:(lia)) as [Hrw Hrc]. destruct id as [id|]; [|done].
  unfold update_base.
  destruct (namespace_index_spec st id Hw) as [[? _]|[(_ & i & Hi & -> & Hk)|(_ & -> & Hnone)]]; [done| |].
  - destruct (Z.ltb_spec (Z.of_nat i) 0); [lia|]. cbv zeta. destruct (Z.gtb_spec (Z.of_nat i) 0); [|lia].
    rewrite Nat2Z.id, <- Hk, (policies_lookup st i (record_at st i) Hw (live_record_at st i Hw ltac:(lia))).
    destruct (live_record_ok st i Hw ltac:(lia)) as [Hiw Hic].
    split_and!; [done|by apply rebase_wf|by apply rebase_canonical].
  - rewrite policies_lookup_None by done. done.
Qed.

Section UpdateField.
Context {E : KernelEnv} {L : KernelLaws E}.

Definition key_of (id : option bytes) : bytes := match id with Some id => cstr id | None => [] end.

(** The update is a request for the edited base, or fails early. *)
Lemma wp_update_field id field value map m st Q s :
  policy_map (k_policy s) = Some map -> bpf_maps (k_policy s) !! map = Some m -> map_ok m st -> is_u32 value ->
  (forall rc n, rc < 0 -> Q rc (set_next n s)) ->
  (forall config ns n, edit_field field value (sn_config (update_base st id)) = Some config ->
     canonical (update_base st id) -> wf_snapshot (set_config (update_base st id) config) ->
     cstr ns = key_of id -> (id <> None -> key_of id <> []) -> (strlen ns < BPFIMA_NAMESPACE_SIZE)%nat ->
     wp (apply_locked (PolicyRequest BPFIMA_POLICY_VERSION 0 0
           (PolicyRecord ns (set_config (update_base st id) config)))) Q (set_next n s)) ->
  wp (bpfima_policy_update_field id (Some field) value) Q s.
Proof.
  intros Hp Hm Hok Hval Hstay Hgo. pose proof (mo_state _ _ Hok) as Hw. unfold bpfima_policy_update_field.
  destruct (match id with Some id => negb (valid_namespace id) | None => false end) eqn:Evalid.
  { apply wp_ret. rewrite <- (set_next_eta s). by apply Hstay. }
  assert (Hne : match id with Some id => cstr id <> [] | None => True end).
  { destruct id as [id|]; [|done]. apply negb_false_iff in Evalid. by apply valid_namespace_nonroot in Evalid as [? _]. }
  apply wp_bind, wp_kalloc. intros [] n; cbn [negb]; [|by apply wp_ret, Hstay].
  apply wp_bind, wp_gets. cbn [set_next k_policy]. rewrite Hp.
  apply wp_bind. eapply wp_active_state; [exact Hm|exact Hok|].
  apply wp_bind. eapply wp_load_state; [exact Hm|apply Hok|].
  destruct (update_base_code st id Hw Hne) as (Hbase & Hbw & Hbc). cbv zeta in Hbase. cbv zeta. rewrite Hbase.
  destruct (edit_field field value (sn_config (update_base st id))) as [config|] eqn:Eed; [|by apply wp_ret, Hstay].
  set (ns := match id with Some id => _ | None => _ end).
  assert (Hk : (length (key_of id) < BPFIMA_NAMESPACE_SIZE)%nat).
  { destruct id as [id|]; [|apply Nat.lt_0_succ]. apply negb_false_iff in Evalid.
    unfold valid_namespace in Evalid. destruct (memchr id NUL BPFIMA_NAMESPACE_SIZE) eqn:Em; [|done].
    by apply memchr_split in Em as [? _]. }
  assert (Hc : cstr ns = key_of id) by (destruct id; [by apply cstr_strscpy_fits|apply cstr_zeros]).
  apply Hgo; try done; [|by destruct id|unfold strlen; by rewrite Hc].
  destruct Hbw. split; try done. by eapply edit_field_wf.
Qed.

(** The policy that an update asks for. *)
Definition edited_policy (st : bpfima_policy_state) (id : option bytes) (field : bytes) (value : Z)
    : option bpfima_policy_snapshot :=
  set_config (update_base st id) <$> edit_field field value (sn_config (update_base st id)).

Lemma wp_update_field_store id field value st s :
  policy_inv s -> policy_view s = Some st -> hash_ready s -> bpfima_commit_error (k_commit s) <= 0 ->
  is_u32 value ->
  wp (bpfima_policy_update_field id (Some field) value) (fun rc s' =>
    rc <= 0 /\ policy_inv s' /\
    exists st', policy_view s' = Some st' /\
      ((st' = st /\ (rc = 0 -> exists sn, edited_policy st id field value = Some sn /\
          policies st !! key_of id = Some sn)) \/
       (rc = 0 /\ st_generation st' = st_generation st + 1 /\
        exists sn, edited_policy st id field value = Some sn /\
          policies st' = <[key_of id := sn]> (policies st) /\ canonical sn /\
          (id <> None -> validate_extension (rec_snapshot (record_at st 0)) sn = 0)))) s.
Proof.
  intros Hi Hv Hr He Hval. destruct (policy_view_map s st Hi Hv) as (map & m & Hp & Hm & Hok).
  pose proof (mo_state _ _ Hok) as Hw. apply (wp_update_field id field value map m st); try done.
  { intros rc n Hrc. split_and!; [lia|exact Hi|]. exists st. split; [done|]. left. split; [done|lia]. }
  intros config ns n Eed Hbc Hwf Hns Hne Hnl. unfold edited_policy. rewrite Eed.
  eapply wp_mono; [by apply (apply_locked_store _ st (set_next n s))|].
  cbn [rq_record rec_namespace_id rec_snapshot rq_expected_generation]. rewrite Hns.
  intros rc s' (Hle & Hi' & st' & Hv' & Hcase). split_and!; [done|done|]. exists st'. split; [done|].
  destruct Hcase as [[-> Hsame]|(Hrc & Hg & _ & sn & Hn & Hpol & Hx)]; [left|right].
  - split; [done|]. intros H0. destruct (Hsame H0) as (sn & Hn & Hsn). exists sn. split; [|done].
    apply normalize_set_config in Hn; [|done]. by subst sn.
  - pose proof (normalize_canonical _ _ Hn) as Hcan. apply normalize_set_config in Hn; [|done]. subst sn.
    split_and!; [done|done|]. eexists. split_and!; [done|done|done|].
    intros Hid. destruct Hx as (root & Hroot & Hval'); [by apply Hne|].
    rewrite (policies_root st Hw) in Hroot. by injection Hroot as <-.
Qed.

(** Result 0 means that the edited extension respects the root. *)
Lemma wp_update_field_valid id field value st s :
  policy_inv s -> policy_view s = Some st -> hash_ready s -> bpfima_commit_error (k_commit s) <= 0 ->
  is_u32 value ->
  wp (bpfima_policy_update_field id (Some field) value) (fun rc _ => rc = 0 -> id <> None ->
    key_of id <> [] /\ exists sn, edited_policy st id field value = Some sn /\
      validate_extension (rec_snapshot (record_at st 0)) sn = 0) s.
Proof.
  intros Hi Hv Hr He Hval. destruct (policy_view_map s st Hi Hv) as (map & m & Hp & Hm & Hok).
  apply (wp_update_field id field value map m st); try done; [lia|].
  intros config ns n Eed Hbc Hwf Hns Hne Hnl. unfold edited_policy. rewrite Eed.
  eapply wp_mono; [by apply (apply_locked_valid _ st (set_next n s))|].
  cbn [rq_record rec_namespace_id rec_snapshot]. rewrite Hns. intros rc s' Hok' H0 Hid. specialize (Hne Hid). split; [done|].
  destruct (Hok' H0 Hne) as (sn & Hn & Hx). apply normalize_set_config in Hn; [|done]. subst sn. by eexists.
Qed.

(** C30: A scalar update edits one field of one policy. [bpfima_policy_update_field]
    never faults on a bound store, keeps it well formed, and either leaves the
    active policy as it was (with result 0 only when the policy is the edited
    one already) or, with result 0, stores for exactly that namespace the
    edited base (the root's snapshot for the root or a new namespace, the
    existing extension rebased on the current root otherwise) and advances the
    generation by one; a stored extension passed validation against the
    current root. *)
Theorem update_field_refines id field value st s :
  policy_inv s -> policy_view s = Some st -> hash_ready s -> bpfima_commit_error (k_commit s) <= 0 ->
  is_u32 value ->
  wp (bpfima_policy_update_field id (Some field) value) (fun rc s' =>
    rc <= 0 /\ policy_inv s' /\
    exists st', policy_view s' = Some st' /\
      ((st' = st /\ (rc = 0 -> exists sn, edited_policy st id field value = Some sn /\
          policies st !! key_of id = Some sn)) \/
       (rc = 0 /\ st_generation st' = st_generation st + 1 /\
        exists sn, edited_policy st id field value = Some sn /\
          policies st' = <[key_of id := sn]> (policies st) /\ canonical sn /\
          (id <> None -> validate_extension (rec_snapshot (record_at st 0)) sn = 0)))) s.
Proof. exact (wp_update_field_store id field value st s). Qed.

(** Nothing happens without a bound store. *)
Lemma update_field_unbound id field value s :
  policy_map (k_policy s) = None ->
  wp (bpfima_policy_update_field id (Some field) value) (fun rc s' => rc < 0 /\ exists n, s' = set_next n s) s.
Proof.
  intros Hp. unfold bpfima_policy_update_field.
  destruct (match id with Some id => negb (valid_namespace id) | None => false end).
  { apply wp_ret. split; [done|]. exists (k_next s). by rewrite set_next_eta. }
  apply wp_bind, wp_kalloc. intros [] n; cbn [negb]; [|apply wp_ret; split; [done|eauto]].
  apply wp_bind, wp_gets. cbn [set_next k_policy]. rewrite Hp. apply wp_ret. split; [done|eauto].
Qed.

(** The log moves only by commits, bound or not. *)
Lemma update_field_moved id field value s :
  policy_inv s -> hash_ready s -> bpfima_commit_error (k_commit s) <= 0 -> is_u32 value ->
  wp (bpfima_policy_update_field id (Some field) value) (fun rc s' => moved s rc s' /\ policy_inv s') s.
Proof.
  intros Hi Hr He Hval. destruct (policy_map (k_policy s)) as [map|] eqn:Hp.
  - destruct (policy_inv_view s map Hi Hp) as (m & st & Hm & Hok & Hv).
    apply (wp_update_field id field value map m st); try done.
    { intros rc n _. split; [apply moved_refl|exact Hi]. }
    intros config ns n _ _ Hwf _ _ Hnl. eapply wp_mono; [by apply (apply_locked_moved _ (set_next n s))|].
    intros rc s' [(ws & Hws & Hrc) Hi']. split; [|done]. exists ws. split; [|done].
    by apply (mv_after _ (set_next n s)).
  - eapply wp_mono; [by apply update_field_unbound|]. intros rc s' (_ & n & ->). split; [apply moved_refl|exact Hi].
Qed.
End UpdateField.

Lemma update_field_refines_witness :
  wp (bpfima_policy_update_field (E := tpm_env) None (Some (lit "log_level")) 3) (fun rc s' => policy_inv s')
    bound_state.
Proof.
  eapply wp_mono.
  - apply (update_field_refines (E := tpm_env) None (lit "log_level") 3 (with_generation initial_state 1)
      bound_state bound_state_inv bound_state_view sample_hash_ready).
    + vm_compute. discriminate.
    + vm_compute. split; congruence.
  - intros rc s' (_ & H & _). exact H.
Defined.
