(* ===== verification/Container.v ===== *)
(** * Container nodes

    [src/container.c] and the per-container part of [src/securityfs_utils.c]
    and [src/policy_securityfs.c].  Nodes are heap objects with a reference
    count: a lookup takes a reference, [bpfima_put_container] drops one, and
    the last one queues the node on the workqueue that frees it.  A read or
    write through a freed address faults. *)

From S2P Require Import Prelude CString Types Kernel Merkle PolicyNamespace.

(** ** Reference counts ([refcount_t]) *)

Definition INT_MAX : Z := 2147483647.
Definition REFCOUNT_SATURATED : Z := - 1073741824.

(** [refcount_inc_not_zero]: the new count, or [None] when it was zero. *)
Definition refcount_inc_not_zero (r : Z) : option Z :=
  if r =? 0 then None
  else Some (if (r <? 0) || (r + 1 >? INT_MAX) then REFCOUNT_SATURATED else r + 1).

Definition refcount_inc (r : Z) : Z :=
  if (r <=? 0) || (r + 1 >? INT_MAX) then REFCOUNT_SATURATED else r + 1.

(** [refcount_dec_and_test]: the new count and whether it reached zero. *)
Definition refcount_dec_and_test (r : Z) : Z * bool :=
  if r =? 1 then (0, true)
  else if (r <=? 0) || (r - 1 <? 0) then (REFCOUNT_SATURATED, false)
  else (r - 1, false).

Definition set_refcnt (r : Z) (n : container_node) : container_node :=
  ContainerNode r (cn_id n) (cn_measurement_list n) (cn_tfm n) (cn_leaf_hash n)
    (cn_measurement_count n) (cn_securityfs_dir n) (cn_securityfs_measurements_file n)
    (cn_securityfs_policy_file n) (cn_securityfs_policy_changes_file n).

Definition with_securityfs (dir meas policy changes : ptr nat) (n : container_node) : container_node :=
  ContainerNode (cn_refcnt n) (cn_id n) (cn_measurement_list n) (cn_tfm n) (cn_leaf_hash n)
    (cn_measurement_count n) dir meas policy changes.

Definition with_measurements (l : list measurement_entry) (n : container_node) : container_node :=
  ContainerNode (cn_refcnt n) (cn_id n) l (cn_tfm n) (cn_leaf_hash n)
    (cn_measurement_count n) (cn_securityfs_dir n) (cn_securityfs_measurements_file n)
    (cn_securityfs_policy_file n) (cn_securityfs_policy_changes_file n).

(** A zeroed node with its transform. *)
Definition zero_node (tfm : bool) : container_node :=
  ContainerNode 0 (zeros CONTAINER_ID_MAX_LEN) [] tfm (zeros MERKLE_HASH_SIZE) 0 PNull PNull PNull PNull.

(** ** Access to the parts of the state *)

Definition set_list (l : list nat) (s : kstate) : kstate :=
  let cs := k_containers s in
  set_containers (ContainerState (container_heap cs) l (container_count cs) (container_cleanup_wq cs)) s.
Definition set_count (c : Z) (s : kstate) : kstate :=
  let cs := k_containers s in
  set_containers (ContainerState (container_heap cs) (container_list cs) c (container_cleanup_wq cs)) s.
Definition set_wq (q : option (list nat)) (s : kstate) : kstate :=
  let cs := k_containers s in
  set_containers (ContainerState (container_heap cs) (container_list cs) (container_count cs) q) s.
Definition set_live (l : list nat) (s : kstate) : kstate :=
  set_securityfs (SecurityfsState l (dentry_of (k_securityfs s))) s.

(** A node address that is not in use, and a new securityfs entry. *)
Definition fresh_addr (h : gmap nat container_node) : nat := infinite_fresh (map_to_list h).*1.
Definition fresh_dentry (l : list nat) : nat := infinite_fresh l.

(** The position-independent removal of one entry of a list. *)
Fixpoint remove_one (d : nat) (l : list nat) : option (list nat) :=
  match l with
  | [] => None
  | x :: l => if Nat.eqb x d then Some l else cons x <$> remove_one d l
  end.

Section Container.
Context {E : KernelEnv}.

(** [securityfs_create_dir] and [securityfs_create_file]: an error pointer or
    a new entry, never NULL. *)
Definition securityfs_create : K (ptr nat) :=
  let* n := call in
  if env_securityfs n <? 0 then ret (PErr (env_securityfs n)) else
  let* live := gets (fun s => live_dentries (k_securityfs s)) in
  let d := fresh_dentry live in
  modify (set_live (live ++ [d]));;
  ret (PVal d).

(** [securityfs_remove]: removing an entry that does not exist faults. *)
Definition securityfs_remove (d : nat) : K unit :=
  let* live := gets (fun s => live_dentries (k_securityfs s)) in
  let* live := deref (remove_one d live) in
  modify (set_live live).

(** ** Lookup and reference counting *)

Fixpoint find_in (l : list nat) (container_id : bytes) : K (option nat) :=
  match l with
  | [] => ret None
  | c :: l =>
      let* n := load_container c in
      if strcmp (cn_id n) container_id =? 0 then
        match refcount_inc_not_zero (cn_refcnt n) with
        | Some r => store_container c (set_refcnt r n);; ret (Some c)
        | None => find_in l container_id
        end
      else find_in l container_id
  end.

Definition find_container_by_id_rcu (container_id : option bytes) : K (option nat) :=
  match container_id with
  | None => ret None
  | Some id => let* l := gets (fun s => container_list (k_containers s)) in find_in l id
  end.

Definition find_container_by_id (container_id : option bytes) : K (option nat) :=
  find_container_by_id_rcu container_id.

Definition bpfima_get_container (container : option nat) : K (option nat) :=
  match container with
  | None => ret None
  | Some c =>
      let* n := load_container c in
      match refcount_inc_not_zero (cn_refcnt n) with
      | Some r => store_container c (set_refcnt r n);; ret (Some c)
      | None => ret None
      end
  end.

(** [queue_rcu_work]: queueing on a destroyed workqueue faults. *)
Definition queue_rcu_work (c : nat) : K unit :=
  let* wq := gets (fun s => container_cleanup_wq (k_containers s)) in
  let* q := deref wq in
  modify (set_wq (Some (q ++ [c]))).

Definition bpfima_put_container (container : option nat) : K unit :=
  match container with
  | None => ret tt
  | Some c =>
      let* n := load_container c in
      let '(r, zero) := refcount_dec_and_test (cn_refcnt n) in
      store_container c (set_refcnt r n);;
      if zero then queue_rcu_work c else ret tt
  end.

Definition cleanup_container_measurements (container : option nat) : K unit :=
  match container with
  | None => ret tt
  | Some c => let* n := load_container c in store_container c (with_measurements [] n)
  end.

Definition kfree_node (c : nat) : K unit :=
  let* _ := load_container c in
  modify (fun s => set_heap (delete c (container_heap (k_containers s))) s).

Definition container_node_free_work (c : nat) : K unit :=
  cleanup_container_measurements (Some c);;
  let* n := load_container c in
  bpfima_policy_namespace_remove (cn_id n);;
  kfree_node c.

(** ** The workqueue *)

Definition bpfima_container_init : K Z :=
  let* ok := kalloc in
  modify (set_wq (if ok then Some [] else None));;
  ret (if ok then 0 else - ENOMEM).

(** The worker runs the queued items in order. *)
Fixpoint run_works (q : list nat) : K unit :=
  match q with
  | [] => ret tt
  | c :: q => container_node_free_work c;; run_works q
  end.

(** One turn of the worker: all the items queued so far. *)
Definition run_cleanup_wq : K unit :=
  let* wq := gets (fun s => container_cleanup_wq (k_containers s)) in
  let* q := deref wq in
  modify (set_wq (Some []));;
  run_works q.

Definition bpfima_container_cleanup : K unit :=
  run_cleanup_wq;;
  modify (set_wq None).

(** ** The securityfs directory of a container *)

Definition create_namespace_policy_securityfs (namespace_id : option bytes) (parent_dir : ptr nat)
    : K (ptr nat) :=
  match namespace_id, parent_dir with
  | None, _ | _, PNull => ret (PErr (- EINVAL))
  | Some _, _ =>
      let* ok := kalloc in
      if negb ok then ret (PErr (- ENOMEM)) else securityfs_create
  end.

Definition create_namespace_policy_changes_securityfs (namespace_id : option bytes)
    (parent_dir : ptr nat) : K (ptr nat) :=
  match namespace_id, parent_dir with
  | None, _ | _, PNull => ret (PErr (- EINVAL))
  | Some _, _ =>
      let* ok := kalloc in
      if negb ok then ret (PErr (- ENOMEM)) else securityfs_create
  end.

(** The copy of the identifier belongs to the entry and goes with it. *)
Definition remove_namespace_policy_securityfs (policy_file : ptr nat) : K unit :=
  match policy_file with PVal d => securityfs_remove d | _ => ret tt end.

Definition remove_namespace_policy_changes_securityfs (policy_changes_file : ptr nat) : K unit :=
  match policy_changes_file with PVal d => securityfs_remove d | _ => ret tt end.

Definition no_error (p : ptr nat) : ptr nat := match p with PErr _ => PNull | _ => p end.

Definition create_container_securityfs (c : nat) : K Z :=
  let* parent := gets (fun s => dentry_of (k_securityfs s) containers_dir) in
  match parent with
  | PNull => ret (- EINVAL)
  | PErr _ => fault
  | PVal _ =>
      let* n := load_container c in
      let* dir := securityfs_create in
      let n := with_securityfs dir (cn_securityfs_measurements_file n) (cn_securityfs_policy_file n)
        (cn_securityfs_policy_changes_file n) n in
      store_container c n;;
      match dir with
      | PErr e => ret e
      | PNull => fault
      | PVal d =>
          let* meas := securityfs_create in
          let n := with_securityfs dir meas (cn_securityfs_policy_file n)
            (cn_securityfs_policy_changes_file n) n in
          store_container c n;;
          match meas with
          | PErr e =>
              securityfs_remove d;;
              store_container c (with_securityfs PNull meas (cn_securityfs_policy_file n)
                (cn_securityfs_policy_changes_file n) n);;
              ret e
          | _ =>
              let* policy := create_namespace_policy_securityfs (Some (cn_id n)) dir in
              let n := with_securityfs dir meas (no_error policy)
                (cn_securityfs_policy_changes_file n) n in
              store_container c n;;
              let* changes := create_namespace_policy_changes_securityfs (Some (cn_id n)) dir in
              store_container c (with_securityfs dir meas (no_error policy) (no_error changes) n);;
              ret 0
          end
      end
  end.

Definition cleared (p : ptr nat) : ptr nat := match p with PVal _ => PNull | _ => p end.

Definition remove_container_securityfs (c : nat) : K unit :=
  let* n := load_container c in
  remove_namespace_policy_changes_securityfs (cn_securityfs_policy_changes_file n);;
  let n := with_securityfs (cn_securityfs_dir n) (cn_securityfs_measurements_file n)
    (cn_securityfs_policy_file n) (cleared (cn_securityfs_policy_changes_file n)) n in
  store_container c n;;
  remove_namespace_policy_securityfs (cn_securityfs_policy_file n);;
  let n := with_securityfs (cn_securityfs_dir n) (cn_securityfs_measurements_file n)
    (cleared (cn_securityfs_policy_file n)) (cn_securityfs_policy_changes_file n) n in
  store_container c n;;
  match cn_securityfs_measurements_file n with PVal d => securityfs_remove d | _ => ret tt end;;
  let n := with_securityfs (cn_securityfs_dir n) (cleared (cn_securityfs_measurements_file n))
    (cn_securityfs_policy_file n) (cn_securityfs_policy_changes_file n) n in
  store_container c n;;
  match cn_securityfs_dir n with PVal d => securityfs_remove d | _ => ret tt end;;
  let n := with_securityfs (cleared (cn_securityfs_dir n)) (cn_securityfs_measurements_file n)
    (cn_securityfs_policy_file n) (cn_securityfs_policy_changes_file n) n in
  store_container c n.

(** ** Creation *)

Definition create_container_node_locked (container_id : bytes) : K (ptr nat) :=
  let* existing := find_container_by_id (Some container_id) in
  match existing with
  | Some c => ret (PVal c)
  | None =>
      let* ok := kalloc in
      if negb ok then ret (PErr (- ENOMEM)) else
      let* c := gets (fun s => fresh_addr (container_heap (k_containers s))) in
      store_container c (zero_node false);;
      let* tfm := crypto_alloc_shash in
      match tfm with
      | PErr _ => kfree_node c;; ret (PErr (- ENOMEM))
      | _ =>
          store_container c (ContainerNode 1
            (strscpy (zeros CONTAINER_ID_MAX_LEN) container_id CONTAINER_ID_MAX_LEN) [] true
            (zeros MERKLE_HASH_SIZE) 0 PNull PNull PNull PNull);;
          let* rc := create_container_securityfs c in
          if rc <? 0 then
            let* existing := (if rc =? - EEXIST then find_container_by_id (Some container_id)
                              else ret None) in
            match existing with
            | Some c' => kfree_node c;; ret (PVal c')
            | None => kfree_node c;; ret (PErr rc)
            end
          else
            let* _ := bpfima_policy_namespace_get_or_create container_id in
            let* existing := find_container_by_id_rcu (Some container_id) in
            match existing with
            | Some c' => remove_container_securityfs c;; kfree_node c;; ret (PVal c')
            | None =>
                modify (fun s => set_list (container_list (k_containers s) ++ [c]) s);;
                modify (fun s => set_count (atomic_inc (container_count (k_containers s))) s);;
                let* n := load_container c in
                store_container c (set_refcnt (refcount_inc (cn_refcnt n)) n);;
                ret (PVal c)
            end
      end
  end.

Definition create_container_node (container_id : bytes) : K (ptr nat) :=
  create_container_node_locked container_id.

(** ** Teardown *)

Fixpoint cleanup_nodes (l : list nat) : K unit :=
  match l with
  | [] => ret tt
  | c :: l =>
      remove_container_securityfs c;;
      bpfima_put_container (Some c);;
      cleanup_nodes l
  end.

Definition cleanup_all_containers : K unit :=
  let* temp_list := gets (fun s => container_list (k_containers s)) in
  modify (set_list []);;
  cleanup_nodes temp_list;;
  modify (set_count 0).
End Container.
