(* ===== verification/ContainerSpec.v ===== *)
(** * Reference counting of container nodes

    The invariant of the container store, with the references that callers
    hold as a ghost list, and what each operation of [src/container.c] does to
    it. *)

From S2P Require Import Prelude CString Types Kernel HashUtils Merkle MerkleSpec PolicyNamespace Container.

(** ** Lists of securityfs entries *)

Lemma remove_one_Some d l : d ∈ l -> exists l', remove_one d l = Some l' /\ l ≡ₚ d :: l'.
Proof.
  induction l as [|x l IH]; [by intros ?%not_elem_of_nil|]. intros Hd. cbn [remove_one].
  destruct (Nat.eqb_spec x d) as [->|Hne]; [by exists l|].
  apply elem_of_cons in Hd as [->|Hd]; [done|]. destruct (IH Hd) as (l' & -> & Hp).
  exists (x :: l'). split; [done|]. rewrite Hp. constructor.
Qed.

Lemma remove_one_fresh d l : d ∉ l -> remove_one d (l ++ [d]) = Some l.
Proof.
  induction l as [|x l IH]; intros Hd; cbn [remove_one app].
  - by rewrite Nat.eqb_refl.
  - apply not_elem_of_cons in Hd as [Hne Hd]. destruct (Nat.eqb_spec x d); [congruence|]. by rewrite IH.
Qed.

Definition ptr_entry (p : ptr nat) : list nat := match p with PVal d => [d] | _ => [] end.

(** The entries of a node, in the order in which they are removed. *)
Definition node_dentries (n : container_node) : list nat :=
  ptr_entry (cn_securityfs_policy_changes_file n) ++ ptr_entry (cn_securityfs_policy_file n) ++
  ptr_entry (cn_securityfs_measurements_file n) ++ ptr_entry (cn_securityfs_dir n).

Definition dentries_at (h : gmap nat container_node) (c : nat) : list nat :=
  match h !! c with Some n => node_dentries n | None => [] end.

Definition published_dentries (cs : container_state) : list nat :=
  flat_map (dentries_at (container_heap cs)) (container_list cs).

(** The module's securityfs entries are those of the published containers and
    the ones in [base]. *)
Definition dentries_inv (base : list nat) (s : kstate) : Prop :=
  live_dentries (k_securityfs s) ≡ₚ base ++ published_dentries (k_containers s).

Lemma flat_map_eq (f g : nat -> list nat) l : Forall (fun c => f c = g c) l -> flat_map f l = flat_map g l.
Proof. induction 1 as [|c l Hc _ IH]; [done|]. simpl. by rewrite Hc, IH. Qed.

(** ** The invariant *)

(** The references to [c]: one for the list, one per reference held. *)
Definition refs (l held : list nat) (c : nat) : Z := Z.of_nat (count_occ Nat.eq_dec (l ++ held) c).

Section Spec.
Context {E : KernelEnv} {L : KernelLaws E}.

(** The leaf of a node is the replay of its measurements, and its identifier is
    a terminated string. *)
Record node_ok (n : container_node) : Prop := NodeOk {
  no_tfm : cn_tfm n = true;
  no_id : (strlen (cn_id n) < CONTAINER_ID_MAX_LEN)%nat;
  no_leaf : cn_leaf_hash n = replay (zeros MERKLE_HASH_SIZE) (en_digest <$> cn_measurement_list n);
  no_count : cn_measurement_count n = to_u32 (Z.of_nat (length (cn_measurement_list n)));
}.

Record container_inv (held : list nat) (cs : container_state) : Prop := ContainerInv {
  ci_nodup : NoDup (container_list cs);
  ci_live : forall c, c ∈ container_list cs ++ held -> is_Some (container_heap cs !! c);
  ci_refcnt : forall c n, container_heap cs !! c = Some n ->
    cn_refcnt n = refs (container_list cs) held c;
  ci_queue : exists q, container_cleanup_wq cs = Some q /\ NoDup q /\
    forall c, c ∈ q <-> exists n, container_heap cs !! c = Some n /\ cn_refcnt n = 0;
  ci_ids : forall c c' n n', c ∈ container_list cs -> c' ∈ container_list cs ->
    container_heap cs !! c = Some n -> container_heap cs !! c' = Some n' ->
    cstr (cn_id n) = cstr (cn_id n') -> c = c';
  ci_nodes : forall c n, c ∈ container_list cs -> container_heap cs !! c = Some n -> node_ok n;
}.

(** The counter is the number of published containers. *)
Definition counted (cs : container_state) : Prop :=
  container_count cs = to_u32 (Z.of_nat (length (container_list cs))).

(** The callers hold fewer references than the counter can count. *)
Definition held_bound (held : list nat) : Prop := Z.of_nat (length held) + 2 <= INT_MAX.

Lemma refs_pos l held c : c ∈ l ++ held -> 0 < refs l held c.
Proof. intros Hc. unfold refs. apply list_elem_of_In, (count_occ_In Nat.eq_dec) in Hc. lia. Qed.

Lemma refs_zero l held c : refs l held c = 0 -> c ∉ l ++ held.
Proof. intros H Hc%refs_pos. lia. Qed.

Lemma count_occ_le (l : list nat) c : (count_occ Nat.eq_dec l c <= length l)%nat.
Proof. induction l as [|x l IH]; simpl; [lia|]. destruct (Nat.eq_dec x c); lia. Qed.

Lemma refs_bound l held c : NoDup l -> held_bound held -> refs l held c < INT_MAX.
Proof.
  intros Hn%NoDup_ListNoDup Hb. unfold refs, held_bound in *. rewrite count_occ_app.
  apply (NoDup_count_occ Nat.eq_dec) with (x := c) in Hn. pose proof (count_occ_le held c). lia.
Qed.

Lemma refs_perm l held held' c : held ≡ₚ held' -> refs l held c = refs l held' c.
Proof.
  intros Hp. unfold refs. f_equal. apply (Permutation_count_occ Nat.eq_dec). by apply Permutation_app_head.
Qed.

Lemma refs_cons l held c d :
  refs l (c :: held) d = refs l held d + (if Nat.eq_dec c d then 1 else 0).
Proof.
  unfold refs. rewrite !count_occ_app. cbn [count_occ]. destruct (Nat.eq_dec c d); lia.
Qed.

Lemma refs_list_cons l held c d :
  refs (c :: l) held d = refs l held d + (if Nat.eq_dec c d then 1 else 0).
Proof. unfold refs. cbn [app count_occ]. destruct (Nat.eq_dec c d); lia. Qed.

#[global] Instance container_inv_proper : Proper ((≡ₚ) ==> (=) ==> iff) container_inv.
Proof.
  assert (Himp : forall held held' cs, held ≡ₚ held' -> container_inv held cs -> container_inv held' cs).
  { intros held held' cs Hp [H1 H2 H3 H4 H5 H6]. split; [done|..|done|done|done].
    - intros c Hc. apply H2. revert Hc. by rewrite Hp.
    - intros c n Hn. rewrite (H3 c n Hn). by apply refs_perm. }
  intros held held' Hp cs ? <-. split; apply Himp; [done|by symmetry].
Qed.

(** ** Counting up *)

Lemma inc_not_zero r : 0 < r < INT_MAX -> refcount_inc_not_zero r = Some (r + 1).
Proof.
  intros H. unfold refcount_inc_not_zero. destruct (Z.eqb_spec r 0); [lia|].
  destruct (Z.ltb_spec r 0); [lia|]. destruct (Z.gtb_spec (r + 1) INT_MAX); [lia|done].
Qed.

(** A change of the nodes that keeps identifiers and the leaf property. *)
Definition same_node (n n' : container_node) : Prop :=
  cn_id n' = cn_id n /\ (node_ok n -> node_ok n') /\ node_dentries n' = node_dentries n.

Lemma same_node_refcnt r n : same_node n (set_refcnt r n).
Proof. split; [done|]. split; [|done]. by intros []. Qed.

Definition with_heap (h : gmap nat container_node) (cs : container_state) : container_state :=
  ContainerState h (container_list cs) (container_count cs) (container_cleanup_wq cs).
Definition with_queue (q : option (list nat)) (cs : container_state) : container_state :=
  ContainerState (container_heap cs) (container_list cs) (container_count cs) q.

(** The conjuncts that do not depend on the counts. *)
Lemma inv_ids_nodes held cs c n n' :
  container_inv held cs -> container_heap cs !! c = Some n -> same_node n n' ->
  let h := <[c := n']> (container_heap cs) in
  (forall d, d ∈ container_list cs -> is_Some (h !! d)) /\
  (forall d e m m', d ∈ container_list cs -> e ∈ container_list cs ->
    h !! d = Some m -> h !! e = Some m' -> cstr (cn_id m) = cstr (cn_id m') -> d = e) /\
  (forall d m, d ∈ container_list cs -> h !! d = Some m -> node_ok m).
Proof.
  intros Hi Hn (Hid & Hok & _) h.
  assert (Hold : forall d m, h !! d = Some m -> exists m0, container_heap cs !! d = Some m0 /\
    cn_id m = cn_id m0 /\ (node_ok m0 -> node_ok m)).
  { intros d m Hd. unfold h in Hd. apply lookup_insert_Some in Hd as [[<- <-]|[_ Hd]]; eauto. }
  split; [|split].
  - intros d Hd. unfold h. apply lookup_insert_is_Some'. right. apply (ci_live _ _ Hi). set_solver.
  - intros d e m m' Hd He Hm Hm' Heq. apply Hold in Hm as (m0 & Hm0 & Hi0 & _).
    apply Hold in Hm' as (m1 & Hm1 & Hi1 & _). eapply (ci_ids _ _ Hi); eauto. congruence.
  - intros d m Hd Hm. apply Hold in Hm as (m0 & Hm0 & _ & Hk). apply Hk. by eapply (ci_nodes _ _ Hi).
Qed.

(** Taking a reference to a node that has one. *)
Lemma container_inv_get held cs c n :
  container_inv held cs -> container_heap cs !! c = Some n -> cn_refcnt n <> 0 ->
  container_inv (c :: held) (with_heap (<[c := set_refcnt (cn_refcnt n + 1) n]> (container_heap cs)) cs).
Proof.
  intros Hi Hn Hz. destruct (inv_ids_nodes held cs c n _ Hi Hn (same_node_refcnt (cn_refcnt n + 1) n))
    as (Hl & Hids & Hnodes). pose proof Hi as [H1 H2 H3 (q & Hq & Hnd & Hmem) H5 H6].
  split; cbn [container_list container_heap container_cleanup_wq container_count with_heap]; auto.
  - intros d Hd. apply lookup_insert_is_Some'. destruct (decide (c = d)); [by left|right].
    apply H2. set_solver.
  - intros d m Hd. rewrite refs_cons.
    apply lookup_insert_Some in Hd as [[<- <-]|[Hne Hd]]; destruct (Nat.eq_dec c _); try congruence.
    + cbn. by rewrite (H3 c n Hn).
    + by rewrite (H3 d m Hd), Z.add_0_r.
  - exists q. split; [done|]. split; [done|]. intros d. rewrite Hmem.
    destruct (decide (c = d)) as [<-|Hne]; [rewrite lookup_insert_eq|rewrite lookup_insert_ne by done; done].
    split; intros (m & Hm & H0); [congruence|]. injection Hm as <-. cbn in H0.
    pose proof (H3 c n Hn). unfold refs in *. lia.
Qed.

(** Dropping a reference that is held. *)
Lemma container_inv_put held cs c n :
  container_inv (c :: held) cs -> container_heap cs !! c = Some n ->
  let h := <[c := set_refcnt (cn_refcnt n - 1) n]> (container_heap cs) in
  (cn_refcnt n <> 1 -> container_inv held (with_heap h cs)) /\
  (cn_refcnt n = 1 -> forall q, container_cleanup_wq cs = Some q ->
     container_inv held (with_queue (Some (q ++ [c])) (with_heap h cs))).
Proof.
  intros Hi Hn h. destruct (inv_ids_nodes _ cs c n _ Hi Hn (same_node_refcnt (cn_refcnt n - 1) n))
    as (Hl & Hids & Hnodes). pose proof Hi as [H1 H2 H3 (q & Hq & Hnd & Hmem) H5 H6].
  assert (Hlive : forall d, d ∈ container_list cs ++ held -> is_Some (h !! d)).
  { intros d Hd. apply lookup_insert_is_Some'. right. apply H2. set_solver. }
  assert (Hrefs : forall d m, h !! d = Some m -> cn_refcnt m = refs (container_list cs) held d).
  { intros d m Hd. unfold h in Hd.
    apply lookup_insert_Some in Hd as [[<- <-]|[Hne Hd]]; [cbn; rewrite (H3 c n Hn)|rewrite (H3 d m Hd)];
      rewrite refs_cons; destruct (Nat.eq_dec c _); try congruence; lia. }
  assert (Hzero : forall d, d <> c -> (exists m, h !! d = Some m /\ cn_refcnt m = 0) <->
    exists m, container_heap cs !! d = Some m /\ cn_refcnt m = 0).
  { intros d Hne. unfold h. by rewrite lookup_insert_ne by done. }
  assert (Hcq : c ∉ q).
  { rewrite Hmem. intros (m & Hm & H0). rewrite Hn in Hm. injection Hm as <-.
    rewrite (H3 c n Hn), refs_cons in H0. destruct (Nat.eq_dec c c); [|done]. unfold refs in H0. lia. }
  split.
  - intros Hr. split; cbn [container_list container_heap container_cleanup_wq container_count with_heap]; auto.
    exists q. split; [done|]. split; [done|]. intros d. destruct (decide (d = c)) as [->|Hne].
    + split; [done|]. intros (m & Hm & H0). unfold h in Hm. rewrite lookup_insert_eq in Hm.
      injection Hm as <-. cbn in H0. lia.
    + by rewrite Hmem, Hzero.
  - intros Hr q' Hq'. rewrite Hq in Hq'. injection Hq' as <-.
    split; cbn [container_list container_heap container_cleanup_wq container_count with_heap with_queue]; auto.
    exists (q ++ [c]). split; [done|]. split.
    + apply NoDup_app. split; [done|]. split; [set_solver|apply NoDup_singleton].
    + intros d. rewrite elem_of_app, list_elem_of_singleton.
      destruct (decide (d = c)) as [->|Hne]; [|rewrite Hmem, Hzero by done; tauto].
      split; [|by right]. intros _. exists (set_refcnt (cn_refcnt n - 1) n).
      unfold h. rewrite lookup_insert_eq. cbn. split; [done|lia].
Qed.
End Spec.
