(* ===== verification/ContainerRules.v ===== *)
(** * Rules of the container operations

    What [find], [get], [put], the free work, the per-container securityfs
    functions and the creation of a node do, as rules of [wp] over the
    invariant of the store. *)

From S2P Require Import Prelude CString Types Kernel HashUtils Merkle MerkleSpec PolicyNamespace Container ContainerSpec.

(** Two stores whose published nodes differ in their counts only. *)
Definition erase (h : gmap nat container_node) : gmap nat container_node := set_refcnt 0 <$> h.

Record agree (cs cs' : container_state) : Prop := Agree {
  ag_list : container_list cs' = container_list cs;
  ag_counter : container_count cs' = container_count cs;
  ag_heap : erase (container_heap cs') = erase (container_heap cs);
}.

Lemma agree_refl cs : agree cs cs.
Proof. done. Qed.

Lemma agree_trans cs1 cs2 cs3 : agree cs1 cs2 -> agree cs2 cs3 -> agree cs1 cs3.
Proof. intros [] []. split; congruence. Qed.

Lemma erase_refcnt c n r h : h !! c = Some n -> erase (<[c := set_refcnt r n]> h) = erase h.
Proof.
  intros Hn. unfold erase. rewrite fmap_insert. apply insert_id. by rewrite lookup_fmap, Hn.
Qed.

Lemma erase_lookup h h' c n : erase h' = erase h -> h !! c = Some n ->
  exists n', h' !! c = Some n' /\ set_refcnt 0 n' = set_refcnt 0 n.
Proof.
  intros He Hn. assert (H : erase h' !! c = Some (set_refcnt 0 n)) by (rewrite He; unfold erase; by rewrite lookup_fmap, Hn).
  unfold erase in H. rewrite lookup_fmap in H. apply fmap_Some in H as (n' & ? & ?). eauto.
Qed.

Lemma erase_node_dentries n n' : set_refcnt 0 n' = set_refcnt 0 n -> node_dentries n' = node_dentries n.
Proof. intros Heq. change (node_dentries (set_refcnt 0 n') = node_dentries (set_refcnt 0 n)). by rewrite Heq. Qed.

Lemma agree_dentries cs cs' : agree cs cs' -> published_dentries cs' = published_dentries cs.
Proof.
  intros [Hl _ Hh]. unfold published_dentries. rewrite Hl. apply flat_map_eq, Forall_forall. intros c _.
  unfold dentries_at. destruct (container_heap cs !! c) as [n|] eqn:En.
  - destruct (erase_lookup _ _ _ _ Hh En) as (n' & -> & Hn). by apply erase_node_dentries.
  - destruct (container_heap cs' !! c) as [n'|] eqn:En'; [|done].
    destruct (erase_lookup _ _ _ _ (eq_sym Hh) En') as (? & ? & _). congruence.
Qed.

(** Every node of [cs'] has the identifier and the measurements it had in [cs],
    or no measurements. *)
Definition lists_kept (cs cs' : container_state) : Prop :=
  forall c n', container_heap cs' !! c = Some n' ->
    cn_measurement_list n' = [] \/
    exists n, container_heap cs !! c = Some n /\ cn_id n' = cn_id n /\ cn_measurement_list n' = cn_measurement_list n.

Lemma agree_lists cs cs' : agree cs cs' -> lists_kept cs cs'.
Proof.
  intros [_ _ Hh] c n' Hn'. right. destruct (erase_lookup _ _ _ _ (eq_sym Hh) Hn') as (n & Hn & Heq).
  exists n. split; [done|].
  change (cn_id (set_refcnt 0 n') = cn_id (set_refcnt 0 n) /\
    cn_measurement_list (set_refcnt 0 n') = cn_measurement_list (set_refcnt 0 n)).
  by rewrite Heq.
Qed.

Section Rules.
Context {E : KernelEnv} {L : KernelLaws E}.

(** ** Lookup, get and put *)

Lemma wp_find_in held l id Q s :
  let heap := container_heap (k_containers s) in
  container_inv held (k_containers s) -> held_bound held ->
  (forall c, c ∈ l -> c ∈ container_list (k_containers s)) ->
  ((forall c n, c ∈ l -> heap !! c = Some n -> cstr (cn_id n) <> cstr id) -> Q None s) ->
  (forall c n, c ∈ l -> heap !! c = Some n -> cstr (cn_id n) = cstr id ->
     Q (Some c) (set_heap (<[c := set_refcnt (cn_refcnt n + 1) n]> heap) s)) ->
  wp (find_in l id) Q s.
Proof.
  intros heap Hi Hb. induction l as [|c l IH]; intros Hsub Hnone Hsome.
  { apply wp_ret, Hnone. by intros c n ?%not_elem_of_nil. }
  assert (Hc : c ∈ container_list (k_containers s)) by (apply Hsub; set_solver).
  destruct (ci_live _ _ Hi c) as [n Hn]; [set_solver|]. fold heap in Hn.
  cbn [find_in]. apply wp_bind. eapply wp_load_container; [exact Hn|].
  destruct (Z.eqb_spec (strcmp (cn_id n) id) 0) as [Hs|Hs].
  - apply strcmp_spec in Hs. rewrite inc_not_zero.
    + apply wp_bind, wp_modify, wp_ret. apply Hsome; [set_solver|done|done].
    + rewrite (ci_refcnt _ _ Hi c n Hn). split; [apply refs_pos; set_solver|].
      apply refs_bound; [apply Hi|done].
  - rewrite strcmp_spec in Hs. apply IH; [set_solver|intros Hl; apply Hnone|intros; apply Hsome; set_solver].
    intros d m Hd Hm. apply elem_of_cons in Hd as [->|Hd]; [congruence|by eapply Hl].
Qed.

(** A lookup finds the published node of the identifier and takes a
    reference, or there is no such node. *)
Lemma wp_find held id Q s :
  let heap := container_heap (k_containers s) in
  container_inv held (k_containers s) -> held_bound held ->
  ((forall c n, c ∈ container_list (k_containers s) -> heap !! c = Some n -> cstr (cn_id n) <> cstr id) ->
     Q None s) ->
  (forall c n cs, c ∈ container_list (k_containers s) -> heap !! c = Some n -> cstr (cn_id n) = cstr id ->
     container_heap cs !! c = Some (set_refcnt (cn_refcnt n + 1) n) ->
     container_inv (c :: held) cs -> agree (k_containers s) cs -> Q (Some c) (set_containers cs s)) ->
  wp (find_container_by_id (Some id)) Q s.
Proof.
  intros heap Hi Hb Hnone Hsome. unfold find_container_by_id, find_container_by_id_rcu.
  apply wp_bind, wp_gets. eapply wp_find_in; [done|done|done|done|]. intros c n Hc Hn Hid.
  apply (Hsome c n (with_heap _ (k_containers s))); [done|done|done|by apply lookup_insert_eq|..].
  - apply container_inv_get; [done|done|]. rewrite (ci_refcnt _ _ Hi c n Hn).
    pose proof (refs_pos (container_list (k_containers s)) held c ltac:(set_solver)). lia.
  - split; [done|done|]. by apply erase_refcnt.
Qed.

Lemma dec_and_test r : 0 < r -> refcount_dec_and_test r = (r - 1, r =? 1).
Proof.
  intros H. unfold refcount_dec_and_test. destruct (Z.eqb_spec r 1) as [->|]; [done|].
  destruct (Z.leb_spec r 0); [lia|]. by destruct (Z.ltb_spec (r - 1) 0); [lia|].
Qed.

Lemma wp_put held c Q s :
  container_inv (c :: held) (k_containers s) ->
  (forall cs, container_inv held cs -> agree (k_containers s) cs -> Q tt (set_containers cs s)) ->
  wp (bpfima_put_container (Some c)) Q s.
Proof.
  intros Hi HQ. destruct (ci_live _ _ Hi c) as [n Hn]; [set_solver|].
  destruct (container_inv_put held _ c n Hi Hn) as [Hmore Hlast].
  destruct (ci_queue _ _ Hi) as (q & Hq & _).
  unfold bpfima_put_container. apply wp_bind. eapply wp_load_container; [exact Hn|].
  rewrite dec_and_test by (rewrite (ci_refcnt _ _ Hi c n Hn); apply refs_pos; set_solver).
  apply wp_bind, wp_modify. destruct (Z.eqb_spec (cn_refcnt n) 1) as [H1|H1].
  - unfold queue_rcu_work. apply wp_bind, wp_gets.
    cbn [k_containers set_heap set_containers container_cleanup_wq]. rewrite Hq.
    apply wp_bind, wp_deref. exists q. split; [done|]. apply wp_modify.
    apply (HQ (with_queue _ (with_heap _ (k_containers s))) (Hlast H1 q Hq)).
    split; [done|done|]. by apply erase_refcnt.
  - apply wp_ret. apply (HQ (with_heap _ (k_containers s)) (Hmore H1)).
    split; [done|done|]. by apply erase_refcnt.
Qed.

(** ** The free work *)

Lemma wp_namespace_remove id Q s :
  (forall ns, Q tt (set_namespaces ns s)) -> wp (bpfima_policy_namespace_remove id) Q s.
Proof.
  intros HQ. unfold bpfima_policy_namespace_remove, find_policy_namespace. apply wp_bind, wp_gets.
  destruct (find_entry _ _); [apply wp_modify, HQ|apply wp_ret].
  specialize (HQ (k_namespaces s)). by destruct s.
Qed.

Lemma wp_kfree_node c n Q s :
  container_heap (k_containers s) !! c = Some n ->
  Q tt (set_heap (delete c (container_heap (k_containers s))) s) -> wp (kfree_node c) Q s.
Proof. intros Hn HQ. apply wp_bind. eapply wp_load_container; [exact Hn|]. by apply wp_modify. Qed.

Lemma wp_free_work c n Q s :
  container_heap (k_containers s) !! c = Some n ->
  (forall ns, Q tt (set_namespaces ns (set_heap (delete c (container_heap (k_containers s))) s))) ->
  wp (container_node_free_work c) Q s.
Proof.
  intros Hn HQ. apply wp_bind, wp_bind. eapply wp_load_container; [exact Hn|]. apply wp_modify.
  apply wp_bind. eapply wp_load_container; [apply lookup_insert_eq|].
  apply wp_bind, wp_namespace_remove. intros ns. eapply wp_kfree_node; [apply lookup_insert_eq|].
  specialize (HQ ns). rewrite <- (delete_insert_eq _ c (with_measurements [] n)) in HQ. exact HQ.
Qed.

Lemma wp_run_works q Q s :
  NoDup q -> (forall c, c ∈ q -> is_Some (container_heap (k_containers s) !! c)) ->
  (forall ns, Q tt (set_namespaces ns
     (set_heap (foldl (fun h c => delete c h) (container_heap (k_containers s)) q) s))) ->
  wp (run_works q) Q s.
Proof.
  revert s. induction q as [|c q IH]; intros s Hnd Hlive HQ; cbn [run_works].
  { apply wp_ret. specialize (HQ (k_namespaces s)). by destruct s as [? ? ? ? ? [] ? ? ?]. }
  apply NoDup_cons in Hnd as [Hc Hnd]. destruct (Hlive c) as [n Hn]; [set_solver|].
  apply wp_bind. eapply wp_free_work; [exact Hn|]. intros ns. apply IH; [done| |].
  - intros d Hd. cbn. rewrite lookup_delete_ne; [apply Hlive; set_solver|congruence].
  - intros ns'. exact (HQ ns').
Qed.

Lemma foldl_delete_lookup (q : list nat) (h : gmap nat container_node) c :
  foldl (fun h c => delete c h) h q !! c = if decide (c ∈ q) then None else h !! c.
Proof.
  revert h. induction q as [|d q IH]; intros h; cbn [foldl].
  { rewrite decide_False; [done|apply not_elem_of_nil]. }
  rewrite IH. destruct (decide (c ∈ q)); [rewrite decide_True; [done|set_solver]|].
  destruct (decide (c = d)) as [->|Hne].
  - rewrite decide_True by set_solver. apply lookup_delete_eq.
  - rewrite decide_False by set_solver. by rewrite lookup_delete_ne.
Qed.

(** The worker frees the nodes without references and no others. *)
Lemma wp_run_cleanup held Q s :
  container_inv held (k_containers s) ->
  (forall ns cs, container_inv held cs -> container_list cs = container_list (k_containers s) ->
     container_cleanup_wq cs = Some [] -> container_count cs = container_count (k_containers s) ->
     (forall c, container_heap cs !! c = match container_heap (k_containers s) !! c with
        | Some n => if cn_refcnt n =? 0 then None else Some n | None => None end) ->
     Q tt (set_namespaces ns (set_containers cs s))) ->
  wp run_cleanup_wq Q s.
Proof.
  intros Hi HQ. pose proof Hi as [H1 H2 H3 (q & Hq & Hnd & Hmem) H5 H6].
  unfold run_cleanup_wq. apply wp_bind, wp_gets. rewrite Hq. apply wp_bind, wp_deref. exists q. split; [done|].
  apply wp_bind, wp_modify. apply wp_run_works; [done| |].
  { intros c Hc. apply Hmem in Hc as (n & Hn & _). by exists n. }
  intros ns. set (h := foldl _ _ q).
  assert (Hh : forall c, h !! c = match container_heap (k_containers s) !! c with
    | Some n => if cn_refcnt n =? 0 then None else Some n | None => None end).
  { intros c. unfold h. rewrite foldl_delete_lookup. cbn.
    destruct (decide (c ∈ q)) as [Hc|Hc]; rewrite Hmem in Hc.
    - destruct Hc as (n & -> & ->). done.
    - destruct (container_heap (k_containers s) !! c) as [n|] eqn:En; [|done].
      destruct (Z.eqb_spec (cn_refcnt n) 0); [|done]. destruct Hc. eauto. }
  assert (Hold : forall c n, h !! c = Some n -> container_heap (k_containers s) !! c = Some n /\ cn_refcnt n <> 0).
  { intros c n Hc. rewrite Hh in Hc. destruct (container_heap _ !! c) as [m|]; [|done].
    destruct (Z.eqb_spec (cn_refcnt m) 0); [done|]. by injection Hc as <-. }
  apply (HQ ns (ContainerState h (container_list (k_containers s)) (container_count (k_containers s)) (Some [])));
    [|done..]. split; cbn; auto.
  - intros c Hc. destruct (H2 c Hc) as [n Hn]. rewrite Hh, Hn. pose proof (H3 c n Hn) as Hr.
    apply refs_pos in Hc. destruct (Z.eqb_spec (cn_refcnt n) 0); [lia|done].
  - intros c n [Hn _]%Hold. by apply H3.
  - exists []. split; [done|]. split; [constructor|]. intros c. split; [by intros ?%not_elem_of_nil|].
    by intros (n & [_ Hz]%Hold & H0).
  - intros c c' n n' Hc Hc' [Hn _]%Hold [Hn' _]%Hold. by apply (H5 c c' n n').
  - intros c n Hc [Hn _]%Hold. by apply (H6 c n).
Qed.
End Rules.
