(* ===== verification/ContainerInv.v ===== *)
(** * Creation and teardown of containers

    The per-container securityfs entries, the creation of a node and the
    teardown of all nodes keep the invariants of the store and of securityfs;
    the theorems on [src/container.c] follow. *)

From S2P Require Import Prelude CString Types Kernel Sample HashUtils Merkle MerkleSpec MerkleInv PolicyNamespace Container ContainerSpec ContainerRules.

Section Inv.
Context {E : KernelEnv} {L : KernelLaws E}.

(** ** Securityfs entries *)

Lemma set_live_eta s : set_live (live_dentries (k_securityfs s)) s = s.
Proof. by destruct s as [? ? ? ? ? ? ? ? []]. Qed.

Lemma set_heap_id c n s :
  container_heap (k_containers s) !! c = Some n ->
  set_heap (<[c := n]> (container_heap (k_containers s))) s = s.
Proof. intros Hn. rewrite insert_id by done. by destruct s as [? ? ? ? ? [] ? ? ?]. Qed.

Lemma wp_securityfs_create Q s :
  let live := live_dentries (k_securityfs s) in
  (forall e m, e < 0 -> Q (PErr e) (set_next m s)) ->
  (forall d m, d ∉ live -> Q (PVal d) (set_next m (set_live (live ++ [d]) s))) ->
  wp securityfs_create Q s.
Proof.
  intros live He HQ. apply wp_bind, wp_call.
  destruct (Z.ltb_spec (env_securityfs (k_next s)) 0); [by apply wp_ret, He|].
  apply wp_bind, wp_gets, wp_bind, wp_modify, wp_ret. apply HQ. apply infinite_is_fresh.
Qed.

(** [create_namespace_policy_securityfs] and its twin: a failure leaves no
    entry behind. *)
Lemma wp_create_policy_file id dir Q s :
  (forall p live m, live ≡ₚ ptr_entry (no_error p) ++ live_dentries (k_securityfs s) ->
     Q p (set_next m (set_live live s))) ->
  wp (create_namespace_policy_securityfs (Some id) (PVal dir)) Q s.
Proof.
  intros HQ. cbn [create_namespace_policy_securityfs].
  assert (Herr : forall e m, Q (PErr e) (set_next m s)).
  { intros e m. rewrite <- (set_live_eta s). by apply HQ. }
  apply wp_bind, wp_kalloc. intros [] m; cbn [negb]; [|by apply wp_ret].
  apply wp_securityfs_create; intros; rewrite ?set_next_set_next; [apply Herr|].
  apply (HQ (PVal d) (live_dentries (k_securityfs s) ++ [d]) m0). apply Permutation_app_comm.
Qed.

Lemma wp_policy_files c n d1 d2 Q s :
  let heap := container_heap (k_containers s) in
  (forall p q live m,
     live ≡ₚ ptr_entry q ++ ptr_entry p ++ live_dentries (k_securityfs s) ->
     Q 0 (set_next m (set_live live (set_heap (<[c := with_securityfs (PVal d1) d2 p q n]> heap) s)))) ->
  wp (let* policy := create_namespace_policy_securityfs (Some (cn_id n)) (PVal d1) in
      let n := with_securityfs (PVal d1) d2 (no_error policy) (cn_securityfs_policy_changes_file n) n in
      store_container c n;;
      let* changes := create_namespace_policy_changes_securityfs (Some (cn_id n)) (PVal d1) in
      store_container c (with_securityfs (PVal d1) d2 (no_error policy) (no_error changes) n);;
      ret 0) Q s.
Proof.
  intros heap HQ. apply wp_bind, wp_create_policy_file. intros p live m Hl. apply wp_bind, wp_modify.
  apply wp_bind, (wp_create_policy_file (cn_id n) d1). intros q live' m' Hl'.
  apply wp_bind, wp_modify, wp_ret.
  specialize (HQ (no_error p) (no_error q) live' m').
  rewrite <- (insert_insert_eq heap c _
    (with_securityfs (PVal d1) d2 (no_error p) (cn_securityfs_policy_changes_file n) n)) in HQ.
  apply HQ. rewrite Hl'. cbn. by rewrite Hl.
Qed.

(** A node without entries. *)
Definition bare (n : container_node) : Prop :=
  cn_securityfs_dir n = PNull /\ cn_securityfs_measurements_file n = PNull /\
  cn_securityfs_policy_file n = PNull /\ cn_securityfs_policy_changes_file n = PNull.

(** Only the pointers to securityfs entries differ. *)
Definition same_but_files (n n' : container_node) : Prop :=
  exists a b p q, n' = with_securityfs a b p q n.

(** A failing creation of the directory removes what it made. *)
Lemma wp_create_securityfs c n Q s :
  let heap := container_heap (k_containers s) in
  heap !! c = Some n -> bare n -> (forall e, dentry_of (k_securityfs s) containers_dir <> PErr e) ->
  (forall e m n', e < 0 -> Q e (set_next m (set_heap (<[c := n']> heap) s))) ->
  (forall n' live m, same_but_files n n' -> live ≡ₚ node_dentries n' ++ live_dentries (k_securityfs s) ->
     Q 0 (set_next m (set_live live (set_heap (<[c := n']> heap) s)))) ->
  wp (create_container_securityfs c) Q s.
Proof.
  intros heap Hn (_ & Hm & Hp & Hc) Hdir He HQ. apply wp_bind, wp_gets.
  destruct (dentry_of _ _) as [|e|parent]; [|by destruct (Hdir e)|].
  { apply wp_ret. rewrite <- (set_next_eta s), <- (set_heap_id c n s Hn). by apply He. }
  apply wp_bind. eapply wp_load_container; [exact Hn|]. rewrite Hm, Hp, Hc.
  apply wp_bind, wp_securityfs_create; [intros e m Hlt|intros d m Hd]; apply wp_bind, wp_modify.
  { by apply wp_ret, He. }
  apply wp_bind, wp_securityfs_create; [intros e m' Hlt|intros d' m' Hd']; apply wp_bind, wp_modify.
  - apply wp_bind, wp_bind, wp_gets. cbn [live_dentries k_securityfs set_heap set_containers set_next set_live set_securityfs].
    rewrite remove_one_fresh by done. apply wp_bind, wp_deref. eexists. split; [done|].
    apply wp_modify, wp_bind, wp_modify, wp_ret.
    specialize (He e m' (with_securityfs PNull (PErr e) PNull PNull n) Hlt).
    rewrite <- (set_live_eta s) in He. cbn. rewrite !insert_insert_eq. exact He.
  - apply wp_policy_files. intros p q live m'' Hl. cbn. rewrite !insert_insert_eq.
    apply (HQ (with_securityfs (PVal d) (PVal d') p q n)); [by eexists _, _, _, _|].
    rewrite Hl. unfold node_dentries. cbn. solve_Permutation.
Qed.

Lemma wp_remove_ptr p rest Q s :
  live_dentries (k_securityfs s) ≡ₚ ptr_entry p ++ rest ->
  (forall live, live ≡ₚ rest -> Q tt (set_live live s)) ->
  wp (match p with PVal d => securityfs_remove d | _ => ret tt end) Q s.
Proof.
  intros Hl HQ. destruct p as [|e|d]; [..|cbn in Hl].
  1,2: apply wp_ret; rewrite <- (set_live_eta s); by apply HQ.
  destruct (remove_one_Some d (live_dentries (k_securityfs s))) as (l & Hr & Hp); [rewrite Hl; set_solver|].
  apply wp_bind, wp_gets. rewrite Hr. apply wp_bind, wp_deref. exists l. split; [done|].
  apply wp_modify, HQ. apply (Permutation_cons_inv (a := d)). by rewrite <- Hp, Hl.
Qed.

(** The node after its entries were removed. *)
Definition stripped (n : container_node) : container_node :=
  with_securityfs (cleared (cn_securityfs_dir n)) (cleared (cn_securityfs_measurements_file n))
    (cleared (cn_securityfs_policy_file n)) (cleared (cn_securityfs_policy_changes_file n)) n.

Lemma wp_remove_securityfs c n rest Q s :
  let heap := container_heap (k_containers s) in
  heap !! c = Some n -> live_dentries (k_securityfs s) ≡ₚ node_dentries n ++ rest ->
  (forall live, live ≡ₚ rest -> Q tt (set_live live (set_heap (<[c := stripped n]> heap) s))) ->
  wp (remove_container_securityfs c) Q s.
Proof.
  intros heap Hn Hl HQ. unfold node_dentries in Hl. rewrite <- !app_assoc in Hl.
  apply wp_bind. eapply wp_load_container; [exact Hn|].
  apply wp_bind. eapply wp_remove_ptr; [exact Hl|]. intros l1 H1. apply wp_bind, wp_modify.
  apply wp_bind. eapply wp_remove_ptr; [exact H1|]. intros l2 H2. apply wp_bind, wp_modify.
  apply wp_bind. eapply wp_remove_ptr; [exact H2|]. intros l3 H3. apply wp_bind, wp_modify.
  apply wp_bind. eapply wp_remove_ptr; [exact H3|]. intros l4 H4. apply wp_modify.
  specialize (HQ l4 H4). cbn. rewrite !insert_insert_eq. exact HQ.
Qed.

(** ** Creation *)

Lemma fresh_addr_None h : h !! fresh_addr h = None.
Proof.
  apply not_elem_of_dom. intros Hd. pose proof (infinite_is_fresh (map_to_list h).*1) as Hf.
  apply Hf. apply elem_of_dom in Hd as [n Hn]. apply list_elem_of_fmap.
  exists (fresh_addr h, n). split; [done|]. by apply elem_of_map_to_list.
Qed.

Definition new_node (id : bytes) : container_node :=
  ContainerNode 1 (strscpy (zeros CONTAINER_ID_MAX_LEN) id CONTAINER_ID_MAX_LEN) [] true
    (zeros MERKLE_HASH_SIZE) 0 PNull PNull PNull PNull.

Lemma new_node_ok id n : same_but_files (new_node id) n -> node_ok (set_refcnt 2 n).
Proof.
  intros (? & ? & ? & ? & ->). split; [done| |done|done]. unfold strlen. cbn [cn_id set_refcnt with_securityfs new_node].
  rewrite (cstr_strscpy _ _ 127), length_take. unfold CONTAINER_ID_MAX_LEN. lia.
Qed.

(** Publishing a new node with one reference for the list and one for the
    caller. *)
Lemma container_inv_publish held cs c n :
  container_inv held cs -> container_heap cs !! c = None -> node_ok (set_refcnt 2 n) ->
  (forall d m, d ∈ container_list cs -> container_heap cs !! d = Some m -> cstr (cn_id m) <> cstr (cn_id n)) ->
  container_inv (c :: held) (ContainerState (<[c := set_refcnt 2 n]> (container_heap cs))
    (container_list cs ++ [c]) (atomic_inc (container_count cs)) (container_cleanup_wq cs)).
Proof.
  intros [H1 H2 H3 (q & Hq & Hnd & Hmem) H5 H6] Hc Hok Hid.
  assert (Hnew : c ∉ container_list cs ++ held).
  { intros Hin. apply H2 in Hin as [n' Hn']. congruence. }
  assert (Hlist : forall d, d ∈ container_list cs -> d <> c) by set_solver.
  split; cbn [container_list container_heap container_cleanup_wq container_count].
  - apply NoDup_app. split; [done|]. split; [set_solver|apply NoDup_singleton].
  - intros d Hd. apply lookup_insert_is_Some'. destruct (decide (c = d)); [by left|right].
    apply H2. set_solver.
  - intros d m Hd. unfold refs. rewrite !count_occ_app. cbn [count_occ].
    apply lookup_insert_Some in Hd as [[<- <-]|[Hne Hd]].
    + destruct (Nat.eq_dec c c); [|done]. cbn.
      rewrite (proj1 (count_occ_not_In Nat.eq_dec (container_list cs) c)),
        (proj1 (count_occ_not_In Nat.eq_dec held c)); [done|rewrite <- list_elem_of_In; set_solver..].
    + destruct (Nat.eq_dec c d); [done|]. rewrite (H3 d m Hd). unfold refs. rewrite count_occ_app. lia.
  - exists q. split; [done|]. split; [done|]. intros d. rewrite Hmem.
    destruct (decide (c = d)) as [<-|Hne]; [rewrite lookup_insert_eq, Hc|by rewrite lookup_insert_ne].
    split; intros (m & Hm & H0); [done|]. injection Hm as <-. done.
  - intros d e m m' Hd He Hm Hm' Heq.
    apply lookup_insert_Some in Hm as [[<- <-]|[Hne Hm]]; apply lookup_insert_Some in Hm' as [[<- <-]|[Hne' Hm']].
    + done.
    + by destruct (Hid e m' ltac:(set_solver) Hm').
    + by destruct (Hid d m ltac:(set_solver) Hm).
    + apply (H5 d e m m'); auto; set_solver.
  - intros d m Hd Hm. apply elem_of_app in Hd as [Hd|Hd%list_elem_of_singleton].
    + rewrite lookup_insert_ne in Hm by (symmetry; auto). by eapply H6.
    + subst. rewrite lookup_insert_eq in Hm. by injection Hm as <-.
Qed.

Lemma counted_publish h l c k q :
  counted (ContainerState h l k q) -> forall h', counted (ContainerState h' (l ++ [c]) (atomic_inc k) q).
Proof.
  unfold counted. cbn [container_count container_list]. intros -> h'. unfold atomic_inc.
  rewrite to_u32_add_mod, length_app. f_equal. cbn. lia.
Qed.

Lemma wp_find_absent l id Q s :
  (forall c, c ∈ l -> exists n, container_heap (k_containers s) !! c = Some n /\ cstr (cn_id n) <> cstr id) ->
  Q None s -> wp (find_in l id) Q s.
Proof.
  intros Hl HQ. induction l as [|c l IH]; [done|]. destruct (Hl c) as (n & Hn & Hne); [set_solver|].
  cbn [find_in]. apply wp_bind. eapply wp_load_container; [exact Hn|].
  rewrite <- strcmp_spec in Hne. apply Z.eqb_neq in Hne. rewrite Hne. apply IH. intros d Hd. apply Hl. set_solver.
Qed.

(** The second and third lookups of a creation find nothing: the create mutex
    excludes a concurrent creation. *)
Lemma wp_find_again id cs c n' Q s s0 :
  container_list (k_containers s) = container_list cs ->
  container_heap (k_containers s) = <[c := n']> (container_heap cs) ->
  container_heap cs !! c = None ->
  (forall d, d ∈ container_list cs -> is_Some (container_heap cs !! d)) ->
  (forall d n, d ∈ container_list cs -> container_heap cs !! d = Some n -> cstr (cn_id n) <> cstr id) ->
  s = s0 -> Q None s0 -> wp (find_container_by_id (Some id)) Q s.
Proof.
  intros Hl Hh Hc Hlive Hno -> HQ. apply wp_bind, wp_gets. rewrite Hl. apply wp_find_absent; [|done].
  intros d Hd. destruct (Hlive d Hd) as [m Hm]. exists m. rewrite Hh.
  rewrite lookup_insert_ne by congruence. eauto.
Qed.

Lemma wp_namespace_any id Q s :
  (forall ns m p, Q p (set_next m (set_namespaces ns s))) ->
  wp (bpfima_policy_namespace_get_or_create id) Q s.
Proof.
  intros HQ. apply wp_namespace_get; [|intros; apply HQ]. intros e m _.
  specialize (HQ (k_namespaces s) m (PErr e)). by destruct s.
Qed.

Lemma wp_create held id Q s :
  let cs := k_containers s in
  container_inv held cs -> held_bound held -> (strlen id < CONTAINER_ID_MAX_LEN)%nat ->
  (forall e, dentry_of (k_securityfs s) containers_dir <> PErr e) ->
  (forall e m, e < 0 -> Q (PErr e) (set_next m s)) ->
  (forall c n cs', c ∈ container_list cs -> container_heap cs !! c = Some n -> cstr (cn_id n) = cstr id ->
     container_inv (c :: held) cs' -> agree cs cs' -> Q (PVal c) (set_containers cs' s)) ->
  (forall c n live ns m, container_heap cs !! c = None -> same_but_files (new_node id) n ->
     live ≡ₚ node_dentries n ++ live_dentries (k_securityfs s) ->
     (forall d n, d ∈ container_list cs -> container_heap cs !! d = Some n -> cstr (cn_id n) <> cstr id) ->
     Q (PVal c) (set_next m (set_live live (set_namespaces ns (set_containers
       (ContainerState (<[c := set_refcnt 2 n]> (container_heap cs)) (container_list cs ++ [c])
         (atomic_inc (container_count cs)) (container_cleanup_wq cs)) s))))) ->
  wp (create_container_node id) Q s.
Proof.
  intros cs Hi Hb Hlen Hdir He Hold Hnew. unfold create_container_node, create_container_node_locked.
  apply wp_bind. eapply wp_find; [exact Hi|done| |].
  2:{ intros c n cs' Hc Hn Hid _ Hinv Hag. apply wp_ret. by eapply Hold. }
  intros Hno. apply wp_bind, wp_kalloc. intros [] m1; cbn [negb]; [|by apply wp_ret, He].
  apply wp_bind, wp_gets. set (c := fresh_addr _).
  assert (Hc : container_heap cs !! c = None) by apply fresh_addr_None.
  assert (Hlive : forall d, d ∈ container_list cs -> is_Some (container_heap cs !! d)).
  { intros d Hd. apply (ci_live _ _ Hi). set_solver. }
  assert (Hfree : forall (e : Z) m n', e < 0 -> wp (kfree_node c;; ret (PErr e : ptr nat)) Q
    (set_next m (set_heap (<[c := n']> (container_heap cs)) s))).
  { intros e m n' Hlt. apply wp_bind. eapply wp_kfree_node; [apply lookup_insert_eq|]. apply wp_ret.
    cbn. rewrite delete_insert_id by done. specialize (He e m Hlt). unfold cs in *. by destruct s as [? ? ? ? ? [] ? ? ?]. }
  apply wp_bind, wp_modify, wp_bind, wp_alloc_shash. intros p m2 Hp. destruct p as [|e|[]]; [done| |].
  { by apply (Hfree (- ENOMEM)). }
  apply wp_bind, wp_modify. fold (new_node id).
  apply wp_bind, (wp_create_securityfs c (new_node id)); [apply lookup_insert_eq|done|done| |].
  - intros e m3 n' Hlt. destruct (Z.ltb_spec e 0); [|lia]. apply wp_bind. cbn. rewrite !insert_insert_eq.
    assert (Hk : wp (kfree_node c;; ret (PErr e : ptr nat)) Q
      (set_next m3 (set_heap (<[c := n']> (container_heap cs)) s))) by by apply Hfree.
    destruct (e =? - EEXIST); [|by apply wp_ret].
    eapply (wp_find_again id cs c n'); [done|done|done|done|done|done|exact Hk].
  - intros n live m3 Hsame Hl. cbn [Z.ltb Z.compare].
    destruct Hsame as (a & b & p & q & ->). cbn in Hl |- *. rewrite !insert_insert_eq.
    apply wp_bind, wp_namespace_any. intros ns m4 _. apply wp_bind.
    eapply (wp_find_again id cs c); [done|done|done|done|done|done|].
    apply wp_bind, wp_modify, wp_bind, wp_modify, wp_bind.
    eapply wp_load_container; [apply lookup_insert_eq|]. apply wp_bind, wp_modify, wp_ret.
    cbn. rewrite !insert_insert_eq.
    apply (Hnew c (with_securityfs a b p q (new_node id)) live ns m4); [done|by eexists _, _, _, _|done|done].
Qed.

Lemma published_dentries_snoc h l c n k q :
  c ∉ l -> published_dentries (ContainerState (<[c := n]> h) (l ++ [c]) k q) =
  flat_map (dentries_at h) l ++ node_dentries n.
Proof.
  intros Hc. unfold published_dentries. cbn [container_heap container_list]. rewrite flat_map_app. f_equal.
  - apply flat_map_eq, Forall_forall. intros d Hd. unfold dentries_at. rewrite lookup_insert_ne; [done|].
    intros ->. done.
  - cbn. unfold dentries_at. by rewrite lookup_insert_eq, app_nil_r.
Qed.

(** What a creation does to a module whose invariants hold: an error changes
    nothing, and a success returns a published node of the identifier with a
    reference for the caller. *)
Definition create_post (held base : list nat) (id : bytes) (s : kstate) (p : ptr nat) (s' : kstate) : Prop :=
  match p with
  | PNull => False
  | PErr e => e < 0 /\ s' = set_next (k_next s') s
  | PVal c =>
      container_inv (c :: held) (k_containers s') /\ dentries_inv base s' /\
      (exists n, container_heap (k_containers s') !! c = Some n /\ cstr (cn_id n) = cstr id) /\
      c ∈ container_list (k_containers s') /\
      (container_list (k_containers s') = container_list (k_containers s) \/
       container_list (k_containers s') = container_list (k_containers s) ++ [c]) /\
      (counted (k_containers s) -> counted (k_containers s')) /\
      lists_kept (k_containers s) (k_containers s') /\
      s' = set_next (k_next s') (set_live (live_dentries (k_securityfs s'))
             (set_namespaces (k_namespaces s') (set_containers (k_containers s') s)))
  end.

Lemma wp_create_post held base id s :
  container_inv held (k_containers s) -> dentries_inv base s -> held_bound held ->
  (strlen id < CONTAINER_ID_MAX_LEN)%nat ->
  (forall e, dentry_of (k_securityfs s) containers_dir <> PErr e) ->
  wp (create_container_node id) (create_post held base id s) s.
Proof.
  intros Hi Hd Hb Hlen Hdir. eapply wp_create; [exact Hi|done|done|done|..].
  - intros e m Hlt. by split.
  - intros c n cs' Hc Hn Hid Hinv Hag. split; [done|]. split.
    { unfold dentries_inv. cbn. by rewrite (agree_dentries _ _ Hag). }
    destruct (erase_lookup _ _ _ _ (ag_heap _ _ Hag) Hn) as (n' & Hn' & Heq).
    split; [exists n'; split; [done|]; change (cn_id n') with (cn_id (set_refcnt 0 n')); by rewrite Heq|].
    cbn. unfold counted. rewrite (ag_list _ _ Hag), (ag_counter _ _ Hag). split; [done|]. split; [by left|].
    split; [done|]. split; [by apply agree_lists|]. by destruct s as [? ? ? ? ? ? ? ? []].
  - intros c n live ns m Hc Hsame Hl Hno.
    assert (Hid : cstr (cn_id n) = cstr id).
    { destruct Hsame as (? & ? & ? & ? & ->). by apply cstr_strscpy_fits. }
    split; [apply container_inv_publish; [done|done|by eapply new_node_ok|by setoid_rewrite Hid]|].
    split.
    { unfold dentries_inv. cbn [live_dentries k_securityfs k_containers set_next set_live set_securityfs set_namespaces set_containers].
      rewrite published_dentries_snoc, Hl, Hd.
      - cbn. unfold published_dentries. change (node_dentries (set_refcnt 2 n)) with (node_dentries n). solve_Permutation.
      - intros Hin. destruct (ci_live _ _ Hi c) as [? ?]; [set_solver|congruence]. }
    split; [eexists; split; [apply lookup_insert_eq|done]|].
    split; [cbn; set_solver|]. split; [by right|]. split_and!; [| |done].
    2:{ intros d n' Hd'. cbn in Hd'. apply lookup_insert_Some in Hd' as [[<- <-]|[_ Hd']]; [left|by right; exists n'].
        by destruct Hsame as (? & ? & ? & ? & ->). }
    destruct s as [? ? ? ? ? [] ? ? ?]. intros Hk. exact (counted_publish _ _ _ _ _ Hk _).
Qed.

(** ** Teardown *)

Lemma node_dentries_stripped n : node_dentries (stripped n) = [].
Proof. by destruct n as [? ? ? ? ? ? [] [] [] []]. Qed.

(** The list's references become the ones of the cleanup loop. *)
Lemma container_inv_unlink held cs :
  container_inv held cs ->
  container_inv (container_list cs ++ held)
    (ContainerState (container_heap cs) [] (container_count cs) (container_cleanup_wq cs)).
Proof.
  intros [H1 H2 H3 H4 H5 H6]. split; cbn; auto; [constructor|..]; intros; by apply not_elem_of_nil in H.
Qed.

Lemma container_inv_strip held cs c n :
  container_inv held cs -> container_list cs = [] -> container_heap cs !! c = Some n ->
  container_inv held (with_heap (<[c := stripped n]> (container_heap cs)) cs).
Proof.
  intros [H1 H2 H3 (q & Hq & Hnd & Hmem) H5 H6] Hl Hn.
  assert (Hz : forall d, (exists m, <[c := stripped n]> (container_heap cs) !! d = Some m /\ cn_refcnt m = 0) <->
    exists m, container_heap cs !! d = Some m /\ cn_refcnt m = 0).
  { intros d. destruct (decide (c = d)) as [<-|Hne]; [|by rewrite lookup_insert_ne].
    rewrite lookup_insert_eq, Hn. split; intros (m & [= <-] & H0); by eexists. }
  split; cbn; auto.
  - intros d Hd. apply lookup_insert_is_Some'. right. by apply H2.
  - intros d m Hd. apply lookup_insert_Some in Hd as [[<- <-]|[_ Hd]]; [by apply (H3 c n)|by apply H3].
  - exists q. split; [done|]. split; [done|]. intros d. by rewrite Hmem, Hz.
  - rewrite Hl. by intros c0 c' n0 n' ?%not_elem_of_nil.
  - rewrite Hl. by intros c0 n0 ?%not_elem_of_nil.
Qed.

Lemma wp_cleanup_nodes held base l Q s :
  NoDup l -> container_list (k_containers s) = [] -> container_inv (l ++ held) (k_containers s) ->
  live_dentries (k_securityfs s) ≡ₚ base ++ flat_map (dentries_at (container_heap (k_containers s))) l ->
  (forall cs live, container_inv held cs -> container_list cs = [] -> live ≡ₚ base ->
     Q tt (set_live live (set_containers cs s))) ->
  wp (cleanup_nodes l) Q s.
Proof.
  revert s. induction l as [|c l IH]; intros s Hnd Hnil Hi Hl HQ.
  { apply wp_ret. specialize (HQ (k_containers s) (live_dentries (k_securityfs s)) Hi Hnil).
    rewrite app_nil_r in Hl. specialize (HQ Hl). by destruct s as [? ? ? ? ? ? ? ? []]. }
  apply NoDup_cons in Hnd as [Hc Hnd]. destruct (ci_live _ _ Hi c) as [n Hn]; [set_solver|].
  cbn [cleanup_nodes]. apply wp_bind.
  eapply (wp_remove_securityfs c n (base ++ flat_map (dentries_at (container_heap (k_containers s))) l)).
  { done. }
  { rewrite Hl. cbn [flat_map]. unfold dentries_at at 1. rewrite Hn. solve_Permutation. }
  intros live Hlive. apply wp_bind. eapply (wp_put (l ++ held)).
  { by apply (container_inv_strip _ (k_containers s)). }
  intros cs Hinv Hag. apply IH; [done| |done| |].
  - cbn. by rewrite (ag_list _ _ Hag).
  - cbn. rewrite Hlive. apply Permutation_app_head. apply reflexive_eq, flat_map_eq, Forall_forall.
    intros d Hd. unfold dentries_at.
    assert (Hne : c <> d) by (intros ->; done).
    destruct (container_heap (k_containers s) !! d) as [m|] eqn:Em.
    + destruct (erase_lookup _ (container_heap cs) d m (ag_heap _ _ Hag)) as (m' & -> & Heq).
      { cbn. by rewrite lookup_insert_ne. }
      symmetry. by apply erase_node_dentries.
    + destruct (ci_live _ _ Hi d) as [? ?]; [set_solver|congruence].
  - intros cs' live' H1 H2 H3. exact (HQ cs' live' H1 H2 H3).
Qed.

Lemma wp_cleanup_all base s :
  container_inv [] (k_containers s) -> dentries_inv base s ->
  wp (cleanup_all_containers;; bpfima_container_cleanup) (fun _ s' =>
    k_containers s' = ContainerState ∅ [] 0 None /\ live_dentries (k_securityfs s') ≡ₚ base /\
    s' = set_live (live_dentries (k_securityfs s')) (set_namespaces (k_namespaces s')
           (set_containers (k_containers s') s))) s.
Proof.
  intros Hi Hd. apply wp_bind, wp_bind, wp_gets, wp_bind, wp_modify, wp_bind.
  eapply (wp_cleanup_nodes [] base); [apply Hi|done|by apply container_inv_unlink|exact Hd|].
  intros cs live Hinv Hnil Hlive. apply wp_modify, wp_bind.
  assert (Hinv0 : container_inv [] (k_containers (set_count 0 (set_containers cs s)))) by by destruct Hinv.
  eapply wp_run_cleanup; [exact Hinv0|]. intros ns cs' Hi' Hl' Hq' Hc' Hh'. apply wp_modify. cbn.
  split; [|done]. cbn in Hl', Hc'. rewrite Hl', Hc', Hnil. f_equal.
  apply map_empty. intros c. rewrite Hh'. cbn. destruct (container_heap cs !! c) as [n|] eqn:En; [|done].
  by rewrite (ci_refcnt _ _ Hinv c n En), Hnil.
Qed.

(** Looking up a container is sound and complete, and safe. With the store
    invariant, [find_container_by_id] does not fault; it returns NULL exactly
    when no published container has the identifier, and otherwise the one that
    has, with a reference counted for the caller and nothing else changed. *)
Theorem find_container_spec held id s :
  container_inv held (k_containers s) -> held_bound held ->
  wp (find_container_by_id (Some id)) (fun r s' =>
    match r with
    | None => s' = s /\ forall c n, c ∈ container_list (k_containers s) ->
        container_heap (k_containers s) !! c = Some n -> cstr (cn_id n) <> cstr id
    | Some c => c ∈ container_list (k_containers s) /\
        (exists n, container_heap (k_containers s) !! c = Some n /\ cstr (cn_id n) = cstr id) /\
        container_inv (c :: held) (k_containers s') /\ agree (k_containers s) (k_containers s') /\
        s' = set_containers (k_containers s') s
    end) s.
Proof.
  intros Hi Hb. eapply wp_find; [exact Hi|done|done|]. intros c n cs Hc Hn Hid _ Hinv Hag. split_and!; eauto.
Qed.

(** Creation of a container. It does not fault; an error leaves the whole
    state as it was (no node, no securityfs entry, no namespace left behind),
    and a success returns a published node of the identifier, existing or new,
    with one reference for the list and one for the caller, keeping
    identifiers unique and securityfs exactly the published entries. *)
Theorem create_container_spec held base id s :
  container_inv held (k_containers s) -> dentries_inv base s -> held_bound held ->
  (strlen id < CONTAINER_ID_MAX_LEN)%nat ->
  (forall e, dentry_of (k_securityfs s) containers_dir <> PErr e) ->
  wp (create_container_node id) (create_post held base id s) s.
Proof. apply wp_create_post. Qed.

(** No use after free. Dropping a reference and a turn of the worker
    afterwards do not fault, keep the store invariant, and free no node that
    is published or that a caller still references; a node whose last
    reference is dropped is freed. *)
Theorem put_then_worker held c s :
  container_inv (c :: held) (k_containers s) ->
  wp (bpfima_put_container (Some c);; run_cleanup_wq) (fun _ s' =>
    container_inv held (k_containers s') /\
    (forall d n, d ∈ container_list (k_containers s) ++ held ->
       container_heap (k_containers s) !! d = Some n ->
       exists n', container_heap (k_containers s') !! d = Some n' /\ set_refcnt 0 n' = set_refcnt 0 n) /\
    (forall d, d ∉ container_list (k_containers s) ++ held -> container_heap (k_containers s') !! d = None)) s.
Proof.
  intros Hi. apply wp_bind. eapply wp_put; [exact Hi|]. intros cs Hinv Hag.
  eapply wp_run_cleanup; [exact Hinv|]. intros ns cs' Hi' Hl' _ _ Hh. split; [done|].
  assert (Hl : container_list cs = container_list (k_containers s)) by apply Hag.
  cbn in Hh, Hl' |- *. split.
  - intros d n Hd Hn. destruct (erase_lookup _ _ _ _ (ag_heap _ _ Hag) Hn) as (n' & Hn' & Heq).
    exists n'. split; [|done]. rewrite Hh, Hn'. rewrite <- Hl in Hd. apply refs_pos in Hd.
    rewrite <- (ci_refcnt _ _ Hinv d n' Hn') in Hd. by destruct (Z.eqb_spec (cn_refcnt n') 0); [lia|].
  - intros d Hd. rewrite Hh. destruct (container_heap cs !! d) as [n|] eqn:En; [|done].
    rewrite (ci_refcnt _ _ Hinv d n En). unfold refs. rewrite Hl.
    rewrite (proj1 (count_occ_not_In Nat.eq_dec _ d)); [done|]. by rewrite <- list_elem_of_In.
Qed.

(** Unloading leaks nothing. Once no caller holds a reference,
    [cleanup_all_containers] followed by [bpfima_container_cleanup] does not
    fault, frees every node, empties the list and removes every securityfs
    entry of a container. *)
Theorem teardown_releases_everything base s :
  container_inv [] (k_containers s) -> dentries_inv base s ->
  wp (cleanup_all_containers;; bpfima_container_cleanup) (fun _ s' =>
    k_containers s' = ContainerState ∅ [] 0 None /\ live_dentries (k_securityfs s') ≡ₚ base) s.
Proof.
  intros Hi Hd. eapply wp_mono; [by apply wp_cleanup_all|]. by intros ? s' (? & ? & _).
Qed.
End Inv.

(** ** Witnesses *)

Lemma sample_container_inv : container_inv (E := tpm_env) [] (k_containers sample_state).
Proof.
  assert (Hone : forall c n, container_heap (k_containers sample_state) !! c = Some n -> c = 1%nat /\ n = sample_node).
  { intros c n Hn. cbn in Hn. apply lookup_singleton_Some in Hn as [<- <-]. done. }
  split; cbn [k_containers sample_state container_list container_cleanup_wq].
  - apply NoDup_singleton.
  - intros c Hc. rewrite app_nil_r in Hc. apply list_elem_of_singleton in Hc as ->. by eexists.
  - intros c n [-> ->]%Hone. done.
  - exists []. split; [done|]. split; [constructor|]. intros c. split; [by intros ?%not_elem_of_nil|].
    by intros (n & [-> ->]%Hone & ?).
  - intros c c' n n' Hc%list_elem_of_singleton Hc'%list_elem_of_singleton. by subst.
  - intros c n _ [-> ->]%Hone. split; [done| |done|done]. vm_compute. lia.
Qed.

Lemma sample_dentries : dentries_inv [0%nat] sample_state.
Proof. unfold dentries_inv. vm_compute. solve_Permutation. Qed.

Lemma find_container_spec_witness :
  wp (find_container_by_id (Some (lit "web"))) (fun r s' =>
    r = Some 1%nat /\ container_inv (E := tpm_env) [1%nat] (k_containers s')) sample_state.
Proof.
  pose proof (find_container_spec (E := tpm_env) [] (lit "web") sample_state sample_container_inv ltac:(done)) as H.
  eapply wp_mono; [exact H|]. intros [c|] s'.
  - intros (Hc & _ & Hi & _). apply list_elem_of_singleton in Hc as ->. done.
  - intros (_ & Hno). by destruct (Hno 1%nat sample_node ltac:(by left) eq_refl).
Defined.

Lemma create_container_spec_witness :
  exists s', create_container_node (E := tpm_env) (lit "db") sample_state = Some (PVal 2%nat, s') /\
    container_inv (E := tpm_env) [2%nat] (k_containers s') /\ dentries_inv [0%nat] s'.
Proof.
  pose proof (create_container_spec (E := tpm_env) [] [0%nat] (lit "db") sample_state sample_container_inv
    sample_dentries ltac:(done) ltac:(cbn; unfold CONTAINER_ID_MAX_LEN; lia) ltac:(done)) as H.
  unfold wp in H. destruct (create_container_node (E := tpm_env) (lit "db") sample_state) as [[p s']|] eqn:Er; [|done].
  assert (Hp : p = PVal 2%nat).
  { enough (fst <$> create_container_node (E := tpm_env) (lit "db") sample_state = Some (PVal 2%nat)) as Hf
      by (rewrite Er in Hf; by injection Hf). by vm_compute. }
  subst p. exists s'. split; [done|]. split; apply H.
Defined.

Lemma put_then_worker_witness :
  exists s, container_inv (E := tpm_env) [1%nat] (k_containers s) /\
    wp (bpfima_put_container (Some 1%nat);; run_cleanup_wq)
      (fun _ s' => container_inv (E := tpm_env) [] (k_containers s')) s.
Proof.
  set (s := set_containers (with_heap (<[1%nat := set_refcnt 2 sample_node]>
    (container_heap (k_containers sample_state))) (k_containers sample_state)) sample_state).
  assert (Hi : container_inv (E := tpm_env) [1%nat] (k_containers s)).
  { by apply (container_inv_get (E := tpm_env) [] _ 1%nat sample_node sample_container_inv). }
  exists s. split; [done|].
  eapply wp_mono; [apply (put_then_worker (E := tpm_env) [] 1%nat s Hi)|]. by intros ? s' (? & _).
Defined.

Lemma teardown_releases_everything_witness :
  wp (cleanup_all_containers;; bpfima_container_cleanup) (fun _ s' =>
    container_heap (k_containers s') = ∅ /\ live_dentries (k_securityfs s') ≡ₚ [0%nat]) sample_state.
Proof.
  eapply wp_mono; [apply (teardown_releases_everything (E := tpm_env) [0%nat] sample_state sample_container_inv sample_dentries)|].
  intros ? s' (-> & ?). done.
Defined.
