(* ===== verification/Kfuncs.v ===== *)
(** * The kfuncs

    [src/kfuncs_measure.c], [src/kfuncs_container.c], [src/kfuncs_policy.c] and
    the wrappers of [src/policy_namespace.c]: what a BPF program calls.  Every
    kfunc copies and validates its arguments before it touches the state. A
    kfunc that fills an output buffer returns the result code and the bytes
    written. *)

From S2P Require Import Prelude CString Types Kernel Pattern Snapshot KfuncBuffer HashUtils Tpm PolicyMap Merkle PolicyNamespace PolicyManager Container.

Section Kfuncs.
Context {E : KernelEnv}.

(** ** Measurements *)

Definition DEFAULT_NS : bytes := lit "default".

Definition effective_ns (request : bpfima_measurement_request) : bytes :=
  if negb (Byte.eqb (char_at (mr_namespace_id request) 0) NUL)
  then mr_namespace_id request else DEFAULT_NS.

(** The container of the measurement, found or created. *)
Definition measurement_container (ns : bytes) : K (ptr nat) :=
  let* container := find_container_by_id (Some ns) in
  match container with
  | Some c => ret (PVal c)
  | None => create_container_node ns
  end.

Definition bpfima_measurement_extend (data : option bpfima_measurement_request) (data__sz : Z) : K Z :=
  match bpfima_prepare_measurement data data__sz
          (uninit (BPFIMA_EVENT_DATA_SIZE + BPFIMA_DEPENDENCIES_SIZE)) 512 with
  | inl e => ret e
  | inr (request, concat_data, total_len) =>
      let? hash_value := calculate_sha256_hash concat_data (Z.to_nat total_len) in
      let* error := bpfima_commit_get_error in
      if truth error then ret error else
      let* container := measurement_container (effective_ns request) in
      match container with
      | PErr e => ret e
      | PNull => ret (- EINVAL) (* [add_container_measurement(NULL, ...)] *)
      | PVal c =>
          let* rc := add_container_measurement (Some c) (Some (mr_event_name request))
            (Some (mr_additional_data request)) (Some (mr_dependencies request)) (Some hash_value) in
          bpfima_put_container (Some c);;
          ret (if rc =? 1 then 0 else rc)
      end
  end.

(** [%d] of an [int]. *)
Definition decimal_int (z : Z) : bytes := if z <? 0 then lit "-" ++ decimal (- z) else decimal z.

(** [tpm_pcr_read] of the SHA-256 bank. *)
Definition tpm_pcr_read : K (Z * bytes) :=
  let* n := call in
  let* pcr := gets k_pcr in
  ret (env_pcr_read n, if env_pcr_read n =? 0 then pcr else zeros MERKLE_HASH_SIZE).

Definition pcr_prefix : bytes := lit "PCR" ++ decimal_int bpfima_tpm_pcr_index.

(** The loop that appends the digest in hexadecimal while it fits. *)
Fixpoint append_hex (digest : bytes) (size : Z) (buf : bytes) : bytes :=
  match digest with
  | [] => buf
  | b :: digest =>
      if Z.of_nat (strlen buf) <? to_u32 (size - 3)
      then append_hex digest size
        (cstr buf ++ cstr (snprintf (Z.to_nat size - strlen buf) (hex_byte b)))
      else buf
  end.

(** The result code and the string in [pcr_buf], if one was written. *)
Definition bpfima_tpm_get_pcr_value (pcr_buf : option bytes) (pcr_buf__sz : Z) : K (Z * option bytes) :=
  let* sleep := can_sleep in
  match pcr_buf with
  | None => ret (- EINVAL, None)
  | Some _ =>
      let print text := Some (cstr (snprintf (Z.to_nat pcr_buf__sz) (pcr_prefix ++ text))) in
      if pcr_buf__sz <? Z.of_nat BPFIMA_PCR_BUFFER_SIZE then ret (- EINVAL, None) else
      if negb sleep then ret (0, print (lit "_ATOMIC_CONTEXT")) else
      let* rc := bpfima_commit_check_locked in
      if truth rc then ret (rc, None) else
      let* chip := tpm_default_chip in
      match chip with
      | None =>
          let* required := bpfima_commit_requires_hardware_locked in
          if required then bpfima_commit_fail_locked (- ENODEV);; ret (- ENODEV, None)
          else ret (0, print (lit "_HASH_SIMULATION"))
      | Some _ =>
          let* allowed := bpfima_commit_hardware_allowed_locked in
          if negb allowed then bpfima_commit_fail_locked (- EIO);; ret (- EIO, None) else
          let* (rc, digest) := tpm_pcr_read in
          if negb (rc =? 0) then ret (if rc >? 0 then - EIO else rc, print (lit "_HASH_SIMULATION")) else
          ret (0, Some (append_hex (take MERKLE_HASH_SIZE digest) pcr_buf__sz
            (cstr (snprintf (Z.to_nat pcr_buf__sz) (pcr_prefix ++ lit "_REAL:")))))
      end
  end.

Definition bpfima_tpm_is_available : K bool := bpfima_tpm_available.

(** ** Containers *)

(** Copy and validate the identifier argument. *)
Definition kfunc_id (id : option bytes) (id__sz : Z) : option bytes :=
  match bpfima_copy_kfunc_string (Some (uninit BPFIMA_NAMESPACE_SIZE)) (Z.of_nat BPFIMA_NAMESPACE_SIZE)
          id id__sz false with
  | (rc, id) => if truth rc || truth (bpfima_validate_namespace id) then None else id
  end.

Definition bpfima_container_get_or_create (container_id : option bytes) (container_id__sz : Z) : K Z :=
  match kfunc_id container_id container_id__sz with
  | None => ret (- EINVAL)
  | Some id =>
      let* container := find_container_by_id_rcu (Some id) in
      match container with
      | Some c => bpfima_put_container (Some c);; ret 0
      | None =>
          let* container := create_container_node id in
          match container with
          | PErr e => ret e
          | PNull => ret 0
          | PVal c => bpfima_put_container (Some c);; ret 0
          end
      end
  end.

Definition bpfima_merkle_get_root (root_hash_buf : option bytes) (root_hash__sz : Z) : K (Z + bytes) :=
  match root_hash_buf with
  | None => ret (inl (- EINVAL))
  | Some _ =>
      if negb (root_hash__sz =? Z.of_nat MERKLE_HASH_SIZE) then ret (inl (- EINVAL)) else
      gets (fun s => inr (take MERKLE_HASH_SIZE (root_hash (k_merkle s))))
  end.

(** [atomic_read] is an [int]. *)
Definition atomic_read (v : Z) : Z := if v <? 2 ^ 31 then v else v - 2 ^ 32.

Definition bpfima_container_get_count : K Z :=
  gets (fun s => atomic_read (container_count (k_containers s))).

Definition bpfima_container_get_measurement_count (container_id : option bytes) (container_id__sz : Z)
    : K Z :=
  match kfunc_id container_id container_id__sz with
  | None => ret (- EINVAL)
  | Some id =>
      let* container := find_container_by_id_rcu (Some id) in
      match container with
      | None => ret (- ENOENT)
      | Some c =>
          let* n := load_container c in
          bpfima_put_container (Some c);;
          ret (atomic_read (cn_measurement_count n))
      end
  end.

Definition bpfima_container_exists (container_id : option bytes) (container_id__sz : Z) : K Z :=
  match kfunc_id container_id container_id__sz with
  | None => ret (- EINVAL)
  | Some id =>
      let* container := find_container_by_id_rcu (Some id) in
      match container with
      | Some c => bpfima_put_container (Some c);; ret 1
      | None => ret 0
      end
  end.

Definition bpfima_container_get_leaf_hash (container_id : option bytes) (container_id__sz : Z)
    (leaf_hash : option bytes) (leaf_hash__sz : Z) : K (Z + bytes) :=
  match kfunc_id container_id container_id__sz with
  | None => ret (inl (- EINVAL))
  | Some id =>
      match leaf_hash with
      | None => ret (inl (- EINVAL))
      | Some _ =>
          if negb (leaf_hash__sz =? Z.of_nat MERKLE_HASH_SIZE) then ret (inl (- EINVAL)) else
          let* container := find_container_by_id_rcu (Some id) in
          match container with
          | None => ret (inl (- ENOENT))
          | Some c =>
              let* n := load_container c in
              bpfima_put_container (Some c);;
              ret (inr (take MERKLE_HASH_SIZE (cn_leaf_hash n)))
          end
      end
  end.

(** ** Policy *)

Definition bpfima_policy_namespace_update_filter_flags (id : bytes) (value : Z) : K Z :=
  bpfima_policy_update_field (Some id) (Some (lit "filter_flags")) value.
Definition bpfima_policy_namespace_update_action_flags (id : bytes) (value : Z) : K Z :=
  bpfima_policy_update_field (Some id) (Some (lit "action_flags")) value.
Definition bpfima_policy_namespace_update_min_file_size (id : bytes) (value : Z) : K Z :=
  bpfima_policy_update_field (Some id) (Some (lit "min_file_size")) value.
Definition bpfima_policy_namespace_update_log_level (id : bytes) (value : Z) : K Z :=
  bpfima_policy_update_field (Some id) (Some (lit "log_level")) value.

Definition bpfima_policy_update_filter_flags (namespace_id : option bytes) (namespace_id__sz new_flags : Z)
    : K Z :=
  match kfunc_id namespace_id namespace_id__sz with
  | None => ret (- EINVAL)
  | Some id => bpfima_policy_namespace_update_filter_flags id new_flags
  end.
Definition bpfima_policy_update_action_flags (namespace_id : option bytes) (namespace_id__sz new_flags : Z)
    : K Z :=
  match kfunc_id namespace_id namespace_id__sz with
  | None => ret (- EINVAL)
  | Some id => bpfima_policy_namespace_update_action_flags id new_flags
  end.
Definition bpfima_policy_update_min_file_size (namespace_id : option bytes) (namespace_id__sz new_size : Z)
    : K Z :=
  match kfunc_id namespace_id namespace_id__sz with
  | None => ret (- EINVAL)
  | Some id => bpfima_policy_namespace_update_min_file_size id new_size
  end.
Definition bpfima_policy_update_log_level (namespace_id : option bytes) (namespace_id__sz new_level : Z)
    : K Z :=
  match kfunc_id namespace_id namespace_id__sz with
  | None => ret (- EINVAL)
  | Some id => bpfima_policy_namespace_update_log_level id new_level
  end.

Definition bpfima_policy_get_changes_hash (namespace_id : option bytes) (namespace_id__sz : Z)
    (hash_out : option bytes) (hash_out__sz : Z) : K (Z + bytes) :=
  match kfunc_id namespace_id namespace_id__sz with
  | None => ret (inl (- EINVAL))
  | Some id =>
      match hash_out with
      | None => ret (inl (- EINVAL))
      | Some _ =>
          if negb (hash_out__sz =? Z.of_nat MERKLE_HASH_SIZE) then ret (inl (- EINVAL)) else
          bpfima_policy_namespace_get_changes_hash id hash_out hash_out__sz
      end
  end.

(** [sizeof(struct bpfima_policy_config)], [..._context] and [..._result]. *)
Definition SIZEOF_POLICY_CONFIG : Z := 36.
Definition SIZEOF_POLICY_CONTEXT : Z := 528.
Definition SIZEOF_POLICY_RESULT : Z := 64.

Definition bpfima_policy_namespace_get_config (namespace_id : option bytes) (namespace_id__sz : Z)
    (config : option bytes) (config__sz : Z) : K (Z + bpfima_policy_config) :=
  match config with
  | None => ret (inl (- EINVAL))
  | Some _ =>
      if negb (config__sz =? SIZEOF_POLICY_CONFIG) then ret (inl (- EINVAL)) else
      match kfunc_id namespace_id namespace_id__sz with
      | None => ret (inl (- EINVAL))
      | Some id => bpfima_policy_read (Some id)
      end
  end.

(** The copy of a name or path argument of [size] bytes. *)
Definition kfunc_text (size : nat) (text : option bytes) (text__sz : Z) : option bytes :=
  match bpfima_copy_kfunc_string (Some (uninit size)) (Z.of_nat size) text text__sz false with
  | (rc, text) => if truth rc then None else text
  end.

Definition bpfima_policy_should_ignore_cgroup (cgroup_name__nullable : option bytes)
    (cgroup_name__sz filter_flags : Z) : K bool :=
  match kfunc_text BPFIMA_NAMESPACE_SIZE cgroup_name__nullable cgroup_name__sz with
  | None => ret false
  | Some name => bpfima_policy_match_root name filter_flags false
  end.

Definition bpfima_policy_should_ignore_path (path__nullable : option bytes) (path__sz filter_flags : Z)
    : K bool :=
  match kfunc_text BPFIMA_PATH_SIZE path__nullable path__sz with
  | None => ret false
  | Some path => bpfima_policy_match_root path filter_flags true
  end.

Definition bpfima_policy_resolve (data : option bpfima_policy_context) (data__sz : Z)
    (output : option bytes) (output__sz : Z) : K (Z + bpfima_policy_result) :=
  match data, output with
  | Some context, Some _ =>
      if negb (data__sz =? SIZEOF_POLICY_CONTEXT) || negb (output__sz =? SIZEOF_POLICY_RESULT)
      then ret (inl (- EINVAL)) else bpfima_policy_resolve_context context
  | _, _ => ret (inl (- EINVAL))
  end.
End Kfuncs.
