(* ===== verification/KfuncsInv.v ===== *)
(** * Properties of the kfuncs

    The invariant of the whole module and its preservation by the measurement
    and container kfuncs; what they return. *)

From S2P Require Import Prelude CString Types Kernel Sample Pattern Snapshot KfuncBuffer HashUtils Tpm PolicyMap Merkle MerkleSpec MerkleInv PolicyNamespace PolicyManager Container ContainerSpec ContainerRules ContainerInv Kfuncs.

Section Inv.
Context {E : KernelEnv} {L : KernelLaws E}.

(** The successive leaf hashes of every container are among the committed
    values, in order. *)
Definition leaves_logged (vs : list bytes) (cs : container_state) : Prop :=
  forall c n, container_heap cs !! c = Some n ->
    roots (zeros MERKLE_HASH_SIZE) (en_digest <$> cn_measurement_list n) `sublist_of` vs.

Lemma leaves_logged_kept vs cs cs' : lists_kept cs cs' -> leaves_logged vs cs -> leaves_logged vs cs'.
Proof.
  intros Hk Hl c n' Hn'. destruct (Hk c n' Hn') as [->|(n & Hn & _ & ->)]; [apply sublist_nil_l|by eapply Hl].
Qed.

Lemma leaves_logged_app vs ws cs : leaves_logged vs cs -> leaves_logged (vs ++ ws) cs.
Proof. intros Hl c n Hn. apply sublist_inserts_r. by eapply Hl. Qed.

Lemma leaves_logged_snoc vs cs c n e :
  leaves_logged vs cs -> container_heap cs !! c = Some n ->
  cn_leaf_hash n = replay (zeros MERKLE_HASH_SIZE) (en_digest <$> cn_measurement_list n) ->
  leaves_logged (vs ++ [extend (cn_leaf_hash n) (en_digest e)])
    (with_heap (<[c := with_measurement n e (extend (cn_leaf_hash n) (en_digest e))]> (container_heap cs)) cs).
Proof.
  intros Hl Hn Hleaf d m Hd. cbn in Hd. apply lookup_insert_Some in Hd as [[<- <-]|[_ Hd]]; [|by apply sublist_inserts_r, (Hl d)].
  cbn [with_measurement cn_measurement_list]. rewrite fmap_app. cbn [fmap list_fmap]. rewrite roots_snoc, replay_app, <- Hleaf.
  apply sublist_app; [by eapply Hl|done].
Qed.

(** The digests recorded so far, each with its container. *)
Definition seen (s : kstate) : gset (bytes * bytes) := table_set (sha256_hash_table (k_hash s)).

(** The digests of a container's list are distinct and recorded for it. *)
Definition listed_once (recorded : gset (bytes * bytes)) (cs : container_state) : Prop :=
  forall c n, container_heap cs !! c = Some n ->
    NoDup (en_digest <$> cn_measurement_list n) /\
    Forall (fun d => (d, cstr (cn_id n)) ∈ recorded) (en_digest <$> cn_measurement_list n).

Lemma listed_once_kept R R' cs cs' : lists_kept cs cs' -> R ⊆ R' -> listed_once R cs -> listed_once R' cs'.
Proof.
  intros Hk HR Ho c n' Hn'. destruct (Hk c n' Hn') as [->|(n & Hn & Hid & Hl)]; [split; constructor|].
  rewrite Hid, Hl. destruct (Ho c n Hn) as [Hd Hf]. split; [done|]. eapply Forall_impl; [exact Hf|]. intros d. apply HR.
Qed.

Lemma listed_once_snoc R cs c n e leaf :
  listed_once R cs -> container_heap cs !! c = Some n -> (en_digest e, cstr (cn_id n)) ∉ R ->
  listed_once ({[(en_digest e, cstr (cn_id n))]} ∪ R) (with_heap (<[c := with_measurement n e leaf]> (container_heap cs)) cs).
Proof.
  intros Ho Hn Hnew d m Hd. cbn in Hd. apply lookup_insert_Some in Hd as [[<- <-]|[_ Hd]].
  - destruct (Ho c n Hn) as [Hnd Hf]. cbn [with_measurement cn_measurement_list cn_id]. rewrite fmap_app. split.
    + apply NoDup_app. split_and!; [done| |apply NoDup_singleton]. intros x Hx Hin. apply list_elem_of_singleton in Hin as ->.
      rewrite Forall_forall in Hf. by apply Hnew, Hf.
    + apply Forall_app. split; [|by constructor; [set_solver|constructor]]. eapply Forall_impl; [exact Hf|]. set_solver.
  - destruct (Ho d m Hd) as [Hnd Hf]. split; [done|]. eapply Forall_impl; [exact Hf|]. set_solver.
Qed.

(** [vs] are the committed values, [held] the references callers hold and
    [base] the securityfs entries that belong to no container. *)
Record module_inv (pcr0 : bytes) (vs : list bytes) (held base : list nat) (s : kstate) : Prop := ModuleInv {
  mi_log : log_inv pcr0 vs s;
  mi_containers : container_inv held (k_containers s);
  mi_counted : counted (k_containers s);
  mi_dentries : dentries_inv base s;
  mi_map : map_bound s;
  mi_dir : forall e, dentry_of (k_securityfs s) containers_dir <> PErr e;
  mi_tfm : forall e, sha256_tfm (k_hash s) <> PErr e;
  mi_leaves : leaves_logged vs (k_containers s);
  mi_once : listed_once (seen s) (k_containers s);
}.

(** The parts of the state that a container operation leaves alone. *)
Record outside_same (s s' : kstate) : Prop := OutsideSame {
  os_pcr : k_pcr s' = k_pcr s;
  os_commit : k_commit s' = k_commit s;
  os_merkle : k_merkle s' = k_merkle s;
  os_hash : k_hash s' = k_hash s;
  os_policy : k_policy s' = k_policy s;
  os_dirs : dentry_of (k_securityfs s') = dentry_of (k_securityfs s);
}.

Lemma outside_same_refl s : outside_same s s.
Proof. done. Qed.

Lemma log_inv_frame pcr0 vs s s' :
  k_pcr s' = k_pcr s -> k_commit s' = k_commit s -> k_merkle s' = k_merkle s -> k_hash s' = k_hash s ->
  log_inv pcr0 vs s -> log_inv pcr0 vs s'.
Proof. intros H1 H2 H3 H4 []. split; rewrite ?H1, ?H2, ?H3, ?H4; done. Qed.

Lemma module_inv_outside pcr0 vs held held' base s s' :
  outside_same s s' -> module_inv pcr0 vs held base s ->
  container_inv held' (k_containers s') -> counted (k_containers s') -> dentries_inv base s' ->
  lists_kept (k_containers s) (k_containers s') ->
  module_inv pcr0 vs held' base s'.
Proof.
  intros [H1 H2 H3 H4 H5 H6] [M1 M2 M3 M4 M5 M6 M7 M8 M9] Hc Hk Hd Hl. split; [|done|done|done|..].
  - by eapply log_inv_frame.
  - unfold map_bound. by rewrite H5.
  - by rewrite H6.
  - by rewrite H4.
  - by eapply leaves_logged_kept.
  - eapply listed_once_kept; [exact Hl| |exact M9]. unfold seen. by rewrite H4.
Qed.

(** A change of the reference counts only. *)
Lemma module_inv_agree pcr0 vs held held' base cs s :
  module_inv pcr0 vs held base s -> container_inv held' cs -> agree (k_containers s) cs ->
  module_inv pcr0 vs held' base (set_containers cs s).
Proof.
  intros Hm Hi Hag. eapply (module_inv_outside pcr0 vs _ _ base s); [done|exact Hm|done|..].
  - pose proof (mi_counted _ _ _ _ _ Hm) as Hk. unfold counted in *. cbn.
    by rewrite (ag_counter _ _ Hag), (ag_list _ _ Hag).
  - unfold dentries_inv. cbn. rewrite (agree_dentries _ _ Hag). apply Hm.
  - by apply agree_lists.
Qed.

(** A latched error keeps the log invariant. *)
Lemma log_inv_error pcr0 vs e n s :
  e < 0 -> log_inv pcr0 vs s -> log_inv pcr0 vs (set_next n (set_error e s)).
Proof. intros He []. split; cbn; auto; lia. Qed.

Lemma module_inv_error pcr0 vs held base e n s :
  e < 0 -> module_inv pcr0 vs held base s -> module_inv pcr0 vs held base (set_next n (set_error e s)).
Proof. intros He []. split; auto. by apply log_inv_error. Qed.

Lemma module_inv_next pcr0 vs held base n s :
  module_inv pcr0 vs held base s -> module_inv pcr0 vs held base (set_next n s).
Proof. intros []. split; auto. by eapply log_inv_frame; [..|done]. Qed.

(** ** Commits and the store *)

Lemma container_inv_same held cs c n n' :
  container_inv held cs -> container_heap cs !! c = Some n -> same_node n n' ->
  cn_refcnt n' = cn_refcnt n ->
  container_inv held (with_heap (<[c := n']> (container_heap cs)) cs).
Proof.
  intros Hi Hn Hs Hr. destruct (inv_ids_nodes _ cs c n n' Hi Hn Hs) as (Hl & Hids & Hnodes).
  destruct Hi as [H1 H2 H3 (q & Hq & Hnd & Hmem) H5 H6]. split; cbn; auto.
  - intros d Hd. apply lookup_insert_is_Some'. right. by apply H2.
  - intros d m Hd. apply lookup_insert_Some in Hd as [[<- <-]|[_ Hd]]; [rewrite Hr|]; by apply H3.
  - exists q. split; [done|]. split; [done|]. intros d. rewrite Hmem.
    destruct (decide (c = d)) as [<-|Hne]; [|by rewrite lookup_insert_ne].
    rewrite lookup_insert_eq, Hn. split; intros (m & [= <-] & H0); eexists; split; eauto; congruence.
Qed.

Lemma dentries_at_same h c n n' d :
  h !! c = Some n -> node_dentries n' = node_dentries n -> dentries_at (<[c := n']> h) d = dentries_at h d.
Proof.
  intros Hn Hs. unfold dentries_at. destruct (decide (c = d)) as [<-|Hne].
  - by rewrite lookup_insert_eq, Hn.
  - by rewrite lookup_insert_ne.
Qed.

Lemma measured_node_ok n e :
  length (en_digest e) = MERKLE_HASH_SIZE ->
  same_node n (with_measurement n e (extend (cn_leaf_hash n) (en_digest e))).
Proof.
  intros Hd. split; [done|]. split; [|done]. intros [H1 H2 H3 H4]. split; [done|done|..]; cbn [cn_leaf_hash
    cn_measurement_list cn_measurement_count with_measurement].
  - by rewrite take_extend, fmap_app, replay_app, H3.
  - rewrite H4. unfold atomic_inc. rewrite to_u32_add_mod, length_app. f_equal. cbn. lia.
Qed.

(** A completed measurement was not recorded before, and is now. *)
Lemma commit_done_seen c n e v src pcr0 vs s s' :
  log_inv pcr0 vs s -> node_ok n -> length (en_digest e) = MERKLE_HASH_SIZE ->
  commit_done (Some (c, n, e)) v src true s s' ->
  ((en_digest e, cstr (cn_id n)) ∉ seen s) /\ seen s' = {[(en_digest e, cstr (cn_id n))]} ∪ seen s.
Proof.
  intros Hlog Hok Hd Hdn. pose proof (li_table _ _ _ Hlog) as Hw. pose proof (cd_fresh _ _ _ _ _ _ Hdn eq_refl) as Hf.
  change (recorded n (en_digest e) s = false) in Hf. rewrite recorded_member in Hf by done.
  apply bool_decide_eq_false in Hf. split; [done|]. unfold seen. rewrite (cd_hash _ _ _ _ _ _ Hdn). cbn [sha256_hash_table].
  rewrite hash_add_set, digest_entry_key; [done|done|apply Hok|done..].
Qed.

Lemma module_inv_done pcr0 vs held base c n e v src s s' :
  container_heap (k_containers s) !! c = Some n -> node_ok n -> length (en_digest e) = MERKLE_HASH_SIZE ->
  commit_done (Some (c, n, e)) v src true s s' -> module_inv pcr0 vs held base s ->
  module_inv pcr0 (vs ++ [extend (cn_leaf_hash n) (en_digest e)]) held base s'.
Proof.
  intros Hn Hno Hd Hdn Hm.
  pose proof (commit_done_inv (Some (c, n, e)) v src true pcr0 vs s s' Hd Hdn (mi_log _ _ _ _ _ Hm)) as Hlog.
  destruct (commit_done_seen c n e v src pcr0 vs s s' (mi_log _ _ _ _ _ Hm) Hno Hd Hdn) as [Hnew Hseen].
  destruct Hm as [M1 M2 M3 M4 M5 M6 M7 M8 M9]. destruct Hdn as [_ _ _ Hc Hh _ _ _ _ Hp _ Hf].
  cbn [committed_value] in Hc.
  split; [done|..]; rewrite ?Hseen; unfold dentries_inv, map_bound, counted; rewrite ?Hc, ?Hf, ?Hp, ?Hh; try done.
  - apply (container_inv_same _ (k_containers s) c n _ M2 Hn); [by apply measured_node_ok|done].
  - unfold published_dentries. cbn [container_heap container_list k_containers set_heap set_containers].
    erewrite flat_map_eq; [exact M4|]. apply Forall_forall. intros d _. by eapply dentries_at_same.
  - apply leaves_logged_snoc; [done|done|]. by apply no_leaf.
  - by apply listed_once_snoc.
Qed.

Lemma module_inv_failed pcr0 vs held base who dedup rc s s' :
  commit_failed who dedup rc s s' -> module_inv pcr0 vs held base s -> module_inv pcr0 vs held base s'.
Proof.
  intros Hf Hm. pose proof (commit_failed_inv _ _ _ _ _ _ _ Hf (mi_log _ _ _ _ _ Hm)) as Hlog.
  pose proof (cf_log _ _ _ _ _ Hf) as Hl. unfold same_log in Hl. rewrite Hl in Hlog |- *.
  destruct Hm. by split.
Qed.

(** ** The measurement kfunc *)

Lemma wp_calculate data len Q s :
  (forall e, sha256_tfm (k_hash s) <> PErr e) ->
  (forall e n, e < 0 -> Q (inl e) (set_next n s)) ->
  (forall n, Q (inr (sha256 (take len data))) (set_next n s)) ->
  wp (calculate_sha256_hash data len) Q s.
Proof.
  intros Ht He HQ. unfold calculate_sha256_hash. apply wp_bind, wp_gets.
  destruct (sha256_tfm (k_hash s)) as [|e|] eqn:Et.
  - apply wp_ret. rewrite <- (set_next_eta s). by apply He.
  - by destruct (Ht e).
  - apply wp_bind, wp_shash_op_law. intros rc n Hrc. apply wp_ret. destruct (Z.eqb_spec rc 0); auto with lia.
Qed.

(** The container of a measurement is published and referenced. *)
Lemma wp_measurement_container pcr0 vs held base ns Q s :
  module_inv pcr0 vs held base s -> held_bound held -> (strlen ns < CONTAINER_ID_MAX_LEN)%nat ->
  (forall e n, e < 0 -> Q (PErr e) (set_next n s)) ->
  (forall c n s', outside_same s s' -> module_inv pcr0 vs (c :: held) base s' ->
     c ∈ container_list (k_containers s') -> container_heap (k_containers s') !! c = Some n ->
     cstr (cn_id n) = cstr ns -> Q (PVal c) s') ->
  wp (measurement_container ns) Q s.
Proof.
  intros Hm Hb Hns He HQ. pose proof Hm as [M1 M2 M3 M4 M5 M6 M7 _].
  unfold measurement_container. apply wp_bind. eapply wp_find; [exact M2|done| |].
  - intros _. eapply wp_mono; [by apply (wp_create_post held base)|]. intros [|e|c] s' Hp; [done|..].
    + destruct Hp as [Hlt ->]. by apply He.
    + destruct Hp as (Hi & Hd & (n & Hn & Hid) & Hin & _ & Hk & Hl & Hs).
      apply (HQ c n); auto; [by rewrite Hs|]. eapply module_inv_outside; eauto. by rewrite Hs.
  - intros c n cs Hc Hn Hid Hn' Hi Hag. apply wp_ret.
    apply (HQ c (set_refcnt (cn_refcnt n + 1) n)); [done| |by rewrite <- (ag_list _ _ Hag) in Hc|done|done].
    by eapply module_inv_agree.
Qed.

Lemma module_inv_put pcr0 vs held base c Q s :
  module_inv pcr0 vs (c :: held) base s ->
  (forall s', outside_same s s' -> module_inv pcr0 vs held base s' ->
     agree (k_containers s) (k_containers s') -> Q tt s') ->
  wp (bpfima_put_container (Some c)) Q s.
Proof.
  intros Hm HQ. eapply wp_put; [apply Hm|]. intros cs Hi Hag. apply HQ; [done| |done].
  by eapply module_inv_agree.
Qed.

(** A container named [ns] ends with a measurement of the digest [d]. *)
Definition last_measured (ns d : bytes) (s : kstate) : Prop :=
  exists c n l e, c ∈ container_list (k_containers s) /\ container_heap (k_containers s) !! c = Some n /\
    cstr (cn_id n) = cstr ns /\ cn_measurement_list n = l ++ [e] /\ en_digest e = d.

(** Adding a measurement to the referenced container. *)
Lemma wp_add pcr0 vs held base c n name data deps d ns (Q : Z -> kstate -> Prop) s :
  module_inv pcr0 vs held base s -> c ∈ container_list (k_containers s) ->
  container_heap (k_containers s) !! c = Some n -> cstr (cn_id n) = cstr ns -> length d = MERKLE_HASH_SIZE ->
  (forall rc s', rc < 0 -> module_inv pcr0 vs held base s' -> seen s' = seen s -> Q rc s') ->
  (forall s', module_inv pcr0 vs held base s' -> seen s' = seen s -> (d, cstr ns) ∈ seen s -> Q 1 s') ->
  (forall s', module_inv pcr0 (vs ++ [extend (cn_leaf_hash n) d]) held base s' ->
     (d, cstr ns) ∉ seen s -> seen s' = {[(d, cstr ns)]} ∪ seen s -> last_measured ns d s' -> Q 0 s') ->
  wp (add_container_measurement (Some c) (Some name) data deps (Some d)) Q s.
Proof.
  intros Hm Hc Hn Hid Hd Hfail Hdup Hdone.
  pose proof (ci_nodes _ _ (mi_containers _ _ _ _ _ Hm) c n Hc Hn) as Hok.
  pose proof (li_table _ _ _ (mi_log _ _ _ _ _ Hm)) as Hw.
  assert (Hde : forall e, e = new_entry name data deps d -> en_digest e = d) by (intros ? ->; apply take_ge; lia).
  remember (new_entry name data deps d) as e eqn:Ee. specialize (Hde e eq_refl).
  apply (wp_add_measurement c n); [apply Hm|done|apply Hm|done|..]; rewrite <- Ee.
  - intros rc s1 Hrc Hf. pose proof (module_inv_failed _ _ _ _ _ _ _ _ _ Hf Hm) as Hm1.
    assert (Hs1 : seen s1 = seen s) by (unfold seen; by rewrite (cf_log _ _ _ _ _ Hf)).
    destruct (cf_rc _ _ _ _ _ Hf) as [->|?]; [|by apply Hfail]. apply Hdup; [done|done|].
    destruct (cf_duplicate _ _ _ _ _ Hf eq_refl) as [_ Hr]. rewrite Hde, recorded_member in Hr by done.
    apply bool_decide_eq_true in Hr. by rewrite <- Hid.
  - intros s1 Hdn. pose proof (cd_containers _ _ _ _ _ _ Hdn) as Hct.
    destruct (commit_done_seen c n e _ _ pcr0 vs s s1 (mi_log _ _ _ _ _ Hm) Hok ltac:(by rewrite Hde) Hdn) as [Hf Hs1].
    pose proof (module_inv_done _ _ _ _ _ _ _ _ _ _ _ Hn Hok ltac:(by rewrite Hde) Hdn Hm) as Hm1.
    rewrite Hde in Hm1. rewrite Hde, Hid in Hf. rewrite Hde, Hid in Hs1. apply Hdone; [done|done|done|].
    + cbn [committed_value] in Hct. unfold last_measured. rewrite Hct. eexists c, _, (cn_measurement_list n), e. cbn.
      rewrite lookup_insert_eq. split; [done|]. split; [done|]. by split.
Qed.

Lemma last_measured_agree ns d s s' :
  agree (k_containers s) (k_containers s') -> last_measured ns d s -> last_measured ns d s'.
Proof.
  intros [Hl _ Hh] (c & n & l & e & Hc & Hn & Hid & Hm & Hd). destruct (erase_lookup _ _ _ _ Hh Hn) as (n' & Hn' & Heq).
  exists c, n', l, e. rewrite Hl. split; [done|]. split; [done|].
  change (cn_id n') with (cn_id (set_refcnt 0 n')).
  change (cn_measurement_list n') with (cn_measurement_list (set_refcnt 0 n')). by rewrite Heq.
Qed.

(** The same, and dropping the reference. *)
Lemma wp_add_and_put pcr0 vs held base c n name data deps d ns (Q : Z -> kstate -> Prop) s :
  module_inv pcr0 vs (c :: held) base s -> c ∈ container_list (k_containers s) ->
  container_heap (k_containers s) !! c = Some n -> cstr (cn_id n) = cstr ns -> length d = MERKLE_HASH_SIZE ->
  (forall rc s', rc < 0 -> module_inv pcr0 vs held base s' -> seen s' = seen s -> Q rc s') ->
  (forall s', module_inv pcr0 vs held base s' -> seen s' = seen s -> (d, cstr ns) ∈ seen s -> Q 0 s') ->
  (forall s', module_inv pcr0 (vs ++ [extend (cn_leaf_hash n) d]) held base s' ->
     (d, cstr ns) ∉ seen s -> seen s' = {[(d, cstr ns)]} ∪ seen s -> last_measured ns d s' -> Q 0 s') ->
  wp (let* rc := add_container_measurement (Some c) (Some name) data deps (Some d) in
      bpfima_put_container (Some c);; ret (if rc =? 1 then 0 else rc)) Q s.
Proof.
  intros Hm Hc Hn Hid Hd Hfail Hdup Hdone.
  assert (Hseen : forall s1 s2, outside_same s1 s2 -> seen s2 = seen s1) by (intros s1 s2 Ho; unfold seen; by rewrite (os_hash _ _ Ho)).
  apply wp_bind. eapply (wp_add pcr0 vs (c :: held) base); [done|done|done|exact Hid|done|..].
  - intros rc s1 Hrc Hm1 Hs1. apply wp_bind. eapply module_inv_put; [exact Hm1|]. intros s2 Ho Hm2 _. apply wp_ret.
    destruct (Z.eqb_spec rc 1); [lia|]. apply Hfail; [done|done|]. by rewrite (Hseen s1).
  - intros s1 Hm1 Hs1 Hin. apply wp_bind. eapply module_inv_put; [exact Hm1|]. intros s2 Ho Hm2 _. apply wp_ret.
    apply Hdup; [done| |done]. by rewrite (Hseen s1).
  - intros s1 Hm1 Hf Hs1 Hlast. apply wp_bind. eapply module_inv_put; [exact Hm1|]. intros s2 Ho Hm2 Hag. apply wp_ret.
    apply Hdone; [done|done|by rewrite (Hseen s1)|by eapply last_measured_agree].
Qed.
End Inv.
