(* ===== verification/KfuncsSpec.v ===== *)
(** * Theorems on the kfuncs

    The measurement kfunc end to end, the container kfuncs and the text of the
    PCR kfunc. *)

From S2P Require Import Prelude CString Types Kernel Sample Pattern Snapshot KfuncBuffer HashUtils Tpm PolicyMap Merkle MerkleSpec MerkleInv PolicyNamespace PolicyManager PolicyAudit Container ContainerSpec ContainerRules ContainerInv Kfuncs KfuncsInv.

Section Theorems.
Context {E : KernelEnv} {L : KernelLaws E}.

(** ** Arguments *)

Lemma effective_ns_ok r : measurement_valid r -> (strlen (effective_ns r) < CONTAINER_ID_MAX_LEN)%nat.
Proof.
  intros Hv. unfold effective_ns. destruct (negb _); [apply Hv|]. vm_compute. lia.
Qed.

Lemma copied_string size src sz dest :
  0 <= sz -> Z.of_nat (length src) = sz ->
  bpfima_copy_kfunc_string (Some (uninit size)) (Z.of_nat size) (Some src) sz false = (0, Some dest) ->
  (strlen dest < size)%nat /\ cstr dest = cstr src.
Proof.
  intros Hz Hl. unfold bpfima_copy_kfunc_string. destruct (_ || _) eqn:Eb; [done|].
  rewrite orb_false_iff, Z.eqb_neq, Z.gtb_ltb, Z.ltb_ge in Eb. destruct Eb as [Hnz Hle].
  assert (Ht : take (Z.to_nat sz) src = src) by (apply take_ge; lia). rewrite Ht.
  destruct (memchr _ _ _) eqn:Em; cbn [negb]; [|done]. cbn [negb andb].
  destruct (Byte.eqb _ _); [done|]. intros [= <-].
  assert (Hlen : length (blit (uninit size) 0 src) = size).
  { rewrite length_blit; rewrite uninit_length; lia. }
  pose proof Em as Hs. apply memchr_true in Hs; [|lia]. split; [lia|].
  pose proof (take_blit (uninit size) 0 src ltac:(rewrite uninit_length; lia)) as Hb.
  rewrite take_0, app_nil_l, Nat.add_0_l in Hb. rewrite <- Hb at 2.
  replace (length src) with (Z.to_nat sz) by lia. by rewrite cstr_take_terminated.
Qed.

(** An accepted identifier is a valid name and the caller's string. *)
Lemma kfunc_id_Some src sz id :
  0 <= sz -> Z.of_nat (length src) = sz -> kfunc_id (Some src) sz = Some id ->
  (strlen id < CONTAINER_ID_MAX_LEN)%nat /\ cstr id = cstr src /\ namespace_ok id.
Proof.
  intros Hz Hl. unfold kfunc_id.
  destruct (bpfima_copy_kfunc_string _ _ _ _ _) as [rc dest] eqn:Ec.
  destruct (truth rc) eqn:Er; [done|]. cbn [orb]. apply truth_false in Er as ->.
  destruct (truth (bpfima_validate_namespace dest)) eqn:Ev; [done|]. intros ->.
  apply truth_false, validate_namespace_spec in Ev. apply copied_string in Ec as [H1 H2]; auto.
Qed.

(** ** Measurements *)

Lemma wp_measurement_extend pcr0 vs held base r s :
  module_inv pcr0 vs held base s -> held_bound held -> wf_measurement r ->
  wp (bpfima_measurement_extend (Some r) SIZEOF_MEASUREMENT_REQUEST) (fun rc s' =>
    let pair := (sha256 (measurement_payload r), cstr (effective_ns r)) in
    rc <= 0 /\
    (~ (measurement_valid r /\ measurement_payload r <> []) -> rc = - EINVAL /\ s' = s) /\
    (rc <> 0 -> module_inv pcr0 vs held base s' /\ seen s' = seen s) /\
    (rc = 0 -> (pair ∈ seen s /\ module_inv pcr0 vs held base s' /\ seen s' = seen s) \/
       ((pair ∉ seen s) /\ seen s' = {[pair]} ∪ seen s /\
        last_measured (effective_ns r) (sha256 (measurement_payload r)) s' /\
        exists leaf, module_inv pcr0 (vs ++ [extend leaf (sha256 (measurement_payload r))]) held base s'))) s.
Proof.
  intros Hm Hb Hwf. unfold bpfima_measurement_extend.
  destruct (prepare_cases r (uninit (BPFIMA_EVENT_DATA_SIZE + BPFIMA_DEPENDENCIES_SIZE)) Hwf)
    as [Hok Hbad]; [by rewrite uninit_length|].
  destruct (decide (measurement_checked r = true /\ measurement_payload r <> [])) as [[Hc Hne]|Hnot].
  2:{ rewrite measurement_checked_spec in Hnot by done. rewrite Hbad by done. by apply wp_ret. }
  apply measurement_checked_spec in Hc as Hv; [|done].
  destruct Hok as (buf & -> & Htake & _ & _); [done|]. rewrite Nat2Z.id.
  apply wp_bind, wp_calculate; [apply Hm|..].
  { intros e n He. apply wp_ret. split; [lia|]. split; [by intros []|]. split; [|lia]. intros _. split; [by apply module_inv_next|done]. }
  intros n0. rewrite Htake. apply wp_bind, wp_commit_check.
  { intros e n He Hcase _. apply truth_true in He as Ht. rewrite Ht. apply wp_ret.
    pose proof (li_error _ _ _ (mi_log _ _ _ _ _ Hm)). cbn in Hcase.
    split; [lia|]. split; [by intros []|]. split; [|done]. intros _. split; [|done].
    apply (module_inv_error pcr0 vs held base e n s); [lia|done]. }
  intros n1 _. cbn [truth Z.eqb negb]. apply wp_bind.
  eapply (wp_measurement_container pcr0 vs held base); [by repeat apply module_inv_next|done|exact (effective_ns_ok r Hv)|..].
  { intros e n He. apply wp_ret. split; [lia|]. split; [by intros []|]. split; [|lia]. intros _.
    split; [by repeat apply module_inv_next|done]. }
  intros c n s1 Ho Hm1 Hc1 Hn1 Hid1.
  assert (Hseen : seen s1 = seen s) by (unfold seen; by rewrite (os_hash _ _ Ho)).
  eapply wp_add_and_put; [exact Hm1|done|done|exact Hid1|apply sha256_length|..].
  - intros rc s2 H0 Hm2 Hs2. split; [lia|]. split; [by intros []|]. rewrite Hs2, Hseen. split; [done|lia].
  - intros s2 Hm2 Hs2 Hin. split; [lia|]. split; [by intros []|]. split; [done|]. intros _. left. rewrite Hs2, Hseen in *. done.
  - intros s2 Hm2 Hin Hs2 Hlast. split; [lia|]. split; [by intros []|]. split; [done|]. intros _. right.
    rewrite Hs2, Hseen in *. eauto 10.
Qed.

(** C15: The measurement kfunc, end to end. On a module whose invariants hold it
    never faults, drops every reference it takes and returns 0 or a negative
    error. A request that breaks the input contract changes nothing and
    returns [-EINVAL]. Otherwise, on success the SHA-256 of the payload is recorded for the request's container
    ([default] when it names none): either it was already and the log is as
    before, or the log is extended by exactly one value and the container's
    list ends with the new digest. On an error no digest is recorded and the
    log is as before. *)
Theorem measurement_extend_spec pcr0 vs held base r s :
  module_inv pcr0 vs held base s -> held_bound held -> wf_measurement r ->
  wp (bpfima_measurement_extend (Some r) SIZEOF_MEASUREMENT_REQUEST) (fun rc s' =>
    let pair := (sha256 (measurement_payload r), cstr (effective_ns r)) in
    rc <= 0 /\
    (~ (measurement_valid r /\ measurement_payload r <> []) -> rc = - EINVAL /\ s' = s) /\
    (rc <> 0 -> module_inv pcr0 vs held base s' /\ seen s' = seen s) /\
    (rc = 0 -> (pair ∈ seen s /\ module_inv pcr0 vs held base s' /\ seen s' = seen s) \/
       ((pair ∉ seen s) /\ seen s' = {[pair]} ∪ seen s /\
        last_measured (effective_ns r) (sha256 (measurement_payload r)) s' /\
        exists leaf, module_inv pcr0 (vs ++ [extend leaf (sha256 (measurement_payload r))]) held base s'))) s.
Proof. exact (wp_measurement_extend pcr0 vs held base r s). Qed.

(** ** Containers *)

Definition published (id : bytes) (s : kstate) : Prop :=
  exists c n, c ∈ container_list (k_containers s) /\ container_heap (k_containers s) !! c = Some n /\
    cstr (cn_id n) = cstr id.

Lemma published_agree id s s' :
  agree (k_containers s) (k_containers s') -> published id s -> published id s'.
Proof.
  intros [Hl _ Hh] (c & n & Hc & Hn & Hid). destruct (erase_lookup _ _ _ _ Hh Hn) as (n' & Hn' & Heq).
  exists c, n'. rewrite Hl. split; [done|]. split; [done|].
  change (cn_id n') with (cn_id (set_refcnt 0 n')). by rewrite Heq.
Qed.

(** Look a container up, read the node and drop the reference. *)
Lemma wp_lookup_read {A} pcr0 vs held base id (found : container_node -> A) (absent : A)
    (Q : A -> kstate -> Prop) s :
  module_inv pcr0 vs held base s -> held_bound held ->
  (~ published id s -> Q absent s) ->
  (forall c n s', c ∈ container_list (k_containers s) -> container_heap (k_containers s) !! c = Some n ->
     cstr (cn_id n) = cstr id -> module_inv pcr0 vs held base s' ->
     agree (k_containers s) (k_containers s') -> Q (found (set_refcnt (cn_refcnt n + 1) n)) s') ->
  wp (let* container := find_container_by_id_rcu (Some id) in
      match container with
      | None => ret absent
      | Some c => let* n := load_container c in bpfima_put_container (Some c);; ret (found n)
      end) Q s.
Proof.
  intros Hm Hb Hno Hyes. apply wp_bind. eapply (wp_find held); [apply Hm|done| |].
  - intros Hn. apply wp_ret, Hno. intros (c & n & Hc & Hl & Hid). by eapply Hn.
  - intros c n cs Hc Hn Hid Hn' Hi Hag. apply wp_bind. eapply wp_load_container; [exact Hn'|]. apply wp_bind.
    eapply (module_inv_put pcr0 vs held base).
    + by eapply (module_inv_agree pcr0 vs held).
    + intros s' _ Hm' Hag'. apply wp_ret. apply (Hyes c n s'); auto. eapply agree_trans; [exact Hag|done].
Qed.

(** The lookup that only drops the reference. *)
Lemma wp_lookup_drop pcr0 vs held base id (found absent : Z) (Q : Z -> kstate -> Prop) s :
  module_inv pcr0 vs held base s -> held_bound held ->
  (~ published id s -> Q absent s) ->
  (forall s', published id s -> module_inv pcr0 vs held base s' ->
     agree (k_containers s) (k_containers s') -> Q found s') ->
  wp (let* container := find_container_by_id_rcu (Some id) in
      match container with
      | Some c => bpfima_put_container (Some c);; ret found
      | None => ret absent
      end) Q s.
Proof.
  intros Hm Hb Hno Hyes.
  pose proof (wp_lookup_read pcr0 vs held base id (fun _ => found) absent Q s Hm Hb Hno) as H.
  apply wp_bind. apply wp_bind in H.
  - eapply wp_mono; [exact H|]. intros [c|] s'; [|done]. intros Hw. apply wp_bind in Hw.
    unfold load_container in Hw. apply wp_bind, wp_gets, wp_deref in Hw as (n & _ & Hw). done.
  - intros c n s' Hc Hn Hid Hm' Hag. apply Hyes; [|done|done]. by exists c, n.
Qed.

(** The two halves of the next theorem. *)
Lemma wp_get_or_create pcr0 vs held base src s :
  module_inv pcr0 vs held base s -> held_bound held ->
  let sz := Z.of_nat (length src) in
  wp (bpfima_container_get_or_create (Some src) sz) (fun rc s' =>
    module_inv pcr0 vs held base s' /\ (rc = 0 -> kfunc_id (Some src) sz <> None /\ published src s')) s.
Proof.
  intros Hm Hb sz. unfold bpfima_container_get_or_create.
  destruct (kfunc_id (Some src) sz) as [id|] eqn:Ek; [|by apply wp_ret].
  apply kfunc_id_Some in Ek as (Hlen & Hcs & _); [|lia|done].
  assert (Hpub : forall x, published id x -> published src x) by (intros x; unfold published; by rewrite Hcs).
  apply wp_bind. eapply (wp_find held); [apply Hm|done| |].
  - intros _. apply wp_bind. eapply wp_mono; [apply (wp_create_post held base); [apply Hm|apply Hm|done|done|apply Hm]|].
    intros [|e|c] s1 Hp; [done|..].
    + destruct Hp as [Hlt ->]. apply wp_ret. split; [by apply module_inv_next|lia].
    + destruct Hp as (Hi & Hd & (n & Hn & Hid) & Hin & _ & Hk & Hl & Hs). apply wp_bind.
      eapply (module_inv_put pcr0 vs held base).
      { eapply (module_inv_outside pcr0 vs _ _ base s); [by rewrite Hs|exact Hm|done|apply Hk, Hm|done|done]. }
      intros s2 _ Hm2 Hag. apply wp_ret. split; [done|]. intros _. split; [done|].
      eapply Hpub, published_agree; [exact Hag|]. by exists c, n.
  - intros c n cs Hc Hn Hid Hn' Hi Hag. apply wp_bind. eapply (module_inv_put pcr0 vs held base).
    + by eapply (module_inv_agree pcr0 vs held).
    + intros s2 _ Hm2 Hag2. apply wp_ret. split; [done|]. intros _. split; [done|].
      apply Hpub, (published_agree id s); [|by exists c, n]. by eapply agree_trans.
Qed.

Lemma wp_exists pcr0 vs held base src s :
  module_inv pcr0 vs held base s -> held_bound held ->
  let sz := Z.of_nat (length src) in
  wp (bpfima_container_exists (Some src) sz) (fun r s' =>
    module_inv pcr0 vs held base s' /\ (r = 1 -> kfunc_id (Some src) sz <> None /\ published src s') /\
    (kfunc_id (Some src) sz <> None -> (published src s \/ published src s') -> r = 1)) s.
Proof.
  intros Hm Hb sz. unfold bpfima_container_exists.
  destruct (kfunc_id (Some src) sz) as [id|] eqn:Ek; [|by apply wp_ret].
  apply kfunc_id_Some in Ek as (Hlen & Hcs & _); [|lia|done].
  assert (Hpub : forall x, published id x <-> published src x) by (intros x; unfold published; by rewrite Hcs).
  eapply (wp_lookup_drop pcr0 vs held base); [done|done|..].
  - rewrite Hpub. intros Hno. split; [done|]. split; [done|]. tauto.
  - intros s' Hy Hm' Hag. split; [done|]. split; [|done]. intros _. split; [done|].
    rewrite <- Hpub. by eapply published_agree.
Qed.

(** The count is the length of the measurement list, as an [int]. *)
Lemma wp_measurement_count pcr0 vs held base src s :
  module_inv pcr0 vs held base s -> held_bound held ->
  let sz := Z.of_nat (length src) in
  wp (bpfima_container_get_measurement_count (Some src) sz) (fun r s' =>
    module_inv pcr0 vs held base s' /\
    ((r = - EINVAL /\ kfunc_id (Some src) sz = None) \/ (r = - ENOENT /\ ~ published src s) \/
     exists c n, c ∈ container_list (k_containers s) /\ container_heap (k_containers s) !! c = Some n /\
       cstr (cn_id n) = cstr src /\ r = atomic_read (to_u32 (Z.of_nat (length (cn_measurement_list n)))))) s.
Proof.
  intros Hm Hb sz. unfold bpfima_container_get_measurement_count.
  destruct (kfunc_id (Some src) sz) as [id|] eqn:Ek; [|apply wp_ret; split; [done|by left]].
  apply kfunc_id_Some in Ek as (Hlen & Hcs & _); [|lia|done].
  apply (wp_lookup_read pcr0 vs held base id (fun n => atomic_read (cn_measurement_count n)) (- ENOENT)); [done|done|..].
  - intros Hno. split; [done|]. right; left. split; [done|]. unfold published in *. by rewrite <- Hcs.
  - intros c n s' Hc Hn Hid Hm' _. split; [done|]. right; right. exists c, n. rewrite <- Hcs. split_and!; [done..|].
    cbn [cn_measurement_count set_refcnt]. by rewrite (no_count _ (ci_nodes _ _ (mi_containers _ _ _ _ _ Hm) c n Hc Hn)).
Qed.

(** Existence follows creation. If [bpfima_container_get_or_create] returns 0
    for a name, [bpfima_container_exists] with the same arguments then returns
    1; both leave the module's invariants and every caller's references as
    they were. *)
Theorem get_or_create_then_exists pcr0 vs held base src s :
  module_inv pcr0 vs held base s -> held_bound held ->
  let sz := Z.of_nat (length src) in
  wp (let* rc := bpfima_container_get_or_create (Some src) sz in
      let* found := bpfima_container_exists (Some src) sz in ret (rc, found))
    (fun r s' => module_inv pcr0 vs held base s' /\ (fst r = 0 -> snd r = 1) /\
      (snd r = 1 <-> kfunc_id (Some src) sz <> None /\ published src s')) s.
Proof.
  intros Hm Hb sz. apply wp_bind. eapply wp_mono; [by apply (wp_get_or_create pcr0 vs held base)|].
  intros rc s1 [Hm1 Hrc]. apply wp_bind. eapply wp_mono; [by apply (wp_exists pcr0 vs held base)|].
  intros found s2 (Hm2 & Hone & Hyes). apply wp_ret. cbn. split; [done|]. split; [|naive_solver].
  intros ->. destruct (Hrc eq_refl). auto.
Qed.

Lemma wp_leaf_hash pcr0 vs held base src buf s :
  module_inv pcr0 vs held base s -> held_bound held ->
  let sz := Z.of_nat (length src) in
  wp (bpfima_container_get_leaf_hash (Some src) sz (Some buf) (Z.of_nat MERKLE_HASH_SIZE)) (fun r s' =>
    module_inv pcr0 vs held base s' /\
    match r with
    | inr leaf => exists c n, c ∈ container_list (k_containers s) /\
        container_heap (k_containers s) !! c = Some n /\ cstr (cn_id n) = cstr src /\
        leaf = replay (zeros MERKLE_HASH_SIZE) (en_digest <$> cn_measurement_list n)
    | inl e => (e = - EINVAL /\ kfunc_id (Some src) sz = None) \/ (e = - ENOENT /\ ~ published src s)
    end) s.
Proof.
  intros Hm Hb sz. unfold bpfima_container_get_leaf_hash.
  destruct (kfunc_id (Some src) sz) as [id|] eqn:Ek; [|apply wp_ret; split; [done|by left]].
  apply kfunc_id_Some in Ek as (Hlen & Hcs & _); [|lia|done]. rewrite Z.eqb_refl. cbn [negb].
  eapply (wp_lookup_read pcr0 vs held base id (fun n => inr (take MERKLE_HASH_SIZE (cn_leaf_hash n))) (inl (- ENOENT)));
    [done|done|..].
  - intros Hno. split; [done|]. right. split; [done|]. unfold published in *. by rewrite <- Hcs.
  - intros c n s' Hc Hn Hid Hm' _. split; [done|]. exists c, n. rewrite <- Hcs. split_and!; [done..|].
    cbn [cn_leaf_hash set_refcnt]. pose proof (ci_nodes _ _ (mi_containers _ _ _ _ _ Hm) c n Hc Hn) as [_ _ Hleaf _].
    rewrite Hleaf. apply take_ge. destruct (cn_measurement_list n) as [|e l _] using rev_ind; [done|].
    rewrite fmap_app, replay_app. cbn. rewrite extend_length. done.
Qed.

(** The leaf hash a BPF program reads is the replay of exactly the digests in
    the container's measurement list; the call never faults, leaves the
    module's invariants and references as they were, and reports [-ENOENT]
    exactly for a valid name that is not tracked. *)
Theorem leaf_hash_is_replay pcr0 vs held base src buf s :
  module_inv pcr0 vs held base s -> held_bound held ->
  let sz := Z.of_nat (length src) in
  wp (bpfima_container_get_leaf_hash (Some src) sz (Some buf) (Z.of_nat MERKLE_HASH_SIZE)) (fun r s' =>
    module_inv pcr0 vs held base s' /\
    match r with
    | inr leaf => exists c n, c ∈ container_list (k_containers s) /\
        container_heap (k_containers s) !! c = Some n /\ cstr (cn_id n) = cstr src /\
        leaf = replay (zeros MERKLE_HASH_SIZE) (en_digest <$> cn_measurement_list n)
    | inl e => (e = - EINVAL /\ kfunc_id (Some src) sz = None) \/ (e = - ENOENT /\ ~ published src s)
    end) s.
Proof. exact (wp_leaf_hash pcr0 vs held base src buf s). Qed.

(** ** The PCR text *)

#[global] Instance nul_free_dec (b : bytes) : Decision (nul_free b).
Proof. unfold nul_free. apply _. Defined.

Lemma cstr_snprintf n text : nul_free text -> (length text < n)%nat -> cstr (snprintf n text) = text.
Proof.
  intros Hf Hl. unfold snprintf, blit. rewrite take_0, app_nil_l, take_ge by lia.
  rewrite <- app_assoc. by apply cstr_app_nul.
Qed.

Lemma hex_byte_nul_free b : nul_free (hex_byte b).
Proof. unfold nul_free. destruct b; vm_compute; intros H; repeat (apply elem_of_cons in H as [?|H]; [done|]); by apply not_elem_of_nil in H. Qed.

Lemma append_hex_fits digest size buf :
  nul_free buf -> Z.of_nat (length buf + 2 * length digest) + 3 <= size <= U32_MAX ->
  append_hex digest size buf = buf ++ hex digest.
Proof.
  revert buf. induction digest as [|b digest IH]; intros buf Hf Hs; cbn [append_hex hex flat_map].
  { by rewrite app_nil_r. }
  cbn [length] in Hs. unfold strlen. rewrite (cstr_id buf) by done.
  unfold to_u32. rewrite Z.mod_small by (unfold U32_MAX in Hs; lia).
  destruct (Z.ltb_spec (Z.of_nat (length buf)) (size - 3)); [|lia].
  assert (Hb : length (hex_byte b) = 2%nat) by done.
  rewrite cstr_snprintf; [|apply hex_byte_nul_free|lia]. rewrite IH.
  - by rewrite <- app_assoc.
  - unfold nul_free in *. rewrite elem_of_app. pose proof (hex_byte_nul_free b). unfold nul_free in *. tauto.
  - rewrite length_app, Hb. lia.
Qed.

Definition pcr_index_ok : Prop := 0 <= bpfima_tpm_pcr_index <= 23.

Lemma pcr_prefix_spec : pcr_index_ok -> nul_free pcr_prefix /\ (length pcr_prefix <= 5)%nat.
Proof.
  unfold pcr_index_ok, pcr_prefix, decimal_int. generalize bpfima_tpm_pcr_index. intros i Hi.
  destruct (Z.ltb_spec i 0) as [Hlt|Hge]; [lia|].
  assert (Hall : forall k, (k <= 23)%nat -> nul_free (lit "PCR" ++ decimal (Z.of_nat k)) /\
    (length (lit "PCR" ++ decimal (Z.of_nat k)) <= 5)%nat).
  { intros k Hk. do 24 (destruct k as [|k]; [split; [apply (bool_decide_unpack _); by vm_compute|vm_compute; lia]|]). lia. }
  specialize (Hall (Z.to_nat i)). rewrite Z2Nat.id in Hall by lia. apply Hall. lia.
Qed.

Lemma print_fits text size :
  pcr_index_ok -> nul_free text -> (length text <= 16)%nat -> Z.of_nat BPFIMA_PCR_BUFFER_SIZE <= size ->
  cstr (snprintf (Z.to_nat size) (pcr_prefix ++ text)) = pcr_prefix ++ text.
Proof.
  intros Hi Hf Hl Hs. destruct (pcr_prefix_spec Hi) as [Hp Hpl]. unfold BPFIMA_PCR_BUFFER_SIZE in Hs.
  apply cstr_snprintf; [|rewrite length_app; lia]. unfold nul_free in *. rewrite elem_of_app. tauto.
Qed.

(** The PCR kfunc reports the register completely. With a buffer of at least
    80 bytes and a valid index, the call never faults, changes nothing but the
    latch, and when it succeeds the string is the name of the PCR followed by
    all 64 hexadecimal digits of its value, or by the marker of the atomic or
    the simulated mode; nothing is cut off. *)
Theorem pcr_value_text buf size s :
  pcr_index_ok -> length (k_pcr s) = MERKLE_HASH_SIZE ->
  Z.of_nat BPFIMA_PCR_BUFFER_SIZE <= size <= U32_MAX ->
  wp (bpfima_tpm_get_pcr_value (Some buf) size) (fun r s' =>
    s' = set_next (k_next s') (set_error (bpfima_commit_error (k_commit s')) s) /\
    (fst r = 0 ->
      snd r = Some (pcr_prefix ++ lit "_ATOMIC_CONTEXT") \/
      (snd r = Some (pcr_prefix ++ lit "_HASH_SIMULATION") /\ hardware_anchored (k_commit s) = false) \/
      snd r = Some (pcr_prefix ++ lit "_REAL:" ++ hex (k_pcr s)))) s.
Proof.
  intros Hi Hp Hs.
  assert (Hfree : forall text, nul_free text <-> bool_decide (nul_free text) = true).
  { intros text. by rewrite bool_decide_eq_true. }
  assert (Hsame : forall m, set_next m s = set_next m (set_error (bpfima_commit_error (k_commit s)) s)).
  { intros m. by rewrite set_error_same. }
  unfold bpfima_tpm_get_pcr_value. apply wp_bind, wp_can_sleep. intros sleep m.
  destruct (Z.ltb_spec size (Z.of_nat BPFIMA_PCR_BUFFER_SIZE)); [lia|].
  destruct sleep; cbn [negb].
  2:{ apply wp_ret. split; [apply Hsame|]. intros _. left. cbn [snd]. rewrite print_fits; [done|done|by apply Hfree|cbn; lia|lia]. }
  apply wp_bind, wp_commit_check.
  { intros e n He _ _. apply truth_true in He as Ht. rewrite Ht. apply wp_ret. by split. }
  intros n H0. cbn [truth Z.eqb negb]. apply wp_bind, wp_default_chip. intros [banks|] n1; rewrite ?set_next_set_next.
  - apply wp_bind, wp_gets. destruct (negb _).
    { apply wp_bind, wp_commit_fail; [done|done|]. apply wp_ret. by split. }
    unfold tpm_pcr_read. apply wp_bind, wp_bind, wp_call, wp_bind, wp_gets, wp_ret.
    destruct (env_pcr_read _ =? 0) eqn:Erc; cbn [negb]; apply wp_ret; (split; [apply Hsame|]).
    + intros _. right. right. cbn [snd k_pcr set_next]. rewrite print_fits; [|done|by apply Hfree|cbn; lia|lia].
      destruct (pcr_prefix_spec Hi) as [Hpf Hpl]. unfold BPFIMA_PCR_BUFFER_SIZE in Hs.
      rewrite take_ge by lia. rewrite append_hex_fits; [by rewrite <- app_assoc| |].
      * unfold nul_free in *. rewrite elem_of_app. intros [?|Hin]; [done|]. by apply (Hfree (lit "_REAL:")) in Hin.
      * rewrite length_app, Hp. change (length (lit "_REAL:")) with 6%nat. unfold MERKLE_HASH_SIZE. lia.
    + cbn [fst]. apply Z.eqb_neq in Erc. destruct (_ >? 0); intros H'; [done|lia].
  - apply wp_bind, wp_gets. destruct (hardware_anchored _) eqn:Ea.
    { apply wp_bind, wp_commit_fail; [done|done|]. apply wp_ret. by split. }
    apply wp_ret. split; [apply Hsame|]. intros _. right. left. cbn [snd]. cbn in Ea.
    rewrite print_fits; [done|done|by apply Hfree|cbn; lia|lia].
Qed.
End Theorems.

(** ** Witnesses *)

Lemma sample_module_inv :
  module_inv (E := tpm_env) (zeros MERKLE_HASH_SIZE) [] [] [0%nat] sample_state.
Proof.
  split; [apply sample_log_inv|apply sample_container_inv|done|apply sample_dentries|
    apply sample_map_bound|done|done|..];
    intros c n Hn; cbn in Hn; apply lookup_singleton_Some in Hn as [_ <-]; [apply sublist_nil_l|split; constructor].
Qed.

Lemma measurement_extend_spec_witness :
  wp (bpfima_measurement_extend (E := tpm_env) (Some sample_measurement) SIZEOF_MEASUREMENT_REQUEST)
    (fun rc s' => rc = 0 ->
       last_measured DEFAULT_NS (checksum (measurement_payload sample_measurement)) s') sample_state.
Proof.
  pose proof (measurement_extend_spec (E := tpm_env) _ _ _ _ sample_measurement sample_state
    sample_module_inv ltac:(done) sample_measurement_wf) as H.
  eapply wp_mono; [exact H|]. intros rc s' (_ & _ & _ & Hok) H0.
  destruct (Hok H0) as [(Hin & _)|(_ & _ & Hlast & _)]; [|exact Hlast].
  exfalso. revert Hin. by apply (bool_decide_unpack _); vm_compute.
Defined.

Lemma get_or_create_then_exists_witness :
  wp (let* rc := bpfima_container_get_or_create (E := tpm_env) (Some (lit "db" ++ [NUL])) 3 in
      let* found := bpfima_container_exists (E := tpm_env) (Some (lit "db" ++ [NUL])) 3 in ret (rc, found))
    (fun r s' => fst r = 0 -> snd r = 1) sample_state.
Proof.
  eapply wp_mono; [apply (get_or_create_then_exists (E := tpm_env) _ _ _ _ (lit "db" ++ [NUL]) sample_state
    sample_module_inv)|]; [done|]. by intros r s' (_ & ? & _).
Defined.

Lemma leaf_hash_is_replay_witness :
  wp (bpfima_container_get_leaf_hash (E := tpm_env) (Some (lit "web" ++ [NUL])) 4 (Some (zeros 32)) 32)
    (fun r s' => r = inr (zeros MERKLE_HASH_SIZE)) sample_state.
Proof.
  eapply wp_mono; [apply (leaf_hash_is_replay (E := tpm_env) _ _ _ _ (lit "web" ++ [NUL]) (zeros 32)
    sample_state sample_module_inv)|]; [done|]. intros [e|leaf] s' [_ Hr].
  - destruct Hr as [[_ Hk]|[_ Hno]]; [by vm_compute in Hk|]. destruct Hno.
    exists 1%nat, sample_node. split; [by left|done].
  - destruct Hr as (c & n & _ & Hn & _ & ->). cbn in Hn. apply lookup_singleton_Some in Hn as [<- <-]. done.
Defined.

Lemma pcr_value_text_witness :
  fst <$> bpfima_tpm_get_pcr_value (E := tpm_env) (Some (zeros 80)) 80 sample_state =
    Some (0, Some (lit "PCR23_REAL:" ++ hex (zeros 32))) /\
  wp (bpfima_tpm_get_pcr_value (E := tpm_env) (Some (zeros 80)) 80)
    (fun _ s' => k_merkle s' = k_merkle sample_state) sample_state.
Proof.
  split; [by vm_compute|].
  eapply wp_mono; [apply (pcr_value_text (E := tpm_env) (zeros 80) 80 sample_state); done|].
  by intros r s' [-> _].
Defined.
