(* ===== verification/Lifecycle.v ===== *)
(** * Loading and unloading the module

    [src/bpfima_main.c], the global part of [src/securityfs_utils.c] and the
    global policy files of [src/policy_securityfs.c]: initialisation with its
    error labels, and exit.  The name of the top directory is not modelled, nor
    the file modes. *)

From S2P Require Import Prelude CString Types Kernel HashUtils PolicyMap Merkle PolicyNamespace PolicyManager Container.

Section Lifecycle.
Context {E : KernelEnv}.

(** ** Securityfs entries *)

(** The variables after [x = p]. *)
Definition upd (f : dentry_name -> ptr nat) (x : dentry_name) (p : ptr nat) : dentry_name -> ptr nat :=
  fun y => if decide (y = x) then p else f y.

Definition set_dentry (x : dentry_name) (p : ptr nat) : K unit :=
  modify (fun s => set_securityfs (SecurityfsState (live_dentries (k_securityfs s))
    (upd (dentry_of (k_securityfs s)) x p)) s).

Definition get_dentry (x : dentry_name) : K (ptr nat) := gets (fun s => dentry_of (k_securityfs s) x).

(** [x = securityfs_create_dir(...)] or [x = securityfs_create_file(...)]. *)
Definition create_entry (x : dentry_name) : K (ptr nat) :=
  let* p := securityfs_create in
  set_dentry x p;;
  ret p.

(** [securityfs_remove(x)] accepts NULL and error pointers. *)
Definition remove_entry (x : dentry_name) : K unit :=
  let* p := get_dentry x in
  match p with PVal d => securityfs_remove d | _ => ret tt end.

(** [if (x) { securityfs_remove(x); x = NULL; }] *)
Definition drop_entry (x : dentry_name) : K unit :=
  let* p := get_dentry x in
  match p with PNull => ret tt | _ => remove_entry x;; set_dentry x PNull end.

(** [if (x && !IS_ERR(x)) { securityfs_remove(x); x = NULL; }] *)
Definition drop_valid_entry (x : dentry_name) : K unit :=
  let* p := get_dentry x in
  match p with PVal _ => remove_entry x;; set_dentry x PNull | _ => ret tt end.

Definition remove_global_policy_securityfs : K unit :=
  drop_entry policy_apply_file;;
  drop_entry policy_map_file;;
  drop_valid_entry global_policy_file.

Definition create_global_policy_securityfs (parent_dir : ptr nat) : K Z :=
  match parent_dir with
  | PNull => ret (- EINVAL)
  | _ =>
      let* p := create_entry global_policy_file in
      match p with
      | PErr e => ret e
      | _ =>
          let* p := create_entry policy_map_file in
          match p with
          | PErr e => set_dentry policy_map_file PNull;; remove_global_policy_securityfs;; ret e
          | _ =>
              let* p := create_entry policy_apply_file in
              match p with
              | PErr e => set_dentry policy_apply_file PNull;; remove_global_policy_securityfs;; ret e
              | _ => ret 0
              end
          end
      end
  end.

Definition create_global_policy_changes_securityfs (parent_dir : ptr nat) : K Z :=
  match parent_dir with
  | PNull => ret (- EINVAL)
  | _ =>
      let* p := create_entry global_policy_changes_file in
      match p with PErr e => ret e | _ => ret 0 end
  end.

Definition remove_global_policy_changes_securityfs : K unit := drop_valid_entry global_policy_changes_file.

(** The unwinding of a list of entries: all are removed, then all pointers
    are cleared. *)
Definition unwind (xs : list dentry_name) : K unit :=
  foldr (fun x k => remove_entry x;; k) (ret tt) xs;;
  foldr (fun x k => set_dentry x PNull;; k) (ret tt) xs.

Definition bpfima_securityfs_init : K Z :=
  let* dir := create_entry bpfima_dir in
  let* dir := match dir with
    | PErr err => if err =? - EEXIST then create_entry bpfima_dir else ret dir
    | _ => ret dir
    end in
  match dir with
  | PErr err => ret err
  | _ =>
      let* p := create_entry status_file in
      match p with
      | PErr e => unwind [bpfima_dir];; ret e
      | _ =>
          let* p := create_entry merkle_root_history_file in
          match p with
          | PErr e => unwind [status_file; bpfima_dir];; ret e
          | _ =>
              let* p := create_entry containers_dir in
              match p with
              | PErr e => unwind [merkle_root_history_file; status_file; bpfima_dir];; ret e
              | _ =>
                  let* dir := get_dentry bpfima_dir in
                  let* rc := create_global_policy_securityfs dir in
                  if truth rc then
                    unwind [containers_dir; merkle_root_history_file; status_file; bpfima_dir];; ret rc
                  else
                    let* rc := create_global_policy_changes_securityfs dir in
                    if truth rc then
                      remove_global_policy_securityfs;;
                      unwind [containers_dir; merkle_root_history_file; status_file; bpfima_dir];; ret rc
                    else ret 0
              end
          end
      end
  end.

(** Both kernel versions remove the (by then empty) directories. *)
Definition bpfima_securityfs_cleanup : K unit :=
  remove_global_policy_changes_securityfs;;
  remove_global_policy_securityfs;;
  drop_entry merkle_root_history_file;;
  drop_entry status_file;;
  drop_valid_entry containers_dir;;
  drop_valid_entry bpfima_dir.

(** ** Module initialisation and exit *)

Definition set_root_tfm (b : bool) (s : kstate) : kstate :=
  set_merkle (MerkleState (root_hash (k_merkle s)) b (merkle_root_history (k_merkle s))
    (merkle_root_history_count (k_merkle s))) s.

Definition register_btf_kfunc_id_set : K Z := let* n := call in ret (env_register n).

(** The error labels, each falling through to the next. *)
Definition err_policy (rc : Z) : K Z := bpfima_policy_cleanup;; ret rc.
Definition err_hash (rc : Z) : K Z := bpfima_hash_cleanup;; err_policy rc.
Definition err_policy_ns (rc : Z) : K Z := bpfima_policy_namespace_cleanup;; err_hash rc.
Definition err_containers (rc : Z) : K Z := bpfima_container_cleanup;; err_policy_ns rc.
Definition err_merkle_tfm (rc : Z) : K Z := modify (set_root_tfm false);; err_containers rc.

Definition bpfima_init : K Z :=
  if (bpfima_tpm_pcr_index <? 0) || (bpfima_tpm_pcr_index >? 23) then ret (- EINVAL) else
  bpfima_commit_init;;
  let* rc := bpfima_policy_init in
  if truth rc then ret rc else
  let* rc := bpfima_hash_init in
  if truth rc then err_policy rc else
  let* rc := bpfima_policy_namespace_init in
  if truth rc then err_hash rc else
  let* rc := bpfima_container_init in
  if truth rc then err_policy_ns rc else
  modify (fun s => set_merkle (MerkleState (zeros MERKLE_HASH_SIZE) false
    (merkle_root_history (k_merkle s)) (merkle_root_history_count (k_merkle s))) s);;
  let* tfm := crypto_alloc_shash in
  match tfm with
  | PErr rc => err_containers rc
  | _ =>
      modify (set_root_tfm true);;
      let* rc := register_btf_kfunc_id_set in
      if truth rc then err_merkle_tfm rc else
      let* rc := register_btf_kfunc_id_set in
      if truth rc then err_merkle_tfm rc else
      let* rc := bpfima_securityfs_init in
      if truth rc then err_merkle_tfm rc else ret 0
  end.

(** [system_merkle_root.tfm] is freed and not cleared on exit. *)
Definition bpfima_exit : K unit :=
  cleanup_all_containers;;
  bpfima_container_cleanup;;
  cleanup_merkle_root_history;;
  bpfima_securityfs_cleanup;;
  bpfima_policy_namespace_cleanup;;
  bpfima_policy_cleanup;;
  bpfima_hash_cleanup.
End Lifecycle.

(** The module's variables before [bpfima_init]: zeroed statics. *)
Definition loaded_state (next : nat) (pcr : bytes) (maps : list bpf_map) : kstate :=
  KState next pcr (CommitState 0 false false) (MerkleState (zeros MERKLE_HASH_SIZE) false [] 0)
    (HashState PNull (replicate 256 [])) (ContainerState ∅ [] 0 None) (ManagerState None maps []) []
    (SecurityfsState [] (fun _ => PNull)).
