(* ===== verification/LifecycleSpec.v ===== *)
(** * Theorems on loading and unloading

    A failed initialisation leaves nothing behind, a successful one
    establishes the invariants of every component, and exit releases what the
    module owns. *)

From S2P Require Import Prelude CString Types Kernel Sample KfuncBuffer HashUtils Tpm PolicyMap Merkle MerkleSpec MerkleInv PolicyNamespace PolicyManager PolicySpec PolicyInv Container ContainerSpec ContainerRules ContainerInv Kfuncs KfuncsInv KfuncsSpec Lifecycle.

(** ** The global entries *)

Definition all_names : list dentry_name :=
  [bpfima_dir; status_file; merkle_root_history_file; containers_dir;
   global_policy_file; policy_map_file; policy_apply_file; global_policy_changes_file].

Definition entries_of (f : dentry_name -> ptr nat) (xs : list dentry_name) : list nat :=
  flat_map (fun x => ptr_entry (f x)) xs.

(** The entries that the global variables refer to. *)
Definition globals (s : kstate) : list nat := entries_of (dentry_of (k_securityfs s)) all_names.

Definition with_fs (live : list nat) (f : dentry_name -> ptr nat) (s : kstate) : kstate :=
  set_securityfs (SecurityfsState live f) s.

Lemma with_fs_eta s : with_fs (live_dentries (k_securityfs s)) (dentry_of (k_securityfs s)) s = s.
Proof. by destruct s as [? ? ? ? ? ? ? ? []]. Qed.

Lemma upd_eq f x p : upd f x p x = p.
Proof. unfold upd. by rewrite decide_True. Qed.

Lemma upd_ne f x p y : y <> x -> upd f x p y = f y.
Proof. intros H. unfold upd. by rewrite decide_False. Qed.

(** Evaluate the variables after a chain of updates. *)
Ltac upd_simpl :=
  unfold entries_of, all_names; cbn;
  repeat first [rewrite upd_eq | rewrite upd_ne by discriminate]; cbn.

Section Spec.
Context {E : KernelEnv} {L : KernelLaws E}.

Lemma wp_create_entry x Q s :
  let live := live_dentries (k_securityfs s) in
  let f := dentry_of (k_securityfs s) in
  (forall e m, e < 0 -> Q (PErr e) (set_next m (with_fs live (upd f x (PErr e)) s))) ->
  (forall d m, Q (PVal d) (set_next m (with_fs (live ++ [d]) (upd f x (PVal d)) s))) ->
  wp (create_entry x) Q s.
Proof.
  intros live f He HQ. apply wp_bind, wp_securityfs_create.
  - intros e m Hlt. apply wp_bind, wp_modify, wp_ret. by apply He.
  - intros d m _. apply wp_bind, wp_modify, wp_ret. apply HQ.
Qed.

Lemma wp_remove_entry x rest Q s :
  live_dentries (k_securityfs s) ≡ₚ ptr_entry (dentry_of (k_securityfs s) x) ++ rest ->
  (forall live, live ≡ₚ rest -> Q tt (set_live live s)) -> wp (remove_entry x) Q s.
Proof. intros Hl HQ. apply wp_bind, wp_gets. by eapply wp_remove_ptr. Qed.

Lemma wp_remove_entries xs rest Q s :
  live_dentries (k_securityfs s) ≡ₚ entries_of (dentry_of (k_securityfs s)) xs ++ rest ->
  (forall live, live ≡ₚ rest -> Q tt (set_live live s)) ->
  wp (foldr (fun x k => remove_entry x;; k) (ret tt) xs) Q s.
Proof.
  revert s. induction xs as [|x xs IH]; intros s Hl HQ; cbn [foldr].
  { apply wp_ret. rewrite <- (set_live_eta s). by apply HQ. }
  cbn in Hl. rewrite <- app_assoc in Hl. apply wp_bind. eapply wp_remove_entry; [exact Hl|].
  intros live Hlive. apply IH; [exact Hlive|]. intros live' Hl'. exact (HQ live' Hl').
Qed.

Lemma wp_clear_entries xs Q s :
  Q tt (with_fs (live_dentries (k_securityfs s)) (foldl (fun g x => upd g x PNull) (dentry_of (k_securityfs s)) xs) s) ->
  wp (foldr (fun x k => set_dentry x PNull;; k) (ret tt) xs) Q s.
Proof.
  revert s. induction xs as [|x xs IH]; intros s HQ; cbn [foldr].
  { apply wp_ret. by rewrite <- (with_fs_eta s). }
  apply wp_bind, wp_modify. apply IH. exact HQ.
Qed.

(** Unwinding removes the listed entries and clears their variables. *)
Lemma wp_unwind xs rest Q s :
  live_dentries (k_securityfs s) ≡ₚ entries_of (dentry_of (k_securityfs s)) xs ++ rest ->
  (forall live, live ≡ₚ rest ->
     Q tt (with_fs live (foldl (fun g x => upd g x PNull) (dentry_of (k_securityfs s)) xs) s)) ->
  wp (unwind xs) Q s.
Proof.
  intros Hl HQ. apply wp_bind. eapply wp_remove_entries; [exact Hl|]. intros live Hlive.
  apply wp_clear_entries. exact (HQ live Hlive).
Qed.

(** [drop_entry] and [drop_valid_entry] end the same way. *)
Lemma wp_drop x rest Q s (valid_only : bool) :
  let f := dentry_of (k_securityfs s) in
  live_dentries (k_securityfs s) ≡ₚ ptr_entry (f x) ++ rest ->
  (forall live g, live ≡ₚ rest ->
     (forall y, ptr_entry (g y) = if decide (y = x) then [] else ptr_entry (f y)) ->
     Q tt (with_fs live g s)) ->
  wp (if valid_only then drop_valid_entry x else drop_entry x) Q s.
Proof.
  intros f Hl HQ.
  assert (Hsame : ptr_entry (f x) = [] -> Q tt s).
  { intros H0. rewrite <- (with_fs_eta s). apply HQ; [by rewrite Hl, H0|].
    intros y. destruct (decide (y = x)) as [->|]; [done|done]. }
  assert (Hdrop : wp (remove_entry x;; set_dentry x PNull) Q s).
  { apply wp_bind. eapply wp_remove_entry; [exact Hl|]. intros live Hlive. apply wp_modify.
    apply (HQ live (upd f x PNull)); [done|]. intros y. unfold upd. by destruct (decide (y = x)). }
  destruct valid_only; apply wp_bind, wp_gets; fold f; destruct (f x) as [|e|d] eqn:Ef;
    solve [exact Hdrop | apply wp_ret, Hsame; done].
Qed.

(** Same entries behind every variable. *)
Definition same_entries (f g : dentry_name -> ptr nat) : Prop := forall y, ptr_entry (g y) = ptr_entry (f y).

Lemma wp_remove_global_policy rest Q s :
  let f := dentry_of (k_securityfs s) in
  live_dentries (k_securityfs s) ≡ₚ
    entries_of f [policy_apply_file; policy_map_file; global_policy_file] ++ rest ->
  (forall live g, live ≡ₚ rest -> (forall y, ptr_entry (g y) =
      if decide (y ∈ [policy_apply_file; policy_map_file; global_policy_file]) then [] else ptr_entry (f y)) ->
     Q tt (with_fs live g s)) ->
  wp remove_global_policy_securityfs Q s.
Proof.
  intros f Hl HQ. cbn in Hl. rewrite app_nil_r, <- !app_assoc in Hl.
  apply wp_bind, (wp_drop policy_apply_file _ _ _ false Hl). intros l1 g1 H1 G1.
  apply wp_bind. eapply (wp_drop policy_map_file _ _ _ false); [cbn; rewrite G1; exact H1|]. intros l2 g2 H2 G2.
  eapply (wp_drop global_policy_file _ _ _ true); [cbn; rewrite G2; cbn; rewrite G1; exact H2|].
  intros l3 g3 H3 G3. apply (HQ l3 g3 H3). cbn in G2, G3. intros y. rewrite G3.
  destruct (decide (y = global_policy_file)) as [->|?]; [done|]. rewrite G2.
  destruct (decide (y = policy_map_file)) as [->|?]; [done|]. rewrite G1.
  destruct (decide (y = policy_apply_file)) as [->|?]; [done|].
  destruct (decide (y ∈ _)); [set_solver|done].
Qed.

Lemma wp_create_global_policy dir rest Q s :
  let f := dentry_of (k_securityfs s) in
  live_dentries (k_securityfs s) ≡ₚ rest ->
  f global_policy_file = PNull -> f policy_map_file = PNull -> f policy_apply_file = PNull ->
  (forall rc live g m, rc <> 0 -> live ≡ₚ rest -> same_entries f g ->
     Q rc (set_next m (with_fs live g s))) ->
  (forall d1 d2 d3 live m, live ≡ₚ d1 :: d2 :: d3 :: rest ->
     Q 0 (set_next m (with_fs live
       (upd (upd (upd f global_policy_file (PVal d1)) policy_map_file (PVal d2)) policy_apply_file (PVal d3)) s))) ->
  wp (create_global_policy_securityfs (PVal dir)) Q s.
Proof.
  intros f Hl F1 F2 F3 He HQ. cbn [create_global_policy_securityfs].
  assert (Hsub : forall g, (forall y, ptr_entry (g y) = if decide (y ∈ [policy_apply_file; policy_map_file; global_policy_file])
      then [] else ptr_entry (f y)) -> same_entries f g).
  { intros g Hg y. rewrite Hg. destruct (decide (y ∈ _)) as [Hy|]; [|done].
    rewrite !elem_of_cons, elem_of_nil in Hy.
    destruct Hy as [->|[->|[->|[]]]]; rewrite ?F1, ?F2, ?F3; done. }
  apply wp_bind, wp_create_entry.
  { intros e m Hlt. apply wp_ret. apply He; [lia|done|]. intros y. unfold upd.
    destruct (decide (y = _)) as [->|]; [by rewrite F1|done]. }
  intros d1 m1. apply wp_bind, wp_create_entry.
  { intros e m Hlt. apply wp_bind, wp_modify, wp_bind. eapply (wp_remove_global_policy rest).
    { upd_simpl. fold f. rewrite F3. cbn. rewrite Hl. solve_Permutation. }
    intros live g Hlive Hg. apply wp_ret. apply (He e live g m); [lia|done|]. apply Hsub. intros y. rewrite Hg.
    destruct (decide (y ∈ _)); [done|]. cbn. unfold upd.
    repeat (destruct (decide (y = _)) as [->|]; [set_solver|]). done. }
  intros d2 m2. apply wp_bind, wp_create_entry.
  { intros e m Hlt. apply wp_bind, wp_modify, wp_bind. eapply (wp_remove_global_policy rest).
    { upd_simpl. rewrite Hl. solve_Permutation. }
    intros live g Hlive Hg. apply wp_ret. apply (He e live g m); [lia|done|]. apply Hsub. intros y. rewrite Hg.
    destruct (decide (y ∈ _)); [done|]. cbn. unfold upd.
    repeat (destruct (decide (y = _)) as [->|]; [set_solver|]). done. }
  intros d3 m3. apply wp_ret. apply (HQ d1 d2 d3 _ m3). cbn. rewrite Hl. solve_Permutation.
Qed.

(** The same rules on states in the form that the initialisation produces. *)
Definition at_fs (m : nat) (live : list nat) (f : dentry_name -> ptr nat) (s : kstate) : kstate :=
  set_next m (with_fs live f s).

Lemma at_create x Q m live f s :
  (forall e m', e < 0 -> Q (PErr e) (at_fs m' live (upd f x (PErr e)) s)) ->
  (forall d m', Q (PVal d) (at_fs m' (live ++ [d]) (upd f x (PVal d)) s)) ->
  wp (create_entry x) Q (at_fs m live f s).
Proof. intros He HQ. apply wp_create_entry; [exact He|exact HQ]. Qed.

Lemma at_unwind xs Q m live f s :
  live ≡ₚ entries_of f xs -> (forall f', Q tt (at_fs m [] f' s)) -> wp (unwind xs) Q (at_fs m live f s).
Proof.
  intros Hl HQ. eapply (wp_unwind xs []); [by rewrite app_nil_r|]. intros live' Hlive.
  apply Permutation_nil_r in Hlive as ->. apply HQ.
Qed.

Lemma at_create_global dir Q m live f s :
  f global_policy_file = PNull -> f policy_map_file = PNull -> f policy_apply_file = PNull ->
  (forall rc live' g m', rc <> 0 -> live' ≡ₚ live -> same_entries f g -> Q rc (at_fs m' live' g s)) ->
  (forall d1 d2 d3 live' m', live' ≡ₚ d1 :: d2 :: d3 :: live ->
     Q 0 (at_fs m' live'
       (upd (upd (upd f global_policy_file (PVal d1)) policy_map_file (PVal d2)) policy_apply_file (PVal d3)) s)) ->
  wp (create_global_policy_securityfs (PVal dir)) Q (at_fs m live f s).
Proof. intros F1 F2 F3 He HQ. apply (wp_create_global_policy dir live); [done..|exact He|exact HQ]. Qed.

Lemma at_remove_global rest Q m live f s :
  live ≡ₚ entries_of f [policy_apply_file; policy_map_file; global_policy_file] ++ rest ->
  (forall live' g, live' ≡ₚ rest -> (forall y, ptr_entry (g y) =
      if decide (y ∈ [policy_apply_file; policy_map_file; global_policy_file]) then [] else ptr_entry (f y)) ->
     Q tt (at_fs m live' g s)) ->
  wp remove_global_policy_securityfs Q (at_fs m live f s).
Proof. intros Hl HQ. apply (wp_remove_global_policy rest); [exact Hl|exact HQ]. Qed.

(** The top directory, under its name or the unique one. *)
Lemma at_top_dir Q m f s :
  (forall e f' m', e <> 0 -> Q (PErr e) (at_fs m' [] f' s)) ->
  (forall d f' m', f' bpfima_dir = PVal d -> (forall x, x <> bpfima_dir -> f' x = f x) ->
     Q (PVal d) (at_fs m' [d] f' s)) ->
  wp (let* dir := create_entry bpfima_dir in
      match dir with
      | PErr err => if err =? - EEXIST then create_entry bpfima_dir else ret dir
      | _ => ret dir
      end) Q (at_fs m [] f s).
Proof.
  intros He HQ. apply wp_bind, at_create; [intros e m' Hlt|intros d m'; apply wp_ret, HQ; [apply upd_eq|intros; by apply upd_ne]].
  destruct (e =? - EEXIST); [|apply wp_ret, He; lia].
  apply at_create; [intros; apply He; lia|intros d m2]. apply HQ; [apply upd_eq|intros; by rewrite !upd_ne].
Qed.

(** The last two steps, the global policy files. *)
Lemma at_policy_files d0 d1 d2 d3 Q m live f s :
  live ≡ₚ [d0; d1; d2; d3] ->
  f bpfima_dir = PVal d0 -> f status_file = PVal d1 -> f merkle_root_history_file = PVal d2 ->
  f containers_dir = PVal d3 -> f global_policy_file = PNull -> f policy_map_file = PNull ->
  f policy_apply_file = PNull ->
  (forall rc f' m', rc <> 0 -> Q rc (at_fs m' [] f' s)) ->
  (forall f' live' m', live' ≡ₚ entries_of f' all_names -> (forall x, exists d, f' x = PVal d) ->
     Q 0 (at_fs m' live' f' s)) ->
  wp (let* rc := create_global_policy_securityfs (PVal d0) in
      if truth rc then
        unwind [containers_dir; merkle_root_history_file; status_file; bpfima_dir];; ret rc
      else
        let* rc := create_global_policy_changes_securityfs (PVal d0) in
        if truth rc then
          remove_global_policy_securityfs;;
          unwind [containers_dir; merkle_root_history_file; status_file; bpfima_dir];; ret rc
        else ret 0) Q (at_fs m live f s).
Proof.
  intros Hl F0 F1 F2 F3 F4 F5 F6 He HQ.
  apply wp_bind, at_create_global; [done|done|done|..].
  { intros rc live' g m' Hrc Hlive Hg. apply truth_true in Hrc as Ht. rewrite Ht. apply wp_bind, at_unwind.
    - unfold entries_of. cbn. rewrite !Hg, F0, F1, F2, F3. cbn. rewrite Hlive, Hl. solve_Permutation.
    - intros f'. by apply wp_ret, He. }
  intros d4 d5 d6 live' m' Hlive. cbn [truth Z.eqb negb create_global_policy_changes_securityfs].
  apply wp_bind, wp_bind, at_create.
  - intros e m2 Hlt. apply wp_ret. assert (He0 : e <> 0) by lia. apply truth_true in He0 as Ht. rewrite Ht.
    apply wp_bind, (at_remove_global [d0; d1; d2; d3]).
    { upd_simpl. rewrite Hlive, Hl. solve_Permutation. }
    intros live2 g Hl2 Hg. apply wp_bind, at_unwind; [|intros f'; by apply wp_ret, He].
    unfold entries_of. cbn. rewrite !Hg. upd_simpl. rewrite F0, F1, F2, F3. cbn. rewrite Hl2. solve_Permutation.
  - intros d7 m2. apply wp_ret, wp_ret. apply HQ.
    + upd_simpl. rewrite F0, F1, F2, F3. cbn. rewrite Hlive, Hl. solve_Permutation.
    + intros x. destruct x; upd_simpl; eauto.
Qed.

(** The securityfs part of the initialisation: all eight entries, or none. *)
Lemma at_securityfs_init Q m f s :
  (forall x, f x = PNull) ->
  (forall rc f' m', rc <> 0 -> Q rc (at_fs m' [] f' s)) ->
  (forall f' live m', live ≡ₚ entries_of f' all_names -> (forall x, exists d, f' x = PVal d) ->
     Q 0 (at_fs m' live f' s)) ->
  wp bpfima_securityfs_init Q (at_fs m [] f s).
Proof.
  intros Hf He HQ. unfold bpfima_securityfs_init.
  apply wp_bind_assoc, wp_bind, at_top_dir; [intros e f' m' H; by apply wp_ret, He|]. intros d0 f0 m0 F0 Fn.
  apply wp_bind, at_create.
  { intros e m' Hlt. apply wp_bind, at_unwind; [|intros f'; apply wp_ret, He; lia]. upd_simpl. by rewrite F0. }
  intros d1 m1. apply wp_bind, at_create.
  { intros e m' Hlt. apply wp_bind, at_unwind; [|intros f'; apply wp_ret, He; lia].
    upd_simpl. rewrite F0. cbn. solve_Permutation. }
  intros d2 m2. apply wp_bind, at_create.
  { intros e m' Hlt. apply wp_bind, at_unwind; [|intros f'; apply wp_ret, He; lia].
    upd_simpl. rewrite F0. cbn. solve_Permutation. }
  intros d3 m3. apply wp_bind, wp_gets.
  assert (Hdir : dentry_of (k_securityfs (at_fs m3 ((([d0] ++ [d1]) ++ [d2]) ++ [d3])
    (upd (upd (upd f0 status_file (PVal d1)) merkle_root_history_file (PVal d2)) containers_dir (PVal d3)) s))
    bpfima_dir = PVal d0) by (upd_simpl; by rewrite F0).
  rewrite Hdir. apply (at_policy_files d0 d1 d2 d3); [done|..|exact He|exact HQ]; upd_simpl; rewrite ?F0, ?Fn, ?Hf; done.
Qed.

(** ** Initialisation *)

(** Nothing is owned: no policy map, no container, no securityfs entry, no
    recorded digest. *)
Record bare_module (maps : list bpf_map) (s : kstate) : Prop := BareModule {
  bm_policy : k_policy s = ManagerState None maps [];
  bm_heap : container_heap (k_containers s) = ∅;
  bm_list : container_list (k_containers s) = [];
  bm_live : live_dentries (k_securityfs s) = [];
  bm_namespaces : k_namespaces s = [];
  bm_table : sha256_hash_table (k_hash s) = replicate 256 [];
}.

(** In addition the transforms and the workqueue are released. *)
Definition released (maps : list bpf_map) (s : kstate) : Prop :=
  bare_module maps s /\ root_tfm (k_merkle s) = false /\ container_cleanup_wq (k_containers s) = None.

Lemma wp_err_policy maps rc s :
  released maps s -> wp (err_policy rc) (fun r s' => r = rc /\ released maps s') s.
Proof.
  intros ([H1 H2 H3 H4 H5 H6] & H7 & H8). apply wp_bind. unfold bpfima_policy_cleanup.
  apply wp_bind, wp_gets, wp_bind, wp_modify. rewrite H1. cbn [policy_map].
  apply wp_bind, wp_ret, wp_modify, wp_ret. split; [done|]. split; [|done].
  split; cbn; rewrite ?H1; done.
Qed.

Lemma wp_err_hash maps rc s :
  released maps s -> wp (err_hash rc) (fun r s' => r = rc /\ released maps s') s.
Proof.
  intros ([H1 H2 H3 H4 H5 H6] & H7 & H8). apply wp_bind, wp_bind, wp_modify, wp_modify.
  apply wp_err_policy. split; [|done]. split; auto. cbn [k_hash set_hash sha256_hash_table]. by rewrite H6.
Qed.

Lemma wp_err_policy_ns maps rc s :
  released maps s -> wp (err_policy_ns rc) (fun r s' => r = rc /\ released maps s') s.
Proof.
  intros ([H1 H2 H3 H4 H5 H6] & H7 & H8). apply wp_bind, wp_modify. by apply wp_err_hash.
Qed.

Lemma wp_err_containers maps rc s :
  bare_module maps s -> root_tfm (k_merkle s) = false -> container_cleanup_wq (k_containers s) = Some [] ->
  wp (err_containers rc) (fun r s' => r = rc /\ released maps s') s.
Proof.
  intros [H1 H2 H3 H4 H5 H6] H7 H8. apply wp_bind, wp_bind, wp_bind, wp_gets. rewrite H8.
  apply wp_bind, wp_deref. exists []. split; [done|]. apply wp_bind, wp_modify, wp_ret, wp_modify.
  by apply wp_err_policy_ns.
Qed.

Lemma wp_err_merkle_tfm maps rc s :
  bare_module maps s -> container_cleanup_wq (k_containers s) = Some [] ->
  wp (err_merkle_tfm rc) (fun r s' => r = rc /\ released maps s') s.
Proof.
  intros [H1 H2 H3 H4 H5 H6] H8. apply wp_bind, wp_modify. by apply wp_err_containers.
Qed.

Lemma wp_register Q s : (forall rc n, Q rc (set_next n s)) -> wp register_btf_kfunc_id_set Q s.
Proof. intros HQ. apply wp_bind, wp_call, wp_ret, HQ. Qed.

(** What a successful initialisation establishes. *)
Record started (pcr : bytes) (maps : list bpf_map) (s : kstate) : Prop := Started {
  st_module : module_inv pcr [] [] (globals s) s;
  st_policy : k_policy s = ManagerState None maps [];
  st_hash : sha256_tfm (k_hash s) = PVal tt;
  st_root : root_tfm (k_merkle s) = true;
  st_entries : forall x, exists d, dentry_of (k_securityfs s) x = PVal d;
  st_index : 0 <= bpfima_tpm_pcr_index <= 23;
}.

(** The state when the kfuncs are registered, before securityfs. *)
Definition started_core (next : nat) (pcr : bytes) (maps : list bpf_map) : kstate :=
  KState next pcr (CommitState 0 false false) (MerkleState (zeros MERKLE_HASH_SIZE) true [] 0)
    (HashState (PVal tt) (replicate 256 [])) (ContainerState ∅ [] 0 (Some [])) (ManagerState None maps []) []
    (SecurityfsState [] (fun _ => PNull)).

Lemma started_core_ok pcr maps next live f :
  0 <= bpfima_tpm_pcr_index <= 23 ->
  live ≡ₚ entries_of f all_names -> (forall x, exists d, f x = PVal d) ->
  started pcr maps (at_fs next live f (started_core 0 pcr maps)).
Proof.
  intros Hi Hl Hf. split; try done. split; try done.
  - split; try done; [constructor|]. split; [done|]. intros i b e [-> _]%lookup_replicate He.
    by apply not_elem_of_nil in He.
  - split; cbn; try by (intros; by apply NoDup_nil).
    + intros c Hc. by apply not_elem_of_nil in Hc.
    + by intros c n Hn.
    + exists []. split; [done|]. split; [by apply NoDup_nil|]. intros c.
      split; [by intros ?%not_elem_of_nil|by intros (n & Hn & _)].
    + intros c c' n n' Hc. by apply not_elem_of_nil in Hc.
    + intros c n Hc. by apply not_elem_of_nil in Hc.
  - unfold dentries_inv. cbn. by rewrite app_nil_r.
  - intros e. cbn. destruct (Hf containers_dir) as [d ->]. done.
Qed.

Lemma wp_init next pcr maps :
  wp bpfima_init (fun rc s' =>
    (rc = 0 -> started pcr maps s') /\ (rc <> 0 -> released maps s')) (loaded_state next pcr maps).
Proof.
  assert (Hfail : forall rc (s : kstate) k, rc <> 0 -> wp k (fun r s' => r = rc /\ released maps s') s ->
    wp k (fun rc s' => (rc = 0 -> started pcr maps s') /\ (rc <> 0 -> released maps s')) s).
  { intros rc s k Hrc Hk. eapply wp_mono; [exact Hk|]. intros r s' [-> Hr]. by split. }
  unfold bpfima_init. destruct (_ || _) eqn:Ei.
  { apply wp_ret. split; [done|]. by intros _. }
  rewrite orb_false_iff, Z.ltb_ge, Z.gtb_ltb, Z.ltb_ge in Ei.
  apply wp_bind, wp_modify, wp_bind, wp_ret. cbn [truth Z.eqb negb].
  apply wp_bind, wp_bind, wp_alloc_shash_cases; intros.
  2:{ apply wp_bind, wp_modify, wp_ret. apply truth_true in H as Ht. rewrite Ht.
      by apply (Hfail e), wp_err_policy. }
  apply wp_bind, wp_modify. destruct (env_descsize >? 128).
  { apply wp_ret. cbn [truth Z.eqb negb]. by apply (Hfail (- EINVAL)), wp_err_policy. }
  apply wp_ret, wp_bind, wp_ret. cbn [truth Z.eqb negb]. apply wp_bind, wp_bind, wp_kalloc.
  intros [] n1; apply wp_bind, wp_modify, wp_ret; cbn [truth Z.eqb negb Z.opp].
  2:{ by apply (Hfail (- ENOMEM)), wp_err_policy_ns. }
  apply wp_bind, wp_modify, wp_bind, wp_alloc_shash_cases; intros.
  2:{ by apply (Hfail e), wp_err_containers. }
  apply wp_bind, wp_modify, wp_bind, wp_register. intros rc1 n2. destruct (truth rc1) eqn:E1.
  { apply truth_true in E1. by apply (Hfail _ _ _ E1), wp_err_merkle_tfm. }
  apply wp_bind, wp_register. intros rc2 n3. destruct (truth rc2) eqn:E2.
  { apply truth_true in E2. by apply (Hfail _ _ _ E2), wp_err_merkle_tfm. }
  apply wp_bind. apply (at_securityfs_init _ _ (fun _ => PNull) (started_core 0 pcr maps)); [done|..].
  - intros rc f' m' Hrc. apply truth_true in Hrc as Ht. rewrite Ht. by apply (Hfail rc), wp_err_merkle_tfm.
  - intros f' live m' Hl Hf. apply wp_ret. split; [|done]. intros _. by apply started_core_ok.
Qed.

(** C33: Loading is all or nothing. Whatever the kernel services answer,
    [bpfima_init] does not fault; on success every component's invariant holds
    (empty log, no container, exactly the eight global securityfs entries, both
    transforms allocated, a PCR index between 0 and 23) and no policy map is
    bound; on failure no securityfs entry, container, workqueue, transform of
    the root or map reference is left. *)
Theorem init_all_or_nothing next pcr maps :
  wp bpfima_init (fun rc s' =>
    (rc = 0 -> started pcr maps s') /\ (rc <> 0 -> released maps s')) (loaded_state next pcr maps).
Proof. exact (wp_init next pcr maps). Qed.

(** ** Exit *)

(** Removing the entry of [x] leaves the entries of the other variables. *)
Lemma wp_drop_next x xs valid_only Q s :
  live_dentries (k_securityfs s) ≡ₚ entries_of (dentry_of (k_securityfs s)) (x :: xs) ->
  x ∉ xs ->
  (forall live g, live ≡ₚ entries_of g xs -> Q tt (with_fs live g s)) ->
  wp (if valid_only : bool then drop_valid_entry x else drop_entry x) Q s.
Proof.
  intros Hl Hx HQ. eapply (wp_drop x _ _ _ valid_only); [exact Hl|]. intros live g Hlive Hg. apply HQ.
  rewrite Hlive. apply reflexive_eq. unfold entries_of. clear -Hx Hg. induction xs as [|y xs IH]; [done|].
  cbn. apply not_elem_of_cons in Hx as [Hne Hx]. rewrite IH by done. f_equal.
  rewrite Hg, decide_False; [done|congruence].
Qed.

Lemma wp_securityfs_cleanup Q s :
  live_dentries (k_securityfs s) ≡ₚ globals s ->
  (forall g, Q tt (with_fs [] g s)) -> wp bpfima_securityfs_cleanup Q s.
Proof.
  intros Hl HQ. unfold bpfima_securityfs_cleanup, remove_global_policy_changes_securityfs, remove_global_policy_securityfs.
  assert (Hl0 : live_dentries (k_securityfs s) ≡ₚ entries_of (dentry_of (k_securityfs s))
    [global_policy_changes_file; policy_apply_file; policy_map_file; global_policy_file;
     merkle_root_history_file; status_file; containers_dir; bpfima_dir]).
  { rewrite Hl. unfold globals, entries_of, all_names. cbn. solve_Permutation. }
  apply wp_bind. eapply (wp_drop_next _ _ true); [exact Hl0|set_solver|]. intros l1 g1 H1. apply wp_bind.
  apply wp_bind. eapply (wp_drop_next _ _ false); [exact H1|set_solver|]. intros l2 g2 H2.
  apply wp_bind. eapply (wp_drop_next _ _ false); [exact H2|set_solver|]. intros l3 g3 H3.
  eapply (wp_drop_next _ _ true); [exact H3|set_solver|]. intros l4 g4 H4.
  apply wp_bind. eapply (wp_drop_next _ _ false); [exact H4|set_solver|]. intros l5 g5 H5.
  apply wp_bind. eapply (wp_drop_next _ _ false); [exact H5|set_solver|]. intros l6 g6 H6.
  apply wp_bind. eapply (wp_drop_next _ _ true); [exact H6|set_solver|]. intros l7 g7 H7.
  eapply (wp_drop_next _ _ true); [exact H7|set_solver|]. intros l8 g8 H8.
  apply Permutation_nil_r in H8 as ->. apply HQ.
Qed.

Lemma wp_policy_cleanup Q s :
  map_bound s ->
  (forall maps, length maps = length (bpf_maps (k_policy s)) ->
     (forall map m, policy_map (k_policy s) = Some map -> bpf_maps (k_policy s) !! map = Some m ->
        maps = <[map := PolicyManager.with_refcnt m (mp_refcnt m - 1)]> (bpf_maps (k_policy s))) ->
     (policy_map (k_policy s) = None -> maps = bpf_maps (k_policy s)) ->
     Q tt (set_policy (ManagerState None maps []) s)) ->
  wp bpfima_policy_cleanup Q s.
Proof.
  intros Hb HQ. apply wp_bind, wp_gets, wp_bind, wp_modify.
  destruct (policy_map (k_policy s)) as [map|] eqn:Em.
  - destruct (Hb map Em) as (m & Hm & _). apply wp_bind, wp_bind, wp_gets.
    cbn [bpf_maps k_policy set_policy_map set_policy]. rewrite Hm. apply wp_bind, wp_deref. exists m. split; [done|].
    apply wp_modify, wp_modify. apply HQ; [apply length_insert| |done]. intros map' m' H1 H2. by simplify_eq.
  - apply wp_bind, wp_ret, wp_modify. by apply HQ.
Qed.

(** What is left after unloading: nothing. *)
Definition unloaded (s s' : kstate) : Prop :=
    live_dentries (k_securityfs s') = [] /\ k_containers s' = ContainerState ∅ [] 0 None /\
    k_namespaces s' = [] /\ merkle_root_history (k_merkle s') = [] /\ sha256_tfm (k_hash s') = PNull /\
    table_set (sha256_hash_table (k_hash s')) = ∅ /\ policy_map (k_policy s') = None /\
    global_policy_change_history (k_policy s') = [] /\
    (forall map m, policy_map (k_policy s) = Some map -> bpf_maps (k_policy s) !! map = Some m ->
       bpf_maps (k_policy s') = <[map := PolicyManager.with_refcnt m (mp_refcnt m - 1)]> (bpf_maps (k_policy s))).

Lemma wp_exit pcr vs s :
  module_inv pcr vs [] (globals s) s -> wp bpfima_exit (fun _ s' => unloaded s s') s.
Proof.
  intros Hm. unfold bpfima_exit.
  apply (wp_bind_assoc cleanup_all_containers (fun _ => bpfima_container_cleanup)).
  apply wp_bind. eapply wp_mono; [apply (wp_cleanup_all (globals s)); apply Hm|].
  intros [] s1 (Hc1 & Hl1 & Hs1). apply wp_bind, wp_modify, wp_bind.
  apply wp_securityfs_cleanup.
  { rewrite Hs1 in Hl1 |- *. exact Hl1. }
  intros g. apply wp_bind, wp_modify, wp_bind. apply wp_policy_cleanup.
  { pose proof (mi_map _ _ _ _ _ Hm) as Hb. rewrite Hs1. exact Hb. }
  intros maps Hlen Hput Hnone. apply wp_bind, wp_modify, wp_modify.
  split; [done|]. split; [exact Hc1|]. split; [done|]. split; [done|]. split; [done|].
  split; [|split; [done|split; [done|]]].
  - apply set_eq. intros k. split; [|by intros ?%not_elem_of_empty].
    rewrite elem_of_table_set. cbn. intros (i & b & e & Hi & He & _).
    rewrite list_lookup_fmap in Hi. apply fmap_Some in Hi as (b' & _ & ->). by apply not_elem_of_nil in He.
  - intros map m Hpm Hmm. assert (Hk : k_policy s1 = k_policy s) by by rewrite Hs1.
    cbn in Hput |- *. rewrite Hk in Hput. by apply Hput.
Qed.

(** Unloading releases everything. With the module's invariants and no
    reference held outside, [bpfima_exit] does not fault and leaves no
    securityfs entry, no container, no workqueue, no audit record, no history
    and no recorded digest; the reference on the bound policy map is dropped
    exactly once. *)
Theorem exit_releases_everything pcr vs s :
  module_inv pcr vs [] (globals s) s ->
  wp bpfima_exit (fun _ s' =>
    live_dentries (k_securityfs s') = [] /\ k_containers s' = ContainerState ∅ [] 0 None /\
    k_namespaces s' = [] /\ merkle_root_history (k_merkle s') = [] /\ sha256_tfm (k_hash s') = PNull /\
    table_set (sha256_hash_table (k_hash s')) = ∅ /\ policy_map (k_policy s') = None /\
    global_policy_change_history (k_policy s') = [] /\
    (forall map m, policy_map (k_policy s) = Some map -> bpf_maps (k_policy s) !! map = Some m ->
       bpf_maps (k_policy s') = <[map := PolicyManager.with_refcnt m (mp_refcnt m - 1)]> (bpf_maps (k_policy s)))) s.
Proof. exact (wp_exit pcr vs s). Qed.
End Spec.

(** ** Witnesses *)

(** The sample module with its directory as the only global entry. *)
Lemma sample_globals : globals sample_state = [0%nat].
Proof. by vm_compute. Qed.

Lemma exit_releases_everything_witness :
  wp bpfima_exit (fun _ s' => live_dentries (k_securityfs s') = []) sample_state.
Proof.
  eapply wp_mono; [apply (exit_releases_everything (E := tpm_env) (zeros MERKLE_HASH_SIZE) [] sample_state)|].
  - rewrite sample_globals. apply sample_module_inv.
  - by intros [] s' (? & _).
Defined.

Lemma init_all_or_nothing_witness :
  fst <$> bpfima_init (E := tpm_env) (loaded_state 0 (zeros MERKLE_HASH_SIZE) [sample_map]) = Some 0 /\
  wp (bpfima_init (E := tpm_env)) (fun rc s' =>
    rc = 0 -> started (E := tpm_env) (zeros MERKLE_HASH_SIZE) [sample_map] s')
    (loaded_state 0 (zeros MERKLE_HASH_SIZE) [sample_map]).
Proof.
  split; [by vm_compute|].
  eapply wp_mono; [apply (init_all_or_nothing (E := tpm_env) 0 (zeros MERKLE_HASH_SIZE) [sample_map])|].
  by intros rc s' [H _].
Defined.
