(* ===== verification/PolicyFiles.v ===== *)
(** * The policy files

    The handlers of [src/policy_securityfs.c]: what a write to [policy],
    [policy_map] or [policy_apply] does and what a read of [policy] or
    [policy_changes] shows.  A write handler receives the user's bytes; a show
    handler returns its result and the text it printed. *)

From S2P Require Import Prelude CString Types Kernel Pattern Snapshot Wire KfuncBuffer HashUtils Tpm PolicyMap Merkle PolicyNamespace PolicyManager.

(** ** [kstrtou32(s, 0, &res)] *)

(** The value of a digit character, at least 16 when it is none. *)
Definition digit_value (ch : byte) : Z :=
  let c := u8_val ch in
  if (48 <=? c) && (c <=? 57) then c - 48
  else if (97 <=? c) && (c <=? 102) then c - 87
  else if (65 <=? c) && (c <=? 70) then c - 55
  else 16.

(** [_parse_integer]: the value of the leading digits and what follows. *)
Fixpoint parse_integer (base acc : Z) (s : bytes) (seen : bool) : Z * bool * bytes :=
  match s with
  | [] => (acc, seen, [])
  | ch :: s' =>
      if digit_value ch <? base then parse_integer base (acc * base + digit_value ch) s' true
      else (acc, seen, s)
  end.

(** [_parse_integer_fixup_radix] with base 0: the base and the digits. *)
Definition fixup_radix (s : bytes) : Z * bytes :=
  match s with
  | x30 :: ch :: s' =>
      if (Byte.eqb ch x78 || Byte.eqb ch x58) && (digit_value (char_at s' 0) <? 16) then (16, s')
      else (8, s)
  | x30 :: _ => (8, s)
  | _ => (10, s)
  end.

Definition kstrtou32 (s : bytes) : Z + Z :=
  let s := cstr s in
  let s := match s with x2b :: s' => s' | _ => s end in
  let '(base, digits) := fixup_radix s in
  let '(value, seen, rest) := parse_integer base 0 digits false in
  if value >? U64_MAX then inl (- ERANGE) else
  if negb seen then inl (- EINVAL) else
  let rest := match rest with x0a :: rest' => rest' | _ => rest end in
  match rest with
  | [] => if value >? U32_MAX then inl (- ERANGE) else inr value
  | _ => inl (- EINVAL)
  end.

(** ** Printing *)

(** [%x]. *)
Fixpoint hexadecimal_fuel (n : nat) (z : Z) : bytes :=
  match n with
  | O => []
  | S n => (if z <? 16 then [] else hexadecimal_fuel n (z / 16)) ++ [hex_digit (z mod 16)]
  end.
Definition hexadecimal (z : Z) : bytes := hexadecimal_fuel 16 z.

Definition NL : bytes := [x0a].
Definition key_value (key value : bytes) : bytes := key ++ lit "=" ++ value ++ NL.

Section PolicyFiles.
Context {E : KernelEnv}.

(** ** Writing *)

Definition parse_and_update_policy (buf : bytes) (namespace_id : option bytes) : K Z :=
  let* ok := kalloc in
  if negb ok then ret (- ENOMEM) else
  match strchr buf x3d with
  | None => ret (- EINVAL)
  | Some i =>
      match kstrtou32 (drop (S i) (cstr buf)) with
      | inl e => ret e
      | inr number => bpfima_policy_update_field namespace_id (Some (take i buf)) number
      end
  end.

Definition copy_from_user : K bool := let* n := call in ret (env_copy_from_user n).
Definition capable : K bool := let* n := call in ret (env_capable n).

(** [count] is the number of bytes of the user's buffer. *)
Definition policy_map_write (buffer : bytes) : K Z :=
  let count := Z.of_nat (length buffer) in
  let* admin := capable in
  if negb admin then ret (- EPERM) else
  if (count =? 0) || (count >=? 32) then ret (- EINVAL) else
  let* copied := copy_from_user in
  if negb copied then ret (- EFAULT) else
  if memchr buffer NUL (length buffer) then ret (- EINVAL) else
  match kstrtou32 buffer with
  | inl e => ret e
  | inr fd => let* rc := bpfima_policy_bind_map fd in ret (if truth rc then rc else count)
  end.

(** [memdup_user]. *)
Definition memdup_user (buffer : bytes) : K (Z + bytes) :=
  let* ok := kalloc in
  if negb ok then ret (inl (- ENOMEM)) else
  let* copied := copy_from_user in
  ret (if copied then inr buffer else inl (- EFAULT)).

Definition policy_apply_write (buffer : bytes) : K Z :=
  let count := Z.of_nat (length buffer) in
  if negb securityfs_policy_writable then ret (- EPERM) else
  let* admin := capable in
  if negb admin then ret (- EPERM) else
  if negb (count =? 1400) then ret (- EINVAL) else
  let? request := memdup_user buffer in
  let request := decode_request big_endian (fst (c_get (request_codec big_endian) request)) in
  let* rc := bpfima_policy_apply (Some request) in
  ret (if truth rc then rc else count).

(** Copy the user's bytes, terminate them and drop one trailing newline. *)
Definition copy_text (user_buf : bytes) : bytes :=
  match rev user_buf with x0a :: r => rev r | _ => user_buf end.

Definition policy_update_write (namespace_id : option bytes) (user_buf : bytes) : K Z :=
  let count := Z.of_nat (length user_buf) in
  if negb securityfs_policy_writable then ret (- EPERM) else
  if count >? 256 then ret (- EINVAL) else
  let* ok := kalloc in
  if negb ok then ret (- ENOMEM) else
  let* copied := copy_from_user in
  if negb copied then ret (- EFAULT) else
  match namespace_id with
  | None => ret (- EINVAL)
  | Some id =>
      let* rc := parse_and_update_policy (copy_text user_buf) (Some id) in
      ret (if rc <? 0 then rc else count)
  end.

Definition global_policy_write (user_buf : bytes) : K Z :=
  let count := Z.of_nat (length user_buf) in
  if negb securityfs_policy_writable then ret (- EPERM) else
  if count >? 256 then ret (- EINVAL) else
  let* ok := kalloc in
  if negb ok then ret (- ENOMEM) else
  let* copied := copy_from_user in
  if negb copied then ret (- EFAULT) else
  let* rc := parse_and_update_policy (copy_text user_buf) None in
  ret (if rc <? 0 then rc else count).

(** ** Reading *)

Definition policy_show (id : option bytes) : K (Z * bytes) :=
  match id with
  | None => ret (- EINVAL, [])
  | Some id =>
      let* r := bpfima_policy_read_locked (Some id) in
      match r with
      | inl e => ret (e, [])
      | inr (config, generation) =>
          let* metadata := bpfima_policy_namespace_get_locked id in
          match metadata with
          | PErr e => ret (e, [])
          | PNull => fault
          | PVal i =>
              let* l := gets k_namespaces in
              let* md := deref (l !! i) in
              ret (0, key_value (lit "namespace_id") (cstr id) ++
                      key_value (lit "generation") (decimal generation) ++
                      key_value (lit "filter_flags") (lit "0x" ++ hexadecimal (cfg_filter_flags config)) ++
                      key_value (lit "action_flags") (lit "0x" ++ hexadecimal (cfg_action_flags config)) ++
                      key_value (lit "min_file_size") (decimal (cfg_min_file_size config)) ++
                      key_value (lit "log_level") (decimal (cfg_log_level config)) ++
                      key_value (lit "enabled") (decimal (cfg_enabled config)) ++
                      key_value (lit "changes") (cstr (pn_changes_str md)) ++
                      key_value (lit "changes_hash") (hex (take MERKLE_HASH_SIZE (pn_changes_hash md))))
          end
      end
  end.

Definition global_policy_show : K (Z * bytes) :=
  let* r := bpfima_policy_read_locked None in
  match r with
  | inl e => ret (e, [])
  | inr (policy, generation) =>
      ret (0, key_value (lit "generation") (decimal generation) ++
              key_value (lit "enabled") (decimal (cfg_enabled policy)) ++
              key_value (lit "filter_flags") (lit "0x" ++ hexadecimal (cfg_filter_flags policy)) ++
              key_value (lit "action_flags") (lit "0x" ++ hexadecimal (cfg_action_flags policy)) ++
              key_value (lit "min_file_size") (decimal (cfg_min_file_size policy)) ++
              key_value (lit "max_path_depth") (decimal (cfg_max_path_depth policy)) ++
              key_value (lit "log_level") (decimal (cfg_log_level policy)))
  end.

(** One line of a change history. *)
Definition change_line (change : policy_change_entry) : bytes :=
  hex (take MERKLE_HASH_SIZE (pc_change_hash change)) ++ lit " " ++ cstr (pc_policy_string change) ++ NL.

Definition global_policy_changes_show : K (Z * bytes) :=
  gets (fun s => (0, flat_map change_line (global_policy_change_history (k_policy s)))).

Definition policy_changes_show (namespace_id : option bytes) : K (Z * bytes) :=
  match namespace_id with
  | None => ret (- EINVAL, [])
  | Some id =>
      let* policy_ns := bpfima_policy_namespace_get_or_create id in
      match policy_ns with
      | PErr e => ret (e, [])
      | PNull => fault
      | PVal i =>
          let* l := gets k_namespaces in
          let* ns := deref (l !! i) in
          ret (0, flat_map change_line (pn_change_history ns))
      end
  end.
End PolicyFiles.
