(* ===== verification/PolicyFilesSpec.v ===== *)
(** * Theorems on the policy files

    The number parser reads what the show handlers print, a line that was
    printed and is written back updates the same field with the same value,
    and the bytes of the userspace encoder are applied as the request. *)

From S2P Require Import Prelude CString Types Kernel Sample Pattern Snapshot Wire KfuncBuffer HashUtils Tpm PolicyMap Merkle MerkleSpec MerkleInv PolicyNamespace PolicyManager PolicyAudit PolicyFiles.

(** ** Digits *)

(** [ds] are digits of the base, most significant first. *)
Definition digits_value (base : Z) (ds : bytes) : Z := foldl (fun a b => a * base + digit_value b) 0 ds.

Lemma parse_digits base ds acc seen :
  Forall (fun b => digit_value b < base) ds ->
  parse_integer base acc ds seen =
    (foldl (fun a b => a * base + digit_value b) acc ds, seen || negb (bool_decide (ds = [])), []).
Proof.
  revert acc seen. induction ds as [|b ds IH]; intros acc seen Hd; cbn [parse_integer foldl].
  { by rewrite orb_false_r. }
  apply Forall_cons in Hd as [Hb Hd]. destruct (Z.ltb_spec (digit_value b) base); [|lia].
  rewrite IH by done. by rewrite orb_true_r.
Qed.

Lemma decimal_digit_spec d : 0 <= d < 10 -> digit_value (decimal_digit d) = d.
Proof.
  intros Hd. unfold digit_value. rewrite decimal_digit_val by done.
  destruct (Z.leb_spec 48 (48 + d)); [|lia]. destruct (Z.leb_spec (48 + d) 57); [|lia]. cbn [andb]. lia.
Qed.

Lemma hex_digit_spec d : 0 <= d < 16 -> digit_value (hex_digit d) = d.
Proof.
  intros Hd. rewrite <- (Z2Nat.id d) by lia. assert (H : (Z.to_nat d < 16)%nat) by lia. revert H.
  generalize (Z.to_nat d). intros n Hn. do 16 (destruct n as [|n]; [done|]). lia.
Qed.

(** Printing in base [base] with the digits [dig] and enough fuel. *)
Section Print.
Context (base : Z) (dig : Z -> byte) (Hbase : 1 < base).
Context (Hdig : forall d, 0 <= d < base -> digit_value (dig d) = d).

Fixpoint print_fuel (n : nat) (z : Z) : bytes :=
  match n with
  | O => []
  | S n => (if z <? base then [] else print_fuel n (z / base)) ++ [dig (z mod base)]
  end.

Lemma print_fuel_digits n z : Forall (fun b => digit_value b < base) (print_fuel n z).
Proof.
  revert z. induction n as [|n IH]; intros z; cbn [print_fuel]; [by constructor|].
  apply Forall_app. split; [destruct (z <? base); [by constructor|apply IH]|].
  apply Forall_singleton. rewrite Hdig; apply Z.mod_pos_bound; lia.
Qed.

Lemma print_fuel_value n z : 0 <= z < base ^ Z.of_nat n -> digits_value base (print_fuel n z) = z.
Proof.
  revert z. induction n as [|n IH]; intros z Hz; cbn [print_fuel].
  { rewrite Z.pow_0_r in Hz. unfold digits_value. cbn. lia. }
  pose proof (Z.mod_pos_bound z base ltac:(lia)) as Hm. unfold digits_value. rewrite foldl_app. cbn [foldl].
  rewrite Hdig by lia. rewrite Nat2Z.inj_succ, Z.pow_succ_r in Hz by lia. destruct (Z.ltb_spec z base).
  - cbn [foldl]. rewrite Z.mod_small by lia. lia.
  - fold (digits_value base (print_fuel n (z / base))). rewrite IH; [pose proof (Z.div_mod z base); lia|].
    split; [apply Z.div_pos; lia|apply Z.div_lt_upper_bound; lia].
Qed.

Lemma print_fuel_nonempty n z : print_fuel (S n) z <> [].
Proof. cbn. intros H. by apply app_nil in H as [_ ?]. Qed.

(** A positive number has no leading zero. *)
Lemma print_fuel_head n z :
  0 < z < base ^ Z.of_nat n -> exists b rest, print_fuel n z = b :: rest /\ digit_value b <> 0.
Proof.
  revert z. induction n as [|n IH]; intros z Hz; cbn [print_fuel].
  { rewrite Z.pow_0_r in Hz. lia. }
  rewrite Nat2Z.inj_succ, Z.pow_succ_r in Hz by lia. destruct (Z.ltb_spec z base).
  - eexists _, []. split; [done|]. rewrite Z.mod_small by lia. rewrite Hdig; lia.
  - destruct (IH (z / base)) as (b & rest & -> & Hb).
    { split; [apply Z.div_str_pos; lia|apply Z.div_lt_upper_bound; lia]. }
    by exists b, (rest ++ [dig (z mod base)]).
Qed.
End Print.

Lemma decimal_print z : decimal z = print_fuel 10 decimal_digit 20 z.
Proof.
  unfold decimal. generalize 20%nat. intros n. revert z.
  induction n as [|n IH]; intros z; cbn; [done|]. by rewrite IH.
Qed.

Lemma hexadecimal_print z : hexadecimal z = print_fuel 16 hex_digit 16 z.
Proof.
  unfold hexadecimal. generalize 16%nat. intros n. revert z.
  induction n as [|n IH]; intros z; cbn; [done|]. by rewrite IH.
Qed.

(** ** The parser *)

Definition plain (b : byte) : Prop := digit_value b < 16.

Lemma plain_not b : plain b -> b <> NUL /\ b <> x2b /\ b <> x0a /\ b <> x3d.
Proof. intros H. split_and!; intros ->; vm_compute in H; done. Qed.

Lemma plain_nul_free ds : Forall plain ds -> nul_free ds.
Proof. intros H Hin. rewrite Forall_forall in H. by destruct (plain_not _ (H _ Hin)). Qed.

Lemma fixup_decimal b s : digit_value b <> 0 -> fixup_radix (b :: s) = (10, b :: s).
Proof. intros H. destruct b; try done; by vm_compute in H. Qed.

Lemma strip_plus (b : byte) (s : bytes) : plain b -> (match b :: s with x2b :: s' => s' | _ => b :: s end) = b :: s.
Proof. intros H. destruct b; try done; by vm_compute in H. Qed.

(** Digits of a base, without a sign and after the prefix, are read back. *)
Lemma parse_integer_nonneg base acc s seen v seen' rest :
  0 <= base -> 0 <= acc -> parse_integer base acc s seen = (v, seen', rest) -> 0 <= v.
Proof.
  intros Hb. revert acc seen. induction s as [|c s IH]; intros acc seen Ha; cbn [parse_integer]; [by intros [= <- _ _]|].
  destruct (_ <? base); [|by intros [= <- _ _]]. apply IH.
  assert (0 <= digit_value c) by (by destruct c). nia.
Qed.

Lemma fixup_radix_base s base digits : fixup_radix s = (base, digits) -> 0 <= base.
Proof.
  assert (H : 0 <= fst (fixup_radix s)); [|intros E; by rewrite E in H].
  destruct s as [|b [|c s]]; [done|by destruct b|]. unfold fixup_radix. destruct b; cbn; try done. by destruct (_ && _).
Qed.

Lemma kstrtou32_range text v : kstrtou32 text = inr v -> is_u32 v.
Proof.
  unfold kstrtou32. cbv zeta. destruct (fixup_radix _) as [base digits] eqn:Ef.
  destruct (parse_integer base 0 digits false) as [[value seen] rest] eqn:Ep.
  pose proof (parse_integer_nonneg _ _ _ _ _ _ _ (fixup_radix_base _ _ _ Ef) (Z.le_refl 0) Ep) as Hv.
  destruct (value >? U64_MAX); [done|]. destruct (negb seen); [done|].
  destruct (match rest with x0a :: rest' => rest' | _ => rest end); [|done].
  destruct (Z.gtb_spec value U32_MAX) as [|Hle]; [done|]. intros [= <-]. unfold U32_MAX, is_u32 in *. lia.
Qed.

Lemma kstrtou32_digits s base ds :
  nul_free s -> (match s with x2b :: s' => s' | _ => s end) = s -> fixup_radix s = (base, ds) ->
  Forall (fun b => digit_value b < base) ds -> ds <> [] -> is_u32 (digits_value base ds) ->
  kstrtou32 s = inr (digits_value base ds).
Proof.
  intros Hf Hplus Hr Hd Hne [Hlo Hhi]. unfold kstrtou32. rewrite (cstr_id s) by done. rewrite Hplus, Hr.
  rewrite parse_digits by done. rewrite bool_decide_false by done. cbn [orb negb].
  fold (digits_value base ds). unfold U64_MAX, U32_MAX.
  destruct (Z.gtb_spec (digits_value base ds) (2 ^ 64 - 1)); [lia|].
  by destruct (Z.gtb_spec (digits_value base ds) (2 ^ 32 - 1)); [lia|].
Qed.

Lemma decimal_plain z : Forall plain (decimal z).
Proof.
  rewrite decimal_print. eapply Forall_impl; [apply (print_fuel_digits 10 decimal_digit); [lia|apply decimal_digit_spec]|].
  unfold plain. intros b Hb. cbn in Hb. lia.
Qed.

Lemma hexadecimal_plain z : Forall plain (hexadecimal z).
Proof.
  rewrite hexadecimal_print. apply (print_fuel_digits 16 hex_digit); [lia|apply hex_digit_spec].
Qed.

(** A printed decimal number is read back, zero through the octal base. *)
Lemma kstrtou32_decimal v : is_u32 v -> kstrtou32 (decimal v) = inr v.
Proof.
  intros Hv. destruct (Z.eq_dec v 0) as [->|Hne]; [by vm_compute|]. unfold is_u32 in Hv.
  pose proof (decimal_plain v) as Hp. rewrite decimal_print in *.
  assert (Hb : 0 < v < 10 ^ Z.of_nat 20) by (cbn; lia).
  destruct (print_fuel_head 10 decimal_digit ltac:(lia) decimal_digit_spec 20 v Hb) as (b & rest & Eb & Hb0).
  rewrite <- (print_fuel_value 10 decimal_digit ltac:(lia) decimal_digit_spec 20 v) at 2 by lia.
  apply kstrtou32_digits.
  - by apply plain_nul_free.
  - rewrite Eb in *. apply Forall_cons in Hp as [Hpb _]. by apply strip_plus.
  - rewrite Eb. by apply fixup_decimal.
  - apply print_fuel_digits; [lia|apply decimal_digit_spec].
  - apply print_fuel_nonempty.
  - rewrite print_fuel_value; [done|lia|apply decimal_digit_spec|lia].
Qed.

Lemma fixup_hex s : digit_value (char_at s 0) < 16 -> fixup_radix (lit "0x" ++ s) = (16, s).
Proof.
  intros H. change (fixup_radix (x30 :: x78 :: s) = (16, s)). unfold fixup_radix.
  apply Z.ltb_lt in H. by rewrite H.
Qed.

Lemma kstrtou32_hexadecimal v : is_u32 v -> kstrtou32 (lit "0x" ++ hexadecimal v) = inr v.
Proof.
  intros Hv. unfold is_u32 in Hv. pose proof (hexadecimal_plain v) as Hp. rewrite hexadecimal_print in *.
  assert (Hb : 0 <= v < 16 ^ Z.of_nat 16) by (cbn; lia).
  rewrite <- (print_fuel_value 16 hex_digit ltac:(lia) hex_digit_spec 16 v) at 2 by lia.
  apply kstrtou32_digits.
  - intros Hin. apply elem_of_app in Hin as [Hin|Hin]; [|by apply (plain_nul_free _ Hp)].
    vm_compute in Hin. repeat (apply elem_of_cons in Hin as [?|Hin]; [done|]). by apply not_elem_of_nil in Hin.
  - done.
  - apply fixup_hex. destruct (print_fuel 16 hex_digit 16 v) as [|b r] eqn:Eb; [by apply print_fuel_nonempty in Eb|].
    by apply Forall_cons in Hp as [? _].
  - apply print_fuel_digits; [lia|apply hex_digit_spec].
  - apply print_fuel_nonempty.
  - rewrite print_fuel_value; [done|lia|apply hex_digit_spec|lia].
Qed.

(** ** Lines *)

(** A field name as it stands before the equals sign. *)
Definition field_name (field : bytes) : Prop := (x3d ∉ field) /\ nul_free field.

Lemma strchr_field field rest : field_name field -> strchr (field ++ x3d :: rest) x3d = Some (length field).
Proof.
  intros [He Hn]. induction field as [|b field IH]; [done|]. unfold nul_free in Hn.
  apply not_elem_of_cons in He as [Hb He]. apply not_elem_of_cons in Hn as [Hb' Hn]. cbn [app strchr].
  destruct (byte_eqb_spec b x3d); [congruence|]. destruct (byte_eqb_spec b NUL); [congruence|]. by rewrite IH.
Qed.

(** The text of a value: decimal, or hexadecimal with its prefix. *)
Definition value_text (v : Z) (text : bytes) : Prop := text = decimal v \/ text = lit "0x" ++ hexadecimal v.

Lemma value_text_parses v text : is_u32 v -> value_text v text -> kstrtou32 text = inr v.
Proof. intros Hv [->| ->]; [by apply kstrtou32_decimal|by apply kstrtou32_hexadecimal]. Qed.

Lemma value_text_nul_free v text : value_text v text -> nul_free text.
Proof.
  intros [->| ->]; [apply plain_nul_free, decimal_plain|]. intros Hin.
  apply elem_of_app in Hin as [Hin|Hin]; [|by apply (plain_nul_free _ (hexadecimal_plain v))].
  vm_compute in Hin. repeat (apply elem_of_cons in Hin as [?|Hin]; [done|]). by apply not_elem_of_nil in Hin.
Qed.

Section Handlers.
Context {E : KernelEnv} {L : KernelLaws E}.

Lemma parse_line field v text id s :
  field_name field -> is_u32 v -> value_text v text ->
  parse_and_update_policy (field ++ lit "=" ++ text) id s =
    (let* ok := kalloc in
     if negb ok then ret (- ENOMEM) else bpfima_policy_update_field id (Some field) v) s.
Proof.
  intros Hf Hv Ht. unfold parse_and_update_policy.
  change (lit "=" ++ text) with (x3d :: text). rewrite strchr_field by done.
  assert (Hc : cstr (field ++ x3d :: text) = field ++ x3d :: text).
  { apply cstr_id. intros Hin. apply elem_of_app in Hin as [Hin|Hin]; [by apply Hf|].
    apply elem_of_cons in Hin as [?|Hin]; [done|]. by apply (value_text_nul_free v text Ht). }
  rewrite Hc, take_app_length. rewrite (cons_middle x3d field text), app_assoc.
  replace (S (length field)) with (length (field ++ [x3d])) by (rewrite length_app; cbn; lia).
  rewrite drop_app_length. by rewrite (value_text_parses v text Hv Ht).
Qed.

Lemma copy_text_line text : copy_text (text ++ NL) = text.
Proof. unfold copy_text, NL. rewrite rev_app_distr. cbn. apply rev_involutive. Qed.

(** A printed policy line can be written back. For every field and 32-bit
    value, writing the line [field=value] in decimal or hexadecimal form, as
    the show handlers print it and with its newline, to a namespace's policy
    file runs exactly the update of that field with that value (and returns
    the number of bytes written), whatever the field and the namespace. *)
Theorem policy_line_roundtrip field v text id s :
  field_name field -> is_u32 v -> value_text v text -> Z.of_nat (length (key_value field text)) <= 256 ->
  policy_update_write (Some id) (key_value field text) s =
    (if negb securityfs_policy_writable then ret (- EPERM) else
     let* ok := kalloc in
     if negb ok then ret (- ENOMEM) else
     let* copied := copy_from_user in
     if negb copied then ret (- EFAULT) else
     let* ok := kalloc in
     if negb ok then ret (- ENOMEM) else
     let* rc := bpfima_policy_update_field (Some id) (Some field) v in
     ret (if rc <? 0 then rc else Z.of_nat (length (key_value field text)))) s.
Proof.
  intros Hf Hv Ht Hlen. unfold policy_update_write.
  destruct (negb securityfs_policy_writable); [done|].
  destruct (Z.gtb_spec (Z.of_nat (length (key_value field text))) 256); [lia|].
  apply bind_ext. intros ok s1. destruct (negb ok); [done|].
  apply bind_ext. intros copied s2. destruct (negb copied); [done|].
  unfold key_value at 1. rewrite !app_assoc, copy_text_line, <- app_assoc.
  unfold bind at 1. rewrite (parse_line field v text (Some id) s2 Hf Hv Ht). unfold bind.
  destruct (kalloc s2) as [[ok2 s3]|]; [|done]. by destruct (negb ok2).
Qed.

Lemma apply_write_eq be q s :
  wf_request q -> rq_reserved q = 0 -> reserved_zero (rec_snapshot (rq_record q)) ->
  policy_apply_write (c_put (request_codec be) (bpfima_policy_encode_request be q)) s =
    (if negb securityfs_policy_writable then ret (- EPERM) else
     let* admin := capable in
     if negb admin then ret (- EPERM) else
     let* ok := kalloc in
     if negb ok then ret (- ENOMEM) else
     let* copied := copy_from_user in
     if negb copied then ret (- EFAULT) else
     let* rc := bpfima_policy_apply (Some q) in
     ret (if truth rc then rc else 1400)) s.
Proof.
  intros Hq H0 Hz. destruct (request_roundtrip be big_endian q Hq H0 Hz) as (Hlen & _ & Hdec).
  unfold policy_apply_write. rewrite Hlen. change (Z.of_nat 1400 =? 1400) with true. cbn [negb].
  destruct (negb securityfs_policy_writable); [done|].
  apply bind_ext. intros admin s1. destruct (negb admin); [done|].
  unfold memdup_user, bind. destruct (kalloc s1) as [[ok s2]|]; [|done]. destruct (negb ok); [done|].
  destruct (copy_from_user s2) as [[copied s3]|]; [|done]. destruct copied; cbn [negb ret]; [|done].
  by rewrite Hdec.
Qed.

(** C40: Applying a policy through securityfs is applying the request. The bytes
    that the encoder of any host writes to [policy_apply] pass the size check
    and reach [bpfima_policy_apply] as the original request. *)
Theorem apply_write_is_apply be q s :
  wf_request q -> rq_reserved q = 0 -> reserved_zero (rec_snapshot (rq_record q)) ->
  policy_apply_write (c_put (request_codec be) (bpfima_policy_encode_request be q)) s =
    (if negb securityfs_policy_writable then ret (- EPERM) else
     let* admin := capable in
     if negb admin then ret (- EPERM) else
     let* ok := kalloc in
     if negb ok then ret (- ENOMEM) else
     let* copied := copy_from_user in
     if negb copied then ret (- EFAULT) else
     let* rc := bpfima_policy_apply (Some q) in
     ret (if truth rc then rc else 1400)) s.
Proof. exact (apply_write_eq be q s). Qed.
End Handlers.

(** ** Witnesses *)

Lemma policy_line_roundtrip_witness :
  field_name (lit "filter_flags") /\ value_text 31 (lit "0x1f") /\
  policy_update_write (E := tpm_env) (Some (lit "web" ++ [NUL])) (lit "filter_flags=0x1f" ++ NL) sample_state =
    Some (- ENXIO, set_next 4 sample_state).
Proof.
  assert (Hf : field_name (lit "filter_flags")).
  { split; [|unfold nul_free]; apply (bool_decide_unpack _); by vm_compute. }
  assert (Ht : value_text 31 (lit "0x1f")) by (right; by vm_compute).
  split; [done|]. split; [done|].
  etransitivity; [apply (policy_line_roundtrip (E := tpm_env) (lit "filter_flags") 31 (lit "0x1f") (lit "web" ++ [NUL])
    sample_state Hf ltac:(done) Ht); vm_compute; discriminate|]. by vm_compute.
Defined.

Lemma apply_write_is_apply_witness :
  policy_apply_write (E := tpm_env) (c_put (request_codec true)
    (bpfima_policy_encode_request true default_request)) sample_state = Some (- ENXIO, set_next 3 sample_state).
Proof.
  etransitivity; [apply (apply_write_is_apply (E := tpm_env) true default_request sample_state default_request_wf eq_refl)|].
  - apply canonical_reserved_zero, default_snapshot_canonical.
  - by vm_compute.
Defined.
