(* ===== verification/LogFiles.v ===== *)
(** * The status, history and measurement files

    The show handlers of [src/securityfs_utils.c] and the reference that an
    open measurements file holds on its container. *)

From S2P Require Import Prelude CString Types Kernel Sample KfuncBuffer HashUtils Tpm PolicyMap Merkle MerkleSpec MerkleInv PolicyNamespace PolicyManager PolicyAudit Container ContainerSpec ContainerRules ContainerInv Kfuncs KfuncsInv KfuncsSpec PolicyFiles.

Section LogFiles.
Context {E : KernelEnv}.

Definition status_show : K bytes :=
  let* chip := tpm_default_chip in
  let tpm_available := match chip with Some _ => true | None => false end in
  let* error := bpfima_commit_get_error in
  let* generation := bpfima_policy_generation in
  let* map_id := bpfima_policy_map_id in
  ret (lit "module=bpfima" ++ NL ++
       key_value (lit "pcr_index") (decimal_int bpfima_tpm_pcr_index) ++
       key_value (lit "tpm_available") (if tpm_available then lit "yes" else lit "no") ++
       lit "digest_algorithm=sha256" ++ NL ++
       key_value (lit "commit_error") (decimal_int error) ++
       key_value (lit "policy_generation") (decimal generation) ++
       key_value (lit "policy_map_id") (decimal map_id)).

Definition merkle_root_history_seq_show (entry : merkle_root_entry) : bytes :=
  hex (take MERKLE_HASH_SIZE (me_value entry)) ++
  (if me_is_aggregate entry
   then lit " [AGGREGATE:" ++ decimal (me_aggregated_count entry) ++ lit " entries]" else []) ++ NL.

(** Reading the whole file: every entry of the list in order. *)
Definition read_merkle_root_history : K bytes :=
  gets (fun s => flat_map merkle_root_history_seq_show (merkle_root_history (k_merkle s))).

(** [seq_open] allocates. *)
Definition merkle_root_history_open : K Z :=
  let* ok := kalloc in ret (if ok then 0 else - ENOMEM).

Definition container_measurements_seq_show (entry : measurement_entry) : bytes :=
  hex (take MERKLE_HASH_SIZE (en_digest entry)) ++ lit " " ++ cstr (en_event_name entry) ++
  (if negb (Byte.eqb (char_at (en_event_data entry) 0) NUL)
   then lit " " ++ cstr (en_event_data entry) else []) ++
  (if negb (Byte.eqb (char_at (en_dependencies entry) 0) NUL)
   then lit " " ++ cstr (en_dependencies entry) else []) ++ NL.

(** On failure of [seq_open] the reference is dropped again. *)
Definition container_measurements_open (container : option nat) : K Z :=
  let* got := bpfima_get_container container in
  match got with
  | None => ret (- ENOENT)
  | Some c =>
      let* ok := kalloc in
      if ok then ret 0 else bpfima_put_container (Some c);; ret (- ENOMEM)
  end.

Definition read_container_measurements (c : nat) : K bytes :=
  let* n := load_container c in
  ret (flat_map container_measurements_seq_show (cn_measurement_list n)).

Definition container_measurements_release (container : option nat) : K Z :=
  match container with
  | Some c => bpfima_put_container (Some c);; ret 0
  | None => ret 0
  end.
End LogFiles.

(** ** The history text determines the history *)

(** What a verifier reads of an entry: value, kind and number of roots. *)
Definition entry_content (e : merkle_root_entry) : bytes * option Z :=
  (me_value e, if me_is_aggregate e then Some (me_aggregated_count e) else None).

Definition wf_entry (e : merkle_root_entry) : Prop :=
  length (me_value e) = MERKLE_HASH_SIZE /\ is_u32 (me_aggregated_count e).

Lemma decimal_inj a b : is_u32 a -> is_u32 b -> decimal a = decimal b -> a = b.
Proof.
  intros Ha Hb H. unfold is_u32 in *. rewrite <- (decimal_fuel_value 20 a), <- (decimal_fuel_value 20 b) by (cbn; lia).
  unfold decimal in H. by rewrite H.
Qed.

Lemma decimal_no_space z : x20 ∉ decimal z.
Proof. intros H%decimal_fuel_digits. vm_compute in H. destruct H. congruence. Qed.

(** The rest of a line after the value. *)
Definition line_tail (e : merkle_root_entry) : bytes :=
  (if me_is_aggregate e
   then lit " [AGGREGATE:" ++ decimal (me_aggregated_count e) ++ lit " entries]" else []) ++ NL.

Lemma line_tail_inj e e' r r' :
  wf_entry e -> wf_entry e' -> line_tail e ++ r = line_tail e' ++ r' ->
  snd (entry_content e) = snd (entry_content e') /\ r = r'.
Proof.
  intros [_ Hc] [_ Hc']. unfold line_tail, entry_content. cbn [snd].
  destruct (me_is_aggregate e), (me_is_aggregate e'); rewrite <- ?app_assoc.
  - intros H. apply app_inv_head in H.
    apply (split_first x20 _ (lit "entries]" ++ NL ++ r) _ (lit "entries]" ++ NL ++ r')) in H as [Hd Hr];
      [|apply decimal_no_space..].
    apply app_inv_head, app_inv_head in Hr. apply decimal_inj in Hd; [|done|done]. by rewrite Hd.
  - intros H. discriminate H.
  - intros H. discriminate H.
  - intros H. by injection H as ->.
Qed.

(** The history file is faithful: the text of [merkle_root_history] determines
    the list of values, which entries are aggregates and how many roots each
    of them stands for, so what a verifier reads is what was committed. *)
Theorem history_text_injective h h' :
  Forall wf_entry h -> Forall wf_entry h' ->
  flat_map merkle_root_history_seq_show h = flat_map merkle_root_history_seq_show h' ->
  entry_content <$> h = entry_content <$> h'.
Proof.
  assert (Hline : forall e r, wf_entry e -> merkle_root_history_seq_show e ++ r = hex (me_value e) ++ line_tail e ++ r).
  { intros e r [Hl _]. unfold merkle_root_history_seq_show, line_tail. rewrite take_ge by lia. by rewrite <- !app_assoc. }
  assert (Hne : forall e r, wf_entry e -> merkle_root_history_seq_show e ++ r <> []).
  { intros e r He H. apply (f_equal length) in H. unfold merkle_root_history_seq_show, NL in H.
    rewrite !length_app in H. cbn [length] in H. lia. }
  intros Hh. revert h'. induction Hh as [|e h He Hh IH]; intros [|e' h'] Hh' H; cbn [flat_map] in H; try done.
  - apply Forall_cons in Hh' as [He' _]. symmetry in H. by apply Hne in H.
  - by apply Hne in H.
  - apply Forall_cons in Hh' as [He' Hh']. rewrite !Hline in H by done.
    apply app_inj_1 in H as [Hv Ht]; [|by rewrite !hex_length, (proj1 He), (proj1 He')].
    apply hex_inj in Hv; [|by rewrite (proj1 He), (proj1 He')].
    apply line_tail_inj in Ht as [Hc Hr]; [|done|done].
    rewrite !fmap_cons. f_equal; [|by apply IH]. unfold entry_content in *. cbn [snd] in Hc. by rewrite Hv, Hc.
Qed.

Lemma history_text_injective_witness :
  let h := [MerkleRootEntry (zeros 32) (zeros 128) true 5; MerkleRootEntry (replicate 32 x01) (zeros 128) false 0] in
  entry_content <$> h = entry_content <$> h.
Proof.
  intros h. assert (Hh : Forall wf_entry h).
  { apply Forall_forall. intros e He. repeat (apply elem_of_cons in He as [->|He]; [by split|]). by apply not_elem_of_nil in He. }
  exact (history_text_injective h h Hh Hh eq_refl).
Defined.

(** The measurement lines are not unambiguous: an event name may hold a newline
    and so print as two lines of other measurements. *)
Lemma measurement_text_ambiguous :
  let e1 := MeasurementEntry (lit "a") [] [] (zeros 32) in
  let e2 := MeasurementEntry (lit "b") [] [] (zeros 32) in
  let forged := MeasurementEntry (lit "a" ++ NL ++ hex (zeros 32) ++ lit " b") [] [] (zeros 32) in
  flat_map container_measurements_seq_show [e1; e2] = container_measurements_seq_show forged.
Proof. by vm_compute. Qed.

Section Open.
Context {E : KernelEnv} {L : KernelLaws E}.

(** Reading a container's measurements is safe. Opening the file of a
    published container takes a reference (or fails and leaves the store as it
    was), reading prints exactly the container's list in order, and releasing
    drops the reference again; nothing faults. *)
Theorem open_read_release pcr0 vs held base c n s :
  module_inv pcr0 vs held base s -> held_bound held -> c ∈ container_list (k_containers s) ->
  container_heap (k_containers s) !! c = Some n ->
  wp (let* rc := container_measurements_open (Some c) in
      if truth rc then ret (rc, []) else
      let* text := read_container_measurements c in
      let* _ := container_measurements_release (Some c) in ret (rc, text))
    (fun r s' => module_inv pcr0 vs held base s' /\
       (fst r = 0 -> snd r = flat_map container_measurements_seq_show (cn_measurement_list n)) /\
       (fst r = 0 \/ fst r = - ENOMEM)) s.
Proof.
  intros Hm Hb Hc Hn. pose proof (mi_containers _ _ _ _ _ Hm) as Hi.
  assert (Hpos : 0 < cn_refcnt n < INT_MAX).
  { rewrite (ci_refcnt _ _ Hi c n Hn). split; [apply refs_pos; set_solver|]. apply refs_bound; [apply Hi|done]. }
  assert (Hm' : module_inv pcr0 vs (c :: held) base
    (set_containers (with_heap (<[c := set_refcnt (cn_refcnt n + 1) n]> (container_heap (k_containers s))) (k_containers s)) s)).
  { eapply module_inv_agree; [exact Hm|apply container_inv_get; [done|done|lia]|].
    split; [done|done|by apply erase_refcnt]. }
  apply wp_bind, wp_bind, wp_bind. eapply wp_load_container; [exact Hn|]. rewrite inc_not_zero by done.
  apply wp_bind, wp_modify, wp_ret, wp_bind, wp_kalloc. intros [] m.
  - apply wp_ret. cbn [truth Z.eqb negb]. apply wp_bind, wp_bind.
    eapply wp_load_container; [apply lookup_insert_eq|]. apply wp_ret, wp_bind, wp_bind.
    eapply module_inv_put; [exact (module_inv_next _ _ _ _ m _ Hm')|]. intros s' _ Hs' _.
    apply wp_ret, wp_ret. auto.
  - apply wp_bind. eapply module_inv_put; [exact (module_inv_next _ _ _ _ m _ Hm')|]. intros s' _ Hs' _.
    apply wp_ret, wp_ret. split; [done|]. split; [done|by right].
Qed.
End Open.

Lemma open_read_release_witness :
  wp (let* rc := container_measurements_open (E := tpm_env) (Some 1%nat) in
      if truth rc then ret (rc, []) else
      let* text := read_container_measurements 1 in
      let* _ := container_measurements_release (Some 1%nat) in ret (rc, text))
    (fun r s' => fst r = 0 -> snd r = []) sample_state.
Proof.
  eapply wp_mono; [apply (open_read_release (E := tpm_env) _ _ _ _ 1%nat sample_node sample_state sample_module_inv)|];
    [done|by left|done|]. by intros r s' (_ & ? & _).
Defined.
