(* ===== verification/Requests.v ===== *)
(** * The other entry points

    The kfuncs that read or update the policy, and the handlers of the
    module's files. They leave the containers and the digest table alone: each
    is a move of the log in the sense of [PolicyLog] and keeps the policy
    store consistent, whatever bytes are written. *)

From S2P Require Import Prelude CString Types Kernel Pattern Snapshot Wire KfuncBuffer HashUtils Tpm PolicyMap Merkle MerkleSpec MerkleInv PolicyNamespace PolicyManager PolicySpec PolicyInv PolicyLog PolicyBind PolicyAudit Container Kfuncs PolicyFiles PolicyFilesSpec LogFiles.

Inductive request : Type :=
  | GetRoot (buf : option bytes) (size : Z)
  | GetCount
  | TpmIsAvailable
  | UpdateFilterFlags (id : option bytes) (size value : Z)
  | UpdateActionFlags (id : option bytes) (size value : Z)
  | UpdateMinFileSize (id : option bytes) (size value : Z)
  | UpdateLogLevel (id : option bytes) (size value : Z)
  | GetChangesHash (id : option bytes) (size : Z) (buf : option bytes) (bufsize : Z)
  | GetConfig (id : option bytes) (size : Z) (buf : option bytes) (bufsize : Z)
  | IgnoreCgroup (name : option bytes) (size flags : Z)
  | IgnorePath (path : option bytes) (size flags : Z)
  | ResolvePolicy (context : option bpfima_policy_context) (size : Z) (buf : option bytes) (bufsize : Z)
  | WriteMap (buffer : bytes)
  | WriteApply (buffer : bytes)
  | WritePolicy (id : option bytes) (text : bytes)
  | WriteGlobalPolicy (text : bytes)
  | ShowPolicy (id : option bytes)
  | ShowGlobalPolicy
  | ShowChanges (id : option bytes)
  | ShowGlobalChanges
  | ShowStatus
  | OpenHistory
  | ReadHistory.

Section Requests.
Context {E : KernelEnv}.

Definition run_request (q : request) : K Z :=
  match q with
  | GetRoot buf size => bpfima_merkle_get_root buf size;; ret 0
  | GetCount => bpfima_container_get_count;; ret 0
  | TpmIsAvailable => bpfima_tpm_is_available;; ret 0
  | UpdateFilterFlags id size value => bpfima_policy_update_filter_flags id size value
  | UpdateActionFlags id size value => bpfima_policy_update_action_flags id size value
  | UpdateMinFileSize id size value => bpfima_policy_update_min_file_size id size value
  | UpdateLogLevel id size value => bpfima_policy_update_log_level id size value
  | GetChangesHash id size buf bufsize => bpfima_policy_get_changes_hash id size buf bufsize;; ret 0
  | GetConfig id size buf bufsize => bpfima_policy_namespace_get_config id size buf bufsize;; ret 0
  | IgnoreCgroup name size flags => bpfima_policy_should_ignore_cgroup name size flags;; ret 0
  | IgnorePath path size flags => bpfima_policy_should_ignore_path path size flags;; ret 0
  | ResolvePolicy context size buf bufsize => bpfima_policy_resolve context size buf bufsize;; ret 0
  | WriteMap buffer => policy_map_write buffer;; ret 0
  | WriteApply buffer => policy_apply_write buffer;; ret 0
  | WritePolicy id text => policy_update_write id text;; ret 0
  | WriteGlobalPolicy text => global_policy_write text;; ret 0
  | ShowPolicy id => policy_show id;; ret 0
  | ShowGlobalPolicy => global_policy_show;; ret 0
  | ShowChanges id => policy_changes_show id;; ret 0
  | ShowGlobalChanges => global_policy_changes_show;; ret 0
  | ShowStatus => status_show;; ret 0
  | OpenHistory => merkle_root_history_open;; ret 0
  | ReadHistory => read_merkle_root_history;; ret 0
  end.

(** The widths of the scalar arguments, and what the kernel promises of the
    descriptor that is written. *)
Definition request_ok (q : request) (s : kstate) : Prop :=
  match q with
  | UpdateFilterFlags _ _ value | UpdateActionFlags _ _ value | UpdateMinFileSize _ _ value | UpdateLogLevel _ _ value =>
      is_u32 value
  | WriteMap buffer => forall fd, kstrtou32 buffer = inr fd -> fd_ok fd s
  | _ => True
  end.

Context {L : KernelLaws E}.

(** ** Reading *)

Lemma quiet_moved rc s s' : policy_inv s -> quiet s s' -> moved s rc s' /\ policy_inv s'.
Proof.
  intros Hp Hq. split; [exists []; split; [by apply moves_quiet|done]|].
  destruct Hq as (n & e & l & -> & _). exact Hp.
Qed.

(** A computation that at most allocates, latches an error or adds a record. *)
Definition reads_only {A} (m : K A) (s : kstate) : Prop := wp m (fun _ s' => quiet s s') s.

Lemma reads_moved {A} (m : K A) s :
  policy_inv s -> reads_only m s -> wp (m;; ret 0) (fun rc s' => moved s rc s' /\ policy_inv s') s.
Proof. intros Hp Hr. apply wp_bind. eapply wp_mono; [exact Hr|]. intros a s' Hq. by apply wp_ret, quiet_moved. Qed.

Lemma quiet_self s : bpfima_commit_error (k_commit s) <= 0 -> quiet s s.
Proof. intros He. rewrite <- (set_next_eta s) at 2. by apply quiet_refl. Qed.

Lemma wp_read_locked id (Q : Z + (bpfima_policy_config * Z) -> kstate -> Prop) s :
  policy_inv s -> Q (inl (- ENXIO)) s -> (forall r, Q (inr r) s) -> wp (bpfima_policy_read_locked id) Q s.
Proof.
  intros Hp He HQ. unfold bpfima_policy_read_locked. apply wp_bind, wp_gets.
  destruct (policy_map (k_policy s)) as [map|] eqn:Ep; [|by apply wp_ret].
  destruct (policy_inv_view s map Hp Ep) as (m & st & Hm & Hok & _).
  apply wp_bind. eapply wp_active_state; [exact Hm|exact Hok|].
  apply wp_bind. eapply wp_load_state; [exact Hm|apply Hok|]. by apply wp_ret.
Qed.

(** Resolution reads. *)
Lemma resolve_reads context s :
  policy_inv s -> wp (bpfima_policy_resolve_context context) (fun _ s' => s' = s) s.
Proof.
  intros Hp. unfold bpfima_policy_resolve_context. destruct (_ || _); [by apply wp_ret|].
  apply wp_bind, wp_gets. destruct (policy_map (k_policy s)) as [map|] eqn:Ep; [|by apply wp_ret].
  destruct (policy_inv_view s map Hp Ep) as (m & st & Hm & Hok & _).
  apply wp_bind. eapply wp_active_state; [exact Hm|exact Hok|].
  apply wp_bind. eapply wp_load_state; [exact Hm|apply Hok|]. by apply wp_ret.
Qed.

Lemma wp_match_root text flags path (Q : bool -> kstate -> Prop) s :
  policy_inv s -> (forall b n, Q b (set_next n s)) -> wp (bpfima_policy_match_root text flags path) Q s.
Proof.
  intros Hp HQ. assert (HQ' : forall b, Q b s) by (intros b; rewrite <- (set_next_eta s); apply HQ).
  unfold bpfima_policy_match_root. cbv zeta. apply wp_bind, wp_gets.
  destruct (policy_map (k_policy s)) as [map|] eqn:Ep; [|by apply wp_ret].
  destruct (policy_inv_view s map Hp Ep) as (m & st & Hm & Hok & _).
  apply wp_bind. eapply wp_active_state; [exact Hm|exact Hok|].
  apply wp_bind. eapply wp_load_state; [exact Hm|apply Hok|].
  apply wp_bind, wp_kalloc. intros [] n; by apply wp_ret, HQ.
Qed.

Lemma wp_policy_generation (Q : Z -> kstate -> Prop) s :
  policy_inv s -> (forall g, Q g s) -> wp bpfima_policy_generation Q s.
Proof.
  intros Hi HQ. unfold bpfima_policy_generation. apply wp_bind, wp_gets.
  destruct (policy_map (k_policy s)) as [map|] eqn:Ep; [|by apply wp_ret].
  destruct (policy_inv_view s map Hi Ep) as (m & st & Hm & Hok & _). destruct (mo_control _ _ Hok) as (c & Hc & _).
  apply wp_bind, (wp_map_state _ _ m); [done|by eapply lookup_lt_Some|].
  apply wp_bind, (wp_load_state _ _ m c); [done|done|]. by apply wp_ret.
Qed.

(** The identifier of the bound map, 0 without one. *)
Definition bound_id (s : kstate) : Z :=
  match policy_map (k_policy s) with
  | Some map => match bpf_maps (k_policy s) !! map with Some m => mp_id m | None => 0 end
  | None => 0
  end.

Lemma wp_policy_map_id (Q : Z -> kstate -> Prop) s : policy_inv s -> Q (bound_id s) s -> wp bpfima_policy_map_id Q s.
Proof.
  intros Hi HQ. unfold bpfima_policy_map_id, bound_id in *. apply wp_bind, wp_gets.
  destruct (policy_map (k_policy s)) as [map|] eqn:Ep; [|by apply wp_ret].
  destruct (policy_inv_view s map Hi Ep) as (m & st & Hm & _ & _). apply wp_bind, wp_gets. rewrite Hm in *.
  apply wp_bind, wp_deref. exists m. split; [done|]. by apply wp_ret.
Qed.

Lemma status_reads s : policy_inv s -> bpfima_commit_error (k_commit s) <= 0 -> reads_only status_show s.
Proof.
  intros Hp He. unfold reads_only, status_show. apply wp_bind, wp_default_chip. intros chip n. cbv zeta. apply wp_bind.
  unfold bpfima_commit_get_error. apply wp_commit_check.
  - intros e n' Hne Hcase Hl. cbn in Hcase, Hl. apply wp_bind, wp_policy_generation; [exact Hp|]. intros g.
    apply wp_bind, wp_policy_map_id; [exact Hp|]. apply wp_ret. change (set_next n' (set_error e (set_next n s))) with (set_next n' (set_error e s)).
    by apply quiet_check.
  - intros n' _. apply wp_bind, wp_policy_generation; [exact Hp|]. intros g.
    apply wp_bind, wp_policy_map_id; [exact Hp|]. apply wp_ret. rewrite set_next_set_next. by apply quiet_refl.
Qed.

(** A show handler returns 0 or an error, and reads. *)
Definition shows_text (m : K (Z * bytes)) (s : kstate) : Prop := wp m (fun r s' => r.1 <= 0 /\ quiet s s') s.

Lemma shows_reads m s : shows_text m s -> reads_only m s.
Proof. intros H. eapply wp_mono; [exact H|]. by intros r s' [_ Hq]. Qed.

(** The two files that look a namespace up, and may create its record. *)
Lemma wp_with_record {A} id (f : nat -> bpfima_policy_namespace -> A) (err : Z -> A) (Q : A -> kstate -> Prop) s :
  bpfima_commit_error (k_commit s) <= 0 -> (forall e s', e < 0 -> quiet s s' -> Q (err e) s') ->
  (forall i md s', quiet s s' -> Q (f i md) s') ->
  wp (let* metadata := bpfima_policy_namespace_get_locked id in
      match metadata with
      | PErr e => ret (err e)
      | PNull => fault
      | PVal i => let* l := gets k_namespaces in let* md := deref (l !! i) in ret (f i md)
      end) Q s.
Proof.
  intros He HQe HQ. apply wp_bind, wp_namespace_get.
  - intros e n Hlt. apply wp_ret, HQe; [done|]. by apply quiet_refl.
  - intros i l n Hl Hi. apply wp_bind, wp_gets. cbn. destruct (lookup_lt_is_Some_2 l i Hi) as [md Hmd].
    apply wp_bind, wp_deref. exists md. split; [done|]. apply wp_ret, HQ. by apply quiet_next.
Qed.

Lemma policy_show_reads id s : policy_inv s -> bpfima_commit_error (k_commit s) <= 0 -> shows_text (policy_show id) s.
Proof.
  intros Hp He. assert (Hs : quiet s s) by (by apply quiet_self). unfold shows_text, policy_show. destruct id as [id|]; [|by apply wp_ret].
  apply wp_bind, wp_read_locked; [done|done|]. intros [config g]. apply wp_with_record; [done|..].
  - intros e s' Hlt Hq. split; [cbn; lia|done].
  - by intros i md s' Hq.
Qed.

Lemma policy_changes_reads id s : policy_inv s -> bpfima_commit_error (k_commit s) <= 0 -> shows_text (policy_changes_show id) s.
Proof.
  intros Hp He. assert (Hs : quiet s s) by (by apply quiet_self). unfold shows_text, policy_changes_show. destruct id as [id|]; [|by apply wp_ret].
  apply wp_with_record; [done|..].
  - intros e s' Hlt Hq. split; [cbn; lia|done].
  - by intros i md s' Hq.
Qed.

Lemma global_policy_reads s : policy_inv s -> bpfima_commit_error (k_commit s) <= 0 -> shows_text global_policy_show s.
Proof.
  intros Hp He. assert (Hs : quiet s s) by (by apply quiet_self). unfold shows_text, global_policy_show.
  apply wp_bind, wp_read_locked; [done|by apply wp_ret|]. intros [config g]. by apply wp_ret.
Qed.

Lemma global_changes_reads s : bpfima_commit_error (k_commit s) <= 0 -> shows_text global_policy_changes_show s.
Proof. intros He. apply wp_gets. split; [done|by apply quiet_self]. Qed.

Lemma changes_hash_reads id size buf bufsize s :
  bpfima_commit_error (k_commit s) <= 0 -> reads_only (bpfima_policy_get_changes_hash id size buf bufsize) s.
Proof.
  intros He. unfold reads_only, bpfima_policy_get_changes_hash, bpfima_policy_namespace_get_changes_hash, find_policy_namespace.
  destruct (kfunc_id id size) as [name|]; [|by apply wp_ret, quiet_self]. destruct buf; [|by apply wp_ret, quiet_self].
  destruct (negb _); [by apply wp_ret, quiet_self|].
  apply wp_bind, wp_gets. destruct (find_entry (k_namespaces s) name) as [i|] eqn:Ef; [|by apply wp_ret, quiet_self].
  apply find_entry_Some in Ef as (e & Hi & _). apply wp_bind, wp_gets, wp_bind, wp_deref. exists e. split; [done|]. by apply wp_ret, quiet_self.
Qed.

(** ** Writing *)

Lemma bind_map_moved fd s :
  policy_inv s -> hash_ready s -> bpfima_commit_error (k_commit s) <= 0 -> fd_ok fd s ->
  wp (bpfima_policy_bind_map fd) (fun rc s' => moved s rc s' /\ policy_inv s') s.
Proof.
  intros Hp Hr He Hfd. destruct (policy_map (k_policy s)) as [e|] eqn:Ep.
  - eapply wp_mono; [by apply (bind_map_bound fd e)|]. intros rc s' [Hmv Hk]. split; [done|].
    unfold policy_inv. by rewrite Hk.
  - unfold fd_ok in Hfd. destruct (env_map_get fd) as [err|map] eqn:Ef.
    + unfold bpfima_policy_bind_map, bpf_map_get. rewrite Ef. apply wp_bind, wp_ret, wp_ret.
      split; [|done]. rewrite <- (set_next_eta s) at 2. apply moved_refl.
    + destruct Hfd as (m & Hm & Hl). eapply wp_mono; [by apply (wp_bind_map fd map m)|].
      intros rc s' [Hmv [(_ & Hp' & _)|(_ & _ & Hn & _)]]; (split; [done|]); [done|].
      intros map' Hmap'. congruence.
Qed.

(** After calls that only advance the counter. *)
Lemma moved_after n (rc : Z) s s' :
  moved (set_next n s) rc s' /\ policy_inv s' -> moved s rc s' /\ policy_inv s'.
Proof. intros [(ws & Hm & Hw) Hp]. split; [|done]. exists ws. split; [by apply (mv_after _ (set_next n s))|done]. Qed.

(** The result of a write is a count; the error is kept. *)
Lemma wp_write (m : K Z) (f : Z -> Z) s :
  wp m (fun rc s' => moved s rc s' /\ policy_inv s') s ->
  wp (let* rc := m in ret (f rc)) (fun _ s' => moved s 0 s' /\ policy_inv s') s.
Proof.
  intros Hw. apply wp_bind. eapply wp_mono; [exact Hw|]. intros rc s' [(ws & Hm & _) Hp]. apply wp_ret.
  split; [|done]. by exists ws.
Qed.

Lemma returned rc n s : policy_inv s -> bpfima_commit_error (k_commit s) <= 0 -> moved s rc (set_next n s) /\ policy_inv (set_next n s).
Proof. intros Hp He. apply quiet_moved; [done|]. by apply quiet_refl. Qed.

Lemma wp_update_text buf id s :
  policy_inv s -> hash_ready s -> bpfima_commit_error (k_commit s) <= 0 ->
  wp (parse_and_update_policy buf id) (fun rc s' => moved s rc s' /\ policy_inv s') s.
Proof.
  intros Hp Hr He. unfold parse_and_update_policy. apply wp_bind, wp_kalloc. intros [] n; cbn [negb]; [|by apply wp_ret, returned].
  destruct (strchr buf x3d) as [i|]; [|by apply wp_ret, returned].
  destruct (kstrtou32 _) as [e|v] eqn:Ek; [by apply wp_ret, returned|].
  eapply wp_mono; [apply (update_field_moved id _ v (set_next n s)); [done..|by eapply kstrtou32_range]|].
  intros rc s'. apply moved_after.
Qed.

Lemma wp_copy_from_user (Q : bool -> kstate -> Prop) s : (forall b n, Q b (set_next n s)) -> wp copy_from_user Q s.
Proof. intros HQ. unfold copy_from_user. apply wp_bind, wp_call, wp_ret, HQ. Qed.

Lemma wp_capable (Q : bool -> kstate -> Prop) s : (forall b n, Q b (set_next n s)) -> wp capable Q s.
Proof. intros HQ. unfold capable. apply wp_bind, wp_call, wp_ret, HQ. Qed.

(** The guards in front of a write: a caller's capability, an allocation, a
    copy from the caller. *)
Lemma wp_guard (g : K bool) (m : K Z) e s :
  policy_inv s -> bpfima_commit_error (k_commit s) <= 0 ->
  (forall Q : bool -> kstate -> Prop, (forall b n, Q b (set_next n s)) -> wp g Q s) ->
  (forall n, wp m (fun _ s' => moved (set_next n s) 0 s' /\ policy_inv s') (set_next n s)) ->
  wp (let* b := g in if negb b then ret e else m) (fun _ s' => moved s 0 s' /\ policy_inv s') s.
Proof.
  intros Hp He Hg Hm. apply wp_bind, Hg. intros [] n; cbn [negb]; [|by apply wp_ret, returned].
  eapply wp_mono; [apply Hm|]. intros rc s'. apply moved_after.
Qed.

Lemma text_write (writable : bool) (count : Z) (k : K Z) s :
  policy_inv s -> hash_ready s -> bpfima_commit_error (k_commit s) <= 0 ->
  (forall n, wp k (fun _ s' => moved (set_next n s) 0 s' /\ policy_inv s') (set_next n s)) ->
  wp (if negb writable then ret (- EPERM) else
      if count >? 256 then ret (- EINVAL) else
      let* ok := kalloc in
      if negb ok then ret (- ENOMEM) else
      let* copied := copy_from_user in
      if negb copied then ret (- EFAULT) else k) (fun _ s' => moved s 0 s' /\ policy_inv s') s.
Proof.
  intros Hp Hr He Hk. assert (Hret : moved s 0 s /\ policy_inv s) by (by apply quiet_moved, quiet_self).
  destruct (negb writable); [by apply wp_ret|]. destruct (count >? 256); [by apply wp_ret|].
  apply wp_guard; [done|done|intros Q HQ; by apply wp_kalloc|]. intros n.
  apply wp_guard; [done|done|intros Q HQ; by apply wp_copy_from_user|]. intros n'. apply Hk.
Qed.

Lemma update_write_moved id text s :
  policy_inv s -> hash_ready s -> bpfima_commit_error (k_commit s) <= 0 ->
  wp (policy_update_write id text) (fun _ s' => moved s 0 s' /\ policy_inv s') s.
Proof.
  intros Hp Hr He. unfold policy_update_write. cbv zeta. apply text_write; [done..|]. intros n.
  destruct id as [id|]; [|apply wp_ret; by apply quiet_moved, quiet_self]. by apply wp_write, wp_update_text.
Qed.

Lemma global_write_moved text s :
  policy_inv s -> hash_ready s -> bpfima_commit_error (k_commit s) <= 0 ->
  wp (global_policy_write text) (fun _ s' => moved s 0 s' /\ policy_inv s') s.
Proof.
  intros Hp Hr He. unfold global_policy_write. cbv zeta. apply text_write; [done..|]. intros n. by apply wp_write, wp_update_text.
Qed.

Lemma map_write_moved buffer s :
  policy_inv s -> hash_ready s -> bpfima_commit_error (k_commit s) <= 0 ->
  (forall fd, kstrtou32 buffer = inr fd -> fd_ok fd s) ->
  wp (policy_map_write buffer) (fun _ s' => moved s 0 s' /\ policy_inv s') s.
Proof.
  intros Hp Hr He Hfd. unfold policy_map_write. cbv zeta.
  apply wp_guard; [done|done|intros Q HQ; by apply wp_capable|]. intros n.
  assert (Hret : forall n, moved (set_next n s) 0 (set_next n s) /\ policy_inv (set_next n s))
    by (intros; by apply quiet_moved, quiet_self).
  destruct (_ || _); [by apply wp_ret, Hret|].
  apply wp_guard; [done|done|intros Q HQ; by apply wp_copy_from_user|]. intros n'.
  destruct (memchr _ _ _); [by apply wp_ret, Hret|].
  destruct (kstrtou32 buffer) as [e|fd]; [by apply wp_ret, Hret|]. apply wp_write.
  apply bind_map_moved; [done..|]. exact (Hfd fd eq_refl).
Qed.

Lemma apply_write_moved buffer s :
  policy_inv s -> hash_ready s -> bpfima_commit_error (k_commit s) <= 0 ->
  wp (policy_apply_write buffer) (fun _ s' => moved s 0 s' /\ policy_inv s') s.
Proof.
  intros Hp Hr He. unfold policy_apply_write. cbv zeta.
  assert (Hret : forall n, moved (set_next n s) 0 (set_next n s) /\ policy_inv (set_next n s))
    by (intros; by apply quiet_moved, quiet_self).
  destruct (negb _); [apply wp_ret; by apply quiet_moved, quiet_self|].
  apply wp_guard; [done|done|intros Q HQ; by apply wp_capable|]. intros n.
  destruct (Z.eqb_spec (Z.of_nat (length buffer)) 1400) as [Hl|]; cbn [negb]; [|by apply wp_ret, Hret].
  unfold memdup_user. apply wp_bind, wp_bind, wp_kalloc. intros [] n1; cbn [negb]; [|by apply wp_ret, wp_ret, returned].
  apply wp_bind, wp_copy_from_user. intros [] n2; rewrite set_next_set_next; [|by apply wp_ret, wp_ret, returned].
  apply wp_ret. eapply wp_mono; [apply wp_write, policy_apply_moved; [done..|apply decode_wf; lia]|].
  intros rc s'. apply (moved_after n2).
Qed.

(** ** Every request *)

Lemma dropped_moved (m : K Z) s :
  wp m (fun _ s' => moved s 0 s' /\ policy_inv s') s ->
  wp (m;; ret 0) (fun rc s' => moved s rc s' /\ policy_inv s') s.
Proof. intros Hw. apply wp_bind. eapply wp_mono; [exact Hw|]. intros rc s' H. by apply wp_ret. Qed.

Lemma reads_same {A} (m : K A) s :
  bpfima_commit_error (k_commit s) <= 0 -> wp m (fun _ s' => s' = s) s -> reads_only m s.
Proof. intros He Hw. eapply wp_mono; [exact Hw|]. intros a s' ->. by apply quiet_self. Qed.

Lemma kfunc_update_moved id size field value s :
  policy_inv s -> hash_ready s -> bpfima_commit_error (k_commit s) <= 0 -> is_u32 value ->
  wp (match kfunc_id id size with
      | None => ret (- EINVAL)
      | Some name => bpfima_policy_update_field (Some name) (Some field) value
      end) (fun rc s' => moved s rc s' /\ policy_inv s') s.
Proof.
  intros Hp Hr He Hv. destruct (kfunc_id id size); [by apply update_field_moved|]. apply wp_ret. by apply quiet_moved, quiet_self.
Qed.

Lemma kfunc_reads q s :
  policy_inv s -> bpfima_commit_error (k_commit s) <= 0 ->
  match q with
  | GetRoot buf size => reads_only (bpfima_merkle_get_root buf size) s
  | TpmIsAvailable => reads_only bpfima_tpm_is_available s
  | GetConfig id size buf bufsize => reads_only (bpfima_policy_namespace_get_config id size buf bufsize) s
  | IgnoreCgroup name size flags => reads_only (bpfima_policy_should_ignore_cgroup name size flags) s
  | IgnorePath path size flags => reads_only (bpfima_policy_should_ignore_path path size flags) s
  | ResolvePolicy context size buf bufsize => reads_only (bpfima_policy_resolve context size buf bufsize) s
  | _ => True
  end.
Proof.
  intros Hp He. destruct q; try done; unfold reads_only.
  - unfold bpfima_merkle_get_root. destruct buf; [|by apply wp_ret, quiet_self].
    destruct (negb _); [by apply wp_ret, quiet_self|]. by apply wp_gets, quiet_self.
  - unfold bpfima_tpm_is_available, bpfima_tpm_available. apply wp_bind, wp_default_chip. intros chip n. by apply wp_ret, quiet_refl.
  - unfold bpfima_policy_namespace_get_config. destruct buf; [|by apply wp_ret, quiet_self].
    destruct (negb _); [by apply wp_ret, quiet_self|]. destruct (kfunc_id _ _); [|by apply wp_ret, quiet_self].
    unfold bpfima_policy_read. apply wp_bind, wp_read_locked; [done|by apply wp_ret, quiet_self|]. intros r. by apply wp_ret, quiet_self.
  - unfold bpfima_policy_should_ignore_cgroup. destruct (kfunc_text _ _ _); [|by apply wp_ret, quiet_self].
    apply wp_match_root; [done|]. intros b n. by apply quiet_refl.
  - unfold bpfima_policy_should_ignore_path. destruct (kfunc_text _ _ _); [|by apply wp_ret, quiet_self].
    apply wp_match_root; [done|]. intros b n. by apply quiet_refl.
  - unfold bpfima_policy_resolve. destruct context, buf; try by apply wp_ret, quiet_self.
    destruct (_ || _); [by apply wp_ret, quiet_self|]. apply reads_same; [done|]. by apply resolve_reads.
Qed.

(** Each of them is a move of the log that keeps the policy store. *)
Lemma request_moved q s :
  policy_inv s -> hash_ready s -> bpfima_commit_error (k_commit s) <= 0 -> request_ok q s ->
  wp (run_request q) (fun rc s' => moved s rc s' /\ policy_inv s') s.
Proof.
  intros Hp Hr He Hok. pose proof (kfunc_reads q s Hp He) as Hreads.
  destruct q; cbn [run_request request_ok] in *;
    try (by apply reads_moved); try (by apply kfunc_update_moved).
  - apply reads_moved; [done|]. by apply wp_gets, quiet_self.
  - apply reads_moved; [done|]. by apply changes_hash_reads.
  - by apply dropped_moved, map_write_moved.
  - by apply dropped_moved, apply_write_moved.
  - by apply dropped_moved, update_write_moved.
  - by apply dropped_moved, global_write_moved.
  - apply reads_moved; [done|]. by apply shows_reads, policy_show_reads.
  - apply reads_moved; [done|]. by apply shows_reads, global_policy_reads.
  - apply reads_moved; [done|]. by apply shows_reads, policy_changes_reads.
  - apply reads_moved; [done|]. by apply wp_gets, quiet_self.
  - apply reads_moved; [done|]. by apply status_reads.
  - apply reads_moved; [done|]. apply wp_bind, wp_kalloc. intros ok n. by apply wp_ret, quiet_refl.
  - apply reads_moved; [done|]. by apply wp_gets, quiet_self.
Qed.
End Requests.
