(* ===== verification/Frame.v ===== *)
(** * What the measurement side leaves alone

    [keeps m]: whatever it returns, [m] changes neither the policy manager's
    state (the binding and the maps) nor the entries of the module's own
    securityfs files, and forgets no recorded digest. Measuring, looking
    containers up, creating them and the worker that frees them all keep
    these, so the invariants of the policy store need no separate argument for
    them. *)

From S2P Require Import Prelude CString Types Kernel Snapshot KfuncBuffer HashUtils Tpm PolicyMap Merkle PolicyNamespace Container Kfuncs.

Definition same_policy_side (s s' : kstate) : Prop :=
  k_policy s' = k_policy s /\ dentry_of (k_securityfs s') = dentry_of (k_securityfs s) /\
  table_set (sha256_hash_table (k_hash s)) ⊆ table_set (sha256_hash_table (k_hash s')).

Definition keeps {A} (m : K A) : Prop :=
  forall s, match m s with Some (_, s') => same_policy_side s s' | None => True end.

Lemma keeps_ret {A} (a : A) : keeps (ret a).
Proof. intros s. done. Qed.

Lemma keeps_bind {A B} (m : K A) (f : A -> K B) : keeps m -> (forall a, keeps (f a)) -> keeps (bind m f).
Proof.
  intros Hm Hf s. unfold bind. specialize (Hm s). destruct (m s) as [[a s1]|]; [|done].
  specialize (Hf a s1). destruct (f a s1) as [[b s2]|]; [|done].
  destruct Hm as (? & ? & ?), Hf as (? & ? & ?). split_and!; [congruence..|]. by etrans.
Qed.

Lemma keeps_gets {A} (f : kstate -> A) : keeps (gets f).
Proof. intros s. done. Qed.

Lemma keeps_modify f : (forall s, same_policy_side s (f s)) -> keeps (modify f).
Proof. intros H s. apply H. Qed.

Lemma keeps_deref {A} (o : option A) : keeps (deref o).
Proof. intros s. by destruct o. Qed.

Lemma keeps_fault {A} : keeps (@fault A).
Proof. intros s. done. Qed.

Lemma keeps_call : keeps call.
Proof. intros s. done. Qed.

(** Partial correctness and the frame together. *)
Lemma wp_keeps {A} (m : K A) Q s :
  keeps m -> wp m Q s -> wp m (fun a s' => same_policy_side s s' /\ Q a s') s.
Proof. intros Hk Hw. specialize (Hk s). unfold wp in *. by destruct (m s) as [[a s']|]. Qed.

Create HintDb keeps.
#[export] Hint Resolve keeps_ret keeps_gets keeps_deref keeps_fault keeps_call : keeps.

(** Walk through the binds and the cases of a program. *)
Ltac keep_step :=
  match goal with
  | |- forall _, _ => intros ?
  | |- keeps (bind _ _) => apply keeps_bind
  | |- keeps (modify _) => apply keeps_modify; intros ?; done
  | |- keeps (match ?x with _ => _ end) => destruct x
  | |- keeps (let _ := _ in _) => cbv zeta
  | |- keeps _ => solve [auto 2 with keeps]
  | |- same_policy_side _ _ => done
  end.
Ltac keep := repeat keep_step.

Section Frame.
Context {E : KernelEnv}.

(** ** Services *)

Lemma keeps_kalloc : keeps kalloc.
Proof. unfold kalloc. keep. Qed.
Lemma keeps_can_sleep : keeps can_sleep.
Proof. unfold can_sleep. keep. Qed.
Lemma keeps_shash_op : keeps shash_op.
Proof. unfold shash_op. keep. Qed.
Lemma keeps_default_chip : keeps tpm_default_chip.
Proof. unfold tpm_default_chip. keep. Qed.
Lemma keeps_pcr_extend digests : keeps (tpm_pcr_extend digests).
Proof. unfold tpm_pcr_extend. keep. Qed.
Lemma keeps_alloc_shash : keeps crypto_alloc_shash.
Proof. unfold crypto_alloc_shash. keep. Qed.
Lemma keeps_load c : keeps (load_container c).
Proof. unfold load_container. keep. Qed.
Lemma keeps_store c n : keeps (store_container c n).
Proof. unfold store_container. keep. Qed.
Lemma keeps_fs_create : keeps securityfs_create.
Proof. unfold securityfs_create. keep. Qed.
Lemma keeps_fs_remove d : keeps (securityfs_remove d).
Proof. unfold securityfs_remove. keep. Qed.
#[local] Hint Resolve keeps_kalloc keeps_can_sleep keeps_shash_op keeps_default_chip keeps_pcr_extend
  keeps_alloc_shash keeps_load keeps_store keeps_fs_create keeps_fs_remove : keeps.

(** ** Digests, TPM and the log *)

Lemma hash_add_grows table e : table_set table ⊆ table_set (hash_add table e).
Proof.
  intros k. rewrite !elem_of_table_set. intros (i & b & x & Hi & Hx & Hk).
  destruct (decide (i = hash_min (get_unaligned_le32 (he_sha256_hash e)))) as [->|Hne].
  - eexists _, (e :: b), x. unfold hash_add. rewrite list_lookup_alter_eq, Hi. split_and!; [done|apply elem_of_cons; by right|done].
  - exists i, b, x. unfold hash_add. by rewrite list_lookup_alter_ne.
Qed.
Lemma keeps_publish_hash e : keeps (bpfima_publish_hash_entry_locked e).
Proof. apply keeps_modify. intros s. split; [done|]. split; [done|]. apply hash_add_grows. Qed.
#[local] Hint Resolve keeps_publish_hash : keeps.

Lemma keeps_sha256 data len : keeps (calculate_sha256_hash data len).
Proof. unfold calculate_sha256_hash. keep. Qed.
Lemma keeps_extend_hash tfm old new : keeps (bpfima_extend_hash tfm old new).
Proof. unfold bpfima_extend_hash. keep. Qed.
Lemma keeps_extend_tpm root name allowed : keeps (extend_tpm_pcr_with_root root name allowed).
Proof. unfold extend_tpm_pcr_with_root, extend_tpm_pcr. keep. Qed.
#[local] Hint Resolve keeps_sha256 keeps_extend_hash keeps_extend_tpm : keeps.
Lemma keeps_check : keeps bpfima_commit_check_locked.
Proof. unfold bpfima_commit_check_locked, bpfima_tpm_available. keep. Qed.
Lemma keeps_fail e : keeps (bpfima_commit_fail_locked e).
Proof. unfold bpfima_commit_fail_locked. keep. Qed.
Lemma keeps_map_state map k : keeps (map_state map k).
Proof. unfold map_state. keep. Qed.
Lemma keeps_load_state r : keeps (load_state r).
Proof. unfold load_state. keep. Qed.
#[local] Hint Resolve keeps_check keeps_fail keeps_map_state keeps_load_state : keeps.

Lemma keeps_get_config : keeps bpfima_policy_get_config.
Proof. unfold bpfima_policy_get_config, active_state. keep. Qed.
Lemma keeps_aggregate_loop entries v first count : keeps (aggregate_loop entries v first count).
Proof. revert v first count. induction entries as [|e entries IH]; intros; cbn [aggregate_loop]; keep. Qed.
#[local] Hint Resolve keeps_get_config keeps_aggregate_loop : keeps.
Lemma keeps_aggregate entries : keeps (aggregate_merkle_entries entries).
Proof. unfold aggregate_merkle_entries. keep. Qed.
#[local] Hint Resolve keeps_aggregate : keeps.
Lemma keeps_trim_history n : keeps (trim_merkle_root_history_locked n).
Proof. unfold trim_merkle_root_history_locked, get_merkle_root_history_count. keep. Qed.
#[local] Hint Resolve keeps_trim_history : keeps.
Lemma keeps_trim src : keeps (bpfima_trim_history_locked src).
Proof. unfold bpfima_trim_history_locked, get_merkle_root_history_count. keep. Qed.
#[local] Hint Resolve keeps_trim : keeps.

Lemma keeps_commit_args c e v : keeps (commit_args_ok c e v).
Proof. unfold commit_args_ok. keep. Qed.
Lemma keeps_commit_hash c e d : keeps (commit_prepare_hash c e d).
Proof. unfold commit_prepare_hash, hash_exists, bpfima_alloc_hash_entry. keep. Qed.
Lemma keeps_commit_value c e v : keeps (commit_prepare_value c e v).
Proof. unfold commit_prepare_value. keep. Qed.
Lemma keeps_commit_publish c e h v r : keeps (commit_publish c e h v r).
Proof. unfold commit_publish, bpfima_publish_history_entry_locked. keep. Qed.
#[local] Hint Resolve keeps_commit_args keeps_commit_hash keeps_commit_value keeps_commit_publish : keeps.

Lemma keeps_commit c e v src dedup : keeps (commit_event_locked c e v src dedup).
Proof.
  unfold commit_event_locked, bpfima_alloc_history_entry, bpfima_commit_hardware_allowed_locked. keep.
Qed.
#[local] Hint Resolve keeps_commit : keeps.

Lemma keeps_add_measurement c name data deps d : keeps (add_container_measurement c name data deps d).
Proof.
  unfold add_container_measurement, create_measurement_entry, bpfima_commit_measurement_locked, hash_exists. keep.
Qed.
#[local] Hint Resolve keeps_add_measurement : keeps.

(** ** Containers *)

Lemma keeps_find id : keeps (find_container_by_id_rcu id).
Proof.
  unfold find_container_by_id_rcu. keep.
  match goal with |- keeps (find_in ?l ?id) => induction l as [|c l IH]; cbn [find_in]; keep end.
Qed.
Lemma keeps_put c : keeps (bpfima_put_container c).
Proof. unfold bpfima_put_container, queue_rcu_work. keep. Qed.
#[local] Hint Resolve keeps_find keeps_put : keeps.

Lemma keeps_worker : keeps run_cleanup_wq.
Proof.
  unfold run_cleanup_wq. keep.
  match goal with |- keeps (run_works ?q) => induction q as [|c q IH]; cbn [run_works]; keep end.
  unfold container_node_free_work, cleanup_container_measurements, bpfima_policy_namespace_remove,
    find_policy_namespace, free_namespace, kfree_node. keep.
Qed.

Lemma keeps_policy_files id dir :
  keeps (create_namespace_policy_securityfs id dir) /\ keeps (create_namespace_policy_changes_securityfs id dir).
Proof.
  unfold create_namespace_policy_securityfs, create_namespace_policy_changes_securityfs. split; keep.
Qed.
Lemma keeps_container_files c : keeps (create_container_securityfs c).
Proof. unfold create_container_securityfs. keep; apply keeps_policy_files. Qed.
Lemma keeps_remove_files c : keeps (remove_container_securityfs c).
Proof.
  unfold remove_container_securityfs, remove_namespace_policy_changes_securityfs,
    remove_namespace_policy_securityfs. keep.
Qed.
Lemma keeps_namespace id : keeps (bpfima_policy_namespace_get_or_create id).
Proof.
  unfold bpfima_policy_namespace_get_or_create, bpfima_policy_namespace_get_locked, find_policy_namespace. keep.
Qed.
#[local] Hint Resolve keeps_container_files keeps_remove_files keeps_namespace : keeps.
Lemma keeps_create id : keeps (create_container_node id).
Proof.
  unfold create_container_node, create_container_node_locked, find_container_by_id, kfree_node. keep.
Qed.
#[local] Hint Resolve keeps_create : keeps.

(** ** The kfuncs *)

Lemma keeps_measurement data sz : keeps (bpfima_measurement_extend data sz).
Proof. unfold bpfima_measurement_extend, measurement_container, bpfima_commit_get_error, find_container_by_id. keep. Qed.
Lemma keeps_get_or_create id sz : keeps (bpfima_container_get_or_create id sz).
Proof. unfold bpfima_container_get_or_create, find_container_by_id. keep. Qed.
Lemma keeps_exists id sz : keeps (bpfima_container_exists id sz).
Proof. unfold bpfima_container_exists. keep. Qed.
Lemma keeps_measurement_count id sz : keeps (bpfima_container_get_measurement_count id sz).
Proof. unfold bpfima_container_get_measurement_count. keep. Qed.
Lemma keeps_leaf_hash id sz buf bsz : keeps (bpfima_container_get_leaf_hash id sz buf bsz).
Proof. unfold bpfima_container_get_leaf_hash. keep. Qed.
Lemma keeps_pcr_value buf sz : keeps (bpfima_tpm_get_pcr_value buf sz).
Proof.
  unfold bpfima_tpm_get_pcr_value, bpfima_commit_requires_hardware_locked,
    bpfima_commit_hardware_allowed_locked, tpm_pcr_read. keep.
Qed.
End Frame.
