(* ===== verification/System.v ===== *)
(** * The module as a whole

    The entry points that programs, userspace and the workqueue can run once
    the module is loaded, the states reachable by any sequence of them, and
    the invariants of the log, the containers, securityfs and the policy store
    over all of these states. *)

From S2P Require Import Prelude CString Types Kernel Sample Pattern Snapshot Wire KfuncBuffer HashUtils Tpm PolicyMap Merkle MerkleSpec MerkleInv PolicyNamespace PolicyManager PolicySpec PolicyInv PolicyLog PolicyBind PolicyAudit Container ContainerSpec ContainerRules ContainerInv Kfuncs KfuncsInv KfuncsSpec Lifecycle LifecycleSpec Requests Frame.

(** One call from outside. *)
Inductive entry : Type :=
  | Measure (r : bpfima_measurement_request)
  | GetOrCreate (id : bytes)
  | ContainerExists (id : bytes)
  | LeafHash (id buf : bytes)
  | PcrValue (buf : bytes) (size : Z)
  | BindMap (fd : Z)
  | Apply (q : bpfima_policy_request)
  | UpdateField (id : option bytes) (field : bytes) (value : Z)
  | Resolve (context : bpfima_policy_context)
  | MeasurementCount (id : bytes)
  | Request (q : request)
  | Worker.

Section System.
Context {E : KernelEnv}.

Definition run_entry (e : entry) : K unit :=
  match e with
  | Measure r => bpfima_measurement_extend (Some r) SIZEOF_MEASUREMENT_REQUEST;; ret tt
  | GetOrCreate id => bpfima_container_get_or_create (Some id) (Z.of_nat (length id));; ret tt
  | ContainerExists id => bpfima_container_exists (Some id) (Z.of_nat (length id));; ret tt
  | LeafHash id buf =>
      bpfima_container_get_leaf_hash (Some id) (Z.of_nat (length id)) (Some buf) (Z.of_nat MERKLE_HASH_SIZE);; ret tt
  | PcrValue buf size => bpfima_tpm_get_pcr_value (Some buf) size;; ret tt
  | BindMap fd => bpfima_policy_bind_map fd;; ret tt
  | Apply q => bpfima_policy_apply (Some q);; ret tt
  | UpdateField id field value => bpfima_policy_update_field id (Some field) value;; ret tt
  | Resolve context => bpfima_policy_resolve_context context;; ret tt
  | MeasurementCount id => bpfima_container_get_measurement_count (Some id) (Z.of_nat (length id));; ret tt
  | Request q => run_request q;; ret tt
  | Worker => run_cleanup_wq
  end.

(** What the types of the arguments and the kernel guarantee: sizes of the
    arrays, widths of the integers, and that a descriptor that resolves gives
    a live map. *)
Definition entry_ok (e : entry) (s : kstate) : Prop :=
  match e with
  | Measure r => wf_measurement r
  | BindMap fd => fd_ok fd s
  | Apply q => wf_request q
  | UpdateField _ _ value => is_u32 value
  | Request q => request_ok q s
  | _ => True
  end.

(** A run: the mutexes make each entry point one step. *)
Inductive steps : kstate -> list entry -> kstate -> Prop :=
  | steps_nil s : steps s [] s
  | steps_cons s e s1 es s2 :
      entry_ok e s -> run_entry e s = Some (tt, s1) -> steps s1 es s2 -> steps s (e :: es) s2.

(** The invariant of the whole module, with [vs] committed so far. *)
Definition sys_inv (pcr : bytes) (vs : list bytes) (s : kstate) : Prop :=
  module_inv pcr vs [] (globals s) s /\ policy_inv s.

(** The same while others hold references on the containers [held]. *)
Definition sys_inv_with (held : list nat) (pcr : bytes) (vs : list bytes) (s : kstate) : Prop :=
  module_inv pcr vs held (globals s) s /\ policy_inv s.

Context {L : KernelLaws E}.

Lemma nothing_held : held_bound [].
Proof. unfold held_bound. cbn. unfold INT_MAX. lia. Qed.

Lemma globals_same s s' : dentry_of (k_securityfs s') = dentry_of (k_securityfs s) -> globals s' = globals s.
Proof. intros H. unfold globals. by rewrite H. Qed.

(** ** The measurement side *)

Lemma sys_keeps_with {A} (m : K A) held pcr vs s :
  keeps m -> sys_inv_with held pcr vs s ->
  wp m (fun _ s' => exists ws, module_inv pcr (vs ++ ws) held (globals s) s') s ->
  wp (m;; ret tt) (fun _ s' => exists ws, sys_inv_with held pcr (vs ++ ws) s') s.
Proof.
  intros Hk [_ Hp] Hw. apply wp_bind. eapply wp_mono; [exact (wp_keeps _ _ _ Hk Hw)|].
  intros a s' [(Hpol & Hd & _) [ws Hm]]. apply wp_ret. exists ws. split.
  - by rewrite (globals_same s s').
  - unfold policy_inv. by rewrite Hpol.
Qed.

(** A container operation that leaves the log as it was. *)
Lemma sys_same_with {A} (m : K A) held pcr vs s Q :
  keeps m -> sys_inv_with held pcr vs s ->
  (wp m (fun a s' => module_inv pcr vs held (globals s) s' /\ Q a s') s) ->
  wp (m;; ret tt) (fun _ s' => exists ws, sys_inv_with held pcr (vs ++ ws) s') s.
Proof.
  intros Hk Hi Hw. apply sys_keeps_with; [done|done|]. eapply wp_mono; [exact Hw|].
  intros a s' [Hm _]. exists []. by rewrite app_nil_r.
Qed.

Lemma worker_inv_with held pcr vs s :
  sys_inv_with held pcr vs s -> wp run_cleanup_wq (fun _ s' => sys_inv_with held pcr vs s') s.
Proof.
  intros [Hm Hp]. eapply (wp_run_cleanup held); [apply Hm|]. intros ns cs Hi Hl Hq Hc Hh.
  pose proof (mi_containers _ _ _ _ _ Hm) as Hi0. split; [|exact Hp].
  eapply (module_inv_outside pcr vs held held _ s); [done|exact Hm|exact Hi|..].
  - pose proof (mi_counted _ _ _ _ _ Hm) as Hk. unfold counted in *. cbn. by rewrite Hc, Hl.
  - pose proof (mi_dentries _ _ _ _ _ Hm) as Hd. unfold dentries_inv, published_dentries in *. cbn.
    rewrite Hl. erewrite flat_map_eq; [exact Hd|]. apply Forall_forall. intros c Hc'.
    unfold dentries_at. rewrite Hh. destruct (container_heap (k_containers s) !! c) as [n|] eqn:En; [|done].
    rewrite (ci_refcnt _ _ Hi0 c n En).
    pose proof (refs_pos (container_list (k_containers s)) held c) as Hpos.
    specialize (Hpos ltac:(apply elem_of_app; by left)). by destruct (Z.eqb_spec (refs (container_list (k_containers s)) held c) 0); [lia|].
  - intros c n' Hn'. cbn in Hn'. rewrite Hh in Hn'. right.
    destruct (container_heap (k_containers s) !! c) as [n|]; [|done]. exists n. destruct (_ =? 0); [done|]. by injection Hn' as ->.
Qed.

(** ** The policy side *)

Lemma sys_moved_with held pcr vs s rc s' :
  sys_inv_with held pcr vs s -> moved s rc s' -> policy_inv s' -> exists ws, sys_inv_with held pcr (vs ++ ws) s'.
Proof.
  intros [[M1 M2 M3 M4 M5 M6 M7 M8 M9] _] (ws & Hmv & _) Hp. exists ws.
  destruct (moves_frame _ _ _ Hmv) as (Hc & Hf & Hh). split; [|done].
  split; rewrite ?Hc, ?Hf, ?Hh; [by eapply log_inv_moves|done|done| |by apply policy_inv_bound|done|done|by apply leaves_logged_app|unfold seen; by rewrite Hh].
  unfold dentries_inv, globals. by rewrite Hc, Hf.
Qed.

Lemma sys_policy_with (m : K Z) held pcr vs s :
  sys_inv_with held pcr vs s -> wp m (fun rc s' => moved s rc s' /\ policy_inv s') s ->
  wp (m;; ret tt) (fun _ s' => exists ws, sys_inv_with held pcr (vs ++ ws) s') s.
Proof.
  intros Hi Hw. apply wp_bind. eapply wp_mono; [exact Hw|]. intros rc s' [Hmv Hp].
  apply wp_ret. by eapply sys_moved_with.
Qed.

Lemma sys_hash_ready_with held pcr vs s : sys_inv_with held pcr vs s -> hash_ready s /\ bpfima_commit_error (k_commit s) <= 0.
Proof. intros [Hm _]. split; [exact (mi_tfm _ _ _ _ _ Hm)|apply (li_error _ _ _ (mi_log _ _ _ _ _ Hm))]. Qed.

Lemma bind_moved_with held pcr vs fd s :
  sys_inv_with held pcr vs s -> fd_ok fd s ->
  wp (bpfima_policy_bind_map fd) (fun rc s' => moved s rc s' /\ policy_inv s') s.
Proof. intros Hi Hfd. destruct (sys_hash_ready_with _ _ _ _ Hi) as [Hr He]. by apply bind_map_moved; [apply Hi|..]. Qed.

(** Reading the PCR may latch an error and does nothing else. *)
Lemma pcr_value_inv_with held pcr vs buf size s :
  sys_inv_with held pcr vs s ->
  wp (bpfima_tpm_get_pcr_value (Some buf) size) (fun rc s' => module_inv pcr vs held (globals s) s' /\ True) s.
Proof.
  intros [Hm _].
  assert (Hnext : forall n, module_inv pcr vs held (globals s) (set_next n s) /\ True)
    by (intros n; split; [by apply module_inv_next|done]).
  assert (Herr : forall e n, e < 0 -> module_inv pcr vs held (globals s) (set_next n (set_error e s)) /\ True)
    by (intros e n He; split; [by apply module_inv_error|done]).
  pose proof (li_error _ _ _ (mi_log _ _ _ _ _ Hm)) as Hle.
  unfold bpfima_tpm_get_pcr_value. apply wp_bind, wp_can_sleep. intros sleep m.
  destruct (size <? _); [by apply wp_ret, Hnext|]. destruct (negb sleep); [by apply wp_ret, Hnext|].
  apply wp_bind, wp_commit_check.
  { intros e n He Hcase _. apply truth_true in He as Ht. rewrite Ht. apply wp_ret.
    apply (Herr e n). cbn in Hcase. lia. }
  intros n H0. cbn [truth Z.eqb negb]. apply wp_bind, wp_default_chip. intros [banks|] n1; rewrite ?set_next_set_next.
  - apply wp_bind, wp_gets. destruct (negb _).
    { apply wp_bind, wp_commit_fail; [done|done|]. by apply wp_ret, (Herr _ n1). }
    unfold tpm_pcr_read. apply wp_bind, wp_bind, wp_call, wp_bind, wp_gets, wp_ret.
    destruct (negb _); apply wp_ret; rewrite set_next_set_next; apply Hnext.
  - apply wp_bind, wp_gets. destruct (hardware_anchored _); [|by apply wp_ret, Hnext].
    apply wp_bind, wp_commit_fail; [done|done|]. by apply wp_ret, (Herr _ n1).
Qed.

(** ** One step and any run *)

Lemma entry_step_with held pcr vs e s :
  sys_inv_with held pcr vs s -> held_bound held -> entry_ok e s ->
  wp (run_entry e) (fun _ s' => exists ws, sys_inv_with held pcr (vs ++ ws) s') s.
Proof.
  intros Hi Hb Hok. pose proof Hi as [Hm Hp].
  destruct (sys_hash_ready_with _ _ _ _ Hi) as [Hr He].
  destruct e as [r|id|id|id buf|buf size|fd|q|id field value|context|id|q|]; cbn [run_entry entry_ok] in *.
  - apply sys_keeps_with; [apply keeps_measurement|done|].
    eapply wp_mono; [by apply (wp_measurement_extend pcr vs held (globals s))|].
    intros rc s' (_ & _ & Hfail & Hdone). destruct (decide (rc = 0)) as [->|Hne].
    + destruct (Hdone eq_refl) as [(_ & Hm' & _)|(_ & _ & _ & leaf & Hm')]; [|eauto].
      exists []. by rewrite app_nil_r.
    + destruct (Hfail Hne) as [Hm' _]. exists []. by rewrite app_nil_r.
  - eapply sys_same_with; [apply keeps_get_or_create|done|]. by apply wp_get_or_create.
  - eapply sys_same_with; [apply keeps_exists|done|]. by apply wp_exists.
  - eapply sys_same_with; [apply keeps_leaf_hash|done|]. by apply wp_leaf_hash.
  - eapply sys_same_with; [apply keeps_pcr_value|done|]. by apply pcr_value_inv_with.
  - apply sys_policy_with; [done|]. by eapply bind_moved_with.
  - apply sys_policy_with; [done|]. by apply policy_apply_moved.
  - apply sys_policy_with; [done|]. by apply update_field_moved.
  - apply wp_bind. eapply wp_mono; [by apply resolve_reads|]. intros r s' ->. apply wp_ret.
    exists []. by rewrite app_nil_r.
  - eapply sys_same_with; [apply keeps_measurement_count|done|]. by apply wp_measurement_count.
  - apply sys_policy_with; [done|]. by apply request_moved.
  - eapply wp_mono; [by apply worker_inv_with|]. intros [] s' H. exists []. by rewrite app_nil_r.
Qed.

(** Without references from outside. *)
Lemma worker_inv pcr vs s :
  sys_inv pcr vs s -> wp run_cleanup_wq (fun _ s' => sys_inv pcr vs s') s.
Proof. exact (worker_inv_with [] pcr vs s). Qed.

Lemma sys_moved pcr vs s rc s' :
  sys_inv pcr vs s -> moved s rc s' -> policy_inv s' -> exists ws, sys_inv pcr (vs ++ ws) s'.
Proof. exact (sys_moved_with [] pcr vs s rc s'). Qed.

Lemma sys_hash_ready pcr vs s : sys_inv pcr vs s -> hash_ready s /\ bpfima_commit_error (k_commit s) <= 0.
Proof. exact (sys_hash_ready_with [] pcr vs s). Qed.

Lemma bind_moved pcr vs fd s :
  sys_inv pcr vs s -> fd_ok fd s ->
  wp (bpfima_policy_bind_map fd) (fun rc s' => moved s rc s' /\ policy_inv s') s.
Proof. exact (bind_moved_with [] pcr vs fd s). Qed.

Lemma pcr_value_inv pcr vs buf size s :
  sys_inv pcr vs s ->
  wp (bpfima_tpm_get_pcr_value (Some buf) size) (fun rc s' => module_inv pcr vs [] (globals s) s' /\ True) s.
Proof. exact (pcr_value_inv_with [] pcr vs buf size s). Qed.

Lemma entry_step pcr vs e s :
  sys_inv pcr vs s -> entry_ok e s ->
  wp (run_entry e) (fun _ s' => exists ws, sys_inv pcr (vs ++ ws) s') s.
Proof. intros Hi. exact (entry_step_with [] pcr vs e s Hi nothing_held). Qed.

(** No entry point forgets a digest. *)
Lemma keeps_grows {A} (m : K A) Q s :
  keeps m -> wp m Q s -> wp (m;; ret tt) (fun _ s' => seen s ⊆ seen s') s.
Proof.
  intros Hk Hw. apply wp_bind. eapply wp_mono; [exact (wp_keeps _ _ _ Hk Hw)|].
  intros a s' [(_ & _ & Hg) _]. by apply wp_ret.
Qed.

Lemma moved_grows (m : K Z) s :
  wp m (fun rc s' => moved s rc s' /\ policy_inv s') s -> wp (m;; ret tt) (fun _ s' => seen s ⊆ seen s') s.
Proof.
  intros Hw. apply wp_bind. eapply wp_mono; [exact Hw|]. intros rc s' [(ws & Hmv & _) _]. apply wp_ret.
  destruct (moves_frame _ _ _ Hmv) as (_ & _ & Hh). unfold seen. by rewrite Hh.
Qed.

Lemma entry_grows_with held pcr vs e s :
  sys_inv_with held pcr vs s -> held_bound held -> entry_ok e s -> wp (run_entry e) (fun _ s' => seen s ⊆ seen s') s.
Proof.
  intros Hi Hb Hok. pose proof Hi as [Hm Hp].
  destruct (sys_hash_ready_with _ _ _ _ Hi) as [Hr He].
  destruct e as [r|id|id|id buf|buf size|fd|q|id field value|context|id|q|]; cbn [run_entry entry_ok] in *.
  - eapply keeps_grows; [apply keeps_measurement|]. by apply (wp_measurement_extend pcr vs held (globals s)).
  - eapply keeps_grows; [apply keeps_get_or_create|]. by apply (wp_get_or_create pcr vs held (globals s)).
  - eapply keeps_grows; [apply keeps_exists|]. by apply (wp_exists pcr vs held (globals s)).
  - eapply keeps_grows; [apply keeps_leaf_hash|]. by apply (wp_leaf_hash pcr vs held (globals s)).
  - eapply keeps_grows; [apply keeps_pcr_value|]. by apply (pcr_value_inv_with held pcr vs).
  - apply moved_grows. by eapply bind_moved_with.
  - apply moved_grows. by apply policy_apply_moved.
  - apply moved_grows. by apply update_field_moved.
  - apply wp_bind. eapply wp_mono; [by apply resolve_reads|]. intros r s' ->. by apply wp_ret.
  - eapply keeps_grows; [apply keeps_measurement_count|]. by apply (wp_measurement_count pcr vs held (globals s)).
  - apply moved_grows. by apply request_moved.
  - eapply wp_mono; [exact (wp_keeps _ _ _ keeps_worker (worker_inv_with held pcr vs s Hi))|]. by intros [] s' [(_ & _ & Hg) _].
Qed.

Lemma entry_grows pcr vs e s :
  sys_inv pcr vs s -> entry_ok e s -> wp (run_entry e) (fun _ s' => seen s ⊆ seen s') s.
Proof. intros Hi. exact (entry_grows_with [] pcr vs e s Hi nothing_held). Qed.

(** Both together. *)
Lemma entry_step_grows pcr vs e s :
  sys_inv pcr vs s -> entry_ok e s ->
  wp (run_entry e) (fun _ s' => (exists ws, sys_inv pcr (vs ++ ws) s') /\ seen s ⊆ seen s') s.
Proof.
  intros Hi Hok. pose proof (entry_step pcr vs e s Hi Hok) as H1. pose proof (entry_grows pcr vs e s Hi Hok) as H2.
  unfold wp in *. by destruct (run_entry e s) as [[[] s']|].
Qed.

Lemma steps_inv pcr vs s es s' :
  sys_inv pcr vs s -> steps s es s' -> (exists ws, sys_inv pcr (vs ++ ws) s') /\ seen s ⊆ seen s'.
Proof.
  intros Hi Hs. revert vs Hi. induction Hs as [s|s e s1 es s2 Hok Hrun _ IH]; intros vs Hi.
  - split; [|done]. exists []. by rewrite app_nil_r.
  - pose proof (entry_step_grows pcr vs e s Hi Hok) as Hw. unfold wp in Hw. rewrite Hrun in Hw.
    destruct Hw as [[ws1 Hi1] Hg]. destruct (IH _ Hi1) as [[ws2 Hi2] Hg2]. split; [|by etrans].
    exists (ws1 ++ ws2). by rewrite app_assoc.
Qed.

Lemma started_inv pcr maps s : started pcr maps s -> sys_inv pcr [] s.
Proof.
  intros Hs. split; [apply Hs|]. intros map Hmap. by rewrite (st_policy _ _ _ Hs) in Hmap.
Qed.

(** C1: Every run of the module is safe. From any state that satisfies the
    invariant, after any sequence of entry points in any order (all kfuncs,
    the handlers of all files with any bytes written to them, and the
    worker), whatever the kernel services answered: the log only grew and no
    recorded digest was forgotten, the log's root is the replay of
    all committed values, the PCR is anchored to it unless an error is
    latched, containers, reference counts, securityfs entries and the policy
    store are consistent, and no entry point called next can fault. *)
Theorem every_run_safe pcr vs s es s' :
  sys_inv pcr vs s -> steps s es s' ->
  (exists ws, sys_inv pcr (vs ++ ws) s') /\ seen s ⊆ seen s' /\
  (forall e, entry_ok e s' -> exists s'', run_entry e s' = Some (tt, s'')).
Proof.
  intros Hi Hs. destruct (steps_inv _ _ _ _ _ Hi Hs) as [[ws Hi'] Hg]. split; [by exists ws|]. split; [done|].
  intros e Hok. pose proof (entry_step _ _ _ _ Hi' Hok) as Hw. unfold wp in Hw.
  destruct (run_entry e s') as [[[] s'']|]; [by exists s''|done].
Qed.

(** C34: The life of the module. If loading succeeds, then after any sequence of
    entry points unloading does not fault and releases everything: no
    securityfs entry, no container node, no namespace record, no digest and
    no reference on the policy map is left. *)
Theorem module_life next pcr maps s es s' :
  bpfima_init (loaded_state next pcr maps) = Some (0, s) -> steps s es s' ->
  wp bpfima_exit (fun _ s'' => unloaded s' s'') s'.
Proof.
  intros Hinit Hs. pose proof (wp_init next pcr maps) as Hw. unfold wp in Hw. rewrite Hinit in Hw.
  destruct Hw as [Hst _]. destruct (steps_inv pcr [] s es s') as [[ws [Hm _]] _]; [by eapply started_inv, Hst|done|].
  by eapply wp_exit.
Qed.
End System.

(** ** Witnesses *)

Lemma sample_sys_inv : sys_inv (E := tpm_env) (zeros MERKLE_HASH_SIZE) [] sample_state.
Proof. split; [rewrite sample_globals; apply sample_module_inv|]. intros map Hmap. discriminate Hmap. Qed.

(** With the policy map bound. *)
Lemma bound_sys_inv : sys_inv (E := tpm_env) (zeros MERKLE_HASH_SIZE) [] bound_state.
Proof.
  split; [|exact bound_state_inv]. destruct (proj1 sample_sys_inv) as [H1 H2 H3 H4 _ H6 H7 H8 H9].
  split; [by destruct H1; split|exact H2|exact H3|exact H4|by apply policy_inv_bound, bound_state_inv|exact H6|exact H7|exact H8|exact H9].
Qed.

(** Binding, a measurement, a policy request, an update, a lookup and a turn
    of the worker on the sample module. *)
Definition sample_run : list entry :=
  [BindMap 3; Measure sample_measurement; Apply default_request; UpdateField None (lit "log_level") 3;
   Resolve sample_context; ContainerExists (lit "default"); MeasurementCount (lit "default");
   Request (WriteGlobalPolicy (lit "log_level=2")); Request ShowStatus; Worker].

Lemma sample_run_ok e s : e ∈ tail sample_run -> entry_ok (E := tpm_env) e s.
Proof.
  intros He. cbn [tail sample_run] in He.
  repeat (apply elem_of_cons in He as [->|He];
    [first [done|apply sample_measurement_wf|apply default_request_wf|by vm_compute]|]).
  by apply not_elem_of_nil in He.
Qed.

Lemma sample_fd_ok : entry_ok (E := tpm_env) (BindMap 3) sample_state.
Proof. exists sample_map. by split. Qed.

Lemma steps_exist (E : KernelEnv) (L : KernelLaws E) pcr vs es s :
  sys_inv pcr vs s -> (forall e s, e ∈ es -> entry_ok e s) -> exists s', steps s es s'.
Proof.
  revert vs s. induction es as [|e es IH]; intros vs s Hi Hok; [by exists s; constructor|].
  pose proof (entry_step pcr vs e s Hi (Hok e s (list_elem_of_here _ _))) as Hw. unfold wp in Hw.
  destruct (run_entry e s) as [[[] s1]|] eqn:Er; [|done]. destruct Hw as [ws Hi1].
  destruct (IH _ _ Hi1) as [s' Hs']; [intros; apply Hok; by apply elem_of_cons; right|].
  exists s'. by eapply steps_cons; [apply Hok, elem_of_cons; left| |].
Qed.

Lemma steps_exist_after (E : KernelEnv) (L : KernelLaws E) pcr vs e es s :
  sys_inv pcr vs s -> entry_ok e s -> (forall e s, e ∈ es -> entry_ok e s) -> exists s', steps s (e :: es) s'.
Proof.
  intros Hi He Hok. pose proof (entry_step pcr vs e s Hi He) as Hw. unfold wp in Hw.
  destruct (run_entry e s) as [[[] s1]|] eqn:Er; [|done]. destruct Hw as [ws Hi1].
  destruct (steps_exist _ _ _ _ es _ Hi1 Hok) as [s' Hs']. exists s'. by eapply steps_cons.
Qed.

Lemma sample_run_exists : exists s', steps (E := tpm_env) sample_state sample_run s'.
Proof.
  exact (steps_exist_after tpm_env _ _ [] (BindMap 3) (tail sample_run) sample_state sample_sys_inv sample_fd_ok sample_run_ok).
Qed.

Lemma every_run_safe_witness :
  exists s' ws, steps (E := tpm_env) sample_state sample_run s' /\
    sys_inv (E := tpm_env) (zeros MERKLE_HASH_SIZE) ws s'.
Proof.
  destruct sample_run_exists as [s' Hs].
  destruct (every_run_safe (E := tpm_env) (zeros MERKLE_HASH_SIZE) [] sample_state sample_run s' sample_sys_inv Hs)
    as [[ws Hi] _].
  exists s', ws. split; [exact Hs|exact Hi].
Defined.

Lemma sample_init : exists s, bpfima_init (E := tpm_env) (loaded_state 0 (zeros MERKLE_HASH_SIZE) [sample_map]) = Some (0, s).
Proof.
  assert (H : fst <$> bpfima_init (E := tpm_env) (loaded_state 0 (zeros MERKLE_HASH_SIZE) [sample_map]) = Some 0)
    by by vm_compute.
  apply fmap_Some in H as ([rc s] & H & ->). by exists s.
Qed.

Lemma loaded_steps (E : KernelEnv) (L : KernelLaws E) next pcr maps es s :
  bpfima_init (loaded_state next pcr maps) = Some (0, s) ->
  (forall e s, e ∈ es -> entry_ok e s) -> exists s', steps s es s'.
Proof.
  intros Hs Hok. pose proof (wp_init next pcr maps) as Hw. unfold wp in Hw. rewrite Hs in Hw. destruct Hw as [Hst _].
  by apply (steps_exist E L pcr []); [eapply started_inv, Hst|].
Qed.

Lemma module_life_witness :
  exists s s' es, bpfima_init (E := tpm_env) (loaded_state 0 (zeros MERKLE_HASH_SIZE) [sample_map]) = Some (0, s) /\
    steps (E := tpm_env) s es s' /\ es = tail sample_run /\ wp bpfima_exit (fun _ s'' => unloaded s' s'') s'.
Proof.
  destruct sample_init as [s Hs].
  pose proof (loaded_steps tpm_env _ _ _ _ (tail sample_run) s Hs sample_run_ok) as Hr.
  destruct Hr as [s' Hr]. exists s, s', (tail sample_run). split; [exact Hs|]. split; [exact Hr|].
  split; [reflexivity|]. exact (module_life (E := tpm_env) 0 (zeros MERKLE_HASH_SIZE) [sample_map] s _ s' Hs Hr).
Defined.
