(* ===== verification/EntryFrame.v ===== *)
(** * Where the recorded measurements come from

    A small logic for what the operations do to the measurement lists:
    [yields I m R] says that [m] keeps the property [I] of the lists and that
    its result satisfies [R]. The measurement kfunc appends the entry of its
    request and nothing else changes a list, so after a run every entry of
    every list is the entry of a request of that run, and the list of a
    container that is published or referenced only grows. *)

From S2P Require Import Prelude CString Types Kernel Snapshot Wire KfuncBuffer HashUtils Tpm PolicyMap Merkle MerkleSpec MerkleInv PolicyNamespace PolicyManager PolicySpec PolicyInv PolicyLog PolicyBind PolicyAudit Container ContainerSpec ContainerRules ContainerInv Kfuncs KfuncsInv KfuncsSpec Lifecycle LifecycleSpec Requests Frame System.

(** A property of the lists: what holds of the identifier and the list at each
    address, for which addresses there is a node, which are published, and
    that a new node satisfies it. *)
Record list_inv := ListInv {
  ly_list : nat -> bytes -> list measurement_entry -> Prop;
  ly_live : nat -> Prop;
  ly_listed : nat -> Prop;
  ly_new : forall c id, ~ ly_live c -> ly_list c id [];
}.

(** Appending [e] to a list keeps the property. *)
Definition adds (I : list_inv) (e : measurement_entry) : Prop :=
  forall c id l, ly_list I c id l -> ly_list I c id (l ++ [e]).

Section Yields.
Variable I : list_inv.

Definition lists_ok (s : kstate) : Prop :=
  (forall c n, container_heap (k_containers s) !! c = Some n -> ly_list I c (cn_id n) (cn_measurement_list n)) /\
  (forall c, ly_live I c -> is_Some (container_heap (k_containers s) !! c)) /\
  (forall c, ly_listed I c -> c ∈ container_list (k_containers s)).

Definition yields {A} (m : K A) (R : A -> Prop) : Prop :=
  forall s, lists_ok s -> match m s with Some (a, s') => lists_ok s' /\ R a | None => True end.

Definition anything {A} (_ : A) : Prop := True.

Lemma yields_ret {A} (a : A) (R : A -> Prop) : R a -> yields (ret a) R.
Proof. intros H s Hs. done. Qed.

Lemma yields_bind {A B} (m : K A) (f : A -> K B) R R' :
  yields m R -> (forall a, R a -> yields (f a) R') -> yields (bind m f) R'.
Proof.
  intros Hm Hf s Hs. unfold bind. specialize (Hm s Hs). destruct (m s) as [[a s1]|]; [|done].
  destruct Hm as [Hs1 Ha]. exact (Hf a Ha s1 Hs1).
Qed.

Lemma yields_weak {A} (m : K A) R R' : yields m R -> (forall a, R a -> R' a) -> yields m R'.
Proof.
  intros Hm H s Hs. specialize (Hm s Hs). destruct (m s) as [[a s1]|]; [|done]. destruct Hm. auto.
Qed.

Lemma yields_gets {A} (f : kstate -> A) : yields (gets f) anything.
Proof. intros s Hs. done. Qed.

Lemma yields_fresh :
  yields (gets (fun s => fresh_addr (container_heap (k_containers s)))) (fun c => ~ ly_live I c).
Proof.
  intros s Hs. split; [done|]. intros H. destruct (proj1 (proj2 Hs) _ H) as [n Hn]. by rewrite fresh_addr_None in Hn.
Qed.

Lemma yields_modify f :
  (forall s, container_heap (k_containers (f s)) = container_heap (k_containers s) /\
     exists l, container_list (k_containers (f s)) = container_list (k_containers s) ++ l) -> yields (modify f) anything.
Proof.
  intros H s (Hl & Hk & Hp). destruct (H s) as [Hh [l Hc]]. split; [|done]. unfold lists_ok. rewrite Hh, Hc.
  split_and!; [done|done|]. intros c Hin. apply elem_of_app. left. by apply Hp.
Qed.

Lemma yields_deref {A} (o : option A) : yields (deref o) anything.
Proof. intros s Hs. by destruct o. Qed.

Lemma yields_fault {A} R : yields (@fault A) R.
Proof. intros s Hs. done. Qed.

Lemma yields_call : yields call anything.
Proof. intros s Hs. done. Qed.

Lemma yields_load c : yields (load_container c) (fun n => ly_list I c (cn_id n) (cn_measurement_list n)).
Proof.
  intros s Hs. unfold load_container, bind, gets.
  destruct (container_heap (k_containers s) !! c) as [n|] eqn:En; cbn; [|done]. split; [done|by apply (proj1 Hs)].
Qed.

Lemma yields_store c n : ly_list I c (cn_id n) (cn_measurement_list n) -> yields (store_container c n) anything.
Proof.
  intros Hn s (Hl & Hk & Hp). split; [|done]. split_and!; [| |done].
  - intros d m Hd. cbn in Hd. apply lookup_insert_Some in Hd as [[<- <-]|[_ Hd]]; [done|by apply Hl].
  - intros d Hd. cbn. rewrite lookup_insert_is_Some'. right. by apply Hk.
Qed.

Lemma yields_delete c :
  ~ ly_live I c -> yields (modify (fun s => set_heap (delete c (container_heap (k_containers s))) s)) anything.
Proof.
  intros Hc s (Hl & Hk & Hp). split; [|done]. split_and!; [| |done].
  - intros d m Hd. cbn in Hd. apply lookup_delete_Some in Hd as [_ Hd]. by apply Hl.
  - intros d Hd. cbn. rewrite lookup_delete_ne; [by apply Hk|]. by intros ->.
Qed.
End Yields.

Create HintDb yields.
#[export] Hint Resolve yields_gets yields_deref yields_fault yields_call yields_load yields_delete : yields.

(** Walk through the binds and the cases of a program; a node that is stored
    has the list of a node that was loaded, or one given by a hypothesis. *)
Ltac yield_step :=
  match goal with
  | |- forall _, _ => intros ?
  | |- yields _ (bind _ _) _ =>
      first [eapply yields_bind; [apply yields_fresh|] | eapply yields_bind; [solve [eauto 2 with yields]|] |
        apply (yields_bind _ _ _ anything)]
  | |- yields _ (ret _) _ => apply yields_ret; try done
  | |- yields _ (store_container _ _) _ =>
      first [eapply yields_weak; [apply yields_store|intros; exact Logic.I] | apply yields_store];
      first [assumption | by apply ly_new | idtac]
  | |- yields _ (modify _) anything => first [apply yields_delete; assumption | apply yields_modify; intros ?; (split; [done|]); first [by eexists|exists []; by rewrite app_nil_r]]
  | |- yields _ (match ?x with _ => _ end) _ => destruct x
  | |- yields _ (let _ := _ in _) _ => cbv zeta
  | |- yields _ _ _ => solve [auto 2 with yields]
  | |- yields _ _ anything => eapply yields_weak; [solve [eauto 2 with yields] | intros; exact Logic.I]
  | |- anything _ => exact Logic.I
  end.
Ltac yield := repeat yield_step.

Section Programs.
Context {E : KernelEnv}.
Variable I : list_inv.

(** ** Services and digests *)

Lemma yields_kalloc : yields I kalloc anything.
Proof. unfold kalloc. yield. Qed.
Lemma yields_can_sleep : yields I can_sleep anything.
Proof. unfold can_sleep. yield. Qed.
Lemma yields_shash_op : yields I shash_op anything.
Proof. unfold shash_op. yield. Qed.
Lemma yields_default_chip : yields I tpm_default_chip anything.
Proof. unfold tpm_default_chip. yield. Qed.
Lemma yields_pcr_extend digests : yields I (tpm_pcr_extend digests) anything.
Proof. unfold tpm_pcr_extend. yield. Qed.
Lemma yields_alloc_shash : yields I crypto_alloc_shash anything.
Proof. unfold crypto_alloc_shash. yield. Qed.
Lemma yields_fs_create : yields I securityfs_create anything.
Proof. unfold securityfs_create. yield. Qed.
Lemma yields_fs_remove d : yields I (securityfs_remove d) anything.
Proof. unfold securityfs_remove. yield. Qed.
#[local] Hint Resolve yields_kalloc yields_can_sleep yields_shash_op yields_default_chip yields_pcr_extend
  yields_alloc_shash yields_fs_create yields_fs_remove : yields.

Lemma yields_publish_hash e : yields I (bpfima_publish_hash_entry_locked e) anything.
Proof. unfold bpfima_publish_hash_entry_locked. yield. Qed.
Lemma yields_sha256 data len :
  yields I (calculate_sha256_hash data len) (fun r => forall h, r = inr h -> h = sha256 (take len data)).
Proof. unfold calculate_sha256_hash. yield; try done. destruct (_ =? 0); congruence. Qed.
Lemma yields_extend_hash tfm old new : yields I (bpfima_extend_hash tfm old new) anything.
Proof. unfold bpfima_extend_hash. yield. Qed.
Lemma yields_extend_tpm root name allowed : yields I (extend_tpm_pcr_with_root root name allowed) anything.
Proof. unfold extend_tpm_pcr_with_root, extend_tpm_pcr. yield. Qed.
#[local] Hint Resolve yields_publish_hash yields_sha256 yields_extend_hash yields_extend_tpm : yields.
Lemma yields_check : yields I bpfima_commit_check_locked anything.
Proof. unfold bpfima_commit_check_locked, bpfima_tpm_available. yield. Qed.
Lemma yields_fail e : yields I (bpfima_commit_fail_locked e) anything.
Proof. unfold bpfima_commit_fail_locked. yield. Qed.
Lemma yields_map_state map k : yields I (map_state map k) anything.
Proof. unfold map_state. yield. Qed.
Lemma yields_load_state r : yields I (load_state r) anything.
Proof. unfold load_state. yield. Qed.
#[local] Hint Resolve yields_check yields_fail yields_map_state yields_load_state : yields.

(** ** The log *)

Lemma yields_get_config : yields I bpfima_policy_get_config anything.
Proof. unfold bpfima_policy_get_config, active_state. yield. Qed.
Lemma yields_aggregate_loop entries v first count : yields I (aggregate_loop entries v first count) anything.
Proof. revert v first count. induction entries as [|e entries IH]; intros; cbn [aggregate_loop]; yield. Qed.
#[local] Hint Resolve yields_get_config yields_aggregate_loop : yields.
Lemma yields_aggregate entries : yields I (aggregate_merkle_entries entries) anything.
Proof. unfold aggregate_merkle_entries. yield. Qed.
#[local] Hint Resolve yields_aggregate : yields.
Lemma yields_trim_history n : yields I (trim_merkle_root_history_locked n) anything.
Proof. unfold trim_merkle_root_history_locked, get_merkle_root_history_count. yield. Qed.
#[local] Hint Resolve yields_trim_history : yields.
Lemma yields_trim src : yields I (bpfima_trim_history_locked src) anything.
Proof. unfold bpfima_trim_history_locked, get_merkle_root_history_count. yield. Qed.
#[local] Hint Resolve yields_trim : yields.

Lemma yields_commit_args c e v : yields I (commit_args_ok c e v) anything.
Proof. unfold commit_args_ok. yield. Qed.
Lemma yields_commit_hash c e d : yields I (commit_prepare_hash c e d) anything.
Proof. unfold commit_prepare_hash, hash_exists, bpfima_alloc_hash_entry. yield. Qed.
Lemma yields_commit_value c e v : yields I (commit_prepare_value c e v) anything.
Proof. unfold commit_prepare_value. yield. Qed.

(** The publication appends the entry to the container's list. *)
Lemma yields_commit_publish c e h v r :
  (forall x, e = Some x -> adds I x) -> yields I (commit_publish c e h v r) anything.
Proof.
  intros He. unfold commit_publish, bpfima_publish_history_entry_locked. yield.
  by apply He.
Qed.
#[local] Hint Resolve yields_commit_args yields_commit_hash yields_commit_value yields_commit_publish : yields.

Lemma yields_commit c e v src dedup :
  (forall x, e = Some x -> adds I x) -> yields I (commit_event_locked c e v src dedup) anything.
Proof.
  intros He. unfold commit_event_locked, bpfima_alloc_history_entry, bpfima_commit_hardware_allowed_locked. yield.
Qed.
#[local] Hint Resolve yields_commit : yields.

Lemma yields_create_entry name data deps d :
  (forall e x, name = Some e -> d = Some x -> adds I (new_entry e data deps x)) ->
  yields I (create_measurement_entry name data deps d) (fun r => forall e, r = Some e -> adds I e).
Proof.
  intros He. unfold create_measurement_entry. destruct name as [name|], d as [d|]; yield; try done.
  destruct a; simplify_eq. by apply He.
Qed.

Lemma yields_add_measurement c name data deps d :
  (forall e x, name = Some e -> d = Some x -> adds I (new_entry e data deps x)) ->
  yields I (add_container_measurement c name data deps d) anything.
Proof.
  intros He%yields_create_entry. unfold add_container_measurement, bpfima_commit_measurement_locked, hash_exists.
  destruct c as [c|], name as [name|], d as [d|]; yield.
Qed.
End Programs.

(** ** Containers *)

Section Containers.
Context {E : KernelEnv} {L : KernelLaws E}.
Variable I : list_inv.

#[local] Hint Resolve yields_kalloc yields_can_sleep yields_shash_op yields_default_chip yields_pcr_extend
  yields_alloc_shash yields_fs_create yields_fs_remove yields_check yields_fail : yields.

Lemma yields_find id : yields I (find_container_by_id_rcu id) anything.
Proof.
  unfold find_container_by_id_rcu. yield.
  match goal with |- yields I (find_in ?l ?id) _ => induction l as [|c l IH]; cbn [find_in]; yield end.
Qed.
Lemma yields_put c : yields I (bpfima_put_container c) anything.
Proof. unfold bpfima_put_container, queue_rcu_work. yield. Qed.
#[local] Hint Resolve yields_find yields_put : yields.

Lemma yields_policy_files id dir :
  yields I (create_namespace_policy_securityfs id dir) anything /\
  yields I (create_namespace_policy_changes_securityfs id dir) anything.
Proof.
  unfold create_namespace_policy_securityfs, create_namespace_policy_changes_securityfs. split; yield.
Qed.
Lemma yields_container_files c : yields I (create_container_securityfs c) anything.
Proof. unfold create_container_securityfs. yield; try apply yields_policy_files. Qed.
Lemma yields_remove_files c : yields I (remove_container_securityfs c) anything.
Proof.
  unfold remove_container_securityfs, remove_namespace_policy_changes_securityfs,
    remove_namespace_policy_securityfs. yield.
Qed.
Lemma yields_namespace id : yields I (bpfima_policy_namespace_get_or_create id) anything.
Proof.
  unfold bpfima_policy_namespace_get_or_create, bpfima_policy_namespace_get_locked, find_policy_namespace. yield.
Qed.
#[local] Hint Resolve yields_container_files yields_remove_files yields_namespace : yields.
Lemma yields_create id : yields I (create_container_node id) anything.
Proof.
  unfold create_container_node, create_container_node_locked, find_container_by_id, kfree_node. yield.
Qed.
#[local] Hint Resolve yields_create : yields.

(** ** The kfuncs *)

(** The entry that a request records. *)
Definition entry_of (r : bpfima_measurement_request) : measurement_entry :=
  new_entry (mr_event_name r) (Some (mr_additional_data (terminate_data r))) (Some (mr_dependencies r))
    (sha256 (measurement_payload r)).

Lemma yields_measurement r :
  wf_measurement r -> (measurement_valid r -> adds I (entry_of r)) ->
  yields I (bpfima_measurement_extend (Some r) SIZEOF_MEASUREMENT_REQUEST) anything.
Proof.
  intros Hwf Hr. unfold bpfima_measurement_extend.
  destruct (prepare_cases r (uninit (BPFIMA_EVENT_DATA_SIZE + BPFIMA_DEPENDENCIES_SIZE)) Hwf)
    as [Hok Hbad]; [by rewrite uninit_length|].
  destruct (decide (measurement_checked r = true /\ measurement_payload r <> [])) as [[Hc Hne]|Hnot].
  2:{ rewrite measurement_checked_spec in Hnot by done. rewrite Hbad by done. by apply yields_ret. }
  apply measurement_checked_spec in Hc as Hv; [|done]. specialize (Hr Hv).
  destruct Hok as (buf & -> & Htake & _ & _); [done|]. rewrite Nat2Z.id.
  eapply yields_bind; [apply yields_sha256|]. intros [e|h] Hh; [by apply yields_ret|].
  specialize (Hh h eq_refl). rewrite Htake in Hh. subst h.
  unfold measurement_container, bpfima_commit_get_error, find_container_by_id. yield.
  apply yields_add_measurement. by intros e x [= <-] [= <-].
Qed.
Lemma yields_get_or_create id sz : yields I (bpfima_container_get_or_create id sz) anything.
Proof. unfold bpfima_container_get_or_create, find_container_by_id. yield. Qed.
Lemma yields_exists id sz : yields I (bpfima_container_exists id sz) anything.
Proof. unfold bpfima_container_exists. yield. Qed.
Lemma yields_measurement_count id sz : yields I (bpfima_container_get_measurement_count id sz) anything.
Proof. unfold bpfima_container_get_measurement_count. yield. Qed.
Lemma yields_leaf_hash id sz buf bsz : yields I (bpfima_container_get_leaf_hash id sz buf bsz) anything.
Proof. unfold bpfima_container_get_leaf_hash. yield. Qed.
Lemma yields_pcr_value buf sz : yields I (bpfima_tpm_get_pcr_value buf sz) anything.
Proof.
  unfold bpfima_tpm_get_pcr_value, bpfima_commit_requires_hardware_locked,
    bpfima_commit_hardware_allowed_locked, tpm_pcr_read. yield.
Qed.
End Containers.

(** ** Runs *)

(** Every entry of every list satisfies [P]. *)
Definition all_entries (P : measurement_entry -> Prop) : list_inv :=
  ListInv (fun _ _ l => Forall P l) (fun _ => False) (fun _ => False) (fun _ _ _ => Forall_nil_2 P).

Abbreviation entries_of P := (lists_ok (all_entries P)).

Section Runs.
Context {E : KernelEnv} {L : KernelLaws E}.
Variable I : list_inv.

(** The entry of every measurement of the call may be appended. *)
Definition call_yields (e : entry) : Prop :=
  match e with Measure r => wf_measurement r -> measurement_valid r -> adds I (entry_of r) | _ => True end.

Lemma yields_unit {A} (m : K A) s s' :
  yields I m anything -> lists_ok I s -> (m;; ret tt) s = Some (tt, s') -> lists_ok I s'.
Proof.
  intros Hm Hs. unfold bind. specialize (Hm s Hs). destruct (m s) as [[a s1]|]; [|done].
  intros [= <-]. apply Hm.
Qed.

Lemma moved_entries (m : K Z) s s' :
  wp m (fun rc s' => moved s rc s' /\ policy_inv s') s -> lists_ok I s ->
  (m;; ret tt) s = Some (tt, s') -> lists_ok I s'.
Proof.
  intros Hw Hs. unfold wp, bind in *. destruct (m s) as [[rc s1]|]; [|done].
  destruct Hw as [(ws & Hmv & _) _]. intros [= <-]. destruct (moves_frame _ _ _ Hmv) as (Hc & _ & _).
  unfold lists_ok. by rewrite Hc.
Qed.

(** The worker frees unreferenced nodes only. *)
Lemma worker_lists held pcr vs s s' :
  sys_inv_with held pcr vs s -> (forall c, ly_live I c -> c ∈ container_list (k_containers s) ++ held) ->
  lists_ok I s -> run_cleanup_wq s = Some (tt, s') -> lists_ok I s'.
Proof.
  intros [Hm _] Hlive (Hl & Hk & Hp) Hrun. pose proof (mi_containers _ _ _ _ _ Hm) as Hi.
  assert (Hw : wp run_cleanup_wq (fun _ s' => lists_ok I s') s); [|unfold wp in Hw; by rewrite Hrun in Hw].
  eapply (wp_run_cleanup held); [exact Hi|]. intros ns cs _ Hls _ _ Hh. split_and!; cbn; [| |by rewrite Hls].
  - intros c n Hn. rewrite Hh in Hn. destruct (container_heap (k_containers s) !! c) as [m|] eqn:Em; [|done].
    destruct (_ =? 0); [done|]. injection Hn as <-. by apply Hl.
  - intros c Hc. destruct (Hk c Hc) as [n Hn]. rewrite Hh, Hn, (ci_refcnt _ _ Hi c n Hn).
    pose proof (refs_pos _ _ _ (Hlive c Hc)). destruct (Z.eqb_spec (refs (container_list (k_containers s)) held c) 0); [lia|done].
Qed.

Lemma entry_entries held pcr vs e s s' :
  sys_inv_with held pcr vs s -> (forall c, ly_live I c -> c ∈ container_list (k_containers s) ++ held) ->
  entry_ok e s -> call_yields e -> lists_ok I s -> run_entry e s = Some (tt, s') -> lists_ok I s'.
Proof.
  intros Hi Hlive Hok He Hs. pose proof Hi as [Hm Hp]. destruct (sys_hash_ready_with _ _ _ _ Hi) as [Hr Herr].
  destruct e as [r|id|id|id buf|buf size|fd|q|id field value|context|id|q|]; cbn [run_entry entry_ok call_yields] in *.
  - apply yields_unit; [apply yields_measurement; [done|by apply He]|done].
  - apply yields_unit; [by apply yields_get_or_create|done].
  - apply yields_unit; [by apply yields_exists|done].
  - apply yields_unit; [by apply yields_leaf_hash|done].
  - apply yields_unit; [by apply yields_pcr_value|done].
  - apply moved_entries; [by eapply bind_moved_with|done].
  - apply moved_entries; [by apply policy_apply_moved|done].
  - apply moved_entries; [by apply update_field_moved|done].
  - pose proof (resolve_reads context s Hp) as Hw. unfold wp, bind in *.
    destruct (bpfima_policy_resolve_context context s) as [[a s1]|]; [|done]. subst s1. by intros [= <-].
  - apply yields_unit; [by apply yields_measurement_count|done].
  - apply moved_entries; [by apply request_moved|done].
  - by eapply worker_lists.
Qed.
End Runs.

Section Entries.
Context {E : KernelEnv} {L : KernelLaws E}.

(** After a run, every recorded entry was there before or is the entry of a
    request of the run. *)
Lemma steps_entries P pcr vs s es s' :
  sys_inv pcr vs s -> steps s es s' -> Forall (call_yields (all_entries P)) es -> entries_of P s -> entries_of P s'.
Proof.
  intros Hi Hs. revert vs Hi. induction Hs as [s|s e s1 es s2 Hok Hrun _ IH]; intros vs Hi Hes H0; [done|].
  apply Forall_cons in Hes as [He Hes].
  pose proof (entry_step pcr vs e s Hi Hok) as Hw. unfold wp in Hw. rewrite Hrun in Hw. destruct Hw as [ws Hi1].
  exact (IH _ Hi1 Hes (entry_entries (all_entries P) [] pcr vs e s s1 Hi (fun _ H => False_ind _ H) Hok He H0 Hrun)).
Qed.
End Entries.
