(* ===== verification/OpenFiles.v ===== *)
(** * The policy files from the outside

    The [file_operations] of the status, policy and change files, and what a
    process that writes a policy file and reads it back finds there: the text
    of the show handlers, taken apart line by line, against the line that was
    written. *)

From S2P Require Import Prelude CString Types Kernel Sample Pattern Snapshot Wire KfuncBuffer HashUtils Tpm PolicyMap Merkle MerkleSpec MerkleInv PolicyNamespace PolicyManager PolicySpec PolicyInv PolicyLog PolicyBind PolicyAudit Container ContainerSpec ContainerRules ContainerInv Kfuncs KfuncsInv KfuncsSpec Lifecycle LifecycleSpec PolicyFiles PolicyFilesSpec LogFiles Requests Frame System.

(** ** The files *)

(** The files other than the two lists; those of a namespace have its
    identifier as [i_private]. *)
Inductive text_file :=
  | StatusFile
  | GlobalPolicyFile
  | GlobalPolicyChangesFile
  | PolicyMapFile
  | PolicyApplyFile
  | PolicyFile (i_private : option bytes)
  | PolicyChangesFile (i_private : option bytes).

(** The handler that [open] gives to [single_open], none for a file that is
    only written, and the handler of [write]. *)
Record file_operations := FileOperations {
  fop_show : option (K (Z * bytes));
  fop_write : option (bytes -> K Z);
}.

(** ** Bits *)

Lemma lor_subset a b : bits_subset a b -> Z.lor a b = b.
Proof.
  intros H. apply Z.bits_inj'. intros n Hn. rewrite Z.lor_spec. destruct (Z.testbit a n) eqn:Eb; [|done]. by rewrite (H n Hn Eb).
Qed.

Lemma land_subset a b : bits_subset b a -> Z.land a b = b.
Proof.
  intros H. apply Z.bits_inj'. intros n Hn. rewrite Z.land_spec. destruct (Z.testbit b n) eqn:Eb; [|by rewrite andb_false_r].
  by rewrite (H n Hn Eb).
Qed.

Lemma lor_bool a b : 0 <= a <= b -> b <= 1 -> Z.lor a b = b.
Proof. intros Ha Hb. assert (a = 0 \/ a = 1) as [->| ->] by lia; assert (b = 0 \/ b = 1) as [->| ->] by lia; done || lia. Qed.

(** ** The lines of a text *)

Fixpoint lines (text : bytes) : list bytes :=
  match text with
  | [] => []
  | b :: rest =>
      if Byte.eqb b x0a then [] :: lines rest else
      match lines rest with [] => [[b]] | line :: ls => (b :: line) :: ls end
  end.

(** What follows the key and the equals sign. *)
Definition line_value (key line : bytes) : option bytes :=
  if bool_decide (take (S (length key)) line = key ++ [x3d]) then Some (drop (S (length key)) line) else None.

Fixpoint first_value (key : bytes) (ls : list bytes) : option bytes :=
  match ls with
  | [] => None
  | line :: ls => match line_value key line with Some v => Some v | None => first_value key ls end
  end.

(** The number that a text gives for a key. *)
Definition shown (key text : bytes) : option Z :=
  match kstrtou32 <$> first_value key (lines text) with Some (inr v) => Some v | _ => None end.

Lemma lines_app line rest : x0a ∉ line -> lines (line ++ x0a :: rest) = line :: lines rest.
Proof.
  induction line as [|b line IH]; intros Hn; [done|]. apply not_elem_of_cons in Hn as [Hb Hn]. cbn [app lines].
  destruct (byte_eqb_spec b x0a); [congruence|]. by rewrite IH.
Qed.

Lemma line_value_key key k v : x3d ∉ key -> x3d ∉ k -> line_value key (k ++ x3d :: v) = if decide (key = k) then Some v else None.
Proof.
  intros Hkey Hk. unfold line_value. case_decide as He.
  - subst k. replace (S (length key)) with (length (key ++ [x3d])) by (rewrite length_app; cbn; lia).
    rewrite (cons_middle x3d key v), app_assoc, take_app_length, drop_app_length. by rewrite bool_decide_true.
  - rewrite bool_decide_false; [done|]. intros Ht. destruct He.
    pose proof (take_drop (S (length key)) (k ++ x3d :: v)) as Hs. rewrite Ht, <- app_assoc in Hs.
    by apply split_first in Hs as [? _].
Qed.

(** Texts made of [key=value] lines. *)
Definition plain_line (kv : bytes * bytes) : Prop := (x3d ∉ kv.1) /\ (x0a ∉ kv.1) /\ x0a ∉ kv.2.

Definition text_of (kvs : list (bytes * bytes)) (rest : bytes) : bytes := foldr (fun kv t => key_value kv.1 kv.2 ++ t) rest kvs.

Fixpoint assoc {A} (key : bytes) (kvs : list (bytes * A)) : option A :=
  match kvs with [] => None | (k, v) :: kvs => if decide (key = k) then Some v else assoc key kvs end.

Lemma first_value_text key kvs rest v :
  x3d ∉ key -> Forall plain_line kvs -> assoc key kvs = Some v -> first_value key (lines (text_of kvs rest)) = Some v.
Proof.
  intros Hkey Hp. induction Hp as [|[k w] kvs (Hk & Hn & Hw) _ IH]; [done|]. cbn [assoc text_of foldr fst snd] in *.
  fold (text_of kvs rest). unfold key_value, NL. change (lit "=") with [x3d].
  assert (Hl : (k ++ [x3d] ++ w ++ [x0a]) ++ text_of kvs rest = (k ++ x3d :: w) ++ x0a :: text_of kvs rest)
    by (by rewrite <- !app_assoc).
  rewrite Hl, lines_app; [|rewrite not_elem_of_app, not_elem_of_cons; by split_and!].
  cbn [first_value]. rewrite line_value_key by done. by case_decide.
Qed.

(** ** The fields that a process can edit *)

Definition field_values (c : bpfima_policy_config) : list (bytes * Z) :=
  [(lit "enabled", cfg_enabled c); (lit "filter_flags", cfg_filter_flags c); (lit "action_flags", cfg_action_flags c);
   (lit "min_file_size", cfg_min_file_size c); (lit "log_level", cfg_log_level c)].

Definition editable : list bytes := (field_values zero_config).*1.

Definition field_value (key : bytes) (c : bpfima_policy_config) : option Z := assoc key (field_values c).

Lemma editable_cases (P : bytes -> Prop) : 
  P (lit "enabled") -> P (lit "filter_flags") -> P (lit "action_flags") -> P (lit "min_file_size") -> P (lit "log_level") ->
  forall key, key ∈ editable -> P key.
Proof. intros H1 H2 H3 H4 H5 key Hk. change editable with [lit "enabled"; lit "filter_flags"; lit "action_flags"; lit "min_file_size"; lit "log_level"] in Hk. set_solver. Qed.

(** An edit changes the named field and no other. *)
Lemma edit_field_value field v c c' :
  field_name field -> is_u32 v -> edit_field field v c = Some c' ->
  field ∈ editable /\ forall key, key ∈ editable -> field_value key c' = if decide (key = field) then Some v else field_value key c.
Proof.
  intros [_ Hn] [Hv _]. unfold edit_field. rewrite !strcmp_eqb, (cstr_id field Hn).
  change (cstr (lit "enabled")) with (lit "enabled"). change (cstr (lit "filter_flags")) with (lit "filter_flags").
  change (cstr (lit "action_flags")) with (lit "action_flags"). change (cstr (lit "min_file_size")) with (lit "min_file_size").
  change (cstr (lit "log_level")) with (lit "log_level").
  repeat (case_bool_decide; [subst field|]); try done;
    [destruct (Z.gtb_spec v 1) as [|Hle]; [done|]; rewrite (Z.mod_small v) by lia|..]; intros [= <-];
    (split; [apply (bool_decide_unpack _); by vm_compute|]); apply editable_cases; reflexivity.
Qed.

(** Both show handlers print the fields of a configuration. *)
Definition field_lines (c : bpfima_policy_config) (kvs : list (bytes * bytes)) : Prop :=
  Forall plain_line kvs /\
  forall key, key ∈ editable -> exists v text, field_value key c = Some v /\ value_text v text /\ assoc key kvs = Some text.

Lemma editable_plain key : key ∈ editable -> x3d ∉ key.
Proof. revert key. apply editable_cases; apply (bool_decide_unpack _); by vm_compute. Qed.

Lemma field_value_u32 c key : wf_config c -> key ∈ editable -> forall v, field_value key c = Some v -> is_u32 v.
Proof.
  intros (H1 & H2 & H3 & H4 & _ & H6 & _). revert key.
  assert (H1' : is_u32 (cfg_enabled c)) by (destruct H1; split; lia).
  apply (editable_cases (fun key => forall v, field_value key c = Some v -> is_u32 v)); by intros v [= <-].
Qed.

Lemma config_shown c kvs rest key :
  wf_config c -> field_lines c kvs -> key ∈ editable -> shown key (text_of kvs rest) = field_value key c.
Proof.
  intros Hw [Hp Hk] He. destruct (Hk key He) as (v & text & Hv & Ht & Ha). unfold shown.
  rewrite (first_value_text key kvs rest text (editable_plain key He) Hp Ha), Hv. cbn.
  by rewrite (value_text_parses v text (field_value_u32 c key Hw He v Hv) Ht).
Qed.

Section OpenFiles.
Context {E : KernelEnv}.

Definition status_fops : file_operations :=
  FileOperations (Some (let* text := status_show in ret (0, text))) None.
Definition policy_map_fops : file_operations := FileOperations None (Some policy_map_write).
Definition policy_apply_fops : file_operations := FileOperations None (Some policy_apply_write).
Definition global_policy_fops : file_operations := FileOperations (Some global_policy_show) (Some global_policy_write).
Definition global_policy_changes_fops : file_operations := FileOperations (Some global_policy_changes_show) None.
Definition policy_fops (i_private : option bytes) : file_operations :=
  FileOperations (Some (policy_show i_private)) (Some (policy_update_write i_private)).
Definition policy_changes_fops (i_private : option bytes) : file_operations :=
  FileOperations (Some (policy_changes_show i_private)) None.

Definition fops (f : text_file) : file_operations :=
  match f with
  | StatusFile => status_fops
  | GlobalPolicyFile => global_policy_fops
  | GlobalPolicyChangesFile => global_policy_changes_fops
  | PolicyMapFile => policy_map_fops
  | PolicyApplyFile => policy_apply_fops
  | PolicyFile id => policy_fops id
  | PolicyChangesFile id => policy_changes_fops id
  end.

(** [single_open] allocates the operations and the file; [nonseekable_open]
    does not fail. *)
Definition file_open (f : text_file) : K Z :=
  match fop_show (fops f) with
  | None => ret 0
  | Some _ =>
      let* ok := kalloc in
      if negb ok then ret (- ENOMEM) else
      let* ok := kalloc in ret (if ok then 0 else - ENOMEM)
  end.

(** Without a handler the file system answers [-EINVAL]. *)
Definition file_write (f : text_file) (buffer : bytes) : K Z :=
  match fop_write (fops f) with Some write => write buffer | None => ret (- EINVAL) end.

(** Open, and the text of the show handler; without one the file system answers
    [-EINVAL]. *)
Definition file_read (f : text_file) : K (Z * bytes) :=
  let* rc := file_open f in
  if rc <? 0 then ret (rc, []) else
  match fop_show (fops f) with Some show => show | None => ret (- EINVAL, []) end.

(** What a process can read in the state [s], for some answers of the kernel. *)
Definition shows (f : text_file) (text : bytes) (s : kstate) : Prop :=
  exists n s', file_read f (set_next n s) = Some ((0, text), s').

Context {L : KernelLaws E}.

(** ** What the readers of a policy see *)

(** The composed configuration of the root ([None]) or of a namespace. *)
Definition visible (st : bpfima_policy_state) (id : option bytes) : bpfima_policy_config :=
  bpfima_policy_merge_config (sn_config (rec_snapshot (record_at st 0)))
    (sn_config <$> match id with Some id => policies st !! cstr id | None => None end).

Definition id_ok (id : option bytes) : Prop := match id with Some id => valid_namespace id = true | None => True end.

Lemma id_ok_key id : id_ok id -> id <> None -> key_of id <> [].
Proof. destruct id as [id|]; [|done]. intros H _. by apply valid_namespace_nonroot in H as [? _]. Qed.

Lemma policies_ok st id sn :
  wf_state st -> cstr id <> [] -> policies st !! cstr id = Some sn -> wf_snapshot sn /\ canonical sn.
Proof.
  intros Hw Hne. rewrite <- namespace_index_policies by done. unfold extension_of.
  destruct (namespace_index_spec st id Hw) as [[? _]|[(_ & i & Hi & -> & _)|(_ & -> & _)]]; [done| |done].
  destruct (_ >? 0); [|done]. intros [= <-]. rewrite Nat2Z.id. apply live_record_ok; [done|lia].
Qed.

Lemma visible_wf st id : wf_state st -> id_ok id -> wf_config (visible st id).
Proof.
  intros Hw Hid. destruct (live_record_ok st 0 Hw ltac:(lia)) as [Hrw Hrc]. unfold visible.
  destruct id as [id|]; [|apply Hrw]. destruct (policies st !! cstr id) as [sn|] eqn:Ep; [|apply Hrw].
  destruct (policies_ok st id sn Hw) as [Hsw Hsc]; [by apply (id_ok_key (Some id))|done|].
  exact (wf_sn_config _ (rebase_wf _ sn Hrw Hsw Hrc Hsc)).
Qed.

(** An extension that respects the root is what its readers see. *)
Lemma merge_floor root sn :
  wf_snapshot root -> wf_snapshot sn -> canonical root -> canonical sn -> validate_extension root sn = 0 ->
  bpfima_policy_merge_config (sn_config root) (Some (sn_config sn)) = sn_config sn.
Proof.
  intros Hr Hs (Cr & _)%normalize_snapshot_inv (Cs & _)%normalize_snapshot_inv Hv%validate_extension_floor; [|done..].
  destruct Hv as [He Hf Ha Hm Hd Hl Hh Hc _ _ _]. pose proof (wf_sn_config _ Hr) as Wr. pose proof (wf_sn_config _ Hs) as Ws.
  apply canonical_config_spec in Cr as (_ & _ & _ & _ & _ & _ & _ & _ & R9); [|done].
  apply canonical_config_spec in Cs as (_ & S2 & _ & _ & _ & _ & _ & _ & S9); [|done]. destruct Wr as ([R0 _] & _). clear Ws.
  destruct (sn_config root), (sn_config sn). cbn in *. f_equal.
  - by apply lor_bool.
  - by apply land_subset.
  - by apply lor_subset.
  - destruct (Z.ltb_spec cfg_min_file_size0 cfg_min_file_size); lia.
  - destruct (Z.gtb_spec cfg_max_path_depth0 cfg_max_path_depth); lia.
  - destruct (Z.gtb_spec cfg_log_level0 cfg_log_level); lia.
  - done.
  - done.
  - congruence.
Qed.
(** ** An update as its readers see it *)

Lemma edited_visible st id field v sn :
  edited_policy st id field v = Some sn -> edit_field field v (visible st id) = Some (sn_config sn).
Proof.
  unfold edited_policy, visible, update_base. intros (config & He & ->)%fmap_Some. cbn [set_config sn_config].
  destruct id as [id|]; [|done]. by destruct (policies st !! cstr id).
Qed.

Lemma stored_visible st id sn :
  wf_state st -> id_ok id -> policies st !! key_of id = Some sn ->
  (id <> None -> validate_extension (rec_snapshot (record_at st 0)) sn = 0) -> visible st id = sn_config sn.
Proof.
  intros Hw Hid Hp Hv. unfold visible. destruct id as [id|]; cbn [key_of] in Hp.
  - destruct (live_record_ok st 0 Hw ltac:(lia)) as [Hrw Hrc].
    destruct (policies_ok st id sn Hw) as [Hsw Hsc]; [by apply (id_ok_key (Some id))|done|].
    rewrite Hp. apply merge_floor; [done..|]. by apply Hv.
  - rewrite (policies_root st Hw) in Hp. by injection Hp as <-.
Qed.

Lemma root_kept st st' k sn :
  wf_state st -> wf_state st' -> k <> [] -> policies st' = <[k := sn]> (policies st) ->
  rec_snapshot (record_at st' 0) = rec_snapshot (record_at st 0).
Proof.
  intros Hw Hw' Hk Hp. pose proof (policies_root st' Hw') as H. rewrite Hp, lookup_insert_ne, (policies_root st Hw) in H by done.
  by injection H.
Qed.

(** The readers of [id] see the edit, those of the other namespaces nothing. *)
Definition seen (id : option bytes) (field : bytes) (v : Z) (st st' : bpfima_policy_state) : Prop :=
  edit_field field v (visible st id) = Some (visible st' id) /\
  (id <> None -> forall id', key_of id' <> key_of id -> visible st' id' = visible st id').

Lemma update_seen id field v st s :
  policy_inv s -> policy_view s = Some st -> hash_ready s -> bpfima_commit_error (k_commit s) <= 0 -> is_u32 v -> id_ok id ->
  wp (bpfima_policy_update_field id (Some field) v) (fun rc s' => policy_inv s' /\
    exists st', policy_view s' = Some st' /\ (rc < 0 /\ st' = st \/ rc = 0 /\ seen id field v st st')) s.
Proof.
  intros Hi Hv Hr He Hval Hid. destruct (policy_view_map s st Hi Hv) as (_ & _ & _ & _ & [_ _ _ _ Hw]).
  eapply wp_mono; [apply wp_conj; [by apply wp_update_field_store|by apply wp_update_field_valid]|].
  intros rc s' [(Hle & Hi' & st' & Hv' & Hcase) Hvalid]. split; [done|]. exists st'. split; [done|].
  destruct (policy_view_map s' st' Hi' Hv') as (_ & _ & _ & _ & [_ _ _ _ Hw']).
  destruct (decide (rc = 0)) as [->|Hne]; [right|left].
  - split; [done|]. destruct Hcase as [[-> Hsame]|(_ & _ & sn & Hed & Hpol & Hcan & Hx)].
    + destruct (Hsame eq_refl) as (sn & Hed & Hp). split; [|done]. rewrite (edited_visible _ _ _ _ _ Hed). f_equal. symmetry.
      apply stored_visible; [done..|]. intros Hn. destruct (Hvalid eq_refl Hn) as (_ & sn' & Hed' & Hx). congruence.
    + split.
      * rewrite (edited_visible _ _ _ _ _ Hed). f_equal. symmetry. apply stored_visible; [done..| |].
        -- by rewrite Hpol, lookup_insert_eq.
        -- intros Hn. rewrite (root_kept st st' (key_of id) sn Hw Hw'); [by apply Hx|by apply id_ok_key|done].
      * intros Hn id' Hk. unfold visible. rewrite (root_kept st st' (key_of id) sn Hw Hw'); [|by apply id_ok_key|done].
        destruct id' as [id'|]; [|done]. by rewrite Hpol, lookup_insert_ne.
  - split; [lia|]. destruct Hcase as [[-> _]|[? _]]; done.
Qed.

(** ** A write *)

(** The policy that a file is about. *)
Definition policy_id (f : text_file) : option (option bytes) :=
  match f with
  | GlobalPolicyFile => Some None
  | PolicyFile (Some id) => if valid_namespace id then Some (Some id) else None
  | _ => None
  end.

Lemma policy_id_ok f id : policy_id f = Some id -> id_ok id.
Proof.
  destruct f as [| | | | |[i|]|]; intros Hf; cbn in Hf; try discriminate Hf; [by injection Hf as <-|].
  destruct (valid_namespace i) eqn:Ev; [|done]. by injection Hf as <-.
Qed.

Lemma wp_line_write f id field v text Q s :
  policy_id f = Some id -> field_name field -> is_u32 v -> value_text v text ->
  (forall rc n, rc < 0 -> Q rc (set_next n s)) ->
  (forall n, wp (bpfima_policy_update_field id (Some field) v)
     (fun rc s' => Q (if rc <? 0 then rc else Z.of_nat (length (key_value field text))) s') (set_next n s)) ->
  wp (file_write f (key_value field text)) Q s.
Proof.
  intros Hf Hfield Hv Ht He HQ.
  assert (Hw : file_write f (key_value field text) =
    (let count := Z.of_nat (length (key_value field text)) in
     if negb securityfs_policy_writable then ret (- EPERM) else
     if count >? 256 then ret (- EINVAL) else
     let* ok := kalloc in
     if negb ok then ret (- ENOMEM) else
     let* copied := copy_from_user in
     if negb copied then ret (- EFAULT) else
     let* rc := parse_and_update_policy (copy_text (key_value field text)) id in
     ret (if rc <? 0 then rc else count))).
  { destruct f as [| | | | |[i|]|]; cbn in Hf; try discriminate Hf; [by injection Hf as <-|].
    destruct (valid_namespace i); [|done]. by injection Hf as <-. }
  rewrite Hw. cbv zeta. assert (Hret : forall rc, rc < 0 -> Q rc s) by (intros rc Hrc; rewrite <- (set_next_eta s); by apply He).
  destruct (negb securityfs_policy_writable); [by apply wp_ret, Hret|].
  destruct (_ >? 256); [by apply wp_ret, Hret|].
  apply wp_bind, wp_kalloc. intros [] n1; cbn [negb]; [|by apply wp_ret, He].
  apply wp_bind, wp_copy_from_user. intros [] n2; cbn [negb]; rewrite set_next_set_next; [|by apply wp_ret, He].
  unfold key_value at 1. rewrite !app_assoc, copy_text_line, <- app_assoc. apply wp_bind. unfold wp at 1.
  rewrite (parse_line field v text id (set_next n2 s) Hfield Hv Ht).
  change (wp (let* ok := kalloc in if negb ok then ret (- ENOMEM) else bpfima_policy_update_field id (Some field) v)
    (fun rc s' => wp (ret (if rc <? 0 then rc else Z.of_nat (length (key_value field text)))) Q s') (set_next n2 s)).
  apply wp_bind, wp_kalloc. intros [] n3; cbn [negb]; rewrite set_next_set_next; [|by apply wp_ret, wp_ret, He].
  eapply wp_mono; [apply HQ|]. intros rc s' H. by apply wp_ret.
Qed.

(** ** A read *)

Lemma plain_no_newline ds : Forall PolicyFilesSpec.plain ds -> x0a ∉ ds.
Proof. intros H Hin. rewrite Forall_forall in H. by destruct (plain_not _ (H _ Hin)) as (_ & _ & ? & _). Qed.

Lemma number_line key v text : x3d ∉ key -> x0a ∉ key -> value_text v text -> plain_line (key, text).
Proof.
  intros Hk Hn [->| ->]; (split_and!; [done|done|]); [apply plain_no_newline, decimal_plain|]. cbn [snd].
  rewrite not_elem_of_app. split; [apply (bool_decide_unpack _); by vm_compute|apply plain_no_newline, hexadecimal_plain].
Qed.

Lemma decimal_text v : value_text v (decimal v).
Proof. by left. Qed.
Lemma hexadecimal_text v : value_text v (lit "0x" ++ hexadecimal v).
Proof. by right. Qed.

Ltac printed :=
  lazymatch goal with
  | |- plain_line _ => eapply number_line; [apply (bool_decide_unpack _); by vm_compute..|first [apply decimal_text|apply hexadecimal_text]]
  | |- exists v text, _ => eexists _, _; split; [reflexivity|]; split; [|reflexivity]; first [apply decimal_text|apply hexadecimal_text]
  end.

Definition global_lines (c : bpfima_policy_config) (g : Z) : list (bytes * bytes) :=
  [(lit "generation", decimal g); (lit "enabled", decimal (cfg_enabled c));
   (lit "filter_flags", lit "0x" ++ hexadecimal (cfg_filter_flags c));
   (lit "action_flags", lit "0x" ++ hexadecimal (cfg_action_flags c));
   (lit "min_file_size", decimal (cfg_min_file_size c)); (lit "max_path_depth", decimal (cfg_max_path_depth c));
   (lit "log_level", decimal (cfg_log_level c))].

Definition namespace_lines (id : bytes) (c : bpfima_policy_config) (g : Z) : list (bytes * bytes) :=
  [(lit "namespace_id", cstr id); (lit "generation", decimal g);
   (lit "filter_flags", lit "0x" ++ hexadecimal (cfg_filter_flags c));
   (lit "action_flags", lit "0x" ++ hexadecimal (cfg_action_flags c));
   (lit "min_file_size", decimal (cfg_min_file_size c)); (lit "log_level", decimal (cfg_log_level c));
   (lit "enabled", decimal (cfg_enabled c))].

Lemma global_lines_ok c g : field_lines c (global_lines c g).
Proof.
  split.
  - repeat (apply Forall_cons; split; [printed|]). constructor.
  - apply (editable_cases (fun key => exists v text, field_value key c = Some v /\ value_text v text /\ assoc key (global_lines c g) = Some text));
      printed.
Qed.

Lemma namespace_lines_ok id c g : valid_namespace id = true -> field_lines c (namespace_lines id c g).
Proof.
  intros Hid. split.
  - apply Forall_cons. split; [|repeat (apply Forall_cons; split; [printed|]); constructor].
    split_and!; [apply (bool_decide_unpack _); by vm_compute..|]. intros Hin. by pose proof (valid_namespace_chars _ _ Hid Hin).
  - apply (editable_cases (fun key => exists v text, field_value key c = Some v /\ value_text v text /\ assoc key (namespace_lines id c g) = Some text));
      printed.
Qed.

Lemma wp_file_read f id (Q : Z * bytes -> kstate -> Prop) s :
  policy_id f = Some id -> (forall n, Q (- ENOMEM, []) (set_next n s)) ->
  (forall n, wp (match id with None => global_policy_show | Some id => policy_show (Some id) end) Q (set_next n s)) ->
  wp (file_read f) Q s.
Proof.
  intros Hf He HQ. unfold file_read, file_open.
  assert (Hs : fop_show (fops f) = Some (match id with None => global_policy_show | Some id => policy_show (Some id) end)).
  { destruct f as [| | | | |[i|]|]; cbn in Hf; try discriminate Hf; [by injection Hf as <-|].
    destruct (valid_namespace i); [|done]. by injection Hf as <-. }
  rewrite Hs. apply wp_bind, wp_bind, wp_kalloc. intros [] n1; cbn [negb]; [|by apply wp_ret, wp_ret, He].
  apply wp_bind, wp_kalloc. intros [] n2; apply wp_ret; rewrite set_next_set_next; [apply HQ|by apply wp_ret, He].
Qed.

Lemma wp_read_visible id st Q s :
  policy_inv s -> policy_view s = Some st -> id_ok id ->
  Q (inr (visible st id, st_generation st)) s -> wp (bpfima_policy_read_locked id) Q s.
Proof.
  intros Hi Hv Hid HQ. destruct (policy_view_map s st Hi Hv) as (map & m & Hp & Hm & Hok). unfold bpfima_policy_read_locked.
  apply wp_bind, wp_gets. rewrite Hp. apply wp_bind. eapply wp_active_state; [exact Hm|exact Hok|].
  apply wp_bind. eapply wp_load_state; [exact Hm|apply Hok|]. apply wp_ret. revert HQ. unfold visible.
  destruct id as [id|]; [|done]. by rewrite (namespace_index_policies st id (mo_state _ _ Hok) (id_ok_key (Some id) Hid ltac:(done))).
Qed.

(** A valid name has a record, or memory was short. *)
Lemma wp_record id (Q : Z * bytes -> kstate -> Prop) (show : bpfima_policy_namespace -> bytes) s :
  valid_namespace id = true -> (forall n, Q (- ENOMEM, []) (set_next n s)) -> (forall md s', Q (0, show md) s') ->
  wp (let* metadata := bpfima_policy_namespace_get_locked id in
      match metadata with
      | PErr e => ret (e, [])
      | PNull => fault
      | PVal i => let* l := gets k_namespaces in let* md := deref (l !! i) in ret (0, show md)
      end) Q s.
Proof.
  intros Hid He HQ. unfold bpfima_policy_namespace_get_locked, find_policy_namespace.
  assert (Hn : truth (bpfima_validate_namespace (Some id)) || (BPFIMA_NAMESPACE_SIZE <=? strlen id)%nat = false).
  { unfold valid_namespace in Hid. destruct (memchr id NUL BPFIMA_NAMESPACE_SIZE) eqn:Em; [|done].
    destruct (truth (bpfima_validate_namespace (Some id))); [done|]. apply memchr_split in Em as [Hl _]. by apply Nat.leb_gt. }
  rewrite Hn. apply wp_bind, wp_bind, wp_gets. destruct (find_entry (k_namespaces s) id) as [i|] eqn:Ef.
  - apply find_entry_Some in Ef as (md & Hi & _). apply wp_ret, wp_bind, wp_gets, wp_bind, wp_deref. exists md.
    split; [done|]. by apply wp_ret.
  - apply wp_bind, wp_kalloc. intros [] n; cbn [negb]; [|by apply wp_ret, wp_ret, He].
    apply wp_bind, wp_gets, wp_bind, wp_modify, wp_ret, wp_bind, wp_gets, wp_bind, wp_deref. cbn.
    eexists. split; [by rewrite list_lookup_middle|]. by apply wp_ret.
Qed.

(** A reader of a bound policy gets the fields of the visible configuration. *)
Lemma wp_read_fields f id st s :
  policy_inv s -> policy_view s = Some st -> policy_id f = Some id ->
  wp (file_read f) (fun r _ => r.1 = - ENOMEM \/
    r.1 = 0 /\ forall key, key ∈ editable -> shown key r.2 = field_value key (visible st id)) s.
Proof.
  intros Hi Hv Hf. apply (wp_file_read f id); [done|by left|]. intros n.
  pose proof (policy_id_ok f id Hf) as Hid.
  destruct (policy_view_map s st Hi Hv) as (_ & _ & _ & _ & [_ _ _ _ Hw]).
  pose proof (visible_wf st id Hw Hid) as Hc. destruct id as [id|].
  - unfold policy_show. apply wp_bind, (wp_read_visible (Some id) st); [done..|]. apply wp_record; [done|by left|].
    intros md s'. right. split; [done|]. intros key Hk. cbn [snd].
    exact (config_shown _ (namespace_lines id (visible st (Some id)) (st_generation st)) _ key Hc (namespace_lines_ok _ _ _ Hid) Hk).
  - unfold global_policy_show. apply wp_bind, (wp_read_visible None st); [done..|]. apply wp_ret. right. split; [done|].
    intros key Hk. cbn [snd].
    pose proof (config_shown _ (global_lines (visible st None) (st_generation st)) [] key Hc (global_lines_ok _ _) Hk) as H.
    cbn [text_of global_lines foldr fst snd] in H. by rewrite app_nil_r in H.
Qed.

Lemma wp_read_unbound f id s :
  policy_map (k_policy s) = None -> policy_id f = Some id -> wp (file_read f) (fun r _ => r.1 < 0) s.
Proof.
  intros Hp Hf. apply (wp_file_read f id); [done|done|]. intros n.
  destruct id as [id|]; [unfold policy_show|unfold global_policy_show]; apply wp_bind; unfold bpfima_policy_read_locked;
    apply wp_bind, wp_gets; cbn [set_next k_policy]; rewrite Hp; by apply wp_ret, wp_ret.
Qed.

Lemma shows_fields f id t s :
  policy_inv s -> policy_id f = Some id -> shows f t s ->
  exists st, policy_view s = Some st /\ forall key, key ∈ editable -> shown key t = field_value key (visible st id).
Proof.
  intros Hi Hf (n & s' & Hrun). destruct (policy_map (k_policy s)) as [map|] eqn:Hp.
  - destruct (policy_inv_view s map Hi Hp) as (m & st & Hm & Hok & Hv). exists st. split; [done|].
    by destruct (wp_run _ _ _ _ _ Hrun (wp_read_fields f id st (set_next n s) Hi Hv Hf)) as [|[_ ?]].
  - by pose proof (wp_run _ _ _ _ _ Hrun (wp_read_unbound f id (set_next n s) Hp Hf)).
Qed.

(** ** Writing and reading back *)

(** Readers of [f] find the same values in both states. *)
Definition same_values (f : text_file) (s s' : kstate) : Prop :=
  forall t t' key, shows f t s -> shows f t' s' -> key ∈ editable -> shown key t' = shown key t.

Lemma same_visible f id st st' s s' :
  policy_inv s -> policy_inv s' -> policy_view s = Some st -> policy_view s' = Some st' -> policy_id f = Some id ->
  visible st' id = visible st id -> same_values f s s'.
Proof.
  intros Hi Hi' Hv Hv' Hf Heq t t' key Ht Ht' Hk. destruct (shows_fields f id t s Hi Hf Ht) as (st1 & H1 & E1).
  destruct (shows_fields f id t' s' Hi' Hf Ht') as (st2 & H2 & E2). rewrite E1, E2 by done. congruence.
Qed.

Lemma same_unbound f id s s' :
  policy_map (k_policy s) = None -> policy_id f = Some id -> same_values f s s'.
Proof. intros Hp Hf t t' key (n & s1 & Hrun). by pose proof (wp_run _ _ _ _ _ Hrun (wp_read_unbound f id (set_next n s) Hp Hf)). Qed.

(** C36: A policy file shows what was written to it. A process writes the line
    [field=value], in decimal or hexadecimal, to the policy file of the root or
    of a namespace while the module is in any consistent state. Either the
    write fails, and every policy file shows the values it showed before; or
    the bytes are consumed, the field is one of the five that can be edited,
    and whoever reads the file then (unless memory is short) finds that value
    for that field and the values from before for the four others. A line
    written to a namespace changes the values of no other policy file. *)
Theorem policy_file_roundtrip pcr vs f id field v text s :
  sys_inv pcr vs s -> policy_id f = Some id -> field_name field -> is_u32 v -> value_text v text ->
  wp (file_write f (key_value field text)) (fun rc s' =>
    (rc < 0 /\ forall g id', policy_id g = Some id' -> same_values g s s') \/
    (rc = Z.of_nat (length (key_value field text)) /\ field ∈ editable /\
     (forall n, wp (file_read f) (fun r _ => r.1 = - ENOMEM \/ r.1 = 0 /\ shown field r.2 = Some v /\
        forall t key, shows f t s -> key ∈ editable -> key <> field -> shown key r.2 = shown key t) (set_next n s')) /\
     (id <> None -> forall g id', policy_id g = Some id' -> key_of id' <> key_of id -> same_values g s s'))) s.
Proof.
  intros Hi Hf Hfield Hv Ht. destruct (sys_hash_ready _ _ _ Hi) as [Hr He]. pose proof (proj2 Hi) as Hp.
  assert (Hsame : forall rc n, rc < 0 -> rc < 0 /\ forall g id', policy_id g = Some id' -> same_values g s (set_next n s)).
  { intros rc n Hrc. split; [done|]. intros g id' Hg. destruct (policy_map (k_policy s)) as [map|] eqn:Em; [|by eapply same_unbound].
    destruct (policy_inv_view s map Hp Em) as (_ & st & _ & _ & Hst). by apply (same_visible g id' st st). }
  apply (wp_line_write f id field v); [done..|intros; left; by apply Hsame|]. intros n.
  destruct (policy_map (k_policy s)) as [map|] eqn:Em.
  - destruct (policy_inv_view s map Hp Em) as (_ & st & _ & _ & Hst).
    eapply wp_mono; [apply (update_seen id field v st (set_next n s)); [done..|by eapply policy_id_ok]|].
    intros rc s' (Hp' & st' & Hst' & [[Hrc ->]|[-> [Hed Hother]]]).
    + destruct (Z.ltb_spec rc 0); [|lia]. left. split; [done|]. intros g id' Hg. by apply (same_visible g id' st st).
    + right. destruct (edit_field_value field v _ _ Hfield Hv Hed) as [Hin Hval]. split_and!; [done|done| |].
      * intros m. eapply wp_mono; [by apply (wp_read_fields f id st' (set_next m s'))|].
        intros r _ [?|[H0 Hread]]; [by left|right]. split_and!; [done| |].
        -- rewrite Hread, Hval by done. by rewrite decide_True.
        -- intros t key Hsh Hk Hne. destruct (shows_fields f id t s Hp Hf Hsh) as (st1 & H1 & E1).
           rewrite Hread, Hval, decide_False, E1 by done. congruence.
      * intros Hn g id' Hg Hk. apply (same_visible g id' st st'); [done..|]. by apply Hother.
  - eapply wp_mono; [by apply (update_field_unbound id field v (set_next n s))|]. intros rc s' (Hrc & m & ->).
    destruct (Z.ltb_spec rc 0); [|lia]. left. rewrite set_next_set_next. by apply Hsame.
Qed.
End OpenFiles.

(** ** Witness *)

(** Level 3 is written to the root's file. *)
Lemma level_written :
  exists s', file_write (E := tpm_env) GlobalPolicyFile (key_value (lit "log_level") (lit "3")) bound_state = Some (12, s').
Proof.
  assert (Hrun : fst <$> file_write (E := tpm_env) GlobalPolicyFile (key_value (lit "log_level") (lit "3")) bound_state = Some 12)
    by (by vm_compute).
  destruct (file_write _ _ _) as [[rc s']|]; [|discriminate Hrun]. injection Hrun as ->. by exists s'.
Qed.

Lemma level_line : field_name (lit "log_level") /\ value_text 3 (lit "3").
Proof. split; [split; [|unfold nul_free]; apply (bool_decide_unpack _); by vm_compute|left; by vm_compute]. Qed.

Lemma policy_file_roundtrip_witness :
  exists s', file_write (E := tpm_env) GlobalPolicyFile (key_value (lit "log_level") (lit "3")) bound_state = Some (12, s') /\
    wp (file_read (E := tpm_env) GlobalPolicyFile) (fun r _ => r.1 = - ENOMEM \/ r.1 = 0 /\ shown (lit "log_level") r.2 = Some 3) s'.
Proof.
  destruct level_written as [s' Hrun]. exists s'. split; [exact Hrun|]. destruct level_line as [Hf Ht].
  destruct (wp_run _ _ _ _ _ Hrun (policy_file_roundtrip (E := tpm_env) (zeros MERKLE_HASH_SIZE) [] GlobalPolicyFile None
    (lit "log_level") 3 (lit "3") bound_state bound_sys_inv eq_refl Hf ltac:(done) Ht)) as [[H _]|(_ & _ & Hread & _)]; [discriminate H|].
  rewrite <- (set_next_eta s'). eapply wp_mono; [apply Hread|]. intros r _ [Hr|(H0 & Hsh & _)]; [left; exact Hr|right].
  exact (conj H0 Hsh).
Defined.
