(* ===== verification/SeqFiles.v ===== *)
(** * Reading the list files while the module runs

    The [seq_operations] of [src/securityfs_utils.c] and files that stay open:
    a reader gets a list in several turns of [seq_read], each under the list's
    lock, and any entry points run between them. *)

From S2P Require Import Prelude CString Types Kernel Sample Snapshot Wire KfuncBuffer HashUtils Tpm PolicyMap Merkle MerkleSpec MerkleInv PolicyNamespace PolicyManager PolicySpec PolicyInv PolicyLog PolicyBind PolicyAudit Container ContainerSpec ContainerRules ContainerInv Kfuncs KfuncsInv KfuncsSpec Lifecycle LifecycleSpec PolicyFiles LogFiles Frame Requests System EntryFrame.

(** ** The iterators *)

(** [seq_list_start] and [seq_list_next]: a cursor is the index of its entry
    while the list is locked. *)
Definition seq_list_start {A} (l : list A) (pos : Z) : option nat :=
  if bool_decide (Z.to_nat pos < length l)%nat then Some (Z.to_nat pos) else None.

Definition seq_list_next {A} (l : list A) (v : nat) (pos : Z) : option nat * Z :=
  (if bool_decide (S v < length l)%nat then Some (S v) else None, pos + 1).

(** [struct seq_operations]. *)
Record seq_operations := SeqOperations {
  seq_start : Z -> K (option nat);
  seq_next : nat -> Z -> K (option nat * Z);
  seq_stop : K unit;
  seq_show : nat -> K bytes;
}.

(** What one turn of [seq_read] does with them: it starts at the position of
    the file, shows and advances as long as there is an entry and room for
    one more ([room] entries in this turn), and stops. *)
Fixpoint seq_fill (ops : seq_operations) (room : nat) (v : option nat) (pos : Z) : K (bytes * Z) :=
  match v, room with
  | Some v, S room =>
      let* text := seq_show ops v in
      let* next := seq_next ops v pos in
      let* (rest, pos) := seq_fill ops room (fst next) (snd next) in
      ret (text ++ rest, pos)
  | _, _ => ret ([], pos)
  end.

Definition seq_turn (ops : seq_operations) (room : nat) (pos : Z) : K (bytes * Z) :=
  let* v := seq_start ops pos in
  let* r := seq_fill ops room v pos in
  let* _ := seq_stop ops in
  ret r.

Definition merkle_root_history_seq_start (pos : Z) : K (option nat) :=
  gets (fun s => seq_list_start (merkle_root_history (k_merkle s)) pos).
Definition merkle_root_history_seq_next (v : nat) (pos : Z) : K (option nat * Z) :=
  gets (fun s => seq_list_next (merkle_root_history (k_merkle s)) v pos).
Definition merkle_root_history_seq_stop : K unit := ret tt.

Definition merkle_root_history_seq_ops : seq_operations :=
  SeqOperations merkle_root_history_seq_start merkle_root_history_seq_next merkle_root_history_seq_stop
    (fun v => let* h := gets (fun s => merkle_root_history (k_merkle s)) in
              let* e := deref (h !! v) in ret (merkle_root_history_seq_show e)).

Definition container_measurements_seq_start (container : nat) (pos : Z) : K (option nat) :=
  let* n := load_container container in ret (seq_list_start (cn_measurement_list n) pos).
Definition container_measurements_seq_next (container v : nat) (pos : Z) : K (option nat * Z) :=
  let* n := load_container container in ret (seq_list_next (cn_measurement_list n) v pos).
Definition container_measurements_seq_stop (container : nat) : K unit :=
  let* _ := load_container container in ret tt.

Definition container_measurements_seq_ops (container : nat) : seq_operations :=
  SeqOperations (container_measurements_seq_start container) (container_measurements_seq_next container)
    (container_measurements_seq_stop container)
    (fun v => let* n := load_container container in
              let* e := deref (cn_measurement_list n !! v) in ret (container_measurements_seq_show e)).

(** ** One turn *)

(** The operations iterate over the list [l] in the state [s]. *)
Record iterates {A} (ops : seq_operations) (show : A -> bytes) (l : list A) (s : kstate) : Prop := Iterates {
  it_start : forall pos, seq_start ops pos s = Some (seq_list_start l pos, s);
  it_next : forall v pos, seq_next ops v pos s = Some (seq_list_next l v pos, s);
  it_stop : seq_stop ops s = Some (tt, s);
  it_show : forall v e, l !! v = Some e -> seq_show ops v s = Some (show e, s);
}.

Lemma history_iterates s :
  iterates merkle_root_history_seq_ops merkle_root_history_seq_show (merkle_root_history (k_merkle s)) s.
Proof. split; try done. intros v e He. cbn. unfold bind, gets, deref, ret. by rewrite He. Qed.

Lemma measurements_iterate c n s :
  container_heap (k_containers s) !! c = Some n ->
  iterates (container_measurements_seq_ops c) container_measurements_seq_show (cn_measurement_list n) s.
Proof.
  intros Hn. assert (Hl : load_container c s = Some (n, s)) by (unfold load_container, bind, gets; by rewrite Hn).
  split; cbn; intros; unfold container_measurements_seq_start, container_measurements_seq_next,
    container_measurements_seq_stop, bind; rewrite Hl; try done.
  unfold deref, ret. by rewrite H.
Qed.

Section Turn.
Context {A : Type} (ops : seq_operations) (show : A -> bytes) (l : list A) (s : kstate).
Hypothesis Hit : iterates ops show l s.

Lemma seq_fill_spec room v pos :
  Z.of_nat v = pos -> (v < length l)%nat ->
  seq_fill ops room (Some v) pos s =
    Some (flat_map show (take room (drop v l)), pos + Z.of_nat (Nat.min room (length l - v)), s).
Proof.
  revert v pos. induction room as [|room IH]; intros v pos Hv Hl; cbn [seq_fill].
  { cbn. by rewrite Z.add_0_r. }
  destruct (lookup_lt_is_Some_2 l v Hl) as [e He]. unfold bind. rewrite (it_show _ _ _ _ Hit v e He), (it_next _ _ _ _ Hit v pos).
  unfold seq_list_next. cbn [fst snd]. rewrite (drop_S l e v He). cbn [take flat_map].
  case_bool_decide as Hnext.
  - rewrite (IH (S v)) by lia. unfold ret. do 3 f_equal. lia.
  - assert (Hd : drop (S v) l = []) by (apply drop_ge; lia). rewrite Hd, take_nil.
    assert (Hmin : Nat.min (S room) (length l - v) = 1%nat) by lia. rewrite Hmin. by destruct room.
Qed.

(** A turn shows the entries from the position on, as many as fit. *)
Lemma seq_turn_spec room pos :
  0 <= pos ->
  seq_turn ops room pos s =
    Some (flat_map show (take room (drop (Z.to_nat pos) l)),
          pos + Z.of_nat (Nat.min room (length l - Z.to_nat pos)), s).
Proof.
  intros Hpos. unfold seq_turn, bind. rewrite (it_start _ _ _ _ Hit). unfold seq_list_start. case_bool_decide as Hl.
  - rewrite seq_fill_spec by lia. by rewrite (it_stop _ _ _ _ Hit).
  - rewrite drop_ge, take_nil by lia. assert (Hf : seq_fill ops room None pos s = Some ([], pos, s)) by (by destruct room).
    rewrite Hf, (it_stop _ _ _ _ Hit).
    assert (Hmin : (Nat.min room (length l - Z.to_nat pos) = 0)%nat) by lia. by rewrite Hmin, Z.add_0_r.
Qed.
End Turn.

(** ** Open files *)

(** An open measurements file: the container it holds a reference on, its
    position, and the text its reader has got so far. *)
Record open_file := OpenFile {
  of_container : nat;
  of_pos : Z;
  of_text : bytes;
}.

(** The module and the open measurements files of all processes. *)
Record fstate := FState { fs_kernel : kstate; fs_files : list open_file }.

Inductive fentry :=
  | FEntry (e : entry)
  | FOpen (c : nat)
  | FRead (i room : nat)
  | FClose (i : nat).

Section Files.
Context {E : KernelEnv}.

Definition run_fentry (e : fentry) (st : fstate) : option fstate :=
  match e with
  | FEntry e =>
      match run_entry e (fs_kernel st) with Some (_, s) => Some (FState s (fs_files st)) | None => None end
  | FOpen c =>
      match container_measurements_open (Some c) (fs_kernel st) with
      | Some (rc, s) => Some (FState s (if rc =? 0 then OpenFile c 0 [] :: fs_files st else fs_files st))
      | None => None
      end
  | FRead i room =>
      match fs_files st !! i with
      | None => Some st
      | Some f =>
          match seq_turn (container_measurements_seq_ops (of_container f)) room (of_pos f) (fs_kernel st) with
          | Some (text, pos, s) => Some (FState s (<[i := OpenFile (of_container f) pos (of_text f ++ text)]> (fs_files st)))
          | None => None
          end
      end
  | FClose i =>
      match fs_files st !! i with
      | None => Some st
      | Some f =>
          match container_measurements_release (Some (of_container f)) (fs_kernel st) with
          | Some (_, s) => Some (FState s (delete i (fs_files st)))
          | None => None
          end
      end
  end.

(** A file that can be opened is that of a published container, and the number
    of open files is bounded. *)
Definition fentry_ok (e : fentry) (st : fstate) : Prop :=
  match e with
  | FEntry e => entry_ok e (fs_kernel st)
  | FOpen c => c ∈ container_list (k_containers (fs_kernel st)) /\ Z.of_nat (length (fs_files st)) + 3 <= INT_MAX
  | _ => True
  end.

Inductive fsteps : fstate -> list fentry -> fstate -> Prop :=
  | fsteps_nil st : fsteps st [] st
  | fsteps_cons st e st1 es st2 :
      fentry_ok e st -> run_fentry e st = Some st1 -> fsteps st1 es st2 -> fsteps st (e :: es) st2.

(** The text that a reader has is the text of the entries before its position. *)
Definition file_ok (s : kstate) (f : open_file) : Prop :=
  exists n, container_heap (k_containers s) !! of_container f = Some n /\
    0 <= of_pos f <= Z.of_nat (length (cn_measurement_list n)) /\
    of_text f = flat_map container_measurements_seq_show (take (Z.to_nat (of_pos f)) (cn_measurement_list n)).

Definition held_by (fs : list open_file) : list nat := of_container <$> fs.

Record files_inv (pcr : bytes) (vs : list bytes) (st : fstate) : Prop := FilesInv {
  fi_sys : sys_inv_with (held_by (fs_files st)) pcr vs (fs_kernel st);
  fi_files : Forall (file_ok (fs_kernel st)) (fs_files st);
  fi_bound : held_bound (held_by (fs_files st));
}.

Context {L : KernelLaws E}.

Lemma container_inv_perm held held' cs : held ≡ₚ held' -> container_inv held cs -> container_inv held' cs.
Proof.
  intros Hp [H1 H2 H3 H4 H5 H6]. split; [done| | |done..].
  - intros c Hc. apply H2. by rewrite Hp.
  - intros c n Hn. rewrite (H3 c n Hn). by apply refs_perm.
Qed.

Lemma sys_inv_perm held held' pcr vs s : held ≡ₚ held' -> sys_inv_with held pcr vs s -> sys_inv_with held' pcr vs s.
Proof. intros Hp [[] ?]. split; [|done]. split; try done. by eapply container_inv_perm. Qed.

(** The list at [c] extends [l]. *)
Definition extends (c : nat) (l : list measurement_entry) : list_inv.
Proof.
  refine (ListInv (fun d _ l' => d = c -> l `prefix_of` l') (fun d => d = c) (fun _ => False) _). by intros d id Hd ?.
Defined.

Lemma file_ok_grows s s' f :
  (forall n, container_heap (k_containers s) !! of_container f = Some n ->
     exists n', container_heap (k_containers s') !! of_container f = Some n' /\
       cn_measurement_list n `prefix_of` cn_measurement_list n') ->
  file_ok s f -> file_ok s' f.
Proof.
  intros Hg (n & Hn & Hp & Ht). destruct (Hg n Hn) as (n' & Hn' & k & Hk). exists n'. split; [done|].
  rewrite Hk, length_app. split; [lia|]. rewrite Ht, take_app_le by lia. done.
Qed.

(** Between the turns of a reader the lists of the open files only grow. *)
Lemma entry_files held pcr vs e s s' f :
  sys_inv_with held pcr vs s -> entry_ok e s -> run_entry e s = Some (tt, s') ->
  of_container f ∈ held -> file_ok s f -> file_ok s' f.
Proof.
  intros Hi Hok Hrun Hin. apply file_ok_grows. intros n Hn.
  assert (Hl : lists_ok (extends (of_container f) (cn_measurement_list n)) s').
  { eapply (entry_entries _ held pcr vs e s); [exact Hi| |exact Hok| | |exact Hrun].
    - intros c Hc. cbn in Hc. subst c. apply elem_of_app. by right.
    - destruct e; try done. intros _ _ c id l Hc ->. apply prefix_app_r. by apply Hc.
    - split_and!; [|by intros c ->|done]. intros c m Hm ->. simplify_eq. done. }
  destruct Hl as (Hl & Hk & _). destruct (Hk _ eq_refl) as [n' Hn']. exists n'. split; [done|]. exact (Hl _ n' Hn' eq_refl).
Qed.

Lemma agree_files s s' f :
  agree (k_containers s) (k_containers s') -> file_ok s f -> file_ok s' f.
Proof.
  intros Hag. apply file_ok_grows. intros n Hn. destruct (erase_lookup _ _ _ _ (ag_heap _ _ Hag) Hn) as (n' & Hn' & Heq).
  exists n'. split; [done|]. change (cn_measurement_list n') with (cn_measurement_list (set_refcnt 0 n')). by rewrite Heq.
Qed.

(** Opening takes a reference or fails and takes none. *)
Lemma wp_open_file held pcr vs c s :
  sys_inv_with held pcr vs s -> c ∈ container_list (k_containers s) -> held_bound (c :: held) ->
  wp (container_measurements_open (Some c)) (fun rc s' =>
    agree (k_containers s) (k_containers s') /\
    (if rc =? 0 then sys_inv_with (c :: held) pcr vs s' else sys_inv_with held pcr vs s')) s.
Proof.
  intros [Hm Hp] Hc Hb. pose proof (mi_containers _ _ _ _ _ Hm) as Hi.
  destruct (ci_live _ _ Hi c) as [n Hn]; [apply elem_of_app; by left|].
  assert (Hb' : held_bound held) by (unfold held_bound in *; cbn [length] in Hb; lia).
  assert (Hpos : 0 < cn_refcnt n < INT_MAX).
  { rewrite (ci_refcnt _ _ Hi c n Hn). split; [apply refs_pos, elem_of_app; by left|]. apply refs_bound; [apply Hi|done]. }
  set (cs := with_heap (<[c := set_refcnt (cn_refcnt n + 1) n]> (container_heap (k_containers s))) (k_containers s)).
  assert (Hag : agree (k_containers s) cs) by (split; [done|done|by apply erase_refcnt]).
  assert (Hm' : module_inv pcr vs (c :: held) (globals s) (set_containers cs s)).
  { eapply module_inv_agree; [exact Hm|apply container_inv_get; [done|done|lia]|exact Hag]. }
  apply wp_bind, wp_bind. eapply wp_load_container; [exact Hn|]. rewrite inc_not_zero by done.
  apply wp_bind, wp_modify, wp_ret, wp_bind, wp_kalloc. intros [] m.
  - apply wp_ret. split; [exact Hag|]. split; [by apply module_inv_next|exact Hp].
  - apply wp_bind. eapply module_inv_put; [exact (module_inv_next _ _ _ _ m _ Hm')|]. intros s' Ho Hs' Hag'.
    apply wp_ret. split; [by eapply agree_trans|]. cbn [Z.eqb]. change (- ENOMEM =? 0) with false. cbv iota.
    split; [by rewrite (globals_same s s') by apply Ho|]. unfold policy_inv. by rewrite (os_policy _ _ Ho).
Qed.

Lemma wp_close_file held pcr vs c s :
  sys_inv_with (c :: held) pcr vs s ->
  wp (container_measurements_release (Some c)) (fun _ s' =>
    agree (k_containers s) (k_containers s') /\ sys_inv_with held pcr vs s') s.
Proof.
  intros [Hm Hp]. apply wp_bind. eapply module_inv_put; [exact Hm|]. intros s' Ho Hs' Hag. apply wp_ret. split; [done|].
  split; [by rewrite (globals_same s s') by apply Ho|]. unfold policy_inv. by rewrite (os_policy _ _ Ho).
Qed.

Lemma held_delete (fs : list open_file) i f : fs !! i = Some f -> held_by fs ≡ₚ of_container f :: held_by (delete i fs).
Proof. intros Hi. unfold held_by. rewrite <- fmap_cons. by rewrite <- (delete_Permutation fs i f Hi). Qed.

Lemma held_insert (fs : list open_file) i f f' :
  fs !! i = Some f -> of_container f' = of_container f -> held_by (<[i := f']> fs) = held_by fs.
Proof.
  intros Hi Hc. unfold held_by. rewrite list_fmap_insert, Hc. apply list_insert_id. by rewrite list_lookup_fmap, Hi.
Qed.

(** One turn of a reader. *)
Lemma read_file_ok s f room :
  file_ok s f -> exists text pos,
    seq_turn (container_measurements_seq_ops (of_container f)) room (of_pos f) s = Some (text, pos, s) /\
    file_ok s (OpenFile (of_container f) pos (of_text f ++ text)).
Proof.
  intros (n & Hn & Hp & Ht). pose proof (seq_turn_spec _ _ _ _ (measurements_iterate _ _ _ Hn) room (of_pos f)) as Hturn.
  rewrite Hturn by lia. eexists _, _. split; [done|]. exists n. cbn [of_container of_pos of_text].
  split; [done|]. split; [lia|]. rewrite Ht, <- flat_map_app. f_equal.
  set (l := cn_measurement_list n) in *. rewrite take_take_drop, Z2Nat.inj_add, Nat2Z.id by lia.
  destruct (Nat.le_ge_cases room (length l - Z.to_nat (of_pos f))); [by rewrite Nat.min_l by lia|].
  rewrite Nat.min_r, !take_ge by lia. done.
Qed.

Lemma fentry_step pcr vs e st :
  files_inv pcr vs st -> fentry_ok e st ->
  exists st', run_fentry e st = Some st' /\ exists ws, files_inv pcr (vs ++ ws) st'.
Proof.
  intros [Hs Hf Hb] Hok. destruct st as [s fs]. cbn [fs_kernel fs_files] in *.
  destruct e as [e|c|i room|i]; cbn [run_fentry fentry_ok fs_kernel fs_files] in *.
  - pose proof (entry_step_with _ _ _ _ _ Hs Hb Hok) as Hw. unfold wp in Hw.
    destruct (run_entry e s) as [[[] s']|] eqn:Er; [|done]. destruct Hw as [ws Hi]. eexists. split; [done|]. exists ws.
    split; cbn [fs_kernel fs_files]; [done| |done]. apply Forall_forall. intros f Hin. rewrite Forall_forall in Hf.
    eapply entry_files; [exact Hs|exact Hok|exact Er| |by apply Hf]. by apply list_elem_of_fmap_2.
  - destruct Hok as [Hc Hlen]. assert (Hb' : held_bound (c :: held_by fs)).
    { unfold held_bound, held_by. cbn [length]. rewrite length_fmap. lia. }
    pose proof (wp_open_file _ _ _ c s Hs Hc Hb') as Hw. unfold wp in Hw.
    destruct (container_measurements_open (Some c) s) as [[rc s']|]; [|done]. destruct Hw as [Hag Hw].
    eexists. split; [done|]. exists []. rewrite app_nil_r.
    assert (Hf' : Forall (file_ok s') fs) by (eapply Forall_impl; [exact Hf|]; intros f; by apply agree_files).
    destruct (rc =? 0); split; cbn [fs_kernel fs_files]; try done.
    constructor; [|done]. destruct Hw as [Hm _].
    destruct (ci_live _ _ (mi_containers _ _ _ _ _ Hm) c) as [n Hn]; [apply elem_of_app; right; apply elem_of_cons; by left|].
    exists n. cbn. split; [done|]. split; [lia|done].
  - destruct (fs !! i) as [f|] eqn:Ei; [|by eexists; split; [done|exists []; rewrite app_nil_r]].
    pose proof (proj1 (Forall_lookup _ _) Hf i f Ei) as Hfo. destruct (read_file_ok s f room Hfo) as (text & pos & -> & Hfo').
    eexists. split; [done|]. exists []. rewrite app_nil_r. split; cbn [fs_kernel fs_files].
    + by rewrite (held_insert _ _ f).
    + by apply Forall_insert.
    + by rewrite (held_insert _ _ f).
  - destruct (fs !! i) as [f|] eqn:Ei; [|by eexists; split; [done|exists []; rewrite app_nil_r]].
    pose proof (held_delete _ _ _ Ei) as Hperm. apply (sys_inv_perm _ _ _ _ _ Hperm) in Hs.
    pose proof (wp_close_file _ _ _ _ _ Hs) as Hw. unfold wp in Hw.
    destruct (container_measurements_release (Some (of_container f)) s) as [[rc s']|]; [|done]. destruct Hw as [Hag Hw].
    eexists. split; [done|]. exists []. rewrite app_nil_r. split; cbn [fs_kernel fs_files]; [done| |].
    + apply Forall_forall. intros g Hg. eapply agree_files; [exact Hag|]. rewrite Forall_forall in Hf. apply Hf.
      rewrite (delete_Permutation fs i f Ei). apply elem_of_cons. by right.
    + unfold held_bound in *. rewrite Hperm in Hb. cbn [length] in Hb. lia.
Qed.

Lemma fsteps_inv pcr vs st es st' :
  files_inv pcr vs st -> fsteps st es st' -> exists ws, files_inv pcr (vs ++ ws) st'.
Proof.
  intros Hi Hs. revert vs Hi. induction Hs as [st|st e st1 es st2 Hok Hrun _ IH]; intros vs Hi.
  - exists []. by rewrite app_nil_r.
  - destruct (fentry_step pcr vs e st Hi Hok) as (st1' & Hrun' & ws1 & Hi1). rewrite Hrun in Hrun'. injection Hrun' as <-.
    destruct (IH _ Hi1) as [ws2 Hi2]. exists (ws1 ++ ws2). by rewrite app_assoc.
Qed.

(** C35: Readers and the module together. From a module whose invariants hold,
    let processes open, read in turns of any size and close measurement files
    of published containers while any entry points run: nothing faults, the
    invariants of the whole module hold with the references of the open files
    counted, and every open file has given its reader exactly the lines of
    the entries before its position, each once and in order, whatever was
    appended in between; a turn with room that gives nothing means that the
    reader has the whole list. *)
Theorem readers_see_everything pcr vs s es st' :
  sys_inv pcr vs s -> fsteps (FState s []) es st' ->
  (exists ws, sys_inv_with (held_by (fs_files st')) pcr (vs ++ ws) (fs_kernel st')) /\
  (forall e, fentry_ok e st' -> is_Some (run_fentry e st')) /\
  (forall i f, fs_files st' !! i = Some f ->
     exists n, container_heap (k_containers (fs_kernel st')) !! of_container f = Some n /\
       of_text f = flat_map container_measurements_seq_show (take (Z.to_nat (of_pos f)) (cn_measurement_list n)) /\
       forall room pos, seq_turn (container_measurements_seq_ops (of_container f)) (S room) (of_pos f) (fs_kernel st') =
           Some ([], pos, fs_kernel st') ->
         of_text f = flat_map container_measurements_seq_show (cn_measurement_list n)).
Proof.
  intros Hi Hs. assert (Hi0 : files_inv pcr vs (FState s [])) by (split; [exact Hi|constructor|apply nothing_held]).
  destruct (fsteps_inv _ _ _ _ _ Hi0 Hs) as [ws Hi']. split; [exists ws; apply Hi'|]. split.
  { intros e He. destruct (fentry_step _ _ e st' Hi' He) as (st2 & -> & _). by eexists. }
  intros i f Hf. destruct (proj1 (Forall_lookup _ _) (fi_files _ _ _ Hi') i f Hf) as (n & Hn & Hp & Ht).
  exists n. split; [done|]. split; [done|]. intros room pos Hturn.
  rewrite (seq_turn_spec _ _ _ _ (measurements_iterate _ _ _ Hn)) in Hturn by lia. injection Hturn as Hturn _.
  rewrite Ht. f_equal. apply take_ge. destruct (drop (Z.to_nat (of_pos f)) (cn_measurement_list n)) as [|e r] eqn:Ed.
  - apply (f_equal length) in Ed. rewrite length_drop in Ed. cbn in Ed. lia.
  - exfalso. apply (f_equal length) in Hturn. cbn [take flat_map] in Hturn. rewrite length_app in Hturn.
    unfold container_measurements_seq_show, NL in Hturn. rewrite !length_app in Hturn. cbn [length] in Hturn. lia.
Qed.
End Files.

(** ** The history file *)

(** The history is not append-only: when a trim replaces the oldest entries
    between two turns, the position of a reader no longer fits and entries are
    skipped. Here a reader that has the first two of four values reads on
    after the trim and never gets the third. *)
Lemma history_reader_skips :
  let show := flat_map merkle_root_history_seq_show in
  exists s' pos,
    seq_turn merkle_root_history_seq_ops 2 0 full_state = Some (show [history_entry x01; history_entry x02], 2, full_state) /\
    trim_merkle_root_history_locked (E := tpm_env) 3 full_state = Some (0, s') /\
    seq_turn merkle_root_history_seq_ops 9 2 s' = Some (show [history_entry x04], pos, s').
Proof.
  cbv zeta. assert (H : match trim_merkle_root_history_locked (E := tpm_env) 3 full_state with
    | Some (0, s') => bool_decide (flat_map merkle_root_history_seq_show (take 9 (drop 2 (merkle_root_history (k_merkle s')))) =
        flat_map merkle_root_history_seq_show [history_entry x04])
    | _ => false end = true) by (vm_compute; reflexivity).
  destruct (trim_merkle_root_history_locked (E := tpm_env) 3 full_state) as [[[] s']|]; try discriminate H.
  apply bool_decide_eq_true in H. rewrite <- H. eexists s', _.
  by rewrite !(seq_turn_spec _ _ _ _ (history_iterates _)).
Qed.

(** ** Witness *)

Definition web_request (data : bytes) : bpfima_measurement_request :=
  MeasurementRequest (strscpy (zeros 256) (lit "exec") 256) (strscpy (zeros 128) (lit "web") 128)
    (strscpy (zeros 256) (lit "/bin/sh") 256) (blit (zeros 256) 0 data) (Z.of_nat (length data)) 1.

(** A reader of the container [web] and two measurements between its turns. *)
Definition reader_run : list fentry :=
  [FOpen 1; FRead 0 4; FEntry (Measure (web_request (lit "aa"))); FRead 0 1; FEntry (Measure (web_request (lit "bb")));
   FEntry Worker; FRead 0 4].

Fixpoint run_fentries (es : list fentry) (st : fstate) : option fstate :=
  match es with [] => Some st | e :: es => match run_fentry (E := tpm_env) e st with Some st => run_fentries es st | None => None end end.

Lemma run_fentries_steps es st st' :
  (forall e st, e ∈ es -> fentry_ok (E := tpm_env) e st) -> run_fentries es st = Some st' -> fsteps (E := tpm_env) st es st'.
Proof.
  revert st. induction es as [|e es IH]; intros st Hok; cbn [run_fentries]; [intros [= ->]; constructor|].
  destruct (run_fentry e st) as [st1|] eqn:Er; [|done]. intros Hr. econstructor; [apply Hok, elem_of_cons; by left|exact Er|].
  apply IH; [|done]. intros e' st2 He. apply Hok, elem_of_cons. by right.
Qed.

Lemma reader_state : exists st1 st',
  run_fentry (E := tpm_env) (FOpen 1) (FState sample_state []) = Some st1 /\ run_fentries (tail reader_run) st1 = Some st' /\
  exists f, fs_files st' !! 0%nat = Some f /\ of_pos f = 2.
Proof.
  assert (H : match run_fentry (E := tpm_env) (FOpen 1) (FState sample_state []) with
    | Some st1 => match run_fentries (tail reader_run) st1 with
       | Some st' => match fs_files st' !! 0%nat with Some f => of_pos f =? 2 | None => false end | None => false end
    | None => false end = true) by (vm_compute; reflexivity).
  destruct (run_fentry _ _) as [st1|] eqn:E1; [|discriminate H]. destruct (run_fentries _ st1) as [st'|] eqn:E2; [|discriminate H].
  destruct (fs_files st' !! 0%nat) as [f|] eqn:Ef; [|discriminate H]. apply Z.eqb_eq in H. by eauto 10.
Qed.

Lemma reader_run_ok e st : e ∈ tail reader_run -> fentry_ok (E := tpm_env) e st.
Proof.
  intros He. cbn [tail reader_run] in He.
  repeat (apply elem_of_cons in He as [->|He]; [first [done|by split]|]). by apply not_elem_of_nil in He.
Qed.

Lemma reader_steps : exists st', fsteps (E := tpm_env) (FState sample_state []) reader_run st' /\
  exists f, fs_files st' !! 0%nat = Some f /\ of_pos f = 2.
Proof.
  destruct reader_state as (st1 & st' & H1 & H2 & Hf). exists st'. split; [|done].
  eapply fsteps_cons; [split; [by left|cbn; unfold INT_MAX; lia]|exact H1|]. by apply run_fentries_steps; [apply reader_run_ok|].
Qed.

Lemma readers_see_everything_witness : exists st' f n,
  fsteps (E := tpm_env) (FState sample_state []) reader_run st' /\ fs_files st' !! 0%nat = Some f /\
  of_text f = flat_map container_measurements_seq_show (take 2 (cn_measurement_list n)).
Proof.
  destruct reader_steps as (st' & Hs & f & Hf & Hp).
  destruct (readers_see_everything (E := tpm_env) (zeros MERKLE_HASH_SIZE) [] sample_state reader_run st' sample_sys_inv Hs)
    as (_ & _ & Hr). destruct (Hr 0%nat f Hf) as (n & _ & Ht & _). rewrite Hp in Ht.
  exists st', f, n. split; [exact Hs|]. split; [exact Hf|exact Ht].
Defined.
