(* ===== verification/Concurrent.v ===== *)
(** * Measurements on several processors

    [bpfima_measurement_extend] holds no lock over its whole body: it looks
    the container up under RCU, creates it under [container_create_mutex],
    commits under [bpfima_commit_mutex] and drops its reference at the end.
    Here the kfunc is cut at these points, any number of invocations run at
    once, and between their pieces any other entry point, the worker that
    frees nodes included. *)

From S2P Require Import Prelude CString Types Kernel Sample Snapshot Wire KfuncBuffer HashUtils Tpm PolicyMap Merkle MerkleSpec MerkleInv PolicyNamespace PolicyManager PolicySpec PolicyInv PolicyLog PolicyBind PolicyAudit Container ContainerSpec ContainerRules ContainerInv Kfuncs KfuncsInv KfuncsSpec Lifecycle LifecycleSpec Frame Requests System EntryFrame SeqFiles.

(** ** The pieces of the kfunc *)

(** Where an invocation with the argument [r] is: [q] is its copy of the
    request and [h] the digest. *)
Inductive phase :=
  | Requested (r : bpfima_measurement_request)
  | Hashed (r q : bpfima_measurement_request) (h : bytes)
  | Creating (r q : bpfima_measurement_request) (h : bytes)
  | Holding (r q : bpfima_measurement_request) (h : bytes) (c : nat)
  | Measured (r : bpfima_measurement_request) (c : nat) (rc : Z)
  | Finished (r : bpfima_measurement_request) (rc : Z).

Section Pieces.
Context {E : KernelEnv}.

Definition advance (p : phase) : K phase :=
  match p with
  | Requested r =>
      match bpfima_prepare_measurement (Some r) SIZEOF_MEASUREMENT_REQUEST
              (uninit (BPFIMA_EVENT_DATA_SIZE + BPFIMA_DEPENDENCIES_SIZE)) 512 with
      | inl e => ret (Finished r e)
      | inr (q, concat_data, total_len) =>
          let* hash := calculate_sha256_hash concat_data (Z.to_nat total_len) in
          match hash with
          | inl e => ret (Finished r e)
          | inr h =>
              let* error := bpfima_commit_get_error in
              ret (if truth error then Finished r error else Hashed r q h)
          end
      end
  | Hashed r q h =>
      let* container := find_container_by_id (Some (effective_ns q)) in
      ret (match container with Some c => Holding r q h c | None => Creating r q h end)
  | Creating r q h =>
      let* container := create_container_node (effective_ns q) in
      ret (match container with
           | PErr e => Finished r e
           | PNull => Finished r (- EINVAL)
           | PVal c => Holding r q h c
           end)
  | Holding r q h c =>
      let* rc := add_container_measurement (Some c) (Some (mr_event_name q)) (Some (mr_additional_data q))
        (Some (mr_dependencies q)) (Some h) in
      ret (Measured r c rc)
  | Measured r c rc => bpfima_put_container (Some c);; ret (Finished r (if rc =? 1 then 0 else rc))
  | Finished r rc => ret (Finished r rc)
  end.

Fixpoint advances (n : nat) (p : phase) : K phase :=
  match n with O => ret p | S n => let* p := advance p in advances n p end.

(** Alone, the pieces in order are the kfunc. *)
Lemma pieces_are_the_kfunc r s :
  advances 5 (Requested r) s =
  (let* rc := bpfima_measurement_extend (Some r) SIZEOF_MEASUREMENT_REQUEST in ret (Finished r rc)) s.
Proof.
  unfold bpfima_measurement_extend, measurement_container. cbn [advances advance].
  destruct (bpfima_prepare_measurement _ _ _ _) as [e|[[q data] len]]; [done|]. unfold bind, ret.
  destruct (calculate_sha256_hash _ _ s) as [[[e|h] s1]|]; [done| |done].
  destruct (bpfima_commit_get_error s1) as [[e s2]|]; [|done]. destruct (truth e); [done|]. cbn [advance]. unfold bind, ret.
  destruct (find_container_by_id _ s2) as [[[c|] s3]|]; [| |done]; cbn [advance]; unfold bind, ret.
  - destruct (add_container_measurement _ _ _ _ _ s3) as [[rc s4]|]; [|done]. cbn [advance]. unfold bind, ret.
    by destruct (bpfima_put_container _ s4) as [[[] s5]|].
  - destruct (create_container_node _ s3) as [[[|e'|c] s4]|]; [done|done| |done]. cbn [advance]. unfold bind, ret.
    destruct (add_container_measurement _ _ _ _ _ s4) as [[rc s5]|]; [|done]. cbn [advance]. unfold bind, ret.
    by destruct (bpfima_put_container _ s5) as [[[] s6]|].
Qed.
End Pieces.

(** ** Interleavings *)

Record cstate := CState { cs_kernel : kstate; cs_threads : list phase }.

Section Interleaving.
Context {E : KernelEnv}.

(** The number of processes bounds the references that can be held at once. *)
Definition max_threads : Z := INT_MAX - 2.

Inductive cstep : cstate -> cstate -> Prop :=
  | c_call s ps r :
      wf_measurement r -> Z.of_nat (length ps) < max_threads -> cstep (CState s ps) (CState s (ps ++ [Requested r]))
  | c_advance s ps i p p' s' :
      ps !! i = Some p -> advance p s = Some (p', s') -> cstep (CState s ps) (CState s' (<[i := p']> ps))
  | c_entry s ps e s' :
      entry_ok e s -> run_entry e s = Some (tt, s') -> cstep (CState s ps) (CState s' ps).

Inductive csteps : cstate -> cstate -> Prop :=
  | csteps_nil st : csteps st st
  | csteps_cons st1 st2 st3 : cstep st1 st2 -> csteps st2 st3 -> csteps st1 st3.

(** The reference that an invocation holds. *)
Definition refs_of (p : phase) : list nat :=
  match p with Holding _ _ _ c | Measured _ c _ => [c] | _ => [] end.

Definition held_refs (ps : list phase) : list nat := flat_map refs_of ps.

(** What a request records: its digest and its container. *)
Definition recorded_pair (r : bpfima_measurement_request) : bytes * bytes :=
  (sha256 (measurement_payload r), cstr (effective_ns r)).

Definition accepted (r q : bpfima_measurement_request) (h : bytes) : Prop :=
  wf_measurement r /\ measurement_valid r /\ q = terminate_data r /\ h = sha256 (measurement_payload r).

(** A published node with this identifier. *)
Definition node_at (c : nat) (ns : bytes) : list_inv.
Proof.
  refine (ListInv (fun d id _ => d = c -> cstr id = cstr ns) (fun d => d = c) (fun d => d = c) _). by intros d id Hd ?.
Defined.

Definition phase_ok (s : kstate) (p : phase) : Prop :=
  match p with
  | Requested r => wf_measurement r
  | Hashed r q h | Creating r q h => accepted r q h
  | Holding r q h c => accepted r q h /\ lists_ok (node_at c (effective_ns r)) s
  | Measured r c rc => rc <= 1 /\ (0 <= rc -> recorded_pair r ∈ seen s)
  | Finished r rc => rc <= 0 /\ (rc = 0 -> recorded_pair r ∈ seen s)
  end.

Record threads_inv (pcr : bytes) (vs : list bytes) (st : cstate) : Prop := ThreadsInv {
  th_sys : sys_inv_with (held_refs (cs_threads st)) pcr vs (cs_kernel st);
  th_phases : Forall (phase_ok (cs_kernel st)) (cs_threads st);
  th_bound : Z.of_nat (length (cs_threads st)) <= max_threads;
}.

(** What every step leaves to the other invocations. *)
Definition stays (s s' : kstate) : Prop :=
  seen s ⊆ seen s' /\ forall c ns, lists_ok (node_at c ns) s -> lists_ok (node_at c ns) s'.

Lemma phase_stays s s' p : stays s s' -> phase_ok s p -> phase_ok s' p.
Proof.
  intros [Hs Hl]. destruct p as [r|r q h|r q h|r q h c|r c rc|r rc]; cbn; try done.
  - intros [Ha Hn]. split; [done|by apply Hl].
  - intros [Hrc Hin]. split; [done|]. intros H. by apply Hs, Hin.
  - intros [Hrc Hin]. split; [done|]. intros H. by apply Hs, Hin.
Qed.

Lemma refs_bounded ps : Z.of_nat (length ps) <= max_threads -> held_bound (held_refs ps).
Proof.
  intros H. assert (Hl : (length (held_refs ps) <= length ps)%nat).
  { unfold held_refs. clear H. induction ps as [|p ps IH]; [done|]. cbn [flat_map]. rewrite length_app.
    cbn [length]. destruct p; cbn [refs_of length]; lia. }
  unfold held_bound, max_threads in *. lia.
Qed.

Lemma held_refs_split (ps : list phase) i p p' :
  ps !! i = Some p -> exists rest, held_refs ps ≡ₚ refs_of p ++ rest /\ held_refs (<[i := p']> ps) ≡ₚ refs_of p' ++ rest.
Proof.
  intros Hi. exists (held_refs (take i ps) ++ held_refs (drop (S i) ps)). unfold held_refs.
  rewrite <- (take_drop_middle ps i p Hi) at 1. rewrite insert_take_drop by (by eapply lookup_lt_Some).
  rewrite !flat_map_app. cbn [flat_map]. split.
  - rewrite !app_assoc. f_equiv. apply Permutation_app_comm.
  - rewrite !app_assoc. f_equiv. apply Permutation_app_comm.
Qed.

Context {L : KernelLaws E}.

Lemma wp_stays {A} (m : K A) Q s :
  keeps m -> (forall c ns, yields (node_at c ns) m anything) -> wp m Q s -> wp m (fun a s' => stays s s' /\ Q a s') s.
Proof.
  intros Hk Hy Hw. unfold wp in *. specialize (Hk s). destruct (m s) as [[a s']|] eqn:Em; [|done].
  split; [|done]. split; [apply Hk|]. intros c ns Hl. specialize (Hy c ns s Hl). rewrite Em in Hy. apply Hy.
Qed.

#[local] Hint Resolve keeps_sha256 keeps_check keeps_find keeps_create keeps_add_measurement keeps_put : keeps.
#[local] Hint Resolve yields_sha256 yields_check yields_find yields_create yields_put : yields.

Lemma keeps_advance p : keeps (advance p).
Proof.
  destruct p; cbn [advance]; unfold bpfima_commit_get_error, find_container_by_id; keep.
Qed.

Lemma yields_advance c ns p : yields (node_at c ns) (advance p) anything.
Proof.
  destruct p; cbn [advance]; unfold bpfima_commit_get_error, find_container_by_id; yield.
  apply yields_add_measurement. intros e x _ _ d id l Hd. exact Hd.
Qed.

Lemma sys_step held held' pcr vs (m : K phase) (R : phase -> kstate -> Prop) s :
  sys_inv_with held pcr vs s -> keeps m ->
  wp m (fun p s' => R p s' /\ exists ws, module_inv pcr (vs ++ ws) (held' p) (globals s) s') s ->
  wp m (fun p s' => R p s' /\ exists ws, sys_inv_with (held' p) pcr (vs ++ ws) s') s.
Proof.
  intros [_ Hp] Hk Hw. eapply wp_mono; [exact (wp_keeps _ _ _ Hk Hw)|]. intros p s' [(Hpol & Hd & _) [HR [ws Hm]]].
  split; [done|]. exists ws. split; [by rewrite (globals_same s s')|]. unfold policy_inv. by rewrite Hpol.
Qed.

Lemma module_same pcr vs h base s : module_inv pcr vs h base s -> exists ws, module_inv pcr (vs ++ ws) h base s.
Proof. intros H. exists []. by rewrite app_nil_r. Qed.

(** The piece before the container is looked up. *)
Lemma advance_requested rest pcr vs r s :
  module_inv pcr vs rest (globals s) s -> wf_measurement r ->
  wp (advance (Requested r)) (fun p' s' => phase_ok s' p' /\ exists ws, module_inv pcr (vs ++ ws) (refs_of p' ++ rest) (globals s) s') s.
Proof.
  intros Hm Hok. cbn [advance].
  destruct (prepare_cases r (uninit (BPFIMA_EVENT_DATA_SIZE + BPFIMA_DEPENDENCIES_SIZE)) Hok)
    as [Hgood Hbad]; [by rewrite uninit_length|].
  destruct (decide (measurement_checked r = true /\ measurement_payload r <> [])) as [[Hc Hne]|Hnot].
  2:{ rewrite measurement_checked_spec in Hnot by done. rewrite Hbad by done. apply wp_ret. cbn. split; [unfold EINVAL; split; lia|by apply module_same]. }
  apply measurement_checked_spec in Hc as Hv; [|done].
  destruct Hgood as (buf & -> & Htake & _ & _); [done|]. rewrite Nat2Z.id.
  apply wp_bind, wp_calculate; [apply Hm|..].
  { intros e n He. apply wp_ret. cbn. split; [split; lia|]. by apply module_same, module_inv_next. }
  intros n0. rewrite Htake. apply wp_bind, wp_commit_check.
  { intros e n He Hcase _. apply truth_true in He as Ht. apply wp_ret. rewrite Ht.
    pose proof (li_error _ _ _ (mi_log _ _ _ _ _ Hm)). cbn in Hcase |- *. split; [split; lia|].
    apply module_same, (module_inv_error pcr vs rest (globals s) e n s); [lia|done]. }
  intros n1 _. apply wp_ret. cbn [truth Z.eqb negb phase_ok refs_of app]. split; [done|]. by apply module_same; repeat apply module_inv_next.
Qed.

(** One piece of one invocation: [rest] are the references of the others. *)
Lemma advance_module rest pcr vs p s :
  module_inv pcr vs (refs_of p ++ rest) (globals s) s -> held_bound (refs_of p ++ rest) -> held_bound rest -> phase_ok s p ->
  wp (advance p) (fun p' s' => phase_ok s' p' /\ exists ws, module_inv pcr (vs ++ ws) (refs_of p' ++ rest) (globals s) s') s.
Proof.
  intros Hm Hb Hb' Hok.
  destruct p as [r|r q h|r q h|r q h c|r c rc|r rc]; cbn [advance refs_of app phase_ok] in *.
  - by apply advance_requested.
  - destruct Hok as (Hwf & Hv & -> & ->). apply wp_bind. eapply (wp_find rest); [apply Hm|done| |].
    + intros _. apply wp_ret. split; [done|]. by apply module_same.
    + intros c n cs Hc Hn Hid Hn' Hi Hag. apply wp_ret. cbn [phase_ok refs_of app]. split; [|by apply module_same; eapply module_inv_agree].
      split; [done|]. split_and!; cbn.
      * intros d m Hd ->. rewrite Hn' in Hd. injection Hd as <-. exact Hid.
      * intros d ->. by rewrite Hn'.
      * intros d ->. by rewrite (ag_list _ _ Hag).
  - destruct Hok as (Hwf & Hv & -> & ->). apply wp_bind.
    eapply wp_mono; [apply (wp_create_post rest (globals s)); [apply Hm|apply Hm|done|exact (effective_ns_ok r Hv)|apply Hm]|].
    intros [|e|c] s1 Hp; [done|..]; apply wp_ret; cbn [phase_ok refs_of app].
    + destruct Hp as [Hlt ->]. split; [split; lia|]. by apply module_same, module_inv_next.
    + destruct Hp as (Hi & Hd & (n & Hn & Hid) & Hin & _ & Hk & Hl & Hs). split.
      * split; [done|]. split_and!; cbn; [|by intros d ->|by intros d ->].
        intros d m Hd' ->. rewrite Hn in Hd'. injection Hd' as <-. exact Hid.
      * apply module_same. eapply (module_inv_outside pcr vs rest _ (globals s) s); [by rewrite Hs|exact Hm|done|apply Hk, Hm|done|done].
  - destruct Hok as ((Hwf & Hv & -> & ->) & Hl & Hlive & Hlist).
    destruct (Hlive c eq_refl) as [n Hn]. specialize (Hlist c eq_refl). pose proof (Hl c n Hn eq_refl) as Hid.
    apply wp_bind. eapply (wp_add pcr vs (c :: rest) (globals s) c n); [done|done|done|exact Hid|apply sha256_length|..].
    + intros rc s1 Hrc Hm1 _. apply wp_ret. cbn. split; [split; lia|by apply module_same].
    + intros s1 Hm1 Hs1 Hin. apply wp_ret. cbn. split; [|by apply module_same]. split; [lia|]. intros _. by rewrite Hs1.
    + intros s1 Hm1 _ Hs1 _. apply wp_ret. cbn. split; [|eauto]. split; [lia|]. intros _. rewrite Hs1. set_solver.
  - destruct Hok as [Hrc Hin]. apply wp_bind. eapply module_inv_put; [exact Hm|]. intros s1 Ho Hm1 _. apply wp_ret.
    cbn [phase_ok refs_of app]. split; [|by apply module_same]. unfold seen in *. rewrite (os_hash _ _ Ho).
    destruct (Z.eqb_spec rc 1) as [->|H1]; (split; [lia|]); intros; apply Hin; lia.
  - apply wp_ret. split; [done|]. by apply module_same.
Qed.

Lemma held_bound_app a b : held_bound (a ++ b) -> held_bound b.
Proof. unfold held_bound. rewrite length_app. lia. Qed.

Lemma advance_inv pcr vs s ps i p :
  threads_inv pcr vs (CState s ps) -> ps !! i = Some p ->
  wp (advance p) (fun p' s' => exists ws, threads_inv pcr (vs ++ ws) (CState s' (<[i := p']> ps))) s.
Proof.
  intros [Hs Hp Hb] Hi. cbn [cs_kernel cs_threads] in *.
  destruct (held_refs_split ps i p p Hi) as (rest & Hrest & _). pose proof (sys_inv_perm _ _ _ _ _ Hrest Hs) as Hs'.
  assert (Hhb : held_bound (refs_of p ++ rest)) by (unfold held_bound; rewrite <- Hrest; by apply refs_bounded).
  pose proof (proj1 (Forall_lookup _ _) Hp i p Hi) as Hok.
  pose proof (advance_module rest pcr vs p s (proj1 Hs') Hhb (held_bound_app _ _ Hhb) Hok) as Hw.
  apply (sys_step (refs_of p ++ rest) (fun p' => refs_of p' ++ rest)) in Hw; [|exact Hs'|apply keeps_advance].
  apply wp_stays in Hw; [|apply keeps_advance|intros; apply yields_advance].
  eapply wp_mono; [exact Hw|]. intros p' s' (Hst & Hok' & ws & Hinv). exists ws. split; cbn [cs_kernel cs_threads].
  - eapply sys_inv_perm; [|exact Hinv]. unfold held_refs.
    destruct (held_refs_split ps i p p' Hi) as (rest' & Hr1 & Hr2). unfold held_refs in Hr2. rewrite Hr2. f_equiv.
    rewrite Hrest in Hr1. by apply Permutation_app_inv_l in Hr1.
  - apply Forall_insert; [|done]. eapply Forall_impl; [exact Hp|]. intros x. by apply phase_stays.
  - by rewrite length_insert.
Qed.

Lemma entry_stays held pcr vs e s s' :
  sys_inv_with held pcr vs s -> held_bound held -> entry_ok e s -> run_entry e s = Some (tt, s') -> stays s s'.
Proof.
  intros Hi Hb Hok Hrun. split.
  - pose proof (entry_grows_with held pcr vs e s Hi Hb Hok) as Hw. unfold wp in Hw. by rewrite Hrun in Hw.
  - intros c ns Hl. eapply (entry_entries (node_at c ns) held pcr vs e s); [exact Hi| |exact Hok| |exact Hl|exact Hrun].
    + intros d ->. apply elem_of_app. left. by apply Hl.
    + destruct e; try done. intros _ _ d id l Hd. exact Hd.
Qed.

Lemma cstep_inv pcr vs st st' : threads_inv pcr vs st -> cstep st st' -> exists ws, threads_inv pcr (vs ++ ws) st'.
Proof.
  intros Hi Hstep. destruct Hstep as [s ps r Hr Hlen|s ps i p p' s' Hp Hrun|s ps e s' Hok Hrun].
  - destruct Hi as [Hs Hp Hb]. cbn [cs_kernel cs_threads] in *. exists []. rewrite app_nil_r. split; cbn [cs_kernel cs_threads].
    + unfold held_refs. rewrite flat_map_app. cbn. by rewrite app_nil_r.
    + apply Forall_app. split; [done|]. by constructor.
    + rewrite length_app. cbn [length]. lia.
  - pose proof (advance_inv pcr vs s ps i p Hi Hp) as Hw. unfold wp in Hw. by rewrite Hrun in Hw.
  - destruct Hi as [Hs Hp Hb]. cbn [cs_kernel cs_threads] in *. pose proof (refs_bounded _ Hb) as Hhb.
    pose proof (entry_step_with _ _ _ _ _ Hs Hhb Hok) as Hw. unfold wp in Hw. rewrite Hrun in Hw. destruct Hw as [ws Hs'].
    exists ws. split; [done| |done]. eapply Forall_impl; [exact Hp|]. intros x. apply phase_stays. by eapply entry_stays.
Qed.

Lemma csteps_inv pcr vs st st' : threads_inv pcr vs st -> csteps st st' -> exists ws, threads_inv pcr (vs ++ ws) st'.
Proof.
  intros Hi Hs. revert vs Hi. induction Hs as [st|st st1 st2 Hstep _ IH]; intros vs Hi; [exists []; by rewrite app_nil_r|].
  destruct (cstep_inv _ _ _ _ Hi Hstep) as [ws Hi1]. destruct (IH _ Hi1) as [ws' Hi2]. exists (ws ++ ws'). by rewrite app_assoc.
Qed.

(** ** Completion *)

Definition pieces_left (p : phase) : nat :=
  match p with
  | Requested _ => 5 | Hashed _ _ _ => 4 | Creating _ _ _ => 3 | Holding _ _ _ _ => 2 | Measured _ _ _ => 1 | Finished _ _ => 0
  end.

Lemma advance_left p s p' s' : advance p s = Some (p', s') -> pieces_left p <> 0%nat -> (pieces_left p' < pieces_left p)%nat.
Proof.
  destruct p as [r|r q h|r q h|r q h c|r c rc|r rc]; cbn [advance]; intros Hrun Hne; [..|done].
  - destruct (bpfima_prepare_measurement _ _ _ _) as [e|[[q data] len]]; [by injection Hrun as <- _; cbn; lia|].
    unfold bind, ret in Hrun. destruct (calculate_sha256_hash _ _ s) as [[[e|h] s1]|]; [by injection Hrun as <- _; cbn; lia| |done].
    destruct (bpfima_commit_get_error s1) as [[e s2]|]; [|done]. injection Hrun as <- _. destruct (truth e); cbn; lia.
  - unfold bind, ret in Hrun. destruct (find_container_by_id _ s) as [[[c|] s1]|]; [..|done]; injection Hrun as <- _; cbn; lia.
  - unfold bind, ret in Hrun. destruct (create_container_node _ s) as [[[|e|c] s1]|]; [..|done]; injection Hrun as <- _; cbn; lia.
  - unfold bind, ret in Hrun. destruct (add_container_measurement _ _ _ _ _ s) as [[rc s1]|]; [|done]. injection Hrun as <- _; cbn; lia.
  - unfold bind, ret in Hrun. destruct (bpfima_put_container _ s) as [[[] s1]|]; [|done]. injection Hrun as <- _; cbn; lia.
Qed.

Definition all_left (ps : list phase) : nat := sum_list_with pieces_left ps.

Lemma all_left_insert (ps : list phase) i p p' :
  ps !! i = Some p -> (all_left (<[i := p']> ps) + pieces_left p = all_left ps + pieces_left p')%nat.
Proof.
  intros Hi. unfold all_left. rewrite <- (take_drop_middle ps i p Hi) at 2. rewrite insert_take_drop by (by eapply lookup_lt_Some).
  rewrite !sum_list_with_app. cbn [sum_list_with]. lia.
Qed.

Definition finished (p : phase) : Prop := pieces_left p = 0%nat.

Lemma all_left_0 ps : all_left ps = 0%nat -> Forall finished ps.
Proof.
  unfold all_left, finished. induction ps as [|p ps IH]; cbn [sum_list_with]; [constructor|]. intros H. constructor; [lia|]. apply IH. lia.
Qed.

Lemma all_left_pos ps : all_left ps <> 0%nat -> exists i p, ps !! i = Some p /\ pieces_left p <> 0%nat.
Proof.
  unfold all_left. induction ps as [|p ps IH]; cbn [sum_list_with]; [done|]. intros H.
  destruct (decide (pieces_left p = 0%nat)) as [H0|H0]; [|by exists 0%nat, p].
  destruct IH as (i & q & Hi & Hq); [lia|]. by exists (S i), q.
Qed.

Lemma finished_refs ps : Forall finished ps -> held_refs ps = [].
Proof. unfold held_refs. induction 1 as [|p ps Hp _ IH]; [done|]. cbn [flat_map]. rewrite IH. by destruct p. Qed.

Lemma csteps_trans st1 st2 st3 : csteps st1 st2 -> csteps st2 st3 -> csteps st1 st3.
Proof. induction 1; [done|]. intros. econstructor; eauto. Qed.

(** The invocations can all be run to their end. *)
Lemma completes pcr vs st : threads_inv pcr vs st -> exists st', csteps st st' /\ Forall finished (cs_threads st').
Proof.
  remember (all_left (cs_threads st)) as n eqn:Hn. revert vs st Hn.
  induction (lt_wf n) as [n _ IH]. intros vs [s ps] Hn Hi. cbn [cs_threads] in Hn.
  destruct (decide (n = 0%nat)) as [H0|H0].
  { exists (CState s ps). split; [constructor|]. apply all_left_0. cbn [cs_threads]. lia. }
  destruct (all_left_pos ps) as (i & p & Hp & Hleft); [lia|].
  pose proof (advance_inv pcr vs s ps i p Hi Hp) as Hw. unfold wp in Hw.
  destruct (advance p s) as [[p' s']|] eqn:Erun; [|done]. destruct Hw as [ws Hi'].
  pose proof (advance_left _ _ _ _ Erun Hleft) as Hlt. pose proof (all_left_insert ps i p p' Hp) as Hsum.
  destruct (IH (all_left (<[i := p']> ps)) ltac:(lia) _ (CState s' (<[i := p']> ps)) eq_refl Hi') as (st' & Hs & Hf).
  exists st'. split; [|done]. eapply csteps_cons; [by eapply c_advance|exact Hs].
Qed.

(** C2: Measurements on several processors. From a module whose invariants
    hold, let any number of invocations of the measurement kfunc run at once,
    cut at the points where it holds no lock, interleaved in any way with each
    other and with all other entry points, the worker that frees unreferenced
    containers included. Then the invariants of the whole module hold with the
    references of the invocations counted; no piece faults, so no container is
    freed under an invocation; an invocation that returned 0 has its digest
    recorded for its container, for good; no container lists a digest twice,
    however many invocations raced with the same request; and the invocations
    can always be completed, after which no reference is left. *)
Theorem concurrent_measurements pcr vs s st :
  sys_inv pcr vs s -> csteps (CState s []) st ->
  (exists ws, sys_inv_with (held_refs (cs_threads st)) pcr (vs ++ ws) (cs_kernel st)) /\
  (forall i p, cs_threads st !! i = Some p -> is_Some (advance p (cs_kernel st))) /\
  (forall i r rc, cs_threads st !! i = Some (Finished r rc) ->
     rc <= 0 /\ (rc = 0 -> recorded_pair r ∈ seen (cs_kernel st))) /\
  (forall c n, container_heap (k_containers (cs_kernel st)) !! c = Some n -> NoDup (en_digest <$> cn_measurement_list n)) /\
  (exists st' ws, csteps st st' /\ Forall finished (cs_threads st') /\ sys_inv pcr (vs ++ ws) (cs_kernel st')).
Proof.
  intros Hi Hs. assert (H0 : threads_inv pcr vs (CState s [])) by (split; [exact Hi|constructor|done]).
  destruct (csteps_inv _ _ _ _ H0 Hs) as [ws Hi']. split_and!.
  - exists ws. apply Hi'.
  - intros i p Hp. destruct st as [s1 ps]. pose proof (advance_inv _ _ _ _ _ _ Hi' Hp) as Hw. unfold wp in Hw. cbn [cs_kernel].
    destruct (advance p s1); [by eexists|done].
  - intros i r rc Hp. exact (proj1 (Forall_lookup _ _) (th_phases _ _ _ Hi') i _ Hp).
  - intros c n Hn. by apply (mi_once _ _ _ _ _ (proj1 (th_sys _ _ _ Hi')) c n).
  - destruct (completes _ _ _ Hi') as (st' & Hst' & Hf). destruct (csteps_inv _ _ _ _ Hi' Hst') as [ws' Hi2].
    exists st', (ws ++ ws'). split_and!; [done|done|]. pose proof (th_sys _ _ _ Hi2) as H. rewrite app_assoc.
    by rewrite (finished_refs _ Hf) in H.
Qed.
End Interleaving.

(** ** Witness *)

(** Two invocations with the same request, one of them begun. *)
Lemma concurrent_start :
  exists st, csteps (E := tpm_env) (CState sample_state []) st /\ length (cs_threads st) = 2%nat /\
    exists q h, cs_threads st !! 0%nat = Some (Hashed sample_measurement q h).
Proof.
  pose (st2 := CState sample_state [Requested sample_measurement; Requested sample_measurement]).
  assert (H2 : csteps (E := tpm_env) (CState sample_state []) st2).
  { eapply csteps_cons; [apply c_call; [apply sample_measurement_wf|done]|].
    eapply csteps_cons; [apply c_call; [apply sample_measurement_wf|done]|]. constructor. }
  destruct (advance (E := tpm_env) (Requested sample_measurement) sample_state) as [[p s1]|] eqn:Er; [|by vm_compute in Er].
  assert (Hp : match p with Hashed _ _ _ => True | _ => False end) by (by (vm_compute in Er; injection Er as <- _)).
  assert (Hr : match p with Hashed r _ _ => r = sample_measurement | _ => False end) by (by (vm_compute in Er; injection Er as <- _)).
  destruct p as [|r q h| | | |]; try done. subst r.
  exists (CState s1 [Hashed sample_measurement q h; Requested sample_measurement]). split; [|split; [done|by exists q, h]].
  eapply csteps_trans; [exact H2|]. eapply csteps_cons; [exact (c_advance sample_state (cs_threads st2) 0%nat (Requested sample_measurement) _ _ eq_refl Er)|constructor].
Qed.

Lemma concurrent_measurements_witness :
  exists st st' ws, csteps (E := tpm_env) (CState sample_state []) st /\ length (cs_threads st) = 2%nat /\
    csteps (E := tpm_env) st st' /\ Forall finished (cs_threads st') /\
    sys_inv (E := tpm_env) (zeros MERKLE_HASH_SIZE) ([] ++ ws) (cs_kernel st').
Proof.
  destruct concurrent_start as (st & Hst & Hlen & _).
  destruct (concurrent_measurements (E := tpm_env) (zeros MERKLE_HASH_SIZE) [] sample_state st sample_sys_inv Hst)
    as (_ & _ & _ & _ & st' & ws & H1 & H2 & H3).
  exists st, st', ws. exact (conj Hst (conj Hlen (conj H1 (conj H2 H3)))).
Defined.
