(* ===== verification/Locking.v ===== *)
(** * Locks: a calculus of critical sections

    What a function of the module does with locks, as a term: the locks it
    takes and drops, where it may sleep, what it asserts and which shared
    data it touches, with the branches, loops and jumps of the source. The
    value of a condition is left open, so a term has all paths of the
    function. [analyse] runs over a term and decides whether every path obeys
    the discipline [monitor]; then any number of invocations run together. *)

From stdpp Require Import relations.
From S2P Require Import Prelude.

(** ** Locks and data *)

(** The locks of the module. [measurement_lock] exists once per container,
    [change_history_lock] once per namespace. *)
Inductive lock :=
  | container_create_mutex
  | bpfima_policy_namespace_mutex
  | bpfima_commit_mutex
  | bpfima_tpm_mutex
  | container_list_lock
  | system_merkle_root_lock
  | measurement_lock
  | merkle_root_history_lock
  | hash_table_lock
  | policy_snapshot_lock
  | change_history_lock
  | global_policy_history_lock.

#[export] Instance lock_eq_decision : EqDecision lock.
Proof. solve_decision. Defined.

Definition is_mutex (l : lock) : bool :=
  match l with
  | container_create_mutex | bpfima_policy_namespace_mutex | bpfima_commit_mutex | bpfima_tpm_mutex => true
  | _ => false
  end.

(** Locks that belong to an object. *)
Definition per_object (l : lock) : bool :=
  match l with measurement_lock | change_history_lock => true | _ => false end.

(** The order in which locks nest. *)
Definition rank (l : lock) : nat :=
  match l with
  | container_create_mutex => 0
  | bpfima_policy_namespace_mutex => 1
  | bpfima_commit_mutex => 2
  | bpfima_tpm_mutex => 3
  | container_list_lock => 4
  | system_merkle_root_lock => 5
  | measurement_lock => 6
  | merkle_root_history_lock => 7
  | hash_table_lock => 8
  | policy_snapshot_lock => 9
  | change_history_lock => 10
  | global_policy_history_lock => 11
  end.

(** The shared data: the latched error and the anchoring mode; the PCR; the
    root; the leaf hash and the list of a container; the history; the digest
    table; the records of the policy map; a map that is not bound yet; the list
    of namespaces; the audit trail of a namespace and of the root. Atomic
    counters and the lists that RCU readers traverse are not here, except for
    the writers of [container_list]. *)
Inductive var :=
  | commit_flags | pcr_value | root_hash | container_log | root_history | digest_table
  | policy_records | unbound_records | namespace_list | namespace_changes | global_changes | container_list.

#[export] Instance var_eq_decision : EqDecision var.
Proof. solve_decision. Defined.

(** A writer holds all of these locks, a reader at least one. *)
Definition guards (v : var) : list lock :=
  match v with
  | commit_flags => [bpfima_commit_mutex]
  | pcr_value => [bpfima_commit_mutex; bpfima_tpm_mutex]
  | root_hash => [bpfima_commit_mutex; system_merkle_root_lock]
  | container_log => [bpfima_commit_mutex; measurement_lock]
  | root_history => [bpfima_commit_mutex; merkle_root_history_lock]
  | digest_table => [bpfima_commit_mutex; hash_table_lock]
  | policy_records => [bpfima_policy_namespace_mutex; policy_snapshot_lock]
  | unbound_records => [bpfima_policy_namespace_mutex]
  | namespace_list => [bpfima_policy_namespace_mutex]
  | namespace_changes => [bpfima_policy_namespace_mutex; change_history_lock]
  | global_changes => [global_policy_history_lock]
  | container_list => [container_list_lock]
  end.

(** ** Terms and paths *)

(** [Acquire l irqsave]: [irqsave] for [spin_lock_irqsave]. *)
Inductive action :=
  | Acquire (l : lock) (irqsave : bool)
  | Release (l : lock)
  | RcuLock | RcuUnlock
  | PreemptOff | PreemptOn
  | AssertHeld (l : lock)
  | MightSleep
  | Reads (v : var)
  | Writes (v : var).

#[export] Instance action_eq_decision : EqDecision action.
Proof. solve_decision. Defined.

(** [Exit n] leaves [n + 1] enclosing blocks: a [return] leaves the block of
    the function, a [goto] the block that ends at its label. *)
Inductive code :=
  | Skip
  | Act (a : action)
  | Seq (c1 c2 : code)
  | Or (c1 c2 : code)
  | Loop (c : code)
  | Block (c : code)
  | Exit (n : nat).

Definition steps (l : list code) : code := foldr Seq Skip l.

Inductive outcome := Normal | Exits (n : nat).

#[export] Instance outcome_eq_decision : EqDecision outcome.
Proof. solve_decision. Defined.

(** The end of a block. *)
Definition leave (o : outcome) : outcome :=
  match o with Normal | Exits O => Normal | Exits (S n) => Exits n end.

Inductive runs : code -> list action -> outcome -> Prop :=
  | runs_skip : runs Skip [] Normal
  | runs_act a : runs (Act a) [a] Normal
  | runs_seq c1 c2 t1 t2 o : runs c1 t1 Normal -> runs c2 t2 o -> runs (Seq c1 c2) (t1 ++ t2) o
  | runs_seq_exit c1 c2 t n : runs c1 t (Exits n) -> runs (Seq c1 c2) t (Exits n)
  | runs_or_l c1 c2 t o : runs c1 t o -> runs (Or c1 c2) t o
  | runs_or_r c1 c2 t o : runs c2 t o -> runs (Or c1 c2) t o
  | runs_loop_end c : runs (Loop c) [] Normal
  | runs_loop c t1 t2 o : runs c t1 Normal -> runs (Loop c) t2 o -> runs (Loop c) (t1 ++ t2) o
  | runs_loop_exit c t n : runs c t (Exits n) -> runs (Loop c) t (Exits n)
  | runs_block c t o : runs c t o -> runs (Block c) t (leave o)
  | runs_exit n : runs (Exit n) [] (Exits n).

(** ** The discipline *)

(** The locks held, the last one first, each with whether it disabled
    interrupts; the depths of RCU sections and of disabled preemption; whether
    the code runs alone (loading and unloading). *)
Record context := Context {
  held : list (lock * bool);
  rcu_depth : nat;
  preempt_depth : nat;
  alone : bool;
}.

#[export] Instance context_eq_decision : EqDecision context.
Proof. solve_decision. Defined.

Definition holding (x : context) (l : lock) : bool := bool_decide (l ∈ (held x).*1).

(** Sleeping is not allowed. *)
Definition atomic (x : context) : bool :=
  existsb (fun h => negb (is_mutex h.1)) (held x) || negb (rcu_depth x =? 0)%nat || negb (preempt_depth x =? 0)%nat.

Definition irqs_disabled (x : context) : bool := existsb snd (held x).

Definition monitor (x : context) (a : action) : option context :=
  match a with
  | Acquire l irqsave =>
      if forallb (fun h => (rank h.1 <? rank l)%nat) (held x) && negb (is_mutex l && atomic x)
      then Some (Context ((l, irqsave) :: held x) (rcu_depth x) (preempt_depth x) (alone x)) else None
  | Release l =>
      match held x with
      | (l', _) :: rest => if bool_decide (l = l') then Some (Context rest (rcu_depth x) (preempt_depth x) (alone x)) else None
      | [] => None
      end
  | RcuLock => Some (Context (held x) (S (rcu_depth x)) (preempt_depth x) (alone x))
  | RcuUnlock =>
      match rcu_depth x with O => None | S n => Some (Context (held x) n (preempt_depth x) (alone x)) end
  | PreemptOff => Some (Context (held x) (rcu_depth x) (S (preempt_depth x)) (alone x))
  | PreemptOn =>
      match preempt_depth x with O => None | S n => Some (Context (held x) (rcu_depth x) n (alone x)) end
  | AssertHeld l => if holding x l then Some x else None
  | MightSleep => if atomic x then None else Some x
  | Reads v => if alone x || existsb (holding x) (guards v) then Some x else None
  | Writes v => if alone x || forallb (holding x) (guards v) then Some x else None
  end.

Fixpoint monitor_all (x : context) (t : list action) : option context :=
  match t with [] => Some x | a :: t => match monitor x a with Some x => monitor_all x t | None => None end end.

Lemma monitor_all_app x t1 t2 :
  monitor_all x (t1 ++ t2) = match monitor_all x t1 with Some y => monitor_all y t2 | None => None end.
Proof. revert x. induction t1 as [|a t1 IH]; intros x; cbn; [done|]. by destruct (monitor x a). Qed.

(** ** The checker *)

Definition results := list (outcome * context).

Fixpoint collect (f : context -> option results) (rs : results) : option results :=
  match rs with
  | [] => Some []
  | (o, x) :: rs =>
      match collect f rs with
      | None => None
      | Some acc =>
          match o with
          | Normal => match f x with Some rs' => Some (remove_dups (rs' ++ acc)) | None => None end
          | Exits _ => Some (remove_dups ((o, x) :: acc))
          end
      end
  end.

(** All ways a term can end when it is entered in [x]; [None] if some path
    breaks the discipline or a loop does not restore its context. *)
Fixpoint analyse (c : code) (x : context) : option results :=
  match c with
  | Skip => Some [(Normal, x)]
  | Act a => match monitor x a with Some y => Some [(Normal, y)] | None => None end
  | Seq c1 c2 => match analyse c1 x with Some rs => collect (analyse c2) rs | None => None end
  | Or c1 c2 =>
      match analyse c1 x, analyse c2 x with Some r1, Some r2 => Some (remove_dups (r1 ++ r2)) | _, _ => None end
  | Loop c =>
      match analyse c x with
      | Some rs =>
          if forallb (fun r => match r.1 with Normal => bool_decide (r.2 = x) | Exits _ => true end) rs
          then Some ((Normal, x) :: rs) else None
      | None => None
      end
  | Block c => match analyse c x with Some rs => Some (remove_dups ((fun r => (leave r.1, r.2)) <$> rs)) | None => None end
  | Exit n => Some [(Exits n, x)]
  end.

Lemma collect_in f rs out r :
  collect f rs = Some out -> r ∈ rs ->
  match r.1 with
  | Normal => exists rs', f r.2 = Some rs' /\ rs' ⊆ out
  | Exits _ => r ∈ out
  end.
Proof.
  revert out. induction rs as [|[o0 x0] rs IH]; intros out Hc Hin; [by apply not_elem_of_nil in Hin|].
  cbn [collect] in Hc. destruct (collect f rs) as [acc|] eqn:Ea; [|done].
  assert (Hacc : acc ⊆ out /\ (forall n, o0 = Exits n -> (o0, x0) ∈ out) /\ (o0 = Normal -> exists rs', f x0 = Some rs' /\ rs' ⊆ out)).
  { assert (Hout : forall l, Some (remove_dups l) = Some out -> forall y, y ∈ l -> y ∈ out)
      by (intros l Hl y Hy; replace out with (remove_dups l) by congruence; by apply elem_of_remove_dups).
    destruct o0; [destruct (f x0) as [rs'|]; [|done]|]; pose proof (Hout _ Hc) as Hin'; clear Hout; split_and!; try done; set_solver. }
  destruct Hacc as (Hsub & Hex & Hnorm). apply elem_of_cons in Hin as [->|Hin]; cbn.
  - destruct o0 as [|n]; [by apply Hnorm|by apply (Hex n)].
  - specialize (IH _ eq_refl Hin). destruct r as [[|n] x]; cbn in *; [destruct IH as (rs' & Hf & Hs); exists rs'; split; [done|by etrans]|by apply Hsub].
Qed.

(** Every path is allowed and ends in one of the results. *)
Theorem analyse_sound c t o :
  runs c t o -> forall x rs, analyse c x = Some rs -> exists y, monitor_all x t = Some y /\ (o, y) ∈ rs.
Proof.
  induction 1 as [|a|c1 c2 t1 t2 o _ IH1 _ IH2|c1 c2 t n _ IH|c1 c2 t o _ IH|c1 c2 t o _ IH|c|c t1 t2 o _ IH1 _ IH2|c t n _ IH|c t o _ IH|n];
    intros x rs Ha; cbn in Ha.
  - injection Ha as <-. eexists. split; [done|set_solver].
  - destruct (monitor x a) as [y|] eqn:Em; [|done]. injection Ha as <-. exists y. cbn. rewrite Em. split; [done|set_solver].
  - destruct (analyse c1 x) as [r1|] eqn:E1; [|done]. destruct (IH1 _ _ E1) as (y & Hy & Hin).
    destruct (collect_in _ _ _ _ Ha Hin) as (r2 & E2 & Hsub). cbn in E2. destruct (IH2 _ _ E2) as (z & Hz & Hin2).
    exists z. rewrite monitor_all_app, Hy. split; [done|set_solver].
  - destruct (analyse c1 x) as [r1|] eqn:E1; [|done]. destruct (IH _ _ E1) as (y & Hy & Hin).
    exists y. split; [done|]. exact (collect_in _ _ _ _ Ha Hin).
  - destruct (analyse c1 x) as [r1|] eqn:E1, (analyse c2 x) as [r2|]; try done. injection Ha as <-.
    destruct (IH _ _ E1) as (y & Hy & Hin). exists y. split; [done|]. rewrite elem_of_remove_dups. set_solver.
  - destruct (analyse c1 x) as [r1|], (analyse c2 x) as [r2|] eqn:E2; try done. injection Ha as <-.
    destruct (IH _ _ E2) as (y & Hy & Hin). exists y. split; [done|]. rewrite elem_of_remove_dups. set_solver.
  - destruct (analyse c x) as [r1|]; [|done]. destruct (forallb _ _); [|done]. injection Ha as <-. eexists. split; [done|set_solver].
  - assert (Hall : analyse (Loop c) x = Some rs) by exact Ha. destruct (analyse c x) as [r1|] eqn:E1; [|done]. destruct (forallb _ _) eqn:Ef; [|done].
    destruct (IH1 _ _ E1) as (y & Hy & Hin). rewrite forallb_forall in Ef. apply list_elem_of_In in Hin.
    specialize (Ef _ Hin). cbn in Ef. apply bool_decide_eq_true in Ef as ->.
    destruct (IH2 x rs) as (z & Hz & Hin2); [exact Hall|].
    exists z. by rewrite monitor_all_app, Hy.
  - destruct (analyse c x) as [r1|] eqn:E1; [|done]. destruct (forallb _ _); [|done]. injection Ha as <-.
    destruct (IH _ _ E1) as (y & Hy & Hin). exists y. split; [done|]. set_solver.
  - destruct (analyse c x) as [r1|] eqn:E1; [|done]. injection Ha as <-. destruct (IH _ _ E1) as (y & Hy & Hin).
    exists y. split; [done|]. rewrite elem_of_remove_dups. apply list_elem_of_fmap. by exists (o, y).
  - injection Ha as <-. eexists. split; [done|set_solver].
Qed.

(** The context of a call: nothing held; a program that may not sleep calls
    with preemption disabled. *)
Definition may_sleep : context := Context [] 0 0 false.
Definition may_not_sleep : context := Context [] 0 1 false.
Definition by_itself : context := Context [] 0 0 true.

(** Every path from [x] obeys the discipline and ends as it began. *)
Definition disciplined (x : context) (c : code) : bool :=
  match analyse c x with Some rs => forallb (fun r => bool_decide (r.2 = x)) rs | None => false end.

Lemma disciplined_path x c t o : disciplined x c = true -> runs c t o -> monitor_all x t = Some x.
Proof.
  unfold disciplined. intros Hd Hr. destruct (analyse c x) as [rs|] eqn:Ea; [|done].
  destruct (analyse_sound _ _ _ Hr _ _ Ea) as (y & Hy & Hin). rewrite forallb_forall in Hd.
  apply list_elem_of_In in Hin. specialize (Hd _ Hin). cbn in Hd. by apply bool_decide_eq_true in Hd as ->.
Qed.

(** ** Invocations that run together *)

(** An invocation: what it still does, the container and the namespace that it
    works on, and its context. *)
Record thread := Thread { todo : list action; object : lock -> nat; here : context }.

Definition owns (t : thread) (l : lock) (k : nat) : Prop := holding (here t) l = true /\ object t l = k.

#[export] Instance owns_decision t l k : Decision (owns t l k).
Proof. apply _. Defined.

Definition proper_object (obj : lock -> nat) : Prop := forall l, per_object l = false -> obj l = 0%nat.

(** One action of one invocation; a lock that another one owns cannot be
    taken. *)
Inductive lstep : list thread -> list thread -> Prop :=
  | lstep_act ts i t a rest x :
      ts !! i = Some t -> todo t = a :: rest -> monitor (here t) a = Some x ->
      (forall l irq, a = Acquire l irq -> Forall (fun u => ~ owns u l (object t l)) ts) ->
      lstep ts (<[i := Thread rest (object t) x]> ts).

(** The same as a function: the next action of [t] among the invocations [all]. *)
Definition act (all : list thread) (t : thread) : option thread :=
  match todo t with
  | [] => None
  | a :: rest =>
      match monitor (here t) a with
      | Some x =>
          if match a with Acquire l _ => bool_decide (Forall (fun u => ~ owns u l (object t l)) all) | _ => true end
          then Some (Thread rest (object t) x) else None
      | None => None
      end
  end.

Lemma act_inv all t t' :
  act all t = Some t' -> exists a rest x, todo t = a :: rest /\ monitor (here t) a = Some x /\ t' = Thread rest (object t) x /\
    forall l irq, a = Acquire l irq -> Forall (fun u => ~ owns u l (object t l)) all.
Proof.
  unfold act. destruct (todo t) as [|a rest]; [done|]. destruct (monitor (here t) a) as [x|] eqn:Em; [|done]. intros H.
  exists a, rest, x. split_and!; [done|done| |intros l irq ->; by case_bool_decide].
  destruct a; try case_bool_decide; try done; by injection H as <-.
Qed.

(** Let the invocations act in the given order. *)
Fixpoint run_threads (order : list nat) (ts : list thread) : option (list thread) :=
  match order with
  | [] => Some ts
  | i :: order =>
      match ts !! i with
      | Some t => match act ts t with Some t' => run_threads order (<[i := t']> ts) | None => None end
      | None => None
      end
  end.

(** Invocations of the functions [cs] that have not begun. *)
Definition started (cs : list code) (t : thread) : Prop :=
  here t = may_sleep /\ proper_object (object t) /\ exists c o, c ∈ cs /\ runs c (todo t) o.

Definition remaining (ts : list thread) : nat := sum_list (length ∘ todo <$> ts).

(** Which container or namespace a datum belongs to. *)
Definition datum (obj : lock -> nat) (v : var) : nat :=
  match v with container_log => obj measurement_lock | namespace_changes => obj change_history_lock | _ => 0%nat end.

(** The access that an invocation is about to make, and whether it writes. *)
Definition next_access (t : thread) : option (var * nat * bool) :=
  match todo t with
  | Reads v :: _ => Some (v, datum (object t) v, false)
  | Writes v :: _ => Some (v, datum (object t) v, true)
  | _ => None
  end.

Lemma holding_spec x l : holding x l = true <-> l ∈ (held x).*1.
Proof. apply bool_decide_eq_true. Qed.

Lemma monitor_alone x a y : monitor x a = Some y -> alone y = alone x.
Proof. destruct a; cbn; repeat case_match; by intros [= <-]. Qed.

Lemma monitor_acquire x l irq y :
  monitor x (Acquire l irq) = Some y -> held y = (l, irq) :: held x /\ forall l', holding x l' = true -> (rank l' < rank l)%nat.
Proof.
  cbn. destruct (forallb _ (held x)) eqn:Ef; [|done]. destruct (is_mutex l && atomic x); [done|]. intros [= <-]. split; [done|].
  intros l' Hl'. apply holding_spec in Hl'. apply list_elem_of_fmap in Hl' as (h & -> & Hin).
  rewrite forallb_forall in Ef. apply Nat.ltb_lt, Ef. by apply list_elem_of_In.
Qed.

(** Only [Acquire] adds a lock. *)
Lemma monitor_held x a y l :
  monitor x a = Some y -> holding y l = true -> holding x l = true \/ exists irq, a = Acquire l irq.
Proof.
  rewrite !holding_spec. destruct a as [l1 irq|l1| | | | | | | |].
  { intros [-> _]%monitor_acquire [->|Hin]%elem_of_cons; [right; by eexists|by left]. }
  { cbn. destruct (held x) as [|[l' irq] h]; [done|]. case_bool_decide; [|done]. intros [= <-] Hin. left. by apply elem_of_cons; right. }
  all: cbn; repeat case_match; intros [= <-]; by left.
Qed.

Section Together.
Variable cs : list code.
Hypothesis checked : forallb (disciplined may_sleep) cs = true.

(** Each invocation finishes properly, and no lock has two owners. *)
Definition thread_ok (t : thread) : Prop :=
  proper_object (object t) /\ alone (here t) = false /\ exists y, monitor_all (here t) (todo t) = Some y /\ held y = [].

Record locks_inv (ts : list thread) : Prop := {
  li_threads : Forall thread_ok ts;
  li_exclusive : forall i j t u l, ts !! i = Some t -> ts !! j = Some u -> owns t l (object t l) -> owns u l (object t l) -> i = j;
}.

Lemma started_locks ts : Forall (started cs) ts -> locks_inv ts.
Proof.
  intros Hs. rewrite Forall_lookup in Hs. split.
  - apply Forall_lookup. intros i t Ht. destruct (Hs i t Ht) as (Hh & Ho & c & o & Hc & Hr). rewrite forallb_forall in checked.
    split; [done|]. rewrite Hh. split; [done|]. exists may_sleep. split; [|done].
    eapply disciplined_path; [apply checked; by apply list_elem_of_In|done].
  - intros i j t u l Ht _ [Hown _]. destruct (Hs i t Ht) as (Hh & _). by rewrite Hh in Hown.
Qed.

Lemma lstep_inv ts ts' : locks_inv ts -> lstep ts ts' -> locks_inv ts'.
Proof.
  intros [Hok Hex] Hstep. destruct Hstep as [ts0 i t a rest x Ht Htodo Hm Hfree]. pose proof (lookup_lt_Some _ _ _ Ht) as Hlt.
  assert (Hnew : forall l k, owns (Thread rest (object t) x) l k -> owns t l k \/ Forall (fun u => ~ owns u l k) ts0).
  { intros l k [Hl Hk]. cbn in Hl, Hk. destruct (monitor_held _ _ _ _ Hm Hl) as [?|[irq ->]]; [by left|right].
    rewrite <- Hk. by eapply Hfree. }
  split.
  - apply Forall_insert; [done|]. rewrite Forall_lookup in Hok. destruct (Hok i t Ht) as (Ho & Ha & y & Hy & Hheld).
    rewrite Htodo in Hy. cbn in Hy. rewrite Hm in Hy. split; [done|]. cbn. split; [by rewrite (monitor_alone _ _ _ Hm)|]. by exists y.
  - intros j k u v l Hu Hv Hou Hov. destruct (decide (j = i)) as [->|Hji], (decide (k = i)) as [->|Hki]; [done|..].
    + rewrite list_lookup_insert_eq in Hu by done. injection Hu as <-. rewrite list_lookup_insert_ne in Hv by done.
      destruct (Hnew _ _ Hou) as [Hold|Hnone]; [exact (Hex i k t v l Ht Hv Hold Hov)|].
      rewrite Forall_lookup in Hnone. by destruct (Hnone k v Hv).
    + rewrite list_lookup_insert_eq in Hv by done. injection Hv as <-. rewrite list_lookup_insert_ne in Hu by done.
      destruct (Hnew _ _ Hov) as [Hold|Hnone]; [exact (Hex j i u t l Hu Ht Hou Hold)|].
      rewrite Forall_lookup in Hnone. by destruct (Hnone j u Hu).
    + rewrite list_lookup_insert_ne in Hu by done. rewrite list_lookup_insert_ne in Hv by done. exact (Hex j k u v l Hu Hv Hou Hov).
Qed.

Lemma lsteps_inv ts ts' : locks_inv ts -> rtc lstep ts ts' -> locks_inv ts'.
Proof. intros Hi Hs. induction Hs as [|ts ts1 ts2 H1 _ IH]; [done|]. eapply IH, lstep_inv; done. Qed.

Lemma run_threads_steps order ts ts' : run_threads order ts = Some ts' -> rtc lstep ts ts'.
Proof.
  revert ts. induction order as [|i order IH]; intros ts H; cbn in H; [by injection H as <-|].
  destruct (ts !! i) as [t|] eqn:Ei; [|done]. destruct (act ts t) as [t'|] eqn:Ea; [|done].
  destruct (act_inv _ _ _ Ea) as (a & rest & x & Ht & Hm & -> & Hl). eapply rtc_l; [by eapply lstep_act|by apply IH].
Qed.

(** What is left of the order above the lock that comes next. *)
Definition above (a : action) : nat := match a with Acquire l _ => 12 - rank l | _ => 0 end.

(** An owner of a lock is not finished, and asks only for locks above it. *)
Lemma owner_next u l :
  thread_ok u -> holding (here u) l = true ->
  exists a rest x, todo u = a :: rest /\ monitor (here u) a = Some x /\ (above a < 12 - rank l)%nat.
Proof.
  intros (_ & _ & y & Hy & Hnil) Hl. destruct (todo u) as [|a rest]; cbn in Hy.
  { injection Hy as <-. apply holding_spec in Hl. rewrite Hnil in Hl. by apply not_elem_of_nil in Hl. }
  destruct (monitor (here u) a) as [x|] eqn:Em; [|done]. exists a, rest, x. split_and!; try done.
  assert (rank l < 12)%nat by (destruct l; cbn; lia). destruct a; cbn [above]; try lia.
  destruct (monitor_acquire _ _ _ _ Em) as [_ Hr]. specialize (Hr _ Hl). destruct l0; cbn in *; lia.
Qed.

Lemma lock_progress n ts i t a rest x :
  Forall thread_ok ts -> ts !! i = Some t -> todo t = a :: rest -> monitor (here t) a = Some x -> (above a < n)%nat ->
  exists ts', lstep ts ts'.
Proof.
  intros Hok. revert i t a rest x. induction n as [|n IH]; intros i t a rest x Ht Htodo Hm Hn; [lia|].
  assert (Hgo : (forall l irq, a = Acquire l irq -> Forall (fun u => ~ owns u l (object t l)) ts) -> exists ts', lstep ts ts')
    by (intros H; eexists; by eapply lstep_act).
  destruct a as [l irq| | | | | | | | |]; try by apply Hgo.
  destruct (decide (Exists (fun u => owns u l (object t l)) ts)) as [Hb|Hb]; [|apply Hgo; intros ? ? [= <- <-]; by apply not_Exists_Forall in Hb; [|apply _]].
  apply Exists_exists in Hb as (u & Hin & Hl & _). apply list_elem_of_lookup in Hin as [j Hj].
  destruct (owner_next u l) as (a' & rest' & x' & Ht' & Hm' & Hlt); [rewrite Forall_lookup in Hok; by eapply Hok|done|].
  eapply (IH j); [done..|]. cbn [above] in Hn. lia.
Qed.

Lemma remaining_step ts ts' : lstep ts ts' -> remaining ts = S (remaining ts').
Proof.
  intros [ts0 i t a rest x Ht Htodo _ _]. unfold remaining. revert i Ht. induction ts0 as [|u ts0 IH]; intros [|i] Ht; try done; cbn in *.
  - injection Ht as ->. rewrite Htodo. cbn. lia.
  - rewrite (IH i Ht). apply Nat.add_succ_r.
Qed.

Lemma finish n ts : remaining ts = n -> locks_inv ts -> exists ts', rtc lstep ts ts' /\ remaining ts' = 0%nat.
Proof.
  revert ts. induction n as [|n IH]; intros ts Hn Hi; [by exists ts|]. pose proof (li_threads _ Hi) as Hok.
  assert (Hex : Exists (fun t => todo t <> []) ts).
  { apply not_Forall_Exists; [apply _|]. intros Hall. unfold remaining in Hn. clear -Hn Hall. revert n Hn. 
    induction Hall as [|t ts Ht _ IH]; intros n Hn; [done|]. cbn in Hn. rewrite Ht in Hn. by eapply IH. }
  apply Exists_exists in Hex as (t & Hin & Hne). apply list_elem_of_lookup in Hin as [i Ht].
  pose proof (proj1 (Forall_lookup _ _) Hok i t Ht) as (_ & _ & y & Hy & _). destruct (todo t) as [|a rest] eqn:Etodo; [done|].
  cbn in Hy. destruct (monitor (here t) a) as [x|] eqn:Em; [|done].
  destruct (lock_progress (S (above a)) ts i t a rest x) as [ts1 H1]; [done..|lia|].
  pose proof (remaining_step _ _ H1) as Hr. pose proof (lstep_inv _ _ Hi H1) as Hi1.
  destruct (IH ts1) as (ts2 & Hs & Hz); [lia|done|]. exists ts2. split; [by eapply rtc_l|done].
Qed.

(** Two invocations that are about to access the same datum: both read. *)
Lemma no_conflict ts i j t u v k w1 w2 :
  locks_inv ts -> i <> j -> ts !! i = Some t -> ts !! j = Some u ->
  next_access t = Some (v, k, w1) -> next_access u = Some (v, k, w2) -> w1 = true -> False.
Proof.
  intros [Hok Hex] Hij Ht Hu Hat Hau ->. rewrite Forall_lookup in Hok.
  destruct (Hok i t Ht) as (Hot & Hal & y & Hy & _), (Hok j u Hu) as (Hou & Halu & z & Hz & _).
  unfold next_access in Hat, Hau. destruct (todo t) as [|[] ?]; try done. destruct (todo u) as [|au ?]; [done|].
  injection Hat as -> Hk. cbn in Hy, Hz. rewrite Hal in Hy. destruct (forallb (holding (here t)) (guards v)) eqn:Ew; [|done].
  assert (Hr : existsb (holding (here u)) (guards v) = true /\
    k = datum (object u) v).
  { destruct au; try done; injection Hau as -> Hk'; cbn in Hz; rewrite Halu in Hz; cbn in Hz.
    - by destruct (existsb _ _).
    - destruct (forallb (holding (here u)) (guards v)) eqn:Ef; [|done]. split; [|done]. by destruct v; cbn in *; apply andb_true_iff in Ef as [-> _]. }
  destruct Hr as [Hr Hk']. apply existsb_exists in Hr as (g & Hg & Hhg). rewrite forallb_forall in Ew. specialize (Ew g Hg).
  apply Hij, (Hex i j t u g Ht Hu); [done|]. split; [done|].
  destruct (per_object g) eqn:Ep; [|by rewrite (Hot g Ep), (Hou g Ep)].
  destruct v; cbn in Hg; repeat (destruct Hg as [<-|Hg]; [try discriminate Ep; cbn [datum] in *; congruence|]); done.
Qed.
End Together.

(** ** Interrupts *)

(** A processor is a stack of invocations: what it runs first, then what was
    interrupted. With interrupts enabled, a program may interrupt it and call
    one of the functions [irqs]; only the top of the stack runs. *)
Inductive istep (irqs : list code) : list (list thread) -> list (list thread) -> Prop :=
  | istep_act cpus i t below a rest x :
      cpus !! i = Some (t :: below) -> todo t = a :: rest -> monitor (here t) a = Some x ->
      (forall l irq, a = Acquire l irq -> Forall (fun u => ~ owns u l (object t l)) (concat cpus)) ->
      istep irqs cpus (<[i := Thread rest (object t) x :: below]> cpus)
  | istep_irq cpus i frames t c o :
      cpus !! i = Some frames -> Forall (fun f => irqs_disabled (here f) = false) frames ->
      c ∈ irqs -> runs c (todo t) o -> proper_object (object t) -> here t = may_not_sleep ->
      istep irqs cpus (<[i := t :: frames]> cpus)
  | istep_return cpus i t below :
      cpus !! i = Some (t :: below) -> todo t = [] -> below <> [] -> istep irqs cpus (<[i := below]> cpus).

(** Let the tops of the processors act in the given order. *)
Fixpoint run_cpus (order : list nat) (cpus : list (list thread)) : option (list (list thread)) :=
  match order with
  | [] => Some cpus
  | i :: order =>
      match cpus !! i with
      | Some (t :: below) =>
          match act (concat cpus) t with Some t' => run_cpus order (<[i := t' :: below]> cpus) | None => None end
      | _ => None
      end
  end.

Lemma run_cpus_steps irqs order cpus cpus' : run_cpus order cpus = Some cpus' -> rtc (istep irqs) cpus cpus'.
Proof.
  revert cpus. induction order as [|i order IH]; intros cpus H; cbn in H; [by injection H as <-|].
  destruct (cpus !! i) as [[|t below]|] eqn:Ei; try done. destruct (act (concat cpus) t) as [t'|] eqn:Ea; [|done].
  destruct (act_inv _ _ _ Ea) as (a & rest & x & Ht & Hm & -> & Hl). eapply rtc_l; [by eapply istep_act|by apply IH].
Qed.

(** Two processors that wait for each other: [c] has the lock [l1] and wants
    [l2] with interrupts disabled; [r] has [l2] and was interrupted by [g],
    which wants [l1]. *)
Record crossed (l1 l2 : lock) (cpus : list (list thread)) : Prop := Crossed {
  cr_shape : exists fs g r c rest1 rest2 irq1 irq2,
    cpus = [fs ++ [g; r]; [c]] /\
    todo g = Acquire l1 irq1 :: rest1 /\ todo c = Acquire l2 irq2 :: rest2 /\ todo r <> [] /\
    irqs_disabled (here c) = true /\ owns c l1 (object g l1) /\ owns r l2 (object c l2);
}.

Lemma crossed_forever irqs l1 l2 cpus cpus' :
  crossed l1 l2 cpus -> istep irqs cpus cpus' -> crossed l1 l2 cpus' /\ cpus' !! 1%nat = cpus !! 1%nat.
Proof.
  intros [(fs & g & r & c & rest1 & rest2 & irq1 & irq2 & -> & Hg & Hc & Hr & Hirq & Hoc & Hor)] Hstep.
  assert (Hkeep : forall fs', crossed l1 l2 [fs' ++ [g; r]; [c]]) by (intros fs'; constructor; by exists fs', g, r, c, rest1, rest2, irq1, irq2).
  assert (Hfree : forall k l (P : Prop), owns r l k \/ owns c l k ->
    Forall (fun u => ~ owns u l k) (concat [fs ++ [g; r]; [c]]) -> P).
  { intros k l P Ho Hall. cbn in Hall. rewrite !Forall_app, !Forall_cons in Hall. destruct Ho; naive_solver. }
  inversion Hstep as [cpus0 i t below a rest x Hi Ht Hm Hlock|cpus0 i frames t c0 o Hi Hen _ _ _ _|cpus0 i t below Hi Ht Hne]; subst.
  - destruct i as [|[|i]]; [| |by destruct i].
    + destruct fs as [|f fs]; injection Hi as <- <-.
      * rewrite Hg in Ht. injection Ht as <- <-. eapply (Hfree _ l1); [right; exact Hoc|by eapply Hlock].
      * split; [apply (Hkeep (_ :: fs))|done].
    + injection Hi as <- <-. rewrite Hc in Ht. injection Ht as <- <-. eapply (Hfree _ l2); [left; exact Hor|by eapply Hlock].
  - destruct i as [|[|i]]; [| |by destruct i]; injection Hi as <-.
    + split; [apply (Hkeep (t :: fs))|done].
    + apply Forall_cons in Hen as [Hen _]. congruence.
  - destruct i as [|[|i]]; [| |by destruct i].
    + destruct fs as [|f fs]; injection Hi as <- <-; [congruence|]. split; [apply (Hkeep fs)|done].
    + injection Hi as <- <-. congruence.
Qed.
