(* ===== verification/LockModel.v ===== *)
(** * The critical sections of the module

    For every function of [src/src] that takes a lock, sleeps, asserts a lock or
    touches shared data, and for those that call them, the term of its critical
    sections, branch by branch. A parameter of a term is a condition that two
    branches of the function share. Services of the kernel that may sleep
    (allocation with [GFP_KERNEL], copies from user space, securityfs, the TPM
    driver, which takes a mutex even to find the chip) are [might_sleep]. *)

From S2P Require Import Prelude Locking.

(** ** The primitives *)

Definition mutex_lock (l : lock) : code := Act (Acquire l false).
Definition spin_lock (l : lock) : code := Act (Acquire l false).
Definition spin_lock_irqsave (l : lock) : code := Act (Acquire l true).
Definition unlock (l : lock) : code := Act (Release l).
Definition rcu_read_lock : code := Act RcuLock.
Definition rcu_read_unlock : code := Act RcuUnlock.
Definition lockdep_assert_held (l : lock) : code := Act (AssertHeld l).
Definition might_sleep : code := Act MightSleep.
Definition reads (v : var) : code := Act (Reads v).
Definition writes (v : var) : code := Act (Writes v).

(** A conditional without [else], and a [return] from the function body. *)
Definition when (l : list code) : code := Or (steps l) Skip.
Definition return' : code := Exit 0.
Definition function (l : list code) : code := Block (steps l).

(** ** tpm_ops.c *)

Definition tpm_default_chip : code := might_sleep.
Definition put_device : code := might_sleep.

Definition bpfima_tpm_available_locks : code := function [tpm_default_chip; when [return']; put_device].

Definition extend_tpm_pcr_locks : code :=
  function
   [when [return']; when [return']; when [return'];
    mutex_lock bpfima_tpm_mutex;
    tpm_default_chip;
    when [unlock bpfima_tpm_mutex; return'];
    when [put_device; unlock bpfima_tpm_mutex; return'];
    when [put_device; unlock bpfima_tpm_mutex; return'];
    might_sleep;
    when [put_device; unlock bpfima_tpm_mutex; return'];
    might_sleep; writes pcr_value;
    put_device;
    unlock bpfima_tpm_mutex].

(** ** hash_utils.c *)

Definition calculate_sha256_hash_locks : code := function [when [return']; Act PreemptOff; Act PreemptOn].

Definition hash_exists_locks : code :=
  function [spin_lock_irqsave hash_table_lock; Loop (reads digest_table); unlock hash_table_lock].

Definition bpfima_alloc_hash_entry_locks : code := function [might_sleep].

Definition bpfima_publish_hash_entry_locks : code :=
  function [lockdep_assert_held bpfima_commit_mutex;
    spin_lock_irqsave hash_table_lock; writes digest_table; unlock hash_table_lock].

Definition cleanup_hash_table_locks : code :=
  function [spin_lock_irqsave hash_table_lock; Loop (writes digest_table); unlock hash_table_lock].

(** ** policy_manager.c: readers that the commit uses *)

Definition map_state_locks : code := function [rcu_read_lock; rcu_read_unlock].
Definition active_state_locks : code := function [map_state_locks; when [map_state_locks]].

Definition bpfima_policy_get_config_locks : code :=
  function
   [rcu_read_lock;
    when [spin_lock_irqsave policy_snapshot_lock; map_state_locks; map_state_locks; reads policy_records; unlock policy_snapshot_lock];
    rcu_read_unlock].

(** ** merkle.c *)

Definition bpfima_commit_init_locks : code :=
  function [mutex_lock bpfima_commit_mutex; writes commit_flags; unlock bpfima_commit_mutex].

Definition bpfima_commit_hardware_allowed_locks : code :=
  function [lockdep_assert_held bpfima_commit_mutex; reads commit_flags].
Definition bpfima_commit_requires_hardware_locks : code :=
  function [lockdep_assert_held bpfima_commit_mutex; reads commit_flags].

Definition bpfima_commit_check_locks : code :=
  function
   [lockdep_assert_held bpfima_commit_mutex; reads commit_flags;
    when [bpfima_tpm_available_locks;
      Or (writes commit_flags) (steps [bpfima_commit_hardware_allowed_locks; when [writes commit_flags]])];
    reads commit_flags].

Definition bpfima_commit_fail_locks : code :=
  function [lockdep_assert_held bpfima_commit_mutex; reads commit_flags; when [writes commit_flags]].

Definition bpfima_commit_get_error_locks : code :=
  function [mutex_lock bpfima_commit_mutex; bpfima_commit_check_locks; unlock bpfima_commit_mutex].

Definition bpfima_alloc_history_entry_locks : code := function [might_sleep].

Definition bpfima_publish_history_entry_locks : code :=
  function [lockdep_assert_held bpfima_commit_mutex;
    spin_lock_irqsave merkle_root_history_lock; writes root_history; unlock merkle_root_history_lock].

(** The aggregate is computed over the entries that were taken out. *)
Definition trim_merkle_root_history_locks : code :=
  function
   [lockdep_assert_held bpfima_commit_mutex;
    when [return'];
    when [might_sleep];
    when [return'];
    spin_lock_irqsave merkle_root_history_lock; Loop (writes root_history); unlock merkle_root_history_lock;
    when [spin_lock_irqsave merkle_root_history_lock; writes root_history; unlock merkle_root_history_lock; return'];
    spin_lock_irqsave merkle_root_history_lock; writes root_history; unlock merkle_root_history_lock].

Definition bpfima_trim_history_locks : code :=
  function
   [lockdep_assert_held bpfima_commit_mutex; bpfima_policy_get_config_locks;
    when [return'];
    when [trim_merkle_root_history_locks]].

(** [container] and [deduplicate]: the conditions on the arguments. The inner
    block ends at the label [free_history]. *)
Definition commit_event_locks (container deduplicate : bool) : code :=
  function
   [lockdep_assert_held bpfima_commit_mutex;
    bpfima_commit_check_locks;
    when [return'];
    when [return'];
    if deduplicate then
      steps [if container then Skip else return';
        hash_exists_locks; when [return'];
        bpfima_alloc_hash_entry_locks; when [return']]
    else Skip;
    bpfima_alloc_history_entry_locks;
    when [return'];
    Block (steps
     [if container then
        steps [spin_lock_irqsave measurement_lock; reads container_log; unlock measurement_lock; when [Exit 0]]
      else Skip;
      spin_lock_irqsave system_merkle_root_lock; reads root_hash; unlock system_merkle_root_lock;
      when [Exit 0];
      bpfima_commit_hardware_allowed_locks;
      extend_tpm_pcr_locks;
      reads commit_flags;
      when [when [bpfima_commit_fail_locks]; Exit 0];
      when [writes commit_flags];
      spin_lock_irqsave system_merkle_root_lock;
      if container then steps [spin_lock measurement_lock; writes container_log] else Skip;
      bpfima_publish_history_entry_locks;
      writes root_hash;
      if container then unlock measurement_lock else Skip;
      unlock system_merkle_root_lock;
      if deduplicate then bpfima_publish_hash_entry_locks else Skip;
      writes commit_flags;
      bpfima_trim_history_locks;
      Exit 1])].

Definition bpfima_commit_measurement_locks (deduplicate : bool) : code :=
  function [when [return']; commit_event_locks true deduplicate].
Definition bpfima_commit_root_locks : code := function [commit_event_locks false false].

(** measurements.c, with the flags [GFP_KERNEL] of its only caller. *)
Definition create_measurement_entry_locks : code := function [when [return']; might_sleep].

Definition add_container_measurement_locks : code :=
  function
   [when [return']; when [return'];
    mutex_lock bpfima_commit_mutex;
    Block (steps
     [bpfima_commit_check_locks; when [Exit 0];
      hash_exists_locks; when [Exit 0];
      create_measurement_entry_locks; when [Exit 0];
      bpfima_commit_measurement_locks true]);
    unlock bpfima_commit_mutex].

Definition cleanup_merkle_root_history_locks : code :=
  function [spin_lock_irqsave merkle_root_history_lock; Loop (writes root_history); unlock merkle_root_history_lock].

(** ** policy_namespace.c *)

Definition find_policy_namespace_locks : code :=
  function [lockdep_assert_held bpfima_policy_namespace_mutex; Loop (reads namespace_list)].

Definition bpfima_policy_namespace_get_locks : code :=
  function
   [lockdep_assert_held bpfima_policy_namespace_mutex; when [return'];
    find_policy_namespace_locks; when [return'];
    might_sleep; when [return'];
    writes namespace_list].

Definition bpfima_policy_namespace_get_or_create_locks : code :=
  function [mutex_lock bpfima_policy_namespace_mutex; bpfima_policy_namespace_get_locks; unlock bpfima_policy_namespace_mutex].

Definition bpfima_policy_namespace_get_changes_hash_locks : code :=
  function
   [when [return']; mutex_lock bpfima_policy_namespace_mutex;
    find_policy_namespace_locks; when [reads namespace_changes];
    unlock bpfima_policy_namespace_mutex].

Definition free_namespace_locks : code := function [Loop (writes namespace_changes); writes namespace_list].

Definition bpfima_policy_namespace_remove_locks : code :=
  function
   [mutex_lock bpfima_policy_namespace_mutex; find_policy_namespace_locks; when [free_namespace_locks];
    unlock bpfima_policy_namespace_mutex].

Definition bpfima_policy_namespace_cleanup_locks : code :=
  function [mutex_lock bpfima_policy_namespace_mutex; Loop free_namespace_locks; unlock bpfima_policy_namespace_mutex].

(** ** policy_manager.c *)

Definition snapshot_digest_locks : code := function [might_sleep; when [return']; calculate_sha256_hash_locks].

(** [metadata]: a namespace is given. The block ends at [free_change]. *)
Definition publish_policy_locks (metadata : bool) : code :=
  function
   [map_state_locks;
    lockdep_assert_held bpfima_policy_namespace_mutex;
    when [return'];
    map_state_locks; when [return'];
    might_sleep; when [return'];
    Block (steps
     [snapshot_digest_locks; when [Exit 0];
      calculate_sha256_hash_locks; when [Exit 0];
      if metadata then steps [reads namespace_changes; calculate_sha256_hash_locks; when [Exit 0]] else Skip;
      spin_lock_irqsave policy_snapshot_lock; writes policy_records; unlock policy_snapshot_lock;
      mutex_lock bpfima_commit_mutex;
      bpfima_commit_root_locks;
      when
       [if metadata
        then steps [spin_lock_irqsave change_history_lock; writes namespace_changes; unlock change_history_lock]
        else steps [spin_lock_irqsave global_policy_history_lock; writes global_changes; unlock global_policy_history_lock];
        spin_lock_irqsave policy_snapshot_lock; unlock policy_snapshot_lock];
      unlock bpfima_commit_mutex;
      when [Exit 1]])].

(** The blocks end at [put_map] and [unlock]. The map is not bound yet. *)
Definition bpfima_policy_bind_map_locks : code :=
  function
   [when [return'];
    Block (steps
     [when [Exit 0]; when [Exit 0]; when [Exit 0];
      might_sleep; when [Exit 0];
      mutex_lock bpfima_policy_namespace_mutex;
      Block (steps
       [when [when [bpfima_commit_get_error_locks]; Exit 0];
        Loop (steps [map_state_locks; reads unbound_records; when [Exit 0]]);
        publish_policy_locks false;
        when [Loop (steps [map_state_locks; writes unbound_records])]]);
      unlock bpfima_policy_namespace_mutex;
      might_sleep])].

(** The two branches: an extension, with its namespace, and the root. The
    block ends at [free_candidate]. *)
Definition apply_locks : code :=
  function
   [lockdep_assert_held bpfima_policy_namespace_mutex;
    when [return'];
    bpfima_commit_get_error_locks; when [return'];
    active_state_locks; reads policy_records; when [return'];
    might_sleep; when [return'];
    Block (steps
     [reads policy_records; when [Exit 0]; when [Exit 0];
      Or (steps [when [Exit 0]; bpfima_policy_namespace_get_locks; when [Exit 0];
            reads policy_records; when [Exit 0]; publish_policy_locks true])
         (steps [reads policy_records; when [Exit 0]; publish_policy_locks false])]);
    might_sleep].

Definition bpfima_policy_apply_locks : code :=
  function [when [return']; mutex_lock bpfima_policy_namespace_mutex; apply_locks; unlock bpfima_policy_namespace_mutex].

Definition bpfima_policy_update_field_locks : code :=
  function
   [when [return']; might_sleep; when [return'];
    mutex_lock bpfima_policy_namespace_mutex;
    Block (steps [when [Exit 0]; active_state_locks; reads policy_records; when [Exit 0]; apply_locks]);
    unlock bpfima_policy_namespace_mutex].

Definition bpfima_policy_read_locked_locks : code :=
  function
   [lockdep_assert_held bpfima_policy_namespace_mutex; when [return']; active_state_locks; reads policy_records].

Definition bpfima_policy_read_locks : code :=
  function [mutex_lock bpfima_policy_namespace_mutex; bpfima_policy_read_locked_locks; unlock bpfima_policy_namespace_mutex].

Definition bpfima_policy_generation_locks : code := function [rcu_read_lock; when [map_state_locks]; rcu_read_unlock].
Definition bpfima_policy_map_id_locks : code := function [rcu_read_lock; rcu_read_unlock].

Definition bpfima_policy_resolve_context_locks : code :=
  function
   [when [return'];
    mutex_lock bpfima_policy_namespace_mutex;
    Block (steps [when [Exit 0]; active_state_locks; reads policy_records]);
    unlock bpfima_policy_namespace_mutex].

Definition bpfima_policy_match_root_locks : code :=
  function
   [mutex_lock bpfima_policy_namespace_mutex;
    when [active_state_locks; reads policy_records; might_sleep];
    unlock bpfima_policy_namespace_mutex].

Definition bpfima_global_policy_cleanup_history_locks : code :=
  function [spin_lock_irqsave global_policy_history_lock; Loop (writes global_changes); unlock global_policy_history_lock].

Definition bpfima_policy_cleanup_locks : code :=
  function
   [mutex_lock bpfima_policy_namespace_mutex; unlock bpfima_policy_namespace_mutex;
    might_sleep; bpfima_global_policy_cleanup_history_locks].

(** ** The files of a namespace: policy_securityfs.c, securityfs_utils.c *)

(** The copy of the name, then the file. *)
Definition create_namespace_policy_securityfs_locks : code :=
  function [when [return']; might_sleep; when [return']; might_sleep; when [return']].
Definition create_namespace_policy_changes_securityfs_locks : code :=
  function [when [return']; might_sleep; when [return']; might_sleep; when [return']].
Definition remove_namespace_policy_securityfs_locks : code := function [when [return']; might_sleep].
Definition remove_namespace_policy_changes_securityfs_locks : code := function [when [return']; might_sleep].

Definition create_container_securityfs_locks : code :=
  function
   [when [return'];
    might_sleep; when [return'];
    might_sleep; when [might_sleep; return'];
    create_namespace_policy_securityfs_locks;
    create_namespace_policy_changes_securityfs_locks].

Definition remove_container_securityfs_locks : code :=
  function
   [when [remove_namespace_policy_changes_securityfs_locks];
    when [remove_namespace_policy_securityfs_locks];
    when [might_sleep];
    when [might_sleep]].

(** ** container.c *)

(** Queueing the work does not sleep. *)
Definition bpfima_put_container_locks : code := Skip.
Definition find_container_by_id_locks : code := function [rcu_read_lock; rcu_read_unlock].

Definition create_container_node_locked_locks : code :=
  function
   [find_container_by_id_locks; when [return'];
    might_sleep; when [return'];
    might_sleep; when [return'];
    create_container_securityfs_locks;
    when [when [find_container_by_id_locks; when [return']]; return'];
    bpfima_policy_namespace_get_or_create_locks;
    spin_lock_irqsave container_list_lock;
    when [unlock container_list_lock; remove_container_securityfs_locks; return'];
    writes container_list;
    unlock container_list_lock].

Definition create_container_node_locks : code :=
  function [mutex_lock container_create_mutex; create_container_node_locked_locks; unlock container_create_mutex].

Definition cleanup_container_measurements_locks : code :=
  function [when [return']; spin_lock measurement_lock; Loop (writes container_log); unlock measurement_lock].

Definition container_node_free_work_locks : code :=
  function [cleanup_container_measurements_locks; bpfima_policy_namespace_remove_locks].

Definition cleanup_all_containers_locks : code :=
  function
   [spin_lock_irqsave container_list_lock; writes container_list; unlock container_list_lock;
    Loop (steps [remove_container_securityfs_locks; bpfima_put_container_locks]);
    might_sleep].

Definition bpfima_container_init_locks : code := function [might_sleep].
Definition bpfima_container_cleanup_locks : code := function [might_sleep; might_sleep].

(** ** The kfuncs *)

Definition bpfima_measurement_extend_locks : code :=
  function
   [when [return'];
    calculate_sha256_hash_locks; when [return'];
    bpfima_commit_get_error_locks; when [return'];
    find_container_by_id_locks;
    when [create_container_node_locks; when [return']];
    add_container_measurement_locks;
    bpfima_put_container_locks].

Definition bpfima_tpm_get_pcr_value_locks : code :=
  function
   [when [return']; when [return']; when [return'];
    mutex_lock bpfima_commit_mutex;
    bpfima_commit_check_locks;
    when [unlock bpfima_commit_mutex; return'];
    mutex_lock bpfima_tpm_mutex;
    tpm_default_chip;
    when
     [bpfima_commit_requires_hardware_locks;
      when [bpfima_commit_fail_locks; unlock bpfima_tpm_mutex; unlock bpfima_commit_mutex; return'];
      unlock bpfima_tpm_mutex; unlock bpfima_commit_mutex; return'];
    bpfima_commit_hardware_allowed_locks;
    when [bpfima_commit_fail_locks; put_device; unlock bpfima_tpm_mutex; unlock bpfima_commit_mutex; return'];
    might_sleep; reads pcr_value;
    put_device;
    unlock bpfima_tpm_mutex; unlock bpfima_commit_mutex;
    when [return']].

Definition bpfima_tpm_is_available_locks : code := function [bpfima_tpm_available_locks].

Definition bpfima_container_get_or_create_locks : code :=
  function
   [when [return']; rcu_read_lock; rcu_read_unlock;
    when [bpfima_put_container_locks; return'];
    create_container_node_locks; when [return'];
    bpfima_put_container_locks].

Definition bpfima_merkle_get_root_locks : code :=
  function
   [when [return']; when [return'];
    spin_lock_irqsave system_merkle_root_lock; reads root_hash; unlock system_merkle_root_lock].

Definition bpfima_container_get_count_locks : code := function [].

Definition bpfima_container_get_measurement_count_locks : code :=
  function [when [return']; rcu_read_lock; rcu_read_unlock; when [return']; bpfima_put_container_locks].

Definition bpfima_container_exists_locks : code :=
  function [when [return']; rcu_read_lock; rcu_read_unlock; when [bpfima_put_container_locks; return']].

Definition bpfima_container_get_leaf_hash_locks : code :=
  function
   [when [return']; when [return'];
    rcu_read_lock; rcu_read_unlock; when [return'];
    spin_lock measurement_lock; reads container_log; unlock measurement_lock;
    bpfima_put_container_locks].

(** The four updates of a field differ in the name of the field only. *)
Definition bpfima_policy_update_locks : code := function [when [return']; bpfima_policy_update_field_locks].
Definition bpfima_policy_get_changes_hash_locks : code :=
  function [when [return']; when [return']; bpfima_policy_namespace_get_changes_hash_locks].
Definition bpfima_policy_namespace_get_config_locks : code :=
  function [when [return']; when [return']; bpfima_policy_read_locks].
Definition bpfima_policy_should_ignore_locks : code := function [when [return']; bpfima_policy_match_root_locks].
Definition bpfima_policy_resolve_locks : code := function [when [return']; bpfima_policy_resolve_context_locks].

(** [bpf_kfunc_example_ids_set]: each kfunc and whether it has the flag
    [KF_SLEEPABLE]. *)
Definition bpf_kfunc_example_ids_set : list (string * code * bool) :=
  [("bpfima_measurement_extend"%string, bpfima_measurement_extend_locks, true);
   ("bpfima_tpm_get_pcr_value"%string, bpfima_tpm_get_pcr_value_locks, true);
   ("bpfima_tpm_is_available"%string, bpfima_tpm_is_available_locks, false);
   ("bpfima_container_get_or_create"%string, bpfima_container_get_or_create_locks, true);
   ("bpfima_merkle_get_root"%string, bpfima_merkle_get_root_locks, false);
   ("bpfima_container_get_count"%string, bpfima_container_get_count_locks, false);
   ("bpfima_container_get_measurement_count"%string, bpfima_container_get_measurement_count_locks, false);
   ("bpfima_container_exists"%string, bpfima_container_exists_locks, false);
   ("bpfima_container_get_leaf_hash"%string, bpfima_container_get_leaf_hash_locks, false);
   ("bpfima_policy_update_filter_flags"%string, bpfima_policy_update_locks, true);
   ("bpfima_policy_update_action_flags"%string, bpfima_policy_update_locks, true);
   ("bpfima_policy_update_min_file_size"%string, bpfima_policy_update_locks, true);
   ("bpfima_policy_update_log_level"%string, bpfima_policy_update_locks, true);
   ("bpfima_policy_get_changes_hash"%string, bpfima_policy_get_changes_hash_locks, true);
   ("bpfima_policy_namespace_get_config"%string, bpfima_policy_namespace_get_config_locks, true);
   ("bpfima_policy_should_ignore_cgroup"%string, bpfima_policy_should_ignore_locks, true);
   ("bpfima_policy_should_ignore_path"%string, bpfima_policy_should_ignore_locks, true);
   ("bpfima_policy_resolve"%string, bpfima_policy_resolve_locks, true)].

(** ** The handlers of the files *)

Definition parse_and_update_policy_locks : code :=
  function [might_sleep; when [return']; when [return']; when [bpfima_policy_update_field_locks]].

Definition policy_map_write_locks : code :=
  function [when [return']; when [return']; might_sleep; when [return']; when [return']; when [bpfima_policy_bind_map_locks]].

Definition policy_apply_write_locks : code :=
  function [when [return']; when [return']; might_sleep; when [return']; bpfima_policy_apply_locks].

Definition policy_update_write_locks : code :=
  function
   [when [return']; when [return']; might_sleep; when [return']; might_sleep; when [return'];
    when [return']; parse_and_update_policy_locks].

Definition global_policy_write_locks : code :=
  function
   [when [return']; when [return']; might_sleep; when [return']; might_sleep; when [return'];
    parse_and_update_policy_locks].

Definition policy_show_locks : code :=
  function
   [when [return']; mutex_lock bpfima_policy_namespace_mutex;
    Block (steps
     [bpfima_policy_read_locked_locks; when [Exit 0];
      bpfima_policy_namespace_get_locks; when [Exit 0];
      reads namespace_changes]);
    unlock bpfima_policy_namespace_mutex].

Definition global_policy_show_locks : code :=
  function
   [mutex_lock bpfima_policy_namespace_mutex; bpfima_policy_read_locked_locks; unlock bpfima_policy_namespace_mutex;
    when [return']].

Definition global_policy_changes_show_locks : code :=
  function [spin_lock_irqsave global_policy_history_lock; Loop (reads global_changes); unlock global_policy_history_lock].

Definition policy_changes_show_locks : code :=
  function
   [when [return']; bpfima_policy_namespace_get_or_create_locks; when [return'];
    spin_lock_irqsave change_history_lock; Loop (reads namespace_changes); unlock change_history_lock].

Definition status_show_locks : code :=
  function
   [tpm_default_chip; when [put_device]; bpfima_commit_get_error_locks; bpfima_policy_generation_locks;
    bpfima_policy_map_id_locks].

(** One turn of [seq_read]: [start], [show] and [next] for each line, [stop]. *)
Definition merkle_root_history_turn_locks : code :=
  function [spin_lock merkle_root_history_lock; Loop (reads root_history); unlock merkle_root_history_lock].
Definition container_measurements_turn_locks : code :=
  function [spin_lock measurement_lock; Loop (reads container_log); unlock measurement_lock].

(** [seq_open] allocates. *)
Definition container_measurements_open_locks : code :=
  function [when [return']; might_sleep; when [bpfima_put_container_locks]].
Definition container_measurements_release_locks : code := function [when [bpfima_put_container_locks]].

(** ** bpfima_main.c *)

Definition remove_global_policy_securityfs_locks : code :=
  function [when [might_sleep]; when [might_sleep]; when [might_sleep]].
Definition remove_global_policy_changes_securityfs_locks : code := function [when [might_sleep]].

Definition create_global_policy_securityfs_locks : code :=
  function
   [when [return']; might_sleep; when [return'];
    might_sleep; when [remove_global_policy_securityfs_locks; return'];
    might_sleep; when [remove_global_policy_securityfs_locks; return']].
Definition create_global_policy_changes_securityfs_locks : code := function [when [return']; might_sleep; when [return']].

Definition bpfima_securityfs_init_locks : code :=
  function
   [might_sleep;
    when [Or (steps [might_sleep; when [return']]) return'];
    might_sleep; when [might_sleep; return'];
    might_sleep; when [might_sleep; might_sleep; return'];
    might_sleep; when [might_sleep; might_sleep; might_sleep; return'];
    create_global_policy_securityfs_locks; when [might_sleep; might_sleep; might_sleep; might_sleep; return'];
    create_global_policy_changes_securityfs_locks;
    when [remove_global_policy_securityfs_locks; might_sleep; might_sleep; might_sleep; might_sleep; return']].

Definition bpfima_securityfs_cleanup_locks : code :=
  function
   [remove_global_policy_changes_securityfs_locks; remove_global_policy_securityfs_locks;
    when [might_sleep]; when [might_sleep]; when [might_sleep]; when [might_sleep]].

Definition bpfima_hash_init_locks : code := function [might_sleep; when [return']; when [return']].
Definition bpfima_hash_cleanup_locks : code := function [cleanup_hash_table_locks].

(** The blocks end at the labels [err_merkle_tfm], [err_containers],
    [err_policy_ns], [err_hash] and [err_policy], the innermost first. *)
Definition bpfima_init_locks : code :=
  function
   [when [return']; bpfima_commit_init_locks; when [return'];
    Block (steps
     [bpfima_hash_init_locks; when [Exit 0];
      Block (steps
       [when [Exit 0];
        Block (steps
         [bpfima_container_init_locks; when [Exit 0];
          Block (steps
           [might_sleep; when [Exit 0];
            Block (steps
             [might_sleep; when [Exit 0];
              might_sleep; when [Exit 0];
              bpfima_securityfs_init_locks; when [Exit 0];
              Exit 5])]);
          bpfima_container_cleanup_locks]);
        bpfima_policy_namespace_cleanup_locks]);
      bpfima_hash_cleanup_locks]);
    bpfima_policy_cleanup_locks].

Definition bpfima_exit_locks : code :=
  function
   [cleanup_all_containers_locks; bpfima_container_cleanup_locks; cleanup_merkle_root_history_locks;
    bpfima_securityfs_cleanup_locks;
    bpfima_policy_namespace_cleanup_locks; bpfima_policy_cleanup_locks;
    bpfima_hash_cleanup_locks].
