(* ===== verification/LockSpec.v ===== *)
(** * Theorems on locking

    No schedule of the entry points deadlocks or races, the kfuncs that may be
    called where sleeping is forbidden do not sleep, with one exception, and
    an interrupt can deadlock two processors. *)

From stdpp Require Import relations.
From S2P Require Import Prelude Locking LockModel.

(** ** Paths by computation *)

(** Follow the choices [bs]: the left branch, one turn of a loop. *)
Fixpoint walk (bs : list bool) (c : code) : list bool * list action * outcome :=
  match c with
  | Skip => (bs, [], Normal)
  | Act a => (bs, [a], Normal)
  | Exit n => (bs, [], Exits n)
  | Seq c1 c2 =>
      match walk bs c1 with
      | (bs, t1, Normal) => let '(bs, t2, o) := walk bs c2 in (bs, t1 ++ t2, o)
      | r => r
      end
  | Or c1 c2 => match bs with true :: bs => walk bs c1 | _ => walk (tail bs) c2 end
  | Loop c =>
      match bs with
      | true :: bs => let '(bs, t, o) := walk bs c in (bs, t, o)
      | _ => (tail bs, [], Normal)
      end
  | Block c => let '(bs, t, o) := walk bs c in (bs, t, leave o)
  end.

Lemma walk_runs c bs : runs c (walk bs c).1.2 (walk bs c).2.
Proof.
  revert bs. induction c as [|a|c1 IH1 c2 IH2|c1 IH1 c2 IH2|c IH|c IH|n]; intros bs; cbn.
  - constructor.
  - constructor.
  - specialize (IH1 bs). destruct (walk bs c1) as [[bs1 t1] [|n]]; cbn in *; [|by apply runs_seq_exit].
    specialize (IH2 bs1). destruct (walk bs1 c2) as [[bs2 t2] o]; cbn in *. by apply runs_seq.
  - destruct bs as [|[] bs]; cbn; [apply runs_or_r, IH2|apply runs_or_l, IH1|apply runs_or_r, IH2].
  - destruct bs as [|[] bs]; cbn; [constructor| |constructor]. specialize (IH bs). destruct (walk bs c) as [[bs1 t] [|n]]; cbn in *.
    + rewrite <- (app_nil_r t). by apply runs_loop; [|constructor].
    + by apply runs_loop_exit.
  - specialize (IH bs). destruct (walk bs c) as [[bs1 t] o]; cbn in *. by apply runs_block.
  - constructor.
Qed.

Definition path (bs : list bool) (c : code) : list action := (walk bs c).1.2.

(** An invocation of [c] on the container and the namespace [k]. *)
Definition on (k : nat) (l : lock) : nat := if per_object l then k else 0%nat.
Definition invocation (x : context) (k : nat) (bs : list bool) (c : code) : thread := Thread (path bs c) (on k) x.

Lemma invocation_started cs k bs c : c ∈ cs -> started cs (invocation may_sleep k bs c).
Proof.
  intros Hc. split; [done|]. split; [by intros l Hl; cbn; unfold on; rewrite Hl|]. exists c, (walk bs c).2. split; [done|apply walk_runs].
Qed.

(** ** The entry points *)

(** The kfuncs and the handlers of the files. *)
Definition module_entries : list code :=
  ((fun e => e.1.2) <$> bpf_kfunc_example_ids_set) ++
  [policy_map_write_locks; policy_apply_write_locks; policy_update_write_locks; global_policy_write_locks; policy_show_locks;
   global_policy_show_locks; global_policy_changes_show_locks; policy_changes_show_locks; status_show_locks;
   merkle_root_history_turn_locks; container_measurements_turn_locks; container_measurements_open_locks;
   container_measurements_release_locks].

Lemma entries_checked : forallb (disciplined may_sleep) module_entries = true.
Proof. by vm_compute. Qed.

(** C3: Deadlock freedom. Let any number of processes call the kfuncs and use
    the files of the module at once, each on a container and a namespace of
    its choice, with every condition in the functions decided in any way, in
    any schedule of the single lock operations. No schedule gets stuck: while
    an invocation is not finished, some invocation can go on; no schedule is
    longer than the sum of the paths; and every lock has at most one owner.
    So all of them return. A function that released a lock it does not hold,
    slept with a spinlock held, took locks against their order or failed a
    [lockdep_assert_held] would be stuck here. *)
Theorem no_deadlock ts n ts' :
  Forall (started module_entries) ts -> nsteps lstep n ts ts' ->
  (remaining ts' = 0%nat \/ exists ts'', lstep ts' ts'') /\
  (n + remaining ts' = remaining ts)%nat /\
  (exists ts'', rtc lstep ts' ts'' /\ remaining ts'' = 0%nat) /\
  (forall i j t u l k, ts' !! i = Some t -> ts' !! j = Some u -> owns t l k -> owns u l k -> i = j).
Proof.
  intros Hs Hn. assert (Hi : locks_inv ts').
  { eapply lsteps_inv; [by apply (started_locks module_entries entries_checked)|]. by eapply rtc_nsteps_2. }
  destruct (finish _ ts' eq_refl Hi) as (tf & Hf & Hz). split_and!.
  - destruct Hf as [tf|ts' ts1 tf H1 _]; [by left|right; by exists ts1].
  - clear -Hn. induction Hn as [|n ts ts1 ts2 H1 _ IH]; [done|]. apply remaining_step in H1. lia.
  - by exists tf.
  - intros i j t u l k Ht Hu [Hl <-] Hou. exact (li_exclusive _ Hi i j t u l Ht Hu (conj Hl eq_refl) Hou).
Qed.

(** C4: Freedom from data races. In the same setting, two invocations are
    never both about to access the same shared datum (the latched error and
    the anchoring mode, the PCR, the root, the list and leaf of the same
    container, the history, the digest table, the records of the policy map,
    the audit trails) when one of the two accesses is a write. *)
Theorem no_data_race ts ts' i j t u v k w1 w2 :
  Forall (started module_entries) ts -> rtc lstep ts ts' -> i <> j -> ts' !! i = Some t -> ts' !! j = Some u ->
  next_access t = Some (v, k, w1) -> next_access u = Some (v, k, w2) -> w1 = false /\ w2 = false.
Proof.
  intros Hs Hr Hij Ht Hu Hat Hau.
  assert (Hi : locks_inv ts') by (eapply lsteps_inv; [by apply (started_locks module_entries entries_checked)|done]).
  split; apply not_true_is_false; intros ->; [eapply (no_conflict ts' i j)|eapply (no_conflict ts' j i)]; eauto.
Qed.

(** Loading, unloading and the worker keep the discipline by themselves. *)
Lemma lifecycle_checked :
  forallb (disciplined by_itself) [bpfima_init_locks; bpfima_exit_locks; container_node_free_work_locks] = true.
Proof. by vm_compute. Qed.

(** C10: The flags of the kfuncs. A kfunc without [KF_SLEEPABLE] can be called
    with preemption disabled. On every path of every kfunc in the context that
    its flags allow, nothing sleeps where that is forbidden, locks are taken in
    order and given back; except that [bpfima_tpm_is_available], which has no
    flag, looks for the chip, and the TPM driver takes a mutex for that. *)
Theorem kfunc_flags :
  (forall name c sleepable t o, (name, c, sleepable) ∈ bpf_kfunc_example_ids_set -> name <> "bpfima_tpm_is_available"%string ->
     runs c t o ->
     let x := if sleepable : bool then may_sleep else may_not_sleep in monitor_all x t = Some x) /\
  (exists c t o, ("bpfima_tpm_is_available"%string, c, false) ∈ bpf_kfunc_example_ids_set /\
     runs c t o /\ monitor_all may_not_sleep t = None).
Proof.
  split.
  - intros name c sleepable t o Hin Hne Hr. eapply disciplined_path; [|exact Hr].
    assert (Hall : forallb (fun e : string * code * bool => bool_decide (e.1.1 = "bpfima_tpm_is_available"%string) ||
      disciplined (if e.2 then may_sleep else may_not_sleep) e.1.2) bpf_kfunc_example_ids_set = true) by by vm_compute.
    rewrite forallb_forall in Hall. apply list_elem_of_In in Hin. specialize (Hall _ Hin). cbn in Hall.
    apply orb_true_iff in Hall as [H|H]; [by apply bool_decide_eq_true in H|exact H].
  - exists bpfima_tpm_is_available_locks, (path [] bpfima_tpm_is_available_locks), (walk [] bpfima_tpm_is_available_locks).2.
    split; [by apply (list_elem_of_lookup_2 _ 2)|]. split; [apply walk_runs|by vm_compute].
Qed.

(** ** Interrupts *)

(** The kfuncs that a program may call in an interrupt. *)
Definition irq_kfuncs : list code :=
  omap (fun e : string * code * bool => if e.2 then None else Some e.1.2) bpf_kfunc_example_ids_set.

Definition reader : thread := invocation may_sleep 0 [] container_measurements_turn_locks.
Definition measurer : thread := invocation may_sleep 0 [] bpfima_measurement_extend_locks.
Definition handler : thread := invocation may_not_sleep 0 [] bpfima_merkle_get_root_locks.

(** The measurer runs until it holds the lock of the root and wants the lock
    of its container, which the reader takes first. *)
Definition schedule : list nat :=
  match list_find (fun a => a = Acquire measurement_lock false) (path [] bpfima_measurement_extend_locks) with
  | Some (n, _) => replicate n 1%nat ++ [0%nat]
  | None => []
  end.

(** C9: An interrupt can stop two processors. The list files and
    [bpfima_container_get_leaf_hash] take the lock of a container with
    interrupts enabled, and a commit takes it while it holds the lock of the
    root. So: a process reads the measurements of a container, another one
    measures an event for it, and a tracing program that interrupts the reader
    asks for the root. From the state that is reached, whatever happens,
    neither the reader nor the measurement ever returns. *)
Theorem interrupt_deadlock :
  Forall (started module_entries) [reader; measurer] /\
  exists cpus, rtc (istep irq_kfuncs) [[reader]; [measurer]] cpus /\
    forall cpus', rtc (istep irq_kfuncs) cpus cpus' ->
      exists fs r c, cpus' = [fs ++ [r]; [c]] /\ todo r <> [] /\ todo c <> [].
Proof.
  split; [apply Forall_cons; split; [|apply Forall_singleton]; apply invocation_started;
    [by apply (list_elem_of_lookup_2 _ 28)|by apply (list_elem_of_lookup_2 _ 0)]|].
  destruct (run_cpus schedule [[reader]; [measurer]]) as [cpus|] eqn:E; [|by vm_compute in E].
  assert (Hshape : exists r c, cpus = [[r]; [c]] /\ irqs_disabled (here r) = false /\ todo r = [Release measurement_lock] /\
    (exists rest, todo c = Acquire measurement_lock false :: rest) /\ irqs_disabled (here c) = true /\
    owns c system_merkle_root_lock 0 /\ owns r measurement_lock (object c measurement_lock)).
  { vm_compute in E. injection E as <-. eexists _, _. split; [reflexivity|]. split_and!; try done. by eexists. }
  destruct Hshape as (r & c & -> & Hr & Htr & [rest Htc] & Hc & Hoc & Hor). exists [[handler; r]; [c]]. split.
  - eapply rtc_r; [by eapply run_cpus_steps|]. eapply (istep_irq _ [[r]; [c]] 0%nat [r] handler); [done|by apply Forall_singleton| |apply walk_runs|by intros [] |done].
    apply list_elem_of_omap. exists ("bpfima_merkle_get_root"%string, bpfima_merkle_get_root_locks, false). split; [by apply (list_elem_of_lookup_2 _ 4)|done].
  - clear E. intros cpus' Hs. assert (H0 : crossed system_merkle_root_lock measurement_lock [[handler; r]; [c]]).
    { constructor. exists [], handler, r, c. eexists _, _, _, _. split; [done|]. split; [reflexivity|]. split; [exact Htc|].
      rewrite Htr. split; [discriminate|]. exact (conj Hc (conj Hoc Hor)). }
    assert (H1 : crossed system_merkle_root_lock measurement_lock cpus').
    { clear -Hs H0. induction Hs as [|a b d H1 _ IH]; [done|]. by eapply IH, crossed_forever. }
    destruct H1 as [(fs & g & r' & c' & rest1 & rest2 & irq1 & irq2 & -> & _ & Hc' & Hr' & _)].
    exists (fs ++ [g]), r', c'. split; [by rewrite <- app_assoc|]. by rewrite Hc'.
Qed.

(** ** Concrete runs *)

(** A measurement, a reader of the list and an applied policy. *)
Lemma no_deadlock_witness :
  exists ts', rtc lstep [measurer; reader; invocation may_sleep 0 [] policy_apply_write_locks] ts' /\ remaining ts' = 0%nat.
Proof.
  assert (Hs : Forall (started module_entries) [measurer; reader; invocation may_sleep 0 [] policy_apply_write_locks]).
  { repeat (apply Forall_cons; split; [apply invocation_started|]); [by apply (list_elem_of_lookup_2 _ 0)|
      by apply (list_elem_of_lookup_2 _ 28)|by apply (list_elem_of_lookup_2 _ 19)|by apply Forall_nil]. }
  destruct (no_deadlock _ 0%nat _ Hs (nsteps_O _ _)) as (_ & _ & Hend & _). exact Hend.
Defined.

(** Two readers of the audit trail of a namespace, under different locks. *)
Definition trail_readers : list thread :=
  [invocation may_sleep 0 [] policy_show_locks;
   invocation may_sleep 0 [false; false; false; false; false; false; true] policy_changes_show_locks].

Lemma no_data_race_witness :
  exists ts t u w1 w2, rtc lstep trail_readers ts /\ ts !! 0%nat = Some t /\ ts !! 1%nat = Some u /\
    next_access t = Some (namespace_changes, 0%nat, w1) /\ next_access u = Some (namespace_changes, 0%nat, w2) /\
    w1 = false /\ w2 = false.
Proof.
  assert (Hs : Forall (started module_entries) trail_readers).
  { repeat (apply Forall_cons; split; [apply invocation_started|]); [by apply (list_elem_of_lookup_2 _ 22)|
      by apply (list_elem_of_lookup_2 _ 25)|by apply Forall_nil]. }
  destruct (run_threads (replicate 7 1%nat ++ replicate 9 0%nat) trail_readers) as [ts|] eqn:E; [|by vm_compute in E].
  assert (Hr : rtc lstep trail_readers ts) by (by eapply run_threads_steps).
  assert (Hts : exists t u, ts !! 0%nat = Some t /\ ts !! 1%nat = Some u /\
    next_access t = Some (namespace_changes, 0%nat, false) /\ next_access u = Some (namespace_changes, 0%nat, false)).
  { vm_compute in E. injection E as <-. by eexists _, _. }
  clear E. destruct Hts as (t & u & Ht & Hu & Hat & Hau). exists ts, t, u, false, false.
  destruct (no_data_race trail_readers ts 0%nat 1%nat t u namespace_changes 0%nat false false Hs Hr ltac:(lia) Ht Hu Hat Hau) as [H1 H2].
  exact (conj Hr (conj Ht (conj Hu (conj Hat (conj Hau (conj H1 H2)))))).
Defined.
