(* ===== verification/Verifier.v ===== *)
(** * The verifier of the measurement lists

    The Go packages under [src/verifier/pkg]: the line reader, the software
    PCR, the two kinds of measurements (an interface in Go, a class here), the
    list that parses, validates and aggregates them, and the verifier that
    replays the leaf list against a PCR digest while it looks for the leaves of
    a target list. An error is the list of the sentinels that [errors.Is] finds
    in its chain. *)

From S2P Require Import Prelude CString PolicyManager.

(** ** The Go standard library *)

(** [strings.Cut] at a one-byte separator: the parts before and after its
    first occurrence, if there is one. *)
Fixpoint Cut (s : bytes) (sep : byte) : bytes * bytes * bool :=
  match s with
  | [] => ([], [], false)
  | b :: s =>
      if Byte.eqb b sep then ([], s, true)
      else let '(before, after, found) := Cut s sep in (b :: before, after, found)
  end.

(** [strings.SplitN] with a positive count. *)
Fixpoint SplitN (s : bytes) (sep : byte) (n : nat) : list bytes :=
  match n with
  | O => []
  | S O => [s]
  | S n => let '(before, after, found) := Cut s sep in if found then before :: SplitN after sep n else [s]
  end.

Definition in_cutset (cutset : bytes) (b : byte) : bool := existsb (Byte.eqb b) cutset.

(** [strings.TrimRight]: every trailing byte of the cut set goes. *)
Fixpoint TrimRight (s cutset : bytes) : bytes :=
  match s with
  | [] => []
  | b :: s =>
      match TrimRight s cutset with
      | [] => if in_cutset cutset b then [] else [b]
      | s => b :: s
      end
  end.

(** [strings.Join] and [strings.Split]. *)
Fixpoint Join (parts : list bytes) (sep : byte) : bytes :=
  match parts with
  | [] => []
  | [p] => p
  | p :: parts => p ++ sep :: Join parts sep
  end.

Definition Split (s : bytes) (sep : byte) : list bytes := SplitN s sep (S (length s)).

(** [hex.DecodeString]: digits of either case, an even number of them. *)
Definition hex_value (b : byte) : option Z :=
  let z := u8_val b in
  if (48 <=? z) && (z <=? 57) then Some (z - 48)
  else if (97 <=? z) && (z <=? 102) then Some (z - 87)
  else if (65 <=? z) && (z <=? 70) then Some (z - 55)
  else None.

Fixpoint hex_DecodeString (s : bytes) : option bytes :=
  match s with
  | [] => Some []
  | [_] => None
  | a :: b :: s =>
      match hex_value a, hex_value b with
      | Some x, Some y => match hex_DecodeString s with Some d => Some (to_u8 (x * 16 + y) :: d) | None => None end
      | _, _ => None
      end
  end.

(** Values of [crypto.Hash] with their digest sizes; the functions are those
    of the crypto packages. *)
Inductive crypto_hash := MD5 | SHA1 | SHA224 | SHA256 | SHA384 | SHA512.

#[global] Instance crypto_hash_eq_dec : EqDecision crypto_hash.
Proof. solve_decision. Defined.

Definition Size (h : crypto_hash) : nat :=
  match h with MD5 => 16 | SHA1 => 20 | SHA224 => 28 | SHA256 => 32 | SHA384 => 48 | SHA512 => 64 end.

Class GoCrypto := { hash_sum : crypto_hash -> bytes -> bytes }.
Class GoCryptoLaws (G : GoCrypto) := { hash_sum_length : forall h x, length (hash_sum h x) = Size h }.

(** [subtle.ConstantTimeCompare], which also compares the lengths. *)
Definition ConstantTimeCompare (a b : bytes) : bool := bool_decide (a = b).

(** The errors of the packages. *)
Inductive sentinel := EOF | ErrMalformedEntry | ErrInvalidEntry | ErrInvalidLeaves | ErrInvalidTarget.

#[global] Instance sentinel_eq_dec : EqDecision sentinel.
Proof. solve_decision. Defined.

Abbreviation error := (list sentinel).
Definition errors_Is (e : error) (x : sentinel) : bool := bool_decide (x ∈ e).

(** ** Package reader *)

(** A seekable source and what is left to read of it. *)
Record Reader := MkReader { r_src : bytes; r_rest : bytes }.

Definition FromBytes (raw : bytes) : Reader := MkReader raw raw.

(** [ReadString] of the buffered reader: up to and with the delimiter. *)
Fixpoint ReadString (rest : bytes) (delim : byte) : bytes * bytes :=
  match rest with
  | [] => ([], [])
  | b :: rest => if Byte.eqb b delim then ([b], rest) else let '(line, rest) := ReadString rest delim in (b :: line, rest)
  end.

(** [None] is [io.EOF]; a source in memory has no other error. *)
Definition ReadLine (r : Reader) : option bytes * Reader :=
  match ReadString (r_rest r) x0a with
  | ([], rest) => (None, MkReader (r_src r) rest)
  | (line, rest) => (Some (TrimRight line [x0d; x0a]), MkReader (r_src r) rest)
  end.

Definition Rewind (r : Reader) : Reader := MkReader (r_src r) (r_src r).

(** ** Package pcr *)

Section Verifier.
Context {G : GoCrypto}.

Record PCR := MkPCR { pcr_aggregate : bytes; pcr_hashAlgo : crypto_hash }.

Definition IsValidAlgo (h : crypto_hash) : bool :=
  match h with SHA1 | SHA256 | SHA384 | SHA512 => true | _ => false end.

Definition pcr_New (h : crypto_hash) : option PCR :=
  if IsValidAlgo h then Some (MkPCR (zeros (Size h)) h) else None.

Definition Extend (p : PCR) (b : bytes) : PCR :=
  MkPCR (hash_sum (pcr_hashAlgo p) (pcr_aggregate p ++ b)) (pcr_hashAlgo p).

Definition Read (p : PCR) : bytes := pcr_aggregate p.

(** [clear] keeps the length. *)
Definition pcr_Reset (p : PCR) : PCR := MkPCR (zeros (length (pcr_aggregate p))) (pcr_hashAlgo p).

(** ** Package measurement *)

Class Measurement (M : Type) := {
  TemplateHash : M -> bytes;
  Validate : crypto_hash -> M -> option error;
}.

Definition Separator : byte := x20.
Definition DependencySeparator : byte := x3a.
Definition hashedFileFields : nat := 4.

Record HashedFile := MkHashedFile {
  hf_templateHash : bytes;
  hf_event : bytes;
  hf_fileHash : bytes;
  hf_filePath : bytes;
}.

Definition ParseHashedFile (line : bytes) : error + HashedFile :=
  match SplitN line Separator hashedFileFields with
  | f0 :: f1 :: f2 :: fields =>
      match hex_DecodeString f0 with
      | None => inl [ErrMalformedEntry]
      | Some templateHash =>
          inr (MkHashedFile templateHash f1 f2 (match fields with f3 :: _ => f3 | [] => [] end))
      end
  | _ => inl [ErrMalformedEntry]
  end.

Definition template_input (h : HashedFile) : bytes :=
  hf_fileHash h ++ (if bool_decide (hf_filePath h = []) then [] else Separator :: hf_filePath h).

Definition computeTemplateHash (algo : crypto_hash) (h : HashedFile) : bytes := hash_sum algo (template_input h).

Definition NewHashedFile (algo : crypto_hash) (event fileHash filePath : bytes) : HashedFile :=
  MkHashedFile (computeTemplateHash algo (MkHashedFile [] event fileHash filePath)) event fileHash filePath.

Definition NewFileMeasurement (algo : crypto_hash) (event fileHash path : bytes) (ancestry : list bytes) : HashedFile :=
  NewHashedFile algo event fileHash (Join (path :: ancestry) DependencySeparator).

Definition String (h : HashedFile) : bytes :=
  hex (hf_templateHash h) ++ Separator :: hf_event h ++ Separator :: hf_fileHash h ++
  (if bool_decide (hf_filePath h = []) then [] else Separator :: hf_filePath h).

Definition IsFile (h : HashedFile) : bool :=
  bool_decide (hf_event h ∈ [lit "bprm_check_security"; lit "file_post_open"; lit "mmap_file"]).

Definition Path (h : HashedFile) : bytes := fst (fst (Cut (hf_filePath h) DependencySeparator)).

Definition Ancestry (h : HashedFile) : list bytes :=
  let '(_, ancestry, ok) := Cut (hf_filePath h) DependencySeparator in
  if negb ok || bool_decide (ancestry = []) then [] else Split ancestry DependencySeparator.

#[global] Instance HashedFile_measurement : Measurement HashedFile := {
  TemplateHash := hf_templateHash;
  Validate algo h :=
    if negb (ConstantTimeCompare (hf_templateHash h) (computeTemplateHash algo h)) then Some [ErrInvalidEntry] else None;
}.

Record Leaf := MkLeaf { lf_digest : bytes }.

Definition ParseLeaf (line : bytes) : error + Leaf :=
  let '(hexDigest, _, _) := Cut line Separator in
  if bool_decide (hexDigest = []) then inl [ErrMalformedEntry] else
  match hex_DecodeString hexDigest with
  | None => inl [ErrMalformedEntry]
  | Some digest => inr (MkLeaf digest)
  end.

#[global] Instance Leaf_measurement : Measurement Leaf := {
  TemplateHash := lf_digest;
  Validate algo l := if negb (length (lf_digest l) =? Size algo)%nat then Some [ErrInvalidEntry] else None;
}.

(** *** List *)

Record List (M : Type) := MkList {
  l_src : Reader;
  l_aggregate : PCR;
  l_current : option M;
}.
#[global] Arguments MkList {M}.
#[global] Arguments l_src {M}.
#[global] Arguments l_aggregate {M}.
#[global] Arguments l_current {M}.

Definition NewList {M} (src : Reader) (algo : crypto_hash) : option (List M) :=
  match pcr_New algo with Some p => Some (MkList src p None) | None => None end.

Definition HashAlgo {M} (l : List M) : crypto_hash := pcr_hashAlgo (l_aggregate l).
Definition Aggregate {M} (l : List M) : bytes := Read (l_aggregate l).

Definition Next {M} `{Measurement M} (parse : bytes -> error + M) (l : List M) : option error * List M :=
  let '(line, src) := ReadLine (l_src l) in
  let l := MkList src (l_aggregate l) (l_current l) in
  match line with
  | None => (Some [EOF], l)
  | Some line =>
      match parse line with
      | inl e => (Some e, l)
      | inr entry =>
          match Validate (HashAlgo l) entry with
          | Some e => (Some e, l)
          | None => (None, MkList src (Extend (l_aggregate l) (TemplateHash entry)) (Some entry))
          end
      end
  end.

Definition list_Reset {M} (l : List M) : List M := MkList (Rewind (l_src l)) (pcr_Reset (l_aggregate l)) None.

(** [HashedFiles]: every entry of a list. A read takes at least one byte, so
    the number of bytes left bounds the turns of the loop. *)
Fixpoint HashedFiles_loop (fuel : nat) (l : List HashedFile) (entries : list HashedFile) : option (error + list HashedFile) :=
  match fuel with
  | O => None
  | S fuel =>
      match Next ParseHashedFile l with
      | (Some e, _) => Some (if errors_Is e EOF then inr entries else inl e)
      | (None, l) =>
          match l_current l with
          | Some entry => HashedFiles_loop fuel l (entries ++ [entry])
          | None => Some (inl [ErrMalformedEntry])
          end
      end
  end.

Definition HashedFiles (src : Reader) (algo : crypto_hash) : option (error + list HashedFile) :=
  match NewList src algo with
  | None => Some (inl [])
  | Some l => HashedFiles_loop (S (length (r_rest src))) l []
  end.

Definition MarshalHashedFiles (entries : list HashedFile) : bytes := flat_map (fun h => String h ++ [x0a]) entries.

(** ** Package verifier *)

Record Verifier := MkVerifier {
  v_target : List HashedFile;
  v_leaves : List Leaf;
  v_expected : bytes;
  v_pcr : PCR;
  v_pcrMatched : bool;
}.

Definition setExpected (v : Verifier) (expected : bytes) : option Verifier :=
  if negb (length expected =? Size (HashAlgo (v_leaves v)))%nat then None
  else Some (MkVerifier (v_target v) (v_leaves v) expected (v_pcr v) (v_pcrMatched v)).

(** [New]; [None] is an error. *)
Definition NewVerifier (target : List HashedFile) (leaves : List Leaf) (expected : bytes) : option Verifier :=
  if negb (bool_decide (HashAlgo target = HashAlgo leaves)) then None else
  match pcr_New (HashAlgo leaves) with
  | None => None
  | Some emulated => setExpected (MkVerifier target leaves [] emulated false) expected
  end.

Definition Reset (v : Verifier) (expected : bytes) : option Verifier :=
  match setExpected v expected with
  | None => None
  | Some v => Some (MkVerifier (list_Reset (v_target v)) (list_Reset (v_leaves v)) (v_expected v) (pcr_Reset (v_pcr v)) false)
  end.

(** The loop of [replayLeaves]. *)
Fixpoint replay_loop (fuel : nat) (finished : Verifier -> bool) (v : Verifier) : option (option error * Verifier) :=
  if finished v then Some (None, v) else
  match fuel with
  | O => None
  | S fuel =>
      if v_pcrMatched v then Some (Some [ErrInvalidLeaves], v) else
      match Next ParseLeaf (v_leaves v) with
      | (Some e, leaves) =>
          Some (Some (if errors_Is e EOF then [ErrInvalidLeaves] else ErrInvalidLeaves :: e),
                MkVerifier (v_target v) leaves (v_expected v) (v_pcr v) (v_pcrMatched v))
      | (None, leaves) =>
          let pcr := Extend (v_pcr v) (Aggregate leaves) in
          replay_loop fuel finished
            (MkVerifier (v_target v) leaves (v_expected v) pcr (ConstantTimeCompare (Read pcr) (v_expected v)))
      end
  end.

Definition replayLeaves (finished : Verifier -> bool) (v : Verifier) : option (option error * Verifier) :=
  replay_loop (S (length (r_rest (l_src (v_leaves v))))) finished v.

Definition isLeafFound (v : Verifier) : bool :=
  match l_current (v_leaves v) with
  | None => false
  | Some leaf => ConstantTimeCompare (Aggregate (v_target v)) (TemplateHash leaf)
  end.

Fixpoint target_loop (fuel : nat) (v : Verifier) : option (option error * Verifier) :=
  match fuel with
  | O => None
  | S fuel =>
      let '(err, target) := Next ParseHashedFile (v_target v) in
      let v := MkVerifier target (v_leaves v) (v_expected v) (v_pcr v) (v_pcrMatched v) in
      match err with
      | Some e => Some (if errors_Is e EOF then None else Some (ErrInvalidTarget :: e), v)
      | None =>
          match replayLeaves isLeafFound v with
          | None => None
          | Some (Some e, v) => Some (Some (ErrInvalidTarget :: e), v)
          | Some (None, v) => target_loop fuel v
          end
      end
  end.

Definition AttestTarget (v : Verifier) : option (option error * Verifier) :=
  target_loop (S (length (r_rest (l_src (v_target v))))) v.

Definition AttestLeaves (v : Verifier) : option (option error * Verifier) := replayLeaves v_pcrMatched v.

Definition Attest (v : Verifier) : option (option error * Verifier) :=
  match AttestTarget v with
  | Some (None, v) => AttestLeaves v
  | r => r
  end.

(** Attestation of two texts, as a client runs it; [Some None] accepts. *)
Definition attest_texts (algo : crypto_hash) (target leaves expected : bytes) : option (option error) :=
  match NewList (FromBytes target) algo, NewList (FromBytes leaves) algo with
  | Some t, Some l =>
      match NewVerifier t l expected with
      | Some v => fst <$> Attest v
      | None => Some (Some [])
      end
  | _, _ => Some (Some [])
  end.
End Verifier.
