(* ===== verification/VerifierSpec.v ===== *)
(** * Theorems on the verifier

    The text that the kernel prints is read back; the loops end; replaying a
    list of leaves; completeness and soundness of an attestation. *)

From S2P Require Import Prelude CString Types Kernel Sample Snapshot KfuncBuffer Merkle MerkleSpec MerkleInv PolicyManager PolicyAudit Container ContainerSpec Kfuncs KfuncsInv Lifecycle LifecycleSpec PolicyFiles LogFiles System EntryFrame Verifier.

(** ** Text *)

Lemma Cut_found a b sep : sep ∉ a -> Cut (a ++ sep :: b) sep = (a, b, true).
Proof.
  induction a as [|x a IH]; intros Ha; cbn.
  - by destruct (byte_eqb_spec sep sep).
  - rewrite not_elem_of_cons in Ha. destruct Ha as [Hx Ha]. destruct (byte_eqb_spec x sep); [done|]. by rewrite IH.
Qed.

Lemma Cut_absent a sep : sep ∉ a -> Cut a sep = (a, [], false).
Proof.
  induction a as [|x a IH]; intros Ha; cbn; [done|].
  rewrite not_elem_of_cons in Ha. destruct Ha as [Hx Ha]. destruct (byte_eqb_spec x sep); [done|]. by rewrite IH.
Qed.

(** [Cut] splits at the first occurrence or not at all. *)
Lemma Cut_cases s sep :
  ((sep ∉ s) /\ Cut s sep = (s, [], false)) \/
  exists a b, s = a ++ sep :: b /\ (sep ∉ a) /\ Cut s sep = (a, b, true).
Proof.
  destruct (decide (sep ∈ s)) as [H|H]; [right|left; split; [done|by apply Cut_absent]].
  apply list_elem_of_split_l in H as (a & b & -> & Ha). exists a, b. split_and!; [done..|by apply Cut_found].
Qed.

Lemma TrimRight_snoc s b cutset :
  TrimRight (s ++ [b]) cutset = if in_cutset cutset b then TrimRight s cutset else s ++ [b].
Proof.
  induction s as [|x s IH]; cbn [app TrimRight]; [by destruct (in_cutset cutset b)|].
  rewrite IH. destruct (in_cutset cutset b); [done|]. by destruct s.
Qed.

Definition line_end : bytes := [x0d; x0a].

(** A text that a line terminator does not shorten. *)
Definition ends_clean (s : bytes) : bool := match last s with Some b => negb (in_cutset line_end b) | None => true end.

Lemma TrimRight_clean s : ends_clean s = true -> TrimRight s line_end = s.
Proof.
  unfold ends_clean. destruct s as [|b s _] using rev_ind; [done|].
  rewrite last_snoc, negb_true_iff, TrimRight_snoc. by intros ->.
Qed.

Lemma ReadString_line l rest : x0a ∉ l -> ReadString (l ++ x0a :: rest) x0a = (l ++ [x0a], rest).
Proof.
  induction l as [|b l IH]; intros Hl; cbn; [done|].
  rewrite not_elem_of_cons in Hl. destruct Hl as [Hb Hl]. destruct (byte_eqb_spec b x0a); [congruence|]. by rewrite IH.
Qed.

Lemma ends_clean_app a b : b <> [] -> ends_clean (a ++ b) = ends_clean b.
Proof.
  intros Hb. destruct b as [|x b _] using rev_ind; [done|]. unfold ends_clean. by rewrite app_assoc, !last_snoc.
Qed.

Lemma not_in (b : byte) (l : bytes) : existsb (Byte.eqb b) l = false -> b ∉ l.
Proof.
  intros H Hb. assert (Ht : existsb (Byte.eqb b) l = true); [|congruence].
  apply existsb_exists. exists b. split; [by apply list_elem_of_In|]. by destruct (byte_eqb_spec b b).
Qed.

Lemma in_not (b : byte) (l : bytes) : b ∉ l -> existsb (Byte.eqb b) l = false.
Proof.
  intros H. destruct (existsb _ _) eqn:Ex; [|done]. apply existsb_exists in Ex as (x & Hx & Hb).
  apply list_elem_of_In in Hx. destruct (byte_eqb_spec b x); congruence.
Qed.

(** Reading a printed line. *)
Lemma ReadLine_line src l rest :
  x0a ∉ l -> ends_clean l = true ->
  ReadLine (MkReader src (l ++ x0a :: rest)) = (Some l, MkReader src rest).
Proof.
  intros Hl Hc. unfold ReadLine. cbn [r_rest r_src]. rewrite ReadString_line by done.
  assert (Ht : TrimRight (l ++ [x0a]) [x0d; x0a] = l) by (rewrite TrimRight_snoc; by apply TrimRight_clean).
  rewrite Ht. by destruct l.
Qed.

Lemma ReadLine_end src : ReadLine (MkReader src []) = (None, MkReader src []).
Proof. done. Qed.

(** A read takes at least one byte. *)
Lemma ReadString_shorter rest delim line rest' :
  ReadString rest delim = (line, rest') -> length rest = (length line + length rest')%nat.
Proof.
  revert line rest'. induction rest as [|b rest IH]; intros line rest'; cbn; [by intros [= <- <-]|].
  destruct (Byte.eqb b delim); [by intros [= <- <-]|].
  destruct (ReadString rest delim) as [l r]. intros [= <- <-]. by rewrite (IH _ _ eq_refl).
Qed.

Lemma ReadLine_shorter r line r' :
  ReadLine r = (Some line, r') -> (length (r_rest r') < length (r_rest r))%nat.
Proof.
  unfold ReadLine. destruct (ReadString (r_rest r) x0a) as [l rest] eqn:Er. apply ReadString_shorter in Er.
  destruct l as [|b l]; [done|]. intros [= _ <-]. cbn in *. lia.
Qed.

(** ** Hexadecimal *)

Definition hex_alphabet : bytes := lit "0123456789abcdef".

Lemma hex_value_digit z : 0 <= z < 16 -> hex_value (hex_digit z) = Some z /\ hex_digit z ∈ hex_alphabet.
Proof.
  intros Hz. assert (Hall : forallb (fun k => bool_decide (hex_value (hex_digit (Z.of_nat k)) = Some (Z.of_nat k)) &&
    bool_decide (hex_digit (Z.of_nat k) ∈ hex_alphabet)) (seq 0 16) = true) by (by vm_compute).
  rewrite forallb_forall in Hall. specialize (Hall (Z.to_nat z)). rewrite Z2Nat.id in Hall by lia.
  rewrite andb_true_iff, !bool_decide_eq_true in Hall. apply Hall, in_seq. lia.
Qed.

Lemma hex_byte_digits b : 0 <= u8_val b / 16 < 16 /\ 0 <= u8_val b mod 16 < 16.
Proof.
  pose proof (u8_val_bound b). split; [|apply Z.mod_pos_bound; lia].
  split; [apply Z.div_pos; lia|apply Z.div_lt_upper_bound; lia].
Qed.

Lemma hex_roundtrip d : hex_DecodeString (hex d) = Some d.
Proof.
  induction d as [|b d IH]; [done|]. unfold hex in *. cbn [flat_map hex_byte app hex_DecodeString].
  destruct (hex_byte_digits b) as [H1 H2].
  rewrite (proj1 (hex_value_digit _ H1)), (proj1 (hex_value_digit _ H2)), IH. do 2 f_equal.
  rewrite <- (to_u8_val b). f_equal. rewrite !to_u8_val. pose proof (Z.div_mod (u8_val b) 16). lia.
Qed.

Lemma hex_chars d b : b ∈ hex d -> b ∈ hex_alphabet.
Proof.
  induction d as [|x d IH]; [by intros ?%elem_of_nil|]. unfold hex in *. cbn [flat_map hex_byte app].
  destruct (hex_byte_digits x) as [H1 H2].
  intros [->|[->|H]%elem_of_cons]%elem_of_cons; [by apply hex_value_digit..|by apply IH].
Qed.

Lemma hex_no_char d b : bool_decide (b ∈ hex_alphabet) = false -> b ∉ hex d.
Proof. intros H Hd. apply bool_decide_eq_false in H. by apply H, (hex_chars d). Qed.

Lemma hex_ends_clean d : ends_clean (hex d) = true.
Proof.
  unfold ends_clean. destruct (last (hex d)) as [b|] eqn:El; [|done].
  apply last_Some in El as [l El]. assert (Hb : b ∈ hex d) by (rewrite El, elem_of_app; right; by apply elem_of_cons; left).
  apply hex_chars in Hb. assert (Hall : forallb (fun b => negb (in_cutset line_end b)) hex_alphabet = true) by done.
  rewrite forallb_forall in Hall. by apply Hall, list_elem_of_In.
Qed.

Lemma hex_nonempty d : d <> [] -> hex d <> [].
Proof. destruct d; [done|]. intros _ H. discriminate H. Qed.

(** ** The loops end *)

Section Ends.
Context {G : GoCrypto}.

Lemma Next_shorter {M} `{Measurement M} parse (l l' : List M) :
  Next parse l = (None, l') ->
  (length (r_rest (l_src l')) < length (r_rest (l_src l)))%nat /\ HashAlgo l' = HashAlgo l /\
  exists entry, l_current l' = Some entry.
Proof.
  unfold Next. destruct (ReadLine (l_src l)) as [[line|] src] eqn:Er; [|done].
  destruct (parse line) as [|entry]; [done|]. destruct (Validate _ entry); [done|].
  intros [= <-]. split_and!; [by eapply ReadLine_shorter|done|by exists entry].
Qed.

Lemma replay_loop_ends finished fuel v :
  (length (r_rest (l_src (v_leaves v))) < fuel)%nat ->
  exists e v', replay_loop fuel finished v = Some (e, v') /\ v_target v' = v_target v.
Proof.
  revert v. induction fuel as [|fuel IH]; intros v Hf; [lia|]. cbn [replay_loop].
  destruct (finished v); [by eexists _, v|]. destruct (v_pcrMatched v); [by eexists _, v|].
  destruct (Next ParseLeaf (v_leaves v)) as [[e|] leaves] eqn:En; [by eexists _, _|].
  apply Next_shorter in En as (Hlt & _). cbv zeta.
  match goal with |- context [replay_loop fuel _ ?w] => destruct (IH w) as (e & v' & -> & Ht); [cbn; lia|by eexists _, _] end.
Qed.

Lemma target_loop_ends fuel v :
  (length (r_rest (l_src (v_target v))) < fuel)%nat -> exists r, target_loop fuel v = Some r.
Proof.
  revert v. induction fuel as [|fuel IH]; intros v Hf; [lia|]. cbn [target_loop].
  destruct (Next ParseHashedFile (v_target v)) as [[e|] target] eqn:En; [by eexists|].
  apply Next_shorter in En as (Hlt & _). set (w := MkVerifier _ _ _ _ _).
  destruct (replay_loop_ends isLeafFound (S (length (r_rest (l_src (v_leaves w))))) w) as ([e|] & v' & Hr & Ht); [lia|..];
    unfold replayLeaves; rewrite Hr; [by eexists|].
  apply IH. rewrite Ht. cbn. lia.
Qed.

Lemma Attest_ends v : exists r, Attest v = Some r.
Proof.
  unfold Attest, AttestTarget, AttestLeaves, replayLeaves.
  destruct (target_loop_ends (S (length (r_rest (l_src (v_target v))))) v) as [[[e|] v'] ->]; [lia|by eexists|].
  destruct (replay_loop_ends v_pcrMatched (S (length (r_rest (l_src (v_leaves v'))))) v') as (e & v'' & -> & _); [lia|by eexists].
Qed.

(** Attestation always ends: for any two texts and any digest [Attest]
    returns an answer, because every turn of its loops reads at least one byte
    of one of the texts. *)
Theorem attest_terminates algo target leaves expected :
  exists r, attest_texts algo target leaves expected = Some r.
Proof.
  unfold attest_texts. destruct (NewList (FromBytes target) algo) as [t|]; [|by eexists].
  destruct (NewList (FromBytes leaves) algo) as [l|]; [|by eexists].
  destruct (NewVerifier t l expected) as [v|]; [|by eexists].
  destruct (Attest_ends v) as [r ->]. by eexists.
Qed.
End Ends.

(** ** Reading what the kernel prints *)

(** Go's SHA-256 is the kernel's. *)
Class SameHash (E : KernelEnv) (G : GoCrypto) := same_hash : forall x, hash_sum SHA256 x = sha256 x.

Section Replay.
Context {E : KernelEnv} {L : KernelLaws E} {G : GoCrypto} {Same : SameHash E G}.

Abbreviation Z32 := (zeros MERKLE_HASH_SIZE).

(** The PCR after the values [us] were committed to a zeroed one. *)
Definition pcr_of (us : list bytes) : bytes := pcr_replay Z32 (roots Z32 us).

Lemma replay_length us : length (replay Z32 us) = MERKLE_HASH_SIZE.
Proof. destruct us as [|u us _] using rev_ind; [done|]. rewrite replay_app. apply extend_length. Qed.

Lemma pcr_of_length us : length (pcr_of us) = MERKLE_HASH_SIZE.
Proof.
  unfold pcr_of, pcr_replay. destruct (roots Z32 us) as [|r rs _] using rev_ind; [done|].
  rewrite foldl_app. apply sha256_length.
Qed.

Lemma Extend_replay us v :
  length v = MERKLE_HASH_SIZE ->
  Extend (MkPCR (replay Z32 us) SHA256) v = MkPCR (replay Z32 (us ++ [v])) SHA256.
Proof.
  intros Hv. unfold Extend. cbn [pcr_hashAlgo pcr_aggregate]. rewrite same_hash, replay_app. cbn. unfold extend.
  rewrite !take_ge; [done|by rewrite Hv|by rewrite replay_length].
Qed.

Lemma Extend_pcr us v :
  Extend (MkPCR (pcr_of us) SHA256) (replay Z32 (us ++ [v])) = MkPCR (pcr_of (us ++ [v])) SHA256.
Proof.
  unfold Extend. cbn [pcr_hashAlgo pcr_aggregate]. rewrite same_hash. unfold pcr_of, pcr_replay.
  by rewrite roots_snoc, foldl_app.
Qed.

(** The leaf list and the verifier after the leaves [us]. *)
Definition leaf_list (src rest : bytes) (us : list bytes) : List Leaf :=
  MkList (MkReader src rest) (MkPCR (replay Z32 us) SHA256) (MkLeaf <$> last us).

Definition matched (us : list bytes) (expected : bytes) : bool :=
  negb (bool_decide (us = [])) && bool_decide (pcr_of us = expected).

Definition after_leaves (t : List HashedFile) (src rest : bytes) (us : list bytes) (expected : bytes) : Verifier :=
  MkVerifier t (leaf_list src rest us) expected (MkPCR (pcr_of us) SHA256) (matched us expected).

Abbreviation show := merkle_root_history_seq_show.
Abbreviation values := (fmap me_value).

Definition history_ok (h : list merkle_root_entry) : Prop := Forall (fun e => length (me_value e) = MERKLE_HASH_SIZE) h.

Lemma decimal_clean z : x0a ∉ decimal z.
Proof. intros H%decimal_fuel_digits. vm_compute in H. destruct H. congruence. Qed.

(** What follows the value on a line of the history. *)
Definition history_note (e : merkle_root_entry) : bytes :=
  if me_is_aggregate e then lit " [AGGREGATE:" ++ decimal (me_aggregated_count e) ++ lit " entries]" else [].

Lemma show_split e rest :
  length (me_value e) = MERKLE_HASH_SIZE ->
  show e ++ rest = (hex (me_value e) ++ history_note e) ++ x0a :: rest.
Proof.
  intros Hv. unfold merkle_root_history_seq_show. rewrite take_ge by (by rewrite Hv). unfold NL. by rewrite <- !app_assoc.
Qed.

Lemma history_line_clean e :
  (x0a ∉ hex (me_value e) ++ history_note e) /\ ends_clean (hex (me_value e) ++ history_note e) = true.
Proof.
  unfold history_note. destruct (me_is_aggregate e); [|rewrite app_nil_r; split; [by apply hex_no_char|apply hex_ends_clean]].
  split; [|by rewrite !app_assoc, ends_clean_app].
  rewrite !elem_of_app. intros [H|[H|[H|H]]]; revert H.
  - by apply hex_no_char.
  - by apply not_in.
  - apply decimal_clean.
  - by apply not_in.
Qed.

(** A line of the history is read as a leaf with its value; the annotation of
    an aggregate is ignored. *)
Lemma ParseLeaf_history e :
  me_value e <> [] -> ParseLeaf (hex (me_value e) ++ history_note e) = inr (MkLeaf (me_value e)).
Proof.
  intros Hv. assert (Hs : Separator ∉ hex (me_value e)) by (by apply hex_no_char).
  assert (Hc : fst (fst (Cut (hex (me_value e) ++ history_note e) Separator)) = hex (me_value e)).
  { unfold history_note. destruct (me_is_aggregate e); [|by rewrite app_nil_r, Cut_absent].
    change (lit " [AGGREGATE:" ++ ?x) with (Separator :: lit "[AGGREGATE:" ++ x). by rewrite Cut_found. }
  unfold ParseLeaf. destruct (Cut _ _) as [[h a] f]. cbn in Hc. subst h.
  rewrite bool_decide_false by (by apply hex_nonempty). by rewrite hex_roundtrip.
Qed.

Lemma Next_leaf src e rest us :
  length (me_value e) = MERKLE_HASH_SIZE ->
  Next ParseLeaf (leaf_list src (show e ++ rest) us) = (None, leaf_list src rest (us ++ [me_value e])).
Proof.
  intros Hv. destruct (history_line_clean e) as [Hnl Hec].
  assert (Hne : me_value e <> []) by (intros H; by rewrite H in Hv).
  unfold Next, leaf_list. cbn [l_src l_aggregate l_current]. rewrite show_split, ReadLine_line by done.
  rewrite ParseLeaf_history by done. unfold HashAlgo. cbn [Validate Leaf_measurement lf_digest l_aggregate pcr_hashAlgo Size].
  rewrite Hv. cbn [Nat.eqb negb TemplateHash lf_digest]. change ((_ =? _)%nat) with true. cbn [negb].
  rewrite Extend_replay by done. by rewrite last_snoc.
Qed.

(** *** Measurement lines *)

(** A measurement whose line is read back: the name is one field, the text
    after it is one line that does not end in a carriage return, and its first
    space, if it has one, is not its last character. *)
Definition plain_line (name text : bytes) : bool :=
  negb (existsb (Byte.eqb Separator) name) && negb (existsb (Byte.eqb x0a) (name ++ text)) &&
  ends_clean text && negb (bool_decide (text = [])) &&
  (let '(_, after, found) := Cut text Separator in negb found || negb (bool_decide (after = []))).

(** What the kernel prints after the event name. *)
Definition entry_tail (e : measurement_entry) : bytes :=
  (if negb (Byte.eqb (char_at (en_event_data e) 0) NUL) then lit " " ++ cstr (en_event_data e) else []) ++
  (if negb (Byte.eqb (char_at (en_dependencies e) 0) NUL) then lit " " ++ cstr (en_dependencies e) else []).

Definition readable (e : measurement_entry) : Prop :=
  exists text, entry_tail e = Separator :: text /\ en_digest e = sha256 text /\
    plain_line (cstr (en_event_name e)) text = true.

(** The two fields that the verifier hashes are the text after the name. *)
Lemma fields_of_text name text d :
  plain_line name text = true ->
  exists h, ParseHashedFile (hex d ++ Separator :: name ++ Separator :: text) = inr h /\
    hf_templateHash h = d /\ hf_event h = name /\ template_input h = text.
Proof.
  unfold plain_line. rewrite !andb_true_iff, !negb_true_iff. intros [[[[Hn _] _] _] Hcut].
  apply not_in in Hn. unfold ParseHashedFile, hashedFileFields. cbn [SplitN].
  rewrite Cut_found by (by apply hex_no_char). rewrite Cut_found by done.
  destruct (Cut_cases text Separator) as [[Ha Hc]|(a & b & -> & Ha & Hc)]; rewrite Hc in Hcut |- *; rewrite hex_roundtrip.
  - eexists. split_and!; [done..|]. unfold template_input. cbn. by rewrite app_nil_r.
  - cbn [negb orb] in Hcut. apply negb_true_iff, bool_decide_eq_false in Hcut.
    eexists. split_and!; [done..|]. unfold template_input. cbn [hf_filePath hf_fileHash]. by rewrite bool_decide_false.
Qed.

Definition target_list (src rest : bytes) (ds : list bytes) (cur : option HashedFile) : List HashedFile :=
  MkList (MkReader src rest) (MkPCR (replay Z32 ds) SHA256) cur.

Lemma Next_entry src e rest ds cur :
  length (en_digest e) = MERKLE_HASH_SIZE -> readable e ->
  exists h, Next ParseHashedFile (target_list src (container_measurements_seq_show e ++ rest) ds cur) =
    (None, target_list src rest (ds ++ [en_digest e]) (Some h)).
Proof.
  intros Hd (text & Htail & Hdig & Hp). destruct (fields_of_text _ _ (en_digest e) Hp) as (h & Hparse & Hh & _ & Hin).
  assert (Hshow : container_measurements_seq_show e ++ rest =
    (hex (en_digest e) ++ Separator :: cstr (en_event_name e) ++ Separator :: text) ++ x0a :: rest).
  { unfold container_measurements_seq_show, NL. rewrite take_ge by lia. unfold entry_tail in Htail.
    change (Separator :: cstr (en_event_name e) ++ Separator :: text) with (lit " " ++ cstr (en_event_name e) ++ Separator :: text).
    rewrite <- Htail. by rewrite <- !app_assoc. }
  unfold plain_line in Hp. rewrite !andb_true_iff, !negb_true_iff in Hp. destruct Hp as [[[[_ Hnl] Hend] Hne] _].
  apply not_in in Hnl. apply bool_decide_eq_false in Hne. rewrite not_elem_of_app in Hnl. destruct Hnl as [Hnl1 Hnl2].
  exists h. unfold Next, target_list. cbn [l_src l_aggregate l_current]. rewrite Hshow, ReadLine_line.
  - rewrite Hparse. unfold HashAlgo. cbn [Validate HashedFile_measurement l_aggregate pcr_hashAlgo TemplateHash].
    unfold computeTemplateHash. rewrite same_hash, Hin, Hh, <- Hdig. unfold ConstantTimeCompare.
    rewrite bool_decide_true by done. cbn [negb]. by rewrite Extend_replay.
  - rewrite elem_of_app, elem_of_cons, elem_of_app, elem_of_cons.
    intros [H|[H|[H|[H|H]]]]; [revert H; by apply hex_no_char|done..].
  - change (Separator :: text) with ([Separator] ++ text).
    rewrite app_comm_cons, !app_assoc, ends_clean_app; done.
Qed.

(** *** Requests whose measurement is read back *)

Definition request_data (r : bpfima_measurement_request) : bytes :=
  take (Z.to_nat (mr_additional_data_len r)) (mr_additional_data r).

(** The data is text, a request with dependencies names some (or has no
    data), and the hashed text is a plain line. *)
Definition plain_request (r : bpfima_measurement_request) : bool :=
  negb (existsb (Byte.eqb NUL) (request_data r)) &&
  (negb (has_dependencies r) || bool_decide (request_data r = []) || negb (bool_decide (cstr (mr_dependencies r) = []))) &&
  plain_line (cstr (mr_event_name r)) (measurement_payload r).

Lemma cstr_copy_optional x : (strlen x < 256)%nat -> cstr (copy_optional (Some x)) = cstr x.
Proof.
  intros Hx. unfold copy_optional. destruct (negb _) eqn:Ec; [by apply cstr_strscpy_fits|].
  apply negb_false_iff in Ec. destruct (byte_eqb_spec (char_at x 0) NUL) as [H0|]; [|done].
  apply cstr_nil in H0 as ->. done.
Qed.

Lemma cstr_terminated_data r :
  wf_measurement r -> measurement_valid r -> existsb (Byte.eqb NUL) (request_data r) = false ->
  cstr (mr_additional_data (terminate_data r)) = request_data r /\ (length (request_data r) < 256)%nat.
Proof.
  intros Hwf Hv Hn. apply not_in in Hn. pose proof (mv_len r Hv). pose proof (wf_mr_len r Hwf) as [? _].
  assert (Hl : (Z.to_nat (mr_additional_data_len r) < length (mr_additional_data r))%nat).
  { rewrite (wf_mr_data r Hwf). unfold BPFIMA_EVENT_DATA_SIZE. lia. }
  split; [|unfold request_data; rewrite length_take; lia].
  cbn [terminate_data mr_additional_data]. rewrite insert_take_drop by done. by apply cstr_app_nul.
Qed.

Lemma first_char_NUL x : negb (Byte.eqb (char_at x 0) NUL) = negb (bool_decide (cstr x = [])).
Proof.
  f_equal. destruct (byte_eqb_spec (char_at x 0) NUL) as [H|H]; symmetry.
  - by apply bool_decide_eq_true, cstr_nil.
  - apply bool_decide_eq_false. by rewrite cstr_nil.
Qed.

(** The entry of a plain request prints the text that was hashed. *)
Lemma entry_of_plain r :
  wf_measurement r -> measurement_valid r -> plain_request r = true ->
  entry_tail (entry_of r) = Separator :: measurement_payload r /\
  en_digest (entry_of r) = sha256 (measurement_payload r) /\
  cstr (en_event_name (entry_of r)) = cstr (mr_event_name r).
Proof.
  intros Hwf Hv Hp. unfold plain_request in Hp. rewrite !andb_true_iff, !negb_true_iff in Hp.
  destruct Hp as [[Hn Hdeps] Hline]. destruct (cstr_terminated_data r Hwf Hv Hn) as [Hdata Hlen].
  pose proof (mv_event_terminated r Hv) as Hev. pose proof (mv_deps_terminated r Hv) as Hdl.
  split_and!; cbn [entry_of new_entry en_digest en_event_name].
  2:{ apply take_ge. by rewrite sha256_length. }
  2:{ apply cstr_strscpy_fits. unfold BPFIMA_EVENT_NAME_SIZE in Hev. lia. }
  unfold entry_tail. cbn [new_entry entry_of en_event_data en_dependencies]. rewrite !first_char_NUL.
  rewrite !cstr_copy_optional, Hdata; [|exact Hdl|unfold strlen; by rewrite Hdata].
  unfold measurement_payload. fold (request_data r).
  pose proof (mv_no_deps r Hv) as Hnone.
  unfold plain_line in Hline. rewrite !andb_true_iff, !negb_true_iff in Hline.
  destruct Hline as [[_ Hne] _]. apply bool_decide_eq_false in Hne. unfold measurement_payload in Hne. fold (request_data r) in Hne.
  destruct (decide (request_data r = [])) as [H0|H0].
  - rewrite H0 in Hne |- *. rewrite andb_false_r in Hne |- *. cbn in Hne |- *. by rewrite bool_decide_false.
  - rewrite (bool_decide_false (request_data r = [])) in Hdeps |- * by done. rewrite orb_false_r in Hdeps.
    rewrite andb_true_r. cbn [negb].
    destruct (decide (cstr (mr_dependencies r) = [])) as [H1|H1].
    + rewrite H1 in Hdeps |- *. rewrite orb_false_r, negb_true_iff in Hdeps. rewrite Hdeps. cbn. by rewrite !app_nil_r.
    + destruct (has_dependencies r); [|by destruct H1; apply Hnone].
      rewrite bool_decide_false by done. by rewrite <- app_assoc.
Qed.

Lemma plain_request_line r : plain_request r = true -> plain_line (cstr (mr_event_name r)) (measurement_payload r) = true.
Proof. unfold plain_request. rewrite !andb_true_iff. tauto. Qed.

Lemma plain_readable r :
  wf_measurement r -> measurement_valid r -> plain_request r = true ->
  readable (entry_of r) /\ length (en_digest (entry_of r)) = MERKLE_HASH_SIZE.
Proof.
  intros Hwf Hv Hp. destruct (entry_of_plain r Hwf Hv Hp) as (Ht & Hd & Hn).
  split; [|rewrite Hd; apply sha256_length]. exists (measurement_payload r). rewrite Hn. split_and!; [done..|].
  by apply plain_request_line.
Qed.

(** ** Replaying leaves *)

(** A condition of the loop that depends on the leaves read so far only. *)
Definition decided_by (finished : Verifier -> bool) (f : list bytes -> bool) (t : List HashedFile) (src expected : bytes) : Prop :=
  forall rest us, finished (after_leaves t src rest us expected) = f us.

(** The loop reads the entries [xs] and stops at the condition when it does
    not hold, and the digest is not reached, before the last of them. *)
Lemma replay_run finished f t src expected rest xs us fuel :
  decided_by finished f t src expected -> history_ok xs -> (length xs <= fuel)%nat ->
  (forall ys e zs, xs = ys ++ e :: zs -> f (us ++ values ys) = false /\ matched (us ++ values ys) expected = false) ->
  f (us ++ values xs) = true ->
  replay_loop fuel finished (after_leaves t src (flat_map show xs ++ rest) us expected) =
    Some (None, after_leaves t src rest (us ++ values xs) expected).
Proof.
  intros Hdec. revert us fuel. induction xs as [|e xs IH]; intros us fuel Hok Hfuel Hno Hyes.
  { rewrite app_nil_r in Hyes |- *. destruct fuel; cbn [replay_loop flat_map app]; by rewrite Hdec, Hyes. }
  apply Forall_cons in Hok as [He Hok]. destruct fuel as [|fuel]; [cbn in Hfuel; lia|]. cbn [length] in Hfuel.
  destruct (Hno [] e xs eq_refl) as [Hf Hm]. rewrite fmap_nil, app_nil_r in Hf, Hm.
  cbn [replay_loop]. rewrite Hdec, Hf. cbn [after_leaves v_pcrMatched v_leaves v_target v_expected v_pcr flat_map].
  rewrite Hm, <- app_assoc, Next_leaf by done. cbv zeta.
  change (Aggregate (leaf_list src ?r ?u)) with (replay Z32 u). rewrite Extend_pcr. cbn [Read pcr_aggregate].
  assert (Hmatch : ConstantTimeCompare (pcr_of (us ++ [me_value e])) expected = matched (us ++ [me_value e]) expected).
  { unfold matched, ConstantTimeCompare. rewrite (bool_decide_false (_ = [])); [done|]. by destruct us. }
  rewrite Hmatch. fold (after_leaves t src (flat_map show xs ++ rest) (us ++ [me_value e]) expected).
  change (us ++ values (e :: xs)) with (us ++ [me_value e] ++ values xs) in Hyes |- *. rewrite app_assoc in Hyes |- *.
  apply IH; [done|lia| |done]. intros ys e' zs ->. rewrite <- app_assoc. exact (Hno (e :: ys) e' zs eq_refl).
Qed.

Lemma flat_map_show_length xs rest : (length xs <= length (flat_map show xs ++ rest))%nat.
Proof.
  induction xs as [|e xs IH]; cbn [flat_map length]; [lia|]. rewrite <- app_assoc, length_app.
  assert (1 <= length (show e))%nat; [|lia].
  unfold merkle_root_history_seq_show, NL. rewrite !length_app. cbn [length]. lia.
Qed.

Lemma replayLeaves_run finished f t src expected rest xs us :
  decided_by finished f t src expected -> history_ok xs ->
  (forall ys e zs, xs = ys ++ e :: zs -> f (us ++ values ys) = false /\ matched (us ++ values ys) expected = false) ->
  f (us ++ values xs) = true ->
  replayLeaves finished (after_leaves t src (flat_map show xs ++ rest) us expected) =
    Some (None, after_leaves t src rest (us ++ values xs) expected).
Proof.
  intros Hdec Hok Hno Hyes. unfold replayLeaves. cbn [after_leaves v_leaves leaf_list l_src r_rest].
  apply (replay_run _ f); [done|done| |done|done]. pose proof (flat_map_show_length xs rest). lia.
Qed.

(** The target's aggregate is the current leaf. *)
Definition found_in (ds : list bytes) (us : list bytes) : bool :=
  match last us with Some u => bool_decide (replay Z32 ds = u) | None => false end.

Lemma isLeafFound_decided src' rest' ds cur src expected :
  decided_by isLeafFound (found_in ds) (target_list src' rest' ds cur) src expected.
Proof. intros rest us. unfold isLeafFound, found_in. cbn. by destruct (last us). Qed.

Lemma pcrMatched_decided t src expected : decided_by v_pcrMatched (fun us => matched us expected) t src expected.
Proof. done. Qed.

(** The first occurrence of a value. *)
Lemma first_value (a : bytes) (h : list merkle_root_entry) :
  a ∈ values h -> exists xs e ys, h = xs ++ e :: ys /\ me_value e = a /\ a ∉ values xs.
Proof.
  induction h as [|e h IH]; [by intros ?%elem_of_nil|]. rewrite fmap_cons, elem_of_cons.
  destruct (decide (me_value e = a)) as [He|He]; [intros _; exists [], e, h; split_and!; [done..|apply not_elem_of_nil]|].
  intros [H|H]; [done|]. destruct (IH H) as (xs & e' & ys & -> & He' & Hx). exists (e :: xs), e', ys.
  split_and!; [done..|]. rewrite fmap_cons, not_elem_of_cons. split; [congruence|done].
Qed.

Lemma first_suffix {A} (a : A) l1 l2 k1 k2 : a ∉ l1 -> l1 ++ a :: l2 = k1 ++ a :: k2 -> k2 `sublist_of` l2.
Proof.
  revert k1. induction l1 as [|x l1 IH]; intros [|y k1] Hl H; simplify_eq/=; [done|..].
  - apply sublist_inserts_l. by apply sublist_cons.
  - rewrite not_elem_of_cons in Hl. by destruct Hl.
  - rewrite not_elem_of_cons in Hl. eapply IH; [by destruct Hl|done].
Qed.

Definition to_list {A} (o : option A) : list A := match o with Some a => [a] | None => [] end.

Lemma prefix_last (xs : list merkle_root_entry) e ys e' zs us :
  xs ++ [e] = ys ++ e' :: zs -> ys <> [] -> exists u, last (us ++ values ys) = Some u /\ u ∈ values xs.
Proof.
  intros H Hne. destruct ys as [|y ys _] using rev_ind; [done|]. exists (me_value y).
  rewrite fmap_app, app_assoc. cbn [fmap list_fmap]. rewrite last_snoc. split; [done|].
  assert (Hp : ys ++ [y] `prefix_of` xs).
  { destruct zs as [|z zs _] using rev_ind.
    - apply app_inj_tail in H as [-> _]. done.
    - rewrite app_comm_cons, app_assoc in H. apply app_inj_tail in H as [-> _]. by apply prefix_app_r. }
  destruct Hp as [k ->]. rewrite !fmap_app, !elem_of_app. left. right. apply elem_of_cons. by left.
Qed.

(** Looking for the next leaf of the target: when the leaves still needed are
    among those not yet read (or the current one), the next one is found. *)
Lemma find_next t src' rest' ds cur src expected extra h us a needed :
  t = target_list src' rest' ds cur -> a = replay Z32 ds -> history_ok h ->
  a :: needed `sublist_of` to_list (last us) ++ values h ->
  (forall ys e zs, h = ys ++ e :: zs -> matched (us ++ values ys) expected = false) ->
  exists hx hy, h = hx ++ hy /\
    replayLeaves isLeafFound (after_leaves t src (flat_map show h ++ extra) us expected) =
      Some (None, after_leaves t src (flat_map show hy ++ extra) (us ++ values hx) expected) /\
    needed `sublist_of` to_list (last (us ++ values hx)) ++ values hy.
Proof.
  intros -> -> Hok Hsub Hno. apply sublist_cons_l in Hsub as (k1 & k2 & Hk & Hsub).
  destruct (found_in ds us) eqn:Ef.
  { exists [], h. rewrite fmap_nil, app_nil_r. split_and!; [done| |].
    - pose proof (replayLeaves_run isLeafFound (found_in ds) (target_list src' rest' ds cur) src expected
        (flat_map show h ++ extra) [] us) as H. rewrite fmap_nil, app_nil_r in H.
      apply H; [apply isLeafFound_decided|constructor|by intros [] ? ?|done].
    - rewrite Hk. apply sublist_inserts_l. by apply sublist_cons. }
  assert (exists k1', values h = k1' ++ replay Z32 ds :: k2) as [k1' Hv].
  { unfold found_in in Ef. destruct (last us) as [u|]; [|by exists k1]. apply bool_decide_eq_false in Ef.
    destruct k1 as [|x k1]; simplify_eq/=. by exists k1. }
  destruct (first_value (replay Z32 ds) h) as (xs & e & ys & -> & He & Hx).
  { rewrite Hv. rewrite elem_of_app, elem_of_cons. tauto. }
  exists (xs ++ [e]), ys. split; [by rewrite <- app_assoc|]. split.
  - rewrite (cons_middle e xs ys), app_assoc, flat_map_app, <- (app_assoc _ (flat_map show ys)).
    apply (replayLeaves_run _ (found_in ds)); [apply isLeafFound_decided| | |].
    + unfold history_ok in Hok. rewrite cons_middle, app_assoc in Hok. by apply Forall_app in Hok as [? _].
    + intros ys0 e' zs Hp. split.
      2:{ apply (Hno ys0 e' (zs ++ ys)). by rewrite cons_middle, app_assoc, Hp, <- app_assoc. }
      destruct (decide (ys0 = [])) as [->|Hne]; [by rewrite app_nil_r|].
      destruct (prefix_last xs e ys0 e' zs us Hp Hne) as (u & Hl & Hu). unfold found_in. rewrite Hl.
      apply bool_decide_eq_false. congruence.
    + unfold found_in. rewrite fmap_app, app_assoc. cbn [fmap list_fmap]. rewrite last_snoc. by apply bool_decide_eq_true.
  - rewrite fmap_app, app_assoc. cbn [fmap list_fmap]. rewrite last_snoc, He. cbn [to_list app].
    apply sublist_cons. etrans; [exact Hsub|]. rewrite fmap_app, fmap_cons, He in Hv. by eapply first_suffix.
Qed.

(** The whole target list. *)
Lemma target_complete es : forall src' ds cur src expected extra h us fuel,
  Forall (fun e => length (en_digest e) = MERKLE_HASH_SIZE /\ readable e) es -> history_ok h ->
  roots (replay Z32 ds) (en_digest <$> es) `sublist_of` to_list (last us) ++ values h ->
  (forall ys e zs, h = ys ++ e :: zs -> matched (us ++ values ys) expected = false) ->
  (length es < fuel)%nat ->
  exists t hx hy, h = hx ++ hy /\
    target_loop fuel (after_leaves (target_list src' (flat_map container_measurements_seq_show es) ds cur) src
        (flat_map show h ++ extra) us expected) =
      Some (None, after_leaves t src (flat_map show hy ++ extra) (us ++ values hx) expected).
Proof.
  induction es as [|e es IH]; intros src' ds cur src expected extra h us fuel Hes Hok Hsub Hno Hfuel;
    (destruct fuel as [|fuel]; [cbn in Hfuel; lia|]).
  { eexists _, [], h. split; [done|]. cbn. by rewrite app_nil_r. }
  apply Forall_cons in Hes as [[Hd Hr] Hes]. cbn [length] in Hfuel.
  destruct (Next_entry src' e (flat_map container_measurements_seq_show es) ds cur Hd Hr) as [hf Hn].
  cbn [flat_map target_loop after_leaves v_target v_leaves v_expected v_pcr v_pcrMatched]. rewrite Hn.
  fold (after_leaves (target_list src' (flat_map container_measurements_seq_show es) (ds ++ [en_digest e]) (Some hf)) src (flat_map show h ++ extra) us expected).
  assert (Hroot : extend (replay Z32 ds) (en_digest e) = replay Z32 (ds ++ [en_digest e])) by (by rewrite replay_app).
  rewrite fmap_cons in Hsub. cbn [roots] in Hsub. rewrite Hroot in Hsub.
  destruct (find_next _ src' (flat_map container_measurements_seq_show es) (ds ++ [en_digest e]) (Some hf) src expected extra h us _ _ eq_refl eq_refl Hok Hsub Hno)
    as (hx & hy & -> & -> & Hsub').
  apply Forall_app in Hok as [Hokx Hoky].
  destruct (IH src' (ds ++ [en_digest e]) (Some hf) src expected extra hy (us ++ values hx) fuel) as (t & hx' & hy' & -> & Ht);
    [done|done|done| |lia|].
  { intros ys e' zs ->. rewrite <- app_assoc, <- fmap_app. apply (Hno (hx ++ ys) e' zs). by rewrite app_assoc. }
  exists t, (hx ++ hx'), hy'. split; [by rewrite app_assoc|]. by rewrite fmap_app, app_assoc.
Qed.

Lemma entries_length es : (length es <= length (flat_map container_measurements_seq_show es))%nat.
Proof.
  induction es as [|e es IH]; cbn [flat_map length]; [lia|]. rewrite length_app.
  assert (1 <= length (container_measurements_seq_show e))%nat; [|lia].
  unfold container_measurements_seq_show, NL. rewrite !length_app. cbn [length]. lia.
Qed.

(** The digest is reached at the last leaf only. *)
Definition reached_last (vs : list bytes) : Prop :=
  forall us w ws, vs = us ++ w :: ws -> us <> [] -> pcr_of us <> pcr_of vs.

(** A verifier of two texts starts with nothing read. *)
Lemma attest_texts_start target leaves expected :
  length expected = MERKLE_HASH_SIZE ->
  attest_texts SHA256 target leaves expected =
    fst <$> Attest (after_leaves (target_list target target [] None) leaves leaves [] expected).
Proof.
  intros He. unfold attest_texts, NewList, NewVerifier, setExpected. cbn [pcr_New IsValidAlgo HashAlgo l_aggregate pcr_hashAlgo].
  rewrite bool_decide_true by done. cbn [negb v_leaves Size]. rewrite He. done.
Qed.

Lemma accepts es h extra :
  Forall (fun e => length (en_digest e) = MERKLE_HASH_SIZE /\ readable e) es -> history_ok h -> h <> [] ->
  roots Z32 (en_digest <$> es) `sublist_of` values h -> reached_last (values h) ->
  attest_texts SHA256 (flat_map container_measurements_seq_show es) (flat_map show h ++ extra) (pcr_of (values h)) = Some None.
Proof.
  intros Hes Hok Hne Hsub Hlast. rewrite attest_texts_start by apply pcr_of_length.
  assert (Hno : forall ys e zs, h = ys ++ e :: zs -> matched (values ys) (pcr_of (values h)) = false).
  { intros ys e zs ->. unfold matched. case_bool_decide as H0; [done|]. cbn [negb andb].
    apply bool_decide_eq_false, (Hlast _ (me_value e) (values zs)); [by rewrite fmap_app|done]. }
  unfold Attest, AttestTarget. cbn [after_leaves v_target target_list l_src r_rest].
  destruct (target_complete es (flat_map container_measurements_seq_show es) [] None (flat_map show h ++ extra)
    (pcr_of (values h)) extra h [] (S (length (flat_map container_measurements_seq_show es)))) as (t & hx & hy & -> & Ht);
    [done|done|done|done|pose proof (entries_length es); lia|].
  unfold after_leaves, target_list in Ht |- *. rewrite Ht. unfold AttestLeaves.
  change ([] ++ values hx) with (values hx). fold (after_leaves t (flat_map show (hx ++ hy) ++ extra) (flat_map show hy ++ extra) (values hx) (pcr_of (values (hx ++ hy)))).
  apply Forall_app in Hok as [_ Hoky].
  rewrite (replayLeaves_run v_pcrMatched (fun us => matched us (pcr_of (values (hx ++ hy)))) t _ _ extra hy (values hx)
    (pcrMatched_decided _ _ _) Hoky); [done| |].
  - intros ys e zs ->. rewrite <- fmap_app. assert (H : matched (values (hx ++ ys)) (pcr_of (values (hx ++ ys ++ e :: zs))) = false).
    { apply (Hno _ e zs). by rewrite app_assoc. }
    by split.
  - rewrite <- fmap_app. unfold matched. rewrite (bool_decide_true (_ = pcr_of _)) by done.
    rewrite bool_decide_false; [done|]. intros H%fmap_nil_inv. done.
Qed.

(** ** Chains of hashes *)

(** The inputs that are hashed to extend [start] by [rs] in turn. *)
Fixpoint chain_inputs (start : bytes) (rs : list bytes) : list bytes :=
  match rs with [] => [] | r :: rs => (start ++ r) :: chain_inputs (sha256 (start ++ r)) rs end.

(** Among these inputs there is a collision, or one with the digest zero. *)
Definition broken (inputs : list bytes) : Prop :=
  (exists x y, x ∈ inputs /\ y ∈ inputs /\ x <> y /\ sha256 x = sha256 y) \/
  (exists x, x ∈ inputs /\ sha256 x = Z32).

Lemma broken_mono xs ys : xs ⊆ ys -> broken xs -> broken ys.
Proof. intros Hs [(x & y & Hx & Hy & H)|(x & Hx & H)]; [left; exists x, y|right; exists x]; auto. Qed.

Definition chain (start : bytes) (rs : list bytes) : bytes := foldl (fun p r => sha256 (p ++ r)) start rs.

Lemma chain_inputs_snoc start rs r : chain_inputs start (rs ++ [r]) = chain_inputs start rs ++ [chain start rs ++ r].
Proof. revert start. induction rs as [|x rs IH]; intros start; [done|]. cbn. by rewrite IH. Qed.

Lemma chain_length rs : length (chain Z32 rs) = MERKLE_HASH_SIZE.
Proof. destruct rs as [|r rs _] using rev_ind; [done|]. unfold chain. rewrite foldl_app. apply sha256_length. Qed.

(** Two chains from zero that end in the same digest are the same chain. *)
Lemma chain_inj rs ss :
  chain Z32 rs = chain Z32 ss -> rs = ss \/ broken (chain_inputs Z32 rs ++ chain_inputs Z32 ss).
Proof.
  revert ss. induction rs as [|r rs IH] using rev_ind; intros ss; destruct ss as [|q ss _] using rev_ind.
  - by left.
  - intros H. right. right. exists (chain Z32 ss ++ q). rewrite chain_inputs_snoc. split; [rewrite !elem_of_app; right; right; by apply elem_of_cons; left|].
    unfold chain in *. rewrite foldl_app in H. done.
  - intros H. right. right. exists (chain Z32 rs ++ r). rewrite chain_inputs_snoc. split; [rewrite !elem_of_app; left; right; by apply elem_of_cons; left|].
    unfold chain in *. rewrite foldl_app in H. done.
  - intros H. rewrite !chain_inputs_snoc.
    assert (Hh : sha256 (chain Z32 rs ++ r) = sha256 (chain Z32 ss ++ q)).
    { unfold chain in *. by rewrite !foldl_app in H. }
    destruct (decide (chain Z32 rs ++ r = chain Z32 ss ++ q)) as [Heq|Hne].
    + apply app_inj_1 in Heq as [Hc ->]; [|by rewrite !chain_length].
      destruct (IH ss Hc) as [->|Hb]; [by left|]. right. eapply broken_mono; [|exact Hb].
      intros x. rewrite !elem_of_app. tauto.
    + right. left. exists (chain Z32 rs ++ r), (chain Z32 ss ++ q).
      split_and!; [| |done|done]; rewrite !elem_of_app, !list_elem_of_singleton; tauto.
Qed.

(** ** The log as chains *)

Definition digests_ok (vs : list bytes) : Prop := Forall (fun v => length v = MERKLE_HASH_SIZE) vs.

Lemma replay_chain us : digests_ok us -> replay Z32 us = chain Z32 us.
Proof.
  induction us as [|u us IH] using rev_ind; [done|]. intros Hu. apply Forall_app in Hu as [Hus Hu].
  apply Forall_cons in Hu as [Hu _]. rewrite replay_app, IH by done. unfold chain at 2. rewrite foldl_app. fold (chain Z32 us).
  cbn. unfold extend. rewrite !take_ge; [done|by rewrite Hu|by rewrite chain_length].
Qed.

Lemma last_root us : us <> [] -> last (roots Z32 us) = Some (replay Z32 us).
Proof. destruct us as [|u us _] using rev_ind; [done|]. intros _. by rewrite roots_snoc, last_snoc. Qed.

Lemma roots_length start us : length (roots start us) = length us.
Proof. revert start. induction us as [|u us IH]; intros start; [done|]. cbn. by rewrite IH. Qed.

(** What is hashed to commit [vs]: the inputs of the roots and of the PCR. *)
Definition log_inputs (vs : list bytes) : list bytes := chain_inputs Z32 vs ++ chain_inputs Z32 (roots Z32 vs).

(** The PCR determines the committed values. *)
Lemma pcr_of_inj us vs :
  digests_ok us -> digests_ok vs -> pcr_of us = pcr_of vs -> us = vs \/ broken (log_inputs us ++ log_inputs vs).
Proof.
  intros Hu Hv H. destruct (chain_inj (roots Z32 us) (roots Z32 vs) H) as [Hr|Hb].
  2:{ right. eapply broken_mono; [|exact Hb]. unfold log_inputs. intros x. rewrite !elem_of_app. tauto. }
  pose proof (f_equal length Hr) as Hl. rewrite !roots_length in Hl.
  destruct us as [|u us0]; [left; by destruct vs|]. destruct vs as [|v vs0]; [done|].
  pose proof (f_equal last Hr) as Hlast. rewrite !last_root in Hlast by done. apply (inj Some) in Hlast.
  rewrite !replay_chain in Hlast by done. destruct (chain_inj _ _ Hlast) as [He|Hb]; [by left|]. right.
  eapply broken_mono; [|exact Hb]. unfold log_inputs. intros x. rewrite !elem_of_app. tauto.
Qed.

Lemma chain_inputs_app start rs ss : chain_inputs start (rs ++ ss) = chain_inputs start rs ++ chain_inputs (chain start rs) ss.
Proof. revert start. induction rs as [|r rs IH]; intros start; [done|]. cbn. by rewrite IH. Qed.

Lemma roots_app start us ws : roots start (us ++ ws) = roots start us ++ roots (replay start us) ws.
Proof. revert start. induction us as [|u us IH]; intros start; [done|]. cbn. by rewrite IH. Qed.

Lemma log_inputs_prefix us ws : log_inputs us ⊆ log_inputs (us ++ ws).
Proof.
  unfold log_inputs. rewrite roots_app, !chain_inputs_app. intros x. rewrite !elem_of_app. tauto.
Qed.

(** The digest is reached at the last leaf only, or SHA-256 is broken on the
    inputs of the log. *)
Lemma reached_last_or_broken vs : digests_ok vs -> reached_last vs \/ broken (log_inputs vs).
Proof.
  intros Hok. destruct (decide (Exists (fun k => pcr_of (take k vs) = pcr_of vs) (seq 1 (length vs - 1)))) as [H|H].
  - right. apply Exists_exists in H as (k & Hk & Hp). apply elem_of_seq in Hk.
    pose proof (proj1 (Forall_app (fun v => length v = MERKLE_HASH_SIZE) (take k vs) (drop k vs))) as Hs.
    rewrite take_drop in Hs. destruct (Hs Hok) as [Htake _].
    destruct (pcr_of_inj (take k vs) vs Htake Hok Hp) as [He|Hb].
    + apply (f_equal length) in He. rewrite length_take in He. lia.
    + eapply broken_mono; [|exact Hb]. intros x. rewrite elem_of_app. intros [Hx|Hx]; [|done].
      rewrite <- (take_drop k vs). by apply log_inputs_prefix.
  - left. intros us w ws Hvs Hne Hp. apply H. apply Exists_exists. exists (length us). rewrite Hvs at 2. rewrite take_app_length.
    split; [|done]. apply elem_of_seq. rewrite Hvs, length_app. cbn [length]. destruct us; [done|]. cbn [length]. lia.
Qed.

(** ** Completeness *)

Lemma expands_untrimmed h vs :
  expands h vs -> Forall (fun e => me_is_aggregate e = false) h -> vs = values h.
Proof.
  induction 1 as [|h vs e _ IH He|d r vs agg _ _ Ha]; intros Hf; [done|..].
  - apply Forall_app in Hf as [Hf _]. rewrite fmap_app. by rewrite <- IH.
  - apply Forall_cons in Hf as [Hf _]. pose proof (ag_flag _ _ Ha). congruence.
Qed.

Definition plain_call (e : entry) : Prop := match e with Measure r => plain_request r = true | _ => True end.

Definition readable_entry (e : measurement_entry) : Prop := length (en_digest e) = MERKLE_HASH_SIZE /\ readable e.

Lemma plain_calls_yield es : Forall plain_call es -> Forall (call_yields (all_entries readable_entry)) es.
Proof.
  intros H. eapply Forall_impl; [exact H|]. intros [r| | | | | | | | | | |] He; cbn in *; try done.
  intros Hwf Hv c id l Hl. apply Forall_app. split; [done|]. constructor; [|done]. by destruct (plain_readable r Hwf Hv He).
Qed.

Lemma no_entries_yet P pcr s : sys_inv pcr [] s -> entries_of P s.
Proof.
  intros [Hm _]. split; [|by split]. intros c n Hn. pose proof (mi_leaves _ _ _ _ _ Hm c n Hn) as Hs. apply sublist_nil_r in Hs.
  apply (f_equal length) in Hs. rewrite roots_length, length_fmap in Hs.
  by destruct (cn_measurement_list n); [constructor|].
Qed.

(** The history of a state whose log is [vs], when nothing was trimmed. *)
Lemma untrimmed_history vs s :
  sys_inv Z32 vs s -> Forall (fun e => me_is_aggregate e = false) (merkle_root_history (k_merkle s)) ->
  values (merkle_root_history (k_merkle s)) = vs /\ history_ok (merkle_root_history (k_merkle s)) /\ digests_ok vs.
Proof.
  intros [Hm _] Hf. pose proof (mi_log _ _ _ _ _ Hm) as Hl.
  pose proof (expands_untrimmed _ _ (li_history _ _ _ Hl) Hf) as Hv. pose proof (li_values _ _ _ Hl) as Hd.
  split_and!; [done| |done]. rewrite Hv in Hd. by apply Forall_fmap in Hd.
Qed.

Lemma loaded_inv next maps s : bpfima_init (loaded_state next Z32 maps) = Some (0, s) -> sys_inv Z32 [] s.
Proof.
  intros Hinit. pose proof (wp_init next Z32 maps) as Hw. unfold wp in Hw. rewrite Hinit in Hw. destruct Hw as [Hst _].
  specialize (Hst eq_refl). by apply started_inv in Hst.
Qed.

(** C6: An honest system passes attestation. Load the module over a zeroed PCR
    and run any sequence of entry points in which the measured texts are plain
    lines. Read a container's measurement file and the PCR, run anything, then
    read the history. If the log is anchored to the TPM, no error is latched
    and the history was not trimmed, the verifier accepts the three, unless
    SHA-256 has a collision, or a preimage of zero, among the inputs that the
    log itself hashed. Leaves that were committed after the PCR was read do
    not disturb it. *)
Theorem attest_complete next maps s0 es s1 es' s2 c n target leaves :
  bpfima_init (loaded_state next Z32 maps) = Some (0, s0) ->
  steps s0 es s1 -> Forall plain_call es -> steps s1 es' s2 ->
  container_heap (k_containers s1) !! c = Some n ->
  bpfima_commit_error (k_commit s1) = 0 -> hardware_anchored (k_commit s1) = true ->
  Forall (fun e => me_is_aggregate e = false) (merkle_root_history (k_merkle s2)) ->
  read_container_measurements c s1 = Some (target, s1) ->
  read_merkle_root_history s2 = Some (leaves, s2) ->
  attest_texts SHA256 target leaves (k_pcr s1) = Some None \/
  broken (log_inputs (values (merkle_root_history (k_merkle s2)))).
Proof.
  intros Hinit Hs1 Hplain Hs2 Hn Herr Hanch Hno Ht Hh.
  apply loaded_inv in Hinit as Hst.
  destruct (steps_inv _ _ _ _ _ Hst Hs1) as [[vs Hi1] _]. cbn [app] in Hi1.
  destruct (steps_inv _ _ _ _ _ Hi1 Hs2) as [[ws Hi2] _].
  destruct (untrimmed_history _ _ Hi2 Hno) as (Hvals & Hok & Hd).
  assert (Hent : entries_of readable_entry s1).
  { eapply steps_entries; [exact Hst|exact Hs1|by apply plain_calls_yield|by eapply no_entries_yet]. }
  pose proof (mi_log _ _ _ _ _ (proj1 Hi1)) as Hl. pose proof (li_pcr _ _ _ Hl Herr) as Hpcr. rewrite Hanch in Hpcr.
  unfold read_container_measurements, load_container, bind, gets, ret in Ht. rewrite Hn in Ht. cbn in Ht. injection Ht as <-.
  unfold read_merkle_root_history, gets in Hh. injection Hh as <-. rewrite Hvals, Hpcr.
  apply Forall_app in Hd as Hd'. destruct Hd' as [Hdv _].
  destruct (reached_last_or_broken vs Hdv) as [Hlast|Hb]; [left|right; eapply broken_mono; [apply log_inputs_prefix|exact Hb]].
  apply fmap_app_inv in Hvals as (hx & hy & -> & -> & Hh). rewrite Hh in Hok |- *. rewrite flat_map_app.
  apply Forall_app in Hok as [Hokx _].
  apply (accepts (cn_measurement_list n) hx); [by eapply Hent|done| |by apply (mi_leaves _ _ _ _ _ (proj1 Hi1) c)|done].
  intros ->. by apply (li_anchored _ _ _ Hl Hanch).
Qed.

(** ** Soundness *)

(** One valid leaf, or entry, at the start of a text, and the rest. *)
Definition read_leaf (text : bytes) : option (bytes * bytes) :=
  match ReadLine (MkReader [] text) with
  | (Some line, r) =>
      match ParseLeaf line with
      | inr l => if (length (lf_digest l) =? MERKLE_HASH_SIZE)%nat then Some (lf_digest l, r_rest r) else None
      | inl _ => None
      end
  | (None, _) => None
  end.

(** The digests of the valid leaves at the start of a text. *)
Fixpoint leaf_digests_fuel (fuel : nat) (text : bytes) : list bytes :=
  match fuel with
  | O => []
  | S fuel => match read_leaf text with Some (v, rest) => v :: leaf_digests_fuel fuel rest | None => [] end
  end.

Definition leaf_digests (text : bytes) : list bytes := leaf_digests_fuel (length text) text.

Lemma ReadLine_src src text :
  ReadLine (MkReader src text) = let '(line, r) := ReadLine (MkReader [] text) in (line, MkReader src (r_rest r)).
Proof. unfold ReadLine. cbn [r_rest r_src]. by destruct (ReadString text x0a) as [[|] rest]. Qed.

Lemma Next_leaf_inv src text us l' :
  Next ParseLeaf (leaf_list src text us) = (None, l') ->
  exists v rest, read_leaf text = Some (v, rest) /\ length v = MERKLE_HASH_SIZE /\ l' = leaf_list src rest (us ++ [v]).
Proof.
  unfold Next, read_leaf, leaf_list. cbn [l_src l_aggregate l_current]. rewrite ReadLine_src.
  destruct (ReadLine (MkReader [] text)) as [[line|] r]; [|done].
  destruct (ParseLeaf line) as [|leaf]; [done|]. unfold HashAlgo. cbn [Validate Leaf_measurement l_aggregate pcr_hashAlgo TemplateHash].
  change (Size SHA256) with MERKLE_HASH_SIZE.
  destruct (Nat.eqb_spec (length (lf_digest leaf)) MERKLE_HASH_SIZE) as [Hl|]; cbn [negb]; [|done].
  intros [= <-]. eexists _, _. split_and!; [done..|]. rewrite Extend_replay, last_snoc by done. by destruct leaf.
Qed.

Lemma read_leaf_shorter text v rest : read_leaf text = Some (v, rest) -> (length rest < length text)%nat.
Proof.
  unfold read_leaf. destruct (ReadLine (MkReader [] text)) as [[line|] r] eqn:Er; [|done].
  apply ReadLine_shorter in Er. destruct (ParseLeaf line); [done|]. destruct (_ =? _)%nat; [|done].
  intros [= _ <-]. exact Er.
Qed.

(** Reading [us] from the start of [text] leaves [rest]. *)
Inductive leaves_from : bytes -> list bytes -> bytes -> Prop :=
  | leaves_nil text : leaves_from text [] text
  | leaves_cons text v rest us rest' :
      read_leaf text = Some (v, rest) -> leaves_from rest us rest' -> leaves_from text (v :: us) rest'.

Lemma leaves_from_app text us rest vs rest' :
  leaves_from text us rest -> leaves_from rest vs rest' -> leaves_from text (us ++ vs) rest'.
Proof. induction 1 as [|text v rest us rest1 Hr _ IH]; intros H; [done|]. econstructor; [exact Hr|by apply IH]. Qed.

Lemma leaves_from_digests text us rest :
  leaves_from text us rest -> us `prefix_of` leaf_digests text.
Proof.
  unfold leaf_digests. intros H. assert (Hle : (length text <= length text)%nat) by lia. revert Hle.
  generalize (length text) at 2 3 as fuel.
  induction H as [|text v rest us rest' Hr _ IH]; intros fuel Hf; [apply prefix_nil|].
  pose proof (read_leaf_shorter _ _ _ Hr). destruct fuel as [|fuel]; [lia|]. cbn [leaf_digests_fuel]. rewrite Hr.
  apply prefix_cons, IH. lia.
Qed.

Lemma leaves_from_ok text us rest : leaves_from text us rest -> digests_ok us.
Proof.
  induction 1 as [|text v rest us rest' Hr _ IH]; [constructor|]. constructor; [|done]. unfold read_leaf in Hr.
  destruct (ReadLine (MkReader [] text)) as [[line|] r]; [|done]. destruct (ParseLeaf line); [done|].
  destruct (Nat.eqb_spec (length (lf_digest l)) MERKLE_HASH_SIZE); [|done]. by injection Hr as <- _.
Qed.

(** A replay that succeeds read some leaves and ended at the condition. *)
Lemma replay_inv finished t src expected fuel text us v' :
  replay_loop fuel finished (after_leaves t src text us expected) = Some (None, v') ->
  exists xs rest, leaves_from text xs rest /\ v' = after_leaves t src rest (us ++ xs) expected /\ finished v' = true.
Proof.
  revert text us. induction fuel as [|fuel IH]; intros text us; cbn [replay_loop];
    destruct (finished (after_leaves t src text us expected)) eqn:Ef;
    try (intros [= <-]; exists [], text; rewrite app_nil_r; split_and!; [constructor|done..]).
  { done. }
  cbn [after_leaves v_pcrMatched v_leaves v_target v_expected v_pcr]. destruct (matched us expected); [done|].
  destruct (Next ParseLeaf (leaf_list src text us)) as [[e|] l'] eqn:En; [done|].
  apply Next_leaf_inv in En as (v & rest & Hr & Hl & ->). cbv zeta.
  change (Aggregate (leaf_list src rest ?u)) with (replay Z32 u). rewrite Extend_pcr. cbn [Read pcr_aggregate].
  assert (Hmatch : ConstantTimeCompare (pcr_of (us ++ [v])) expected = matched (us ++ [v]) expected).
  { unfold matched, ConstantTimeCompare. rewrite (bool_decide_false (_ = [])); [done|]. by destruct us. }
  rewrite Hmatch. fold (after_leaves t src rest (us ++ [v]) expected). intros (xs & rest' & Hx & -> & Hfin)%IH.
  exists (v :: xs), rest'. split; [by econstructor|]. rewrite <- app_assoc in Hfin |- *. done.
Qed.

(** The entries of a target list, each with its recomputed template hash. *)
Definition valid_file (h : HashedFile) : Prop := hf_templateHash h = sha256 (template_input h).

Lemma Next_entry_inv src text ds cur l' :
  Next ParseHashedFile (target_list src text ds cur) = (None, l') ->
  exists h rest, valid_file h /\ l' = target_list src rest (ds ++ [hf_templateHash h]) (Some h).
Proof.
  unfold Next, target_list. cbn [l_src l_aggregate l_current]. rewrite ReadLine_src.
  destruct (ReadLine (MkReader [] text)) as [[line|] r]; [|done].
  destruct (ParseHashedFile line) as [|h]; [done|]. unfold HashAlgo.
  cbn [Validate HashedFile_measurement l_aggregate pcr_hashAlgo TemplateHash]. unfold ConstantTimeCompare, computeTemplateHash.
  rewrite same_hash. case_bool_decide as Hv; cbn [negb]; [|done]. intros [= <-]. exists h, (r_rest r). split; [done|].
  rewrite Extend_replay; [done|]. rewrite Hv. apply sha256_length.
Qed.

Lemma valid_file_length h : valid_file h -> length (hf_templateHash h) = MERKLE_HASH_SIZE.
Proof. intros ->. apply sha256_length. Qed.

Abbreviation templates := (fmap hf_templateHash).

Lemma valid_files_ok files : Forall valid_file files -> digests_ok (templates files).
Proof. intros H. apply Forall_fmap. eapply Forall_impl; [exact H|]. apply valid_file_length. Qed.

(** Two aggregates of the same list are equal only if SHA-256 is broken. *)
Lemma same_aggregate ds xs :
  digests_ok (ds ++ xs) -> xs <> [] -> replay Z32 (ds ++ xs) = replay Z32 ds -> broken (chain_inputs Z32 (ds ++ xs)).
Proof.
  intros Hok Hne H. apply Forall_app in Hok as Hok'. destruct Hok' as [Hds _].
  rewrite !replay_chain in H by done. destruct (chain_inj _ _ H) as [He|Hb].
  - apply (f_equal length) in He. rewrite length_app in He. destruct xs; [done|]. cbn in He. lia.
  - eapply broken_mono; [|exact Hb]. rewrite chain_inputs_app. intros x. rewrite !elem_of_app. tauto.
Qed.

(** Prepending an aggregate that was found at the last leaf read. *)
Lemma found_prepend us xs ys (a : bytes) (needed : list bytes) :
  last (us ++ xs) = Some a -> needed `sublist_of` ys -> a :: needed `sublist_of` to_list (last us) ++ xs ++ ys.
Proof.
  intros Hl Hn. destruct xs as [|x xs _] using rev_ind.
  - rewrite app_nil_r in Hl. rewrite Hl. cbn. by apply sublist_skip.
  - rewrite app_assoc, last_snoc in Hl. injection Hl as ->. rewrite <- app_assoc. apply sublist_inserts_l, sublist_inserts_l.
    by apply sublist_skip.
Qed.

Lemma sublist_drop_first (a b : bytes) l k : b :: l `sublist_of` a :: k -> a <> b -> b :: l `sublist_of` k.
Proof. intros H Hne. apply sublist_cons_r in H as [H|(l' & [= -> ->] & _)]; [done|done]. Qed.

(** A target list that passes has valid entries only, and its aggregates are
    among the leaves read, in order. *)
Lemma target_inv expected src src' fuel : forall text ds cur rest us v',
  target_loop fuel (after_leaves (target_list src' text ds cur) src rest us expected) = Some (None, v') ->
  digests_ok ds ->
  exists files t xs rest',
    (forall acc, HashedFiles_loop fuel (target_list src' text ds cur) acc = Some (inr (acc ++ files))) /\
    Forall valid_file files /\ leaves_from rest xs rest' /\
    v' = after_leaves t src rest' (us ++ xs) expected /\
    (roots (replay Z32 ds) (templates files) `sublist_of` to_list (last us) ++ xs \/
     broken (chain_inputs Z32 (ds ++ templates files))).
Proof.
  induction fuel as [|fuel IH]; intros text ds cur rest us v'; [done|].
  cbn [target_loop after_leaves v_target v_leaves v_expected v_pcr v_pcrMatched].
  destruct (Next ParseHashedFile (target_list src' text ds cur)) as [[e|] l'] eqn:En.
  { destruct (errors_Is e EOF) eqn:Ee; [|done]. intros [= <-] _. eexists [], l', [], rest. split_and!;
      [intros acc; cbn [HashedFiles_loop]; by rewrite En, Ee, app_nil_r|constructor|constructor|by rewrite app_nil_r|left; apply sublist_nil_l]. }
  pose proof En as En'. apply Next_entry_inv in En as (h & text' & Hvalid & ->). pose proof (valid_file_length h Hvalid) as Hlen.
  fold (after_leaves (target_list src' text' (ds ++ [hf_templateHash h]) (Some h)) src rest us expected).
  destruct (replayLeaves isLeafFound _) as [[[e|] v1]|] eqn:Er; [done| |done].
  apply replay_inv in Er as (xs & rest1 & Hx & -> & Hfound). rewrite isLeafFound_decided in Hfound.
  intros Hrun Hds. assert (Hds' : digests_ok (ds ++ [hf_templateHash h])) by (apply Forall_app; by repeat constructor).
  destruct (IH _ _ _ _ _ _ Hrun Hds') as (files & t & ys & rest' & Hall & Hf & Hy & -> & Hsub).
  exists (h :: files), t, (xs ++ ys), rest'. split_and!;
    [intros acc; cbn [HashedFiles_loop]; rewrite En'; cbn [l_current target_list]; by rewrite Hall, <- app_assoc|by constructor|by eapply leaves_from_app|by rewrite app_assoc|].
  rewrite fmap_cons. rewrite <- app_assoc in Hsub. cbn [app] in Hsub. destruct Hsub as [Hsub|Hb]; [|by right].
  cbn [roots]. assert (Hroot : extend (replay Z32 ds) (hf_templateHash h) = replay Z32 (ds ++ [hf_templateHash h])) by (by rewrite replay_app).
  rewrite Hroot. unfold found_in in Hfound. destruct (last (us ++ xs)) as [u|] eqn:El; [|done].
  apply bool_decide_eq_true in Hfound. subst u. cbn [to_list] in Hsub.
  destruct files as [|h2 files]; [left; apply (found_prepend us xs ys); [done|apply sublist_nil_l]|].
  apply Forall_cons in Hf as [Hv2 Hf]. rewrite fmap_cons in Hsub |- *. cbn [roots] in Hsub |- *.
  assert (Hroot2 : extend (replay Z32 (ds ++ [hf_templateHash h])) (hf_templateHash h2) =
    replay Z32 ((ds ++ [hf_templateHash h]) ++ [hf_templateHash h2])) by (by rewrite (replay_app _ (ds ++ _))).
  rewrite Hroot2 in Hsub |- *.
  destruct (decide (replay Z32 (ds ++ [hf_templateHash h]) = replay Z32 ((ds ++ [hf_templateHash h]) ++ [hf_templateHash h2]))) as [He|Hne].
  - right. symmetry in He. apply same_aggregate in He; [|apply Forall_app; repeat constructor; [done|by apply valid_file_length]|done].
    eapply broken_mono; [|exact He]. change (ds ++ ?a :: ?b :: ?r) with (ds ++ [a] ++ [b] ++ r). rewrite !app_assoc.
    rewrite (chain_inputs_app _ _ (templates files)). intros x. rewrite elem_of_app. tauto.
  - left. apply (found_prepend us xs ys); [done|]. by eapply sublist_drop_first.
Qed.

Lemma accepted_log vs s target leaves :
  sys_inv Z32 vs s -> bpfima_commit_error (k_commit s) = 0 -> hardware_anchored (k_commit s) = true ->
  attest_texts SHA256 target leaves (k_pcr s) = Some None ->
  exists files us, HashedFiles (FromBytes target) SHA256 = Some (inr files) /\ Forall valid_file files /\
    us `prefix_of` leaf_digests leaves /\
    ((us = vs /\ roots Z32 (templates files) `sublist_of` vs) \/
     broken (log_inputs vs ++ log_inputs us ++ chain_inputs Z32 (templates files))).
Proof.
  intros [Hm _] Herr Hanch. pose proof (mi_log _ _ _ _ _ Hm) as Hl. pose proof (li_pcr _ _ _ Hl Herr) as Hpcr.
  rewrite Hanch in Hpcr. fold (pcr_of vs) in Hpcr. rewrite Hpcr, attest_texts_start by apply pcr_of_length.
  unfold Attest, AttestTarget. cbn [after_leaves v_target target_list l_src r_rest].
  destruct (target_loop _ _) as [[[e|] v1]|] eqn:Et; [done| |done].
  apply target_inv in Et as (files & t & xs & rest & Hall & Hf & Hx & -> & Hsub); [|constructor].
  cbn [app last to_list] in Hsub. unfold AttestLeaves.
  destruct (replayLeaves v_pcrMatched _) as [[[e|] v2]|] eqn:Er; [done| |done].
  apply replay_inv in Er as (ys & rest' & Hy & -> & Hmatch). intros _. cbn [app] in *.
  pose proof (leaves_from_app _ _ _ _ _ Hx Hy) as Hxy. pose proof (leaves_from_ok _ _ _ Hxy) as Hok.
  exists files, (xs ++ ys). split_and!; [apply Hall|done|by eapply leaves_from_digests|].
  cbn [after_leaves v_pcrMatched] in Hmatch. unfold matched in Hmatch. apply andb_true_iff in Hmatch as [_ Hp].
  apply bool_decide_eq_true in Hp. destruct (pcr_of_inj _ _ Hok (li_values _ _ _ Hl) Hp) as [He|Hb].
  - destruct Hsub as [Hsub|Hb]; [left|right].
    + split; [done|]. rewrite <- He. by apply sublist_inserts_r.
    + eapply broken_mono; [|exact Hb]. intros x. cbn [app]. rewrite !elem_of_app. tauto.
  - right. eapply broken_mono; [|exact Hb]. intros x. rewrite !elem_of_app. tauto.
Qed.

(** C5: An accepted attestation is evidence of what was committed. Let the log
    of the module hold the values [vs], anchored to the PCR and without a
    latched error. Whatever texts an attacker presents: if the verifier
    accepts them against the PCR, then every entry of the target parses and
    has the template hash of its text, the leaf list starts with exactly
    [vs], and the successive aggregates of the target are among [vs] in
    order; otherwise a collision of SHA-256, or a preimage of zero, is among
    the inputs hashed by the module and by the verifier. *)
Theorem attest_sound vs s target leaves :
  sys_inv Z32 vs s -> bpfima_commit_error (k_commit s) = 0 -> hardware_anchored (k_commit s) = true ->
  attest_texts SHA256 target leaves (k_pcr s) = Some None ->
  exists files us, HashedFiles (FromBytes target) SHA256 = Some (inr files) /\ Forall valid_file files /\
    us `prefix_of` leaf_digests leaves /\
    ((us = vs /\ roots Z32 (templates files) `sublist_of` vs) \/
     broken (log_inputs vs ++ log_inputs us ++ chain_inputs Z32 (templates files))).
Proof. exact (accepted_log vs s target leaves). Qed.

(** *** Trimmed histories *)

Lemma read_leaf_show e rest :
  length (me_value e) = MERKLE_HASH_SIZE -> read_leaf (show e ++ rest) = Some (me_value e, rest).
Proof.
  intros Hv. destruct (history_line_clean e) as [Hnl Hec].
  assert (Hne : me_value e <> []) by (intros H; by rewrite H in Hv).
  unfold read_leaf. rewrite show_split, ReadLine_line, ParseLeaf_history by done. cbn [lf_digest]. by rewrite Hv.
Qed.

Lemma leaf_digests_show h : history_ok h -> leaf_digests (flat_map show h) = values h.
Proof.
  intros Hok. unfold leaf_digests. pose proof (flat_map_show_length h []) as Hle. rewrite app_nil_r in Hle. revert Hle.
  generalize (length (flat_map show h)) as fuel.
  induction Hok as [|e h He Hok IH]; intros fuel Hf; [by destruct fuel|]. cbn [length] in Hf.
  destruct fuel as [|fuel]; [lia|]. cbn [leaf_digests_fuel flat_map]. rewrite read_leaf_show by done.
  rewrite fmap_cons. f_equal. apply IH. lia.
Qed.

Lemma expands_history_ok h vs : expands h vs -> digests_ok vs -> history_ok h.
Proof.
  induction 1 as [|h vs e _ IH He|d r vs agg _ IH Ha]; intros Hd; [constructor|..].
  - apply Forall_app in Hd as [Hd He']. apply Forall_app. split; [by apply IH|].
    constructor; [by apply Forall_cons in He' as [? _]|constructor].
  - specialize (IH Hd). apply Forall_app in IH as [_ Hr]. constructor; [|done]. rewrite (ag_value _ _ Ha). apply replay_length.
Qed.

(** C11: A trimmed log cannot be attested. When the history of an anchored log
    has fewer entries than values were committed, because a trim replaced
    entries by an aggregate, then no target list, not even an empty one, is
    accepted with this history against the PCR, unless SHA-256 is broken on
    the inputs that the module and the verifier hash: the verifier replays
    the aggregate as one leaf. *)
Theorem trimmed_log_rejected vs s target leaves :
  sys_inv Z32 vs s -> bpfima_commit_error (k_commit s) = 0 -> hardware_anchored (k_commit s) = true ->
  (length (merkle_root_history (k_merkle s)) < length vs)%nat ->
  read_merkle_root_history s = Some (leaves, s) ->
  attest_texts SHA256 target leaves (k_pcr s) <> Some None \/
  exists files us, HashedFiles (FromBytes target) SHA256 = Some (inr files) /\ us `prefix_of` leaf_digests leaves /\
    broken (log_inputs vs ++ log_inputs us ++ chain_inputs Z32 (templates files)).
Proof.
  intros Hi Herr Hanch Hlt Hread.
  destruct (decide (attest_texts SHA256 target leaves (k_pcr s) = Some None)) as [Hok|]; [right|by left].
  destruct (accepted_log _ _ _ _ Hi Herr Hanch Hok) as (files & us & Hf & _ & Hp & [[-> _]|Hb]);
    [exfalso|by exists files, us].
  pose proof (mi_log _ _ _ _ _ (proj1 Hi)) as Hl. unfold read_merkle_root_history, gets in Hread. injection Hread as <-.
  rewrite leaf_digests_show in Hp by (eapply expands_history_ok; [apply Hl|apply (li_values _ _ _ Hl)]).
  apply prefix_length in Hp. rewrite length_fmap in Hp. lia.
Qed.
End Replay.

(** ** Witnesses *)

Definition go_env : GoCrypto :=
  {| hash_sum h x := match h with SHA256 => checksum x | _ => replicate (Size h) x00 end |}.

#[global] Instance go_env_laws : GoCryptoLaws go_env.
Proof. split. intros [] x; [done..|apply length_replicate|done|done]. Qed.

#[global] Instance go_env_same : SameHash tpm_env go_env.
Proof. by intros x. Qed.

(** A request with the given data and path. *)
Definition file_request (data path : bytes) : bpfima_measurement_request :=
  MeasurementRequest (strscpy (zeros BPFIMA_EVENT_NAME_SIZE) (lit "mmap_file") BPFIMA_EVENT_NAME_SIZE) (zeros BPFIMA_NAMESPACE_SIZE)
    (strscpy (zeros BPFIMA_DEPENDENCIES_SIZE) path BPFIMA_DEPENDENCIES_SIZE)
    (blit (zeros BPFIMA_EVENT_DATA_SIZE) 0 data) (Z.of_nat (length data)) BPFIMA_MEASUREMENT_HAS_DEPENDENCIES.

Definition attested_run : list entry :=
  [Measure (file_request (lit "aa01") (lit "/usr/lib/my lib.so:bash")); Measure (file_request (lit "bb02") (lit "/bin/sh"));
   Measure (file_request (lit "cc03") (lit "/bin/ls:sh"))].

Fixpoint run_entries (es : list entry) (s : kstate) : option kstate :=
  match es with
  | [] => Some s
  | e :: es => match run_entry (E := tpm_env) e s with Some (_, s') => run_entries es s' | None => None end
  end.

Lemma run_entries_steps es s s' :
  (forall e s, e ∈ es -> entry_ok (E := tpm_env) e s) -> run_entries es s = Some s' -> steps (E := tpm_env) s es s'.
Proof.
  revert s. induction es as [|e es IH]; intros s Hok; cbn [run_entries]; [intros [= ->]; constructor|].
  destruct (run_entry e s) as [[[] s1]|] eqn:Er; [|done]. intros Hr. econstructor; [apply Hok, elem_of_cons; by left|exact Er|].
  apply IH; [|done]. intros e' s2 He. apply Hok, elem_of_cons. by right.
Qed.

Lemma attested_run_ok e s : e ∈ attested_run -> entry_ok (E := tpm_env) e s.
Proof.
  intros He. unfold attested_run in He.
  repeat (apply elem_of_cons in He as [->|He]; [by split|]). by apply not_elem_of_nil in He.
Qed.

Lemma attested_run_plain : Forall plain_call attested_run.
Proof. repeat constructor. Qed.

(** The sample module after three measurements, and the texts it prints. *)
Lemma attested_state : exists s0 s1 n,
  bpfima_init (E := tpm_env) (loaded_state 0 (zeros MERKLE_HASH_SIZE) [sample_map]) = Some (0, s0) /\
  steps (E := tpm_env) s0 attested_run s1 /\ container_heap (k_containers s1) !! 0%nat = Some n /\
  bpfima_commit_error (k_commit s1) = 0 /\ hardware_anchored (k_commit s1) = true /\
  Forall (fun e => me_is_aggregate e = false) (merkle_root_history (k_merkle s1)) /\
  attest_texts (G := go_env) SHA256 (flat_map container_measurements_seq_show (cn_measurement_list n))
    (flat_map merkle_root_history_seq_show (merkle_root_history (k_merkle s1))) (k_pcr s1) = Some None.
Proof.
  assert (H : match bpfima_init (E := tpm_env) (loaded_state 0 (zeros MERKLE_HASH_SIZE) [sample_map]) with
    | Some (0, s0) => match run_entries attested_run s0 with
      | Some s1 => match container_heap (k_containers s1) !! 0%nat with
        | Some n => (bpfima_commit_error (k_commit s1) =? 0) && hardware_anchored (k_commit s1) &&
            forallb (fun e => negb (me_is_aggregate e)) (merkle_root_history (k_merkle s1)) &&
            bool_decide (attest_texts (G := go_env) SHA256 (flat_map container_measurements_seq_show (cn_measurement_list n))
              (flat_map merkle_root_history_seq_show (merkle_root_history (k_merkle s1))) (k_pcr s1) = Some None)
        | None => false end
      | None => false end
    | _ => false end = true) by (vm_compute; reflexivity).
  destruct (bpfima_init (E := tpm_env) _) as [[[] s0]|]; try discriminate H.
  destruct (run_entries attested_run s0) as [s1|] eqn:Er; [|discriminate H].
  destruct (container_heap (k_containers s1) !! 0%nat) as [n|] eqn:En; [|discriminate H].
  rewrite !andb_true_iff in H. destruct H as [[[H1 H2] H3] H4]. exists s0, s1, n. split_and!; [done| |done|by apply Z.eqb_eq|done| |].
  - apply run_entries_steps; [apply attested_run_ok|done].
  - apply Forall_forall. intros e He. rewrite forallb_forall in H3. by apply negb_true_iff, H3, list_elem_of_In.
  - by apply bool_decide_eq_true in H4.
Qed.

Lemma attest_complete_witness : exists s1 target leaves,
  attest_texts (G := go_env) SHA256 target leaves (k_pcr s1) = Some None \/
  broken (E := tpm_env) (log_inputs (E := tpm_env) (me_value <$> merkle_root_history (k_merkle s1))).
Proof.
  destruct attested_state as (s0 & s1 & n & Hinit & Hs & Hn & Herr & Ha & Hno & _).
  exists s1, (flat_map container_measurements_seq_show (cn_measurement_list n)),
    (flat_map merkle_root_history_seq_show (merkle_root_history (k_merkle s1))).
  apply (attest_complete (E := tpm_env) (G := go_env) 0 [sample_map] s0 attested_run s1 [] s1 0%nat n _ _
    Hinit Hs attested_run_plain (steps_nil s1) Hn Herr Ha Hno).
  - unfold read_container_measurements, load_container, bind, gets, ret. rewrite Hn. reflexivity.
  - reflexivity.
Defined.

Lemma attest_sound_witness : exists vs s target leaves files us,
  sys_inv (E := tpm_env) (zeros MERKLE_HASH_SIZE) vs s /\
  HashedFiles (G := go_env) (FromBytes target) SHA256 = Some (inr files) /\ us `prefix_of` leaf_digests leaves.
Proof.
  destruct attested_state as (s0 & s1 & n & Hinit & Hs & Hn & Herr & Ha & Hno & Hok).
  destruct (steps_inv (E := tpm_env) _ [] s0 attested_run s1 (loaded_inv (E := tpm_env) _ _ _ Hinit) Hs) as [[vs Hi] _].
  destruct (attest_sound (E := tpm_env) (G := go_env) vs s1 _ _ Hi Herr Ha Hok) as (files & us & Hf & _ & Hp & _).
  eexists vs, s1, _, _, files, us. split; [exact Hi|]. split; [exact Hf|exact Hp].
Defined.

(** Three values of which the first two were trimmed. *)
Definition trimmed_values : list bytes := replicate MERKLE_HASH_SIZE <$> [x01; x02; x03].

Definition trimmed_state : kstate :=
  set_pcr (pcr_of (E := tpm_env) trimmed_values) (set_commit (CommitState 0 true true) (set_merkle
    (MerkleState (replay (E := tpm_env) (zeros MERKLE_HASH_SIZE) trimmed_values) true
      [MerkleRootEntry (replay (E := tpm_env) (zeros MERKLE_HASH_SIZE) (take 2 trimmed_values)) (zeros CONTAINER_ID_MAX_LEN) true 2;
       history_entry x03] 2) sample_state)).

Lemma trimmed_state_inv : sys_inv (E := tpm_env) (zeros MERKLE_HASH_SIZE) trimmed_values trimmed_state.
Proof.
  destruct sample_sys_inv as [[H1 H2 H3 H4 H5 H6 H7 H8 H9] Hp]. split; [|exact Hp].
  split; [|exact H2|exact H3|exact H4|exact H5|exact H6|exact H7|by eapply leaves_logged_app in H8|exact H9].
  split; try done.
  - apply (expands_aggregate [history_entry x01; history_entry x02] [history_entry x03]); [|by split].
    apply (expands_snoc [history_entry x01; history_entry x02] [_; _] (history_entry x03)); [|done].
    apply (expands_snoc [history_entry x01] [_] (history_entry x02)); [|done].
    apply (expands_snoc [] [] (history_entry x01)); [constructor|done].
  - apply H1.
  - by repeat constructor.
Qed.

Lemma trimmed_state_short : (length (merkle_root_history (k_merkle trimmed_state)) < length trimmed_values)%nat.
Proof. cbn. lia. Qed.

Lemma trimmed_state_read : exists leaves, read_merkle_root_history trimmed_state = Some (leaves, trimmed_state).
Proof. by eexists. Qed.

Lemma trimmed_log_rejected_witness : exists leaves,
  attest_texts (G := go_env) SHA256 [] leaves (k_pcr trimmed_state) <> Some None \/
  exists files us, broken (E := tpm_env) (log_inputs (E := tpm_env) trimmed_values ++ log_inputs (E := tpm_env) us ++ files).
Proof.
  destruct trimmed_state_read as [leaves Hr]. exists leaves.
  destruct (trimmed_log_rejected (E := tpm_env) (G := go_env) trimmed_values trimmed_state [] leaves trimmed_state_inv
    eq_refl eq_refl trimmed_state_short Hr) as [H|(files & us & _ & _ & H)]; [left; exact H|right].
  eexists _, us. exact H.
Defined.
