(* ===== verification/VerifierLists.v ===== *)
(** * Writing and re-reading measurement lists

    [MarshalHashedFiles] writes what the kernel prints and [HashedFiles] reads
    it back; [Reset] makes a used verifier as good as a new one. *)

From S2P Require Import Prelude CString Types Kernel Sample Snapshot KfuncBuffer Merkle MerkleSpec MerkleInv PolicyManager PolicyAudit Kfuncs PolicyFiles LogFiles EntryFrame Verifier VerifierSpec.

Section Lists.
Context {E : KernelEnv} {L : KernelLaws E} {G : GoCrypto} {Same : SameHash E G}.

(** ** Round trip *)

(** The fields that a line can carry: no separator in the event and the file
    hash, no line terminator. *)
Definition plain_file (h : HashedFile) : bool :=
  negb (existsb (Byte.eqb Separator) (hf_event h ++ hf_fileHash h)) &&
  negb (existsb (Byte.eqb x0a) (hf_event h ++ template_input h)) && ends_clean (template_input h).

Lemma String_split h : String h = hex (hf_templateHash h) ++ Separator :: hf_event h ++ Separator :: template_input h.
Proof. done. Qed.

Lemma ParseHashedFile_String h : plain_file h = true -> ParseHashedFile (String h) = inr h.
Proof.
  unfold plain_file. rewrite !andb_true_iff, !negb_true_iff. intros [[Hs _] _]. apply not_in in Hs.
  rewrite not_elem_of_app in Hs. destruct Hs as [Hev Hfh].
  rewrite String_split. unfold ParseHashedFile, hashedFileFields. cbn [SplitN].
  rewrite Cut_found by (by apply hex_no_char). rewrite Cut_found by done. unfold template_input.
  destruct h as [d ev fh path]. cbn [hf_templateHash hf_event hf_fileHash hf_filePath] in *. case_bool_decide as Hp.
  - rewrite app_nil_r, Cut_absent by done. by rewrite hex_roundtrip, Hp.
  - rewrite Cut_found by done. by rewrite hex_roundtrip.
Qed.

Lemma String_line h : plain_file h = true -> (x0a ∉ String h) /\ ends_clean (String h) = true.
Proof.
  unfold plain_file. rewrite !andb_true_iff, !negb_true_iff. intros [[_ Hn] He]. apply not_in in Hn.
  rewrite not_elem_of_app in Hn. destruct Hn as [Hev Ht]. rewrite String_split. split.
  - rewrite elem_of_app, elem_of_cons, elem_of_app, elem_of_cons.
    intros [H|[H|[H|[H|H]]]]; [revert H; by apply hex_no_char|done..].
  - change (Separator :: template_input h) with ([Separator] ++ template_input h). rewrite app_comm_cons, app_assoc.
    destruct (decide (template_input h = [])) as [->|Hne]; [by rewrite ends_clean_app|].
    by rewrite app_assoc, ends_clean_app.
Qed.

Lemma HashedFiles_loop_read files : forall src ds cur fuel acc,
  Forall (fun h => valid_file h /\ plain_file h = true) files -> (length files < fuel)%nat ->
  HashedFiles_loop fuel (target_list src (MarshalHashedFiles files) ds cur) acc = Some (inr (acc ++ files)).
Proof.
  induction files as [|h files IH]; intros src ds cur fuel acc Hf Hfuel; (destruct fuel as [|fuel]; [cbn in Hfuel; lia|]).
  { cbn. by rewrite app_nil_r. }
  apply Forall_cons in Hf as [[Hv Hp] Hf]. cbn [length] in Hfuel. cbn [HashedFiles_loop].
  destruct (String_line h Hp) as [Hnl Hend].
  assert (Hnext : Next ParseHashedFile (target_list src (MarshalHashedFiles (h :: files)) ds cur) =
    (None, target_list src (MarshalHashedFiles files) (ds ++ [hf_templateHash h]) (Some h))).
  { unfold Next, target_list. cbn [l_src l_aggregate l_current MarshalHashedFiles flat_map]. rewrite <- app_assoc. cbn [app].
    rewrite ReadLine_line, ParseHashedFile_String by done. unfold HashAlgo.
    cbn [Validate HashedFile_measurement l_aggregate pcr_hashAlgo TemplateHash].
    unfold ConstantTimeCompare, computeTemplateHash. rewrite same_hash, bool_decide_true by done. cbn [negb].
    by rewrite Extend_replay by (by apply valid_file_length). }
  rewrite Hnext. cbn [l_current target_list]. rewrite IH by (done || lia). by rewrite <- app_assoc.
Qed.

Lemma Marshal_length files : (length files <= length (MarshalHashedFiles files))%nat.
Proof.
  induction files as [|h files IH]; cbn [MarshalHashedFiles flat_map length]; [lia|].
  rewrite !length_app. cbn [length]. fold (MarshalHashedFiles files). lia.
Qed.

(** Measurement lists survive the round trip: [HashedFiles] reads back
    exactly the entries that [MarshalHashedFiles] wrote, with their template
    hashes valid, when no field holds a line terminator and the event and the
    file hash hold no separator. *)
Lemma marshalled files :
  Forall (fun h => valid_file h /\ plain_file h = true) files ->
  HashedFiles (FromBytes (MarshalHashedFiles files)) SHA256 = Some (inr files).
Proof.
  intros Hf. unfold HashedFiles, NewList. cbn [pcr_New IsValidAlgo FromBytes r_rest].
  apply (HashedFiles_loop_read files _ [] None _ []); [done|]. pose proof (Marshal_length files). lia.
Qed.

(** ** The kernel's text *)

(** The entry that the verifier reads for a request. *)
Definition file_of (r : bpfima_measurement_request) : HashedFile :=
  let '(fileHash, filePath, _) := Cut (measurement_payload r) Separator in
  NewHashedFile SHA256 (cstr (mr_event_name r)) fileHash filePath.

Lemma template_input_file r :
  plain_request r = true -> template_input (file_of r) = measurement_payload r.
Proof.
  intros Hp%plain_request_line. unfold plain_line in Hp. rewrite !andb_true_iff in Hp. destruct Hp as [_ Hcut].
  unfold file_of. destruct (Cut_cases (measurement_payload r) Separator) as [[_ Hc]|(a & b & Hpay & _ & Hc)]; rewrite Hc in Hcut |- *.
  - unfold template_input. cbn. by rewrite app_nil_r.
  - cbn [negb orb] in Hcut. apply negb_true_iff, bool_decide_eq_false in Hcut. unfold template_input.
    cbn [NewHashedFile hf_filePath hf_fileHash]. by rewrite bool_decide_false.
Qed.

Lemma file_of_event r : hf_event (file_of r) = cstr (mr_event_name r) /\ valid_file (file_of r).
Proof.
  unfold file_of, valid_file. destruct (Cut _ _) as [[a b] f]. split; [done|].
  cbn [NewHashedFile hf_templateHash]. unfold computeTemplateHash. by rewrite same_hash.
Qed.

Lemma show_entry_of r :
  wf_measurement r -> measurement_valid r -> plain_request r = true ->
  container_measurements_seq_show (entry_of r) = String (file_of r) ++ [x0a].
Proof.
  intros Hwf Hv Hp. destruct (entry_of_plain r Hwf Hv Hp) as (Htail & Hdig & Hname).
  destruct (file_of_event r) as [He Hval]. rewrite String_split, He, Hval, template_input_file by done.
  unfold container_measurements_seq_show. rewrite take_ge by (by rewrite Hdig, sha256_length).
  unfold entry_tail in Htail. rewrite Hdig, Hname. rewrite <- !app_assoc. f_equal.
  change (lit " " ++ ?x) with (Separator :: x). cbn [app]. f_equal. rewrite <- app_assoc. f_equal. unfold NL.
  rewrite app_assoc. f_equal. exact Htail.
Qed.

Lemma file_of_plain r :
  plain_request r = true -> plain_file (file_of r) = true.
Proof.
  intros Hp. pose proof (plain_request_line r Hp) as Hl. unfold plain_line in Hl. rewrite !andb_true_iff in Hl.
  destruct Hl as [[[[Hn Hnl] He] _] _]. unfold plain_file. rewrite template_input_file, (proj1 (file_of_event r)) by done.
  rewrite Hnl, He, !andb_true_r. apply negb_true_iff, in_not. rewrite negb_true_iff in Hn. apply not_in in Hn.
  rewrite not_elem_of_app. split; [done|]. unfold file_of.
  by destruct (Cut_cases (measurement_payload r) Separator) as [[Ha Hc]|(a & b & _ & Ha & Hc)]; rewrite Hc.
Qed.

(** C37: The kernel's measurement file and the verifier's list are the same
    text: for plain requests the kernel prints, entry by entry, exactly what
    [MarshalHashedFiles] writes for the events of these requests, and
    [HashedFiles] reads it back with every template hash valid. *)
Theorem kernel_text_is_marshalled rs :
  Forall (fun r => wf_measurement r /\ measurement_valid r /\ plain_request r = true) rs ->
  flat_map container_measurements_seq_show (entry_of <$> rs) = MarshalHashedFiles (file_of <$> rs) /\
  HashedFiles (FromBytes (flat_map container_measurements_seq_show (entry_of <$> rs))) SHA256 = Some (inr (file_of <$> rs)).
Proof.
  intros Hrs. assert (Htext : flat_map container_measurements_seq_show (entry_of <$> rs) = MarshalHashedFiles (file_of <$> rs)).
  { induction Hrs as [|r rs (Hwf & Hv & Hp) _ IH]; [done|]. cbn [fmap list_fmap flat_map MarshalHashedFiles].
    rewrite show_entry_of by done. f_equal. exact IH. }
  split; [done|]. rewrite Htext. apply marshalled. apply Forall_fmap. eapply Forall_impl; [exact Hrs|].
  intros r (_ & _ & Hp). split; [apply file_of_event|by apply file_of_plain].
Qed.
End Lists.

(** ** Reset *)

Section Reset.
Context {G : GoCrypto} {GL : GoCryptoLaws G}.

(** A list over [text], however far it was read. *)
Record list_over {M} (algo : crypto_hash) (text : bytes) (l : List M) : Prop := ListOver {
  lo_src : r_src (l_src l) = text;
  lo_algo : pcr_hashAlgo (l_aggregate l) = algo;
  lo_size : length (pcr_aggregate (l_aggregate l)) = Size algo;
}.

Record verifier_over (algo : crypto_hash) (target leaves : bytes) (v : Verifier) : Prop := VerifierOver {
  vo_target : list_over algo target (v_target v);
  vo_leaves : list_over algo leaves (v_leaves v);
  vo_algo : pcr_hashAlgo (v_pcr v) = algo;
  vo_size : length (pcr_aggregate (v_pcr v)) = Size algo;
}.

Lemma Next_over {M} `{Measurement M} parse algo text (l : List M) :
  list_over algo text l -> list_over algo text (snd (Next parse l)).
Proof.
  intros [Hs Ha Hz]. unfold Next. destruct (ReadLine (l_src l)) as [line src] eqn:Er.
  assert (Hsrc : r_src src = text).
  { unfold ReadLine in Er. by destruct (ReadString (r_rest (l_src l)) x0a) as [[|] rest]; injection Er as _ <-. }
  destruct line as [line|]; [|by split]. destruct (parse line) as [|entry]; [by split|].
  destruct (Validate _ entry); [by split|]. split; [done|done|]. cbn. rewrite hash_sum_length. by rewrite Ha.
Qed.

Lemma replay_over algo target leaves finished fuel v e v' :
  verifier_over algo target leaves v -> replay_loop fuel finished v = Some (e, v') -> verifier_over algo target leaves v'.
Proof.
  revert v. induction fuel as [|fuel IH]; intros v Hv; cbn [replay_loop]; (destruct (finished v); [by intros [= _ <-]|]); [done|].
  destruct (v_pcrMatched v); [by intros [= _ <-]|].
  pose proof (Next_over ParseLeaf _ _ _ (vo_leaves _ _ _ _ Hv)) as Hn. destruct Hv as [H1 H2 H3 H4].
  destruct (Next ParseLeaf (v_leaves v)) as [[err|] l]; cbn [snd] in Hn; [by intros [= _ <-]|].
  apply IH. split; [done|done|done|]. cbn. rewrite hash_sum_length. by rewrite H3.
Qed.

Lemma target_over algo target leaves fuel v e v' :
  verifier_over algo target leaves v -> target_loop fuel v = Some (e, v') -> verifier_over algo target leaves v'.
Proof.
  revert v. induction fuel as [|fuel IH]; intros v Hv; cbn [target_loop]; [done|].
  pose proof (Next_over ParseHashedFile _ _ _ (vo_target _ _ _ _ Hv)) as Hn. destruct Hv as [H1 H2 H3 H4].
  destruct (Next ParseHashedFile (v_target v)) as [[err|] l]; cbn [snd] in Hn; [by intros [= _ <-]|].
  destruct (replayLeaves isLeafFound _) as [[[err|] v1]|] eqn:Er; [..|done]; apply (replay_over algo target leaves) in Er; [|by split| |by split].
  - by intros [= _ <-].
  - by apply IH.
Qed.

Lemma Attest_over algo target leaves v e v' :
  verifier_over algo target leaves v -> Attest v = Some (e, v') -> verifier_over algo target leaves v'.
Proof.
  intros Hv. unfold Attest, AttestTarget, AttestLeaves, replayLeaves.
  destruct (target_loop _ v) as [[[err|] v1]|] eqn:Et; [..|done]; apply (target_over algo target leaves) in Et; [|done| |done].
  - by intros [= _ <-].
  - by apply replay_over.
Qed.

Definition new_verifier (algo : crypto_hash) (target leaves expected : bytes) : option Verifier :=
  match NewList (FromBytes target) algo, NewList (FromBytes leaves) algo with
  | Some t, Some l => NewVerifier t l expected
  | _, _ => None
  end.

Lemma new_verifier_over algo target leaves expected v :
  new_verifier algo target leaves expected = Some v -> IsValidAlgo algo = true /\ verifier_over algo target leaves v.
Proof.
  unfold new_verifier, NewList, NewVerifier, setExpected, pcr_New, HashAlgo. destruct (IsValidAlgo algo) eqn:Ea; [|done].
  cbn [l_aggregate pcr_hashAlgo v_leaves]. rewrite bool_decide_true, Ea by done. cbn [negb]. destruct (negb _); [done|].
  intros [= <-]. split; [done|]. split; [split|split|..]; done || apply length_zeros.
Qed.

(** A used verifier is reset to a new one over the same texts. *)
Lemma Reset_over algo target leaves v expected :
  IsValidAlgo algo = true -> verifier_over algo target leaves v ->
  Reset v expected = new_verifier algo target leaves expected.
Proof.
  intros Ha [[T1 T2 T3] [L1 L2 L3] H3 H4]. unfold Reset, new_verifier, NewList, NewVerifier, setExpected, pcr_New, HashAlgo. rewrite Ha.
  cbn [v_leaves l_aggregate pcr_hashAlgo]. rewrite bool_decide_true, Ha, L2 by done. cbn [negb]. destruct (negb _); [done|].
  unfold list_Reset, Rewind, pcr_Reset, FromBytes. cbn. by rewrite T1, T2, T3, L1, L2, L3, H3, H4.
Qed.

(** A verifier can be reused. After an attestation with any outcome,
    [Reset] with a digest gives exactly the verifier that [New] builds from
    the same texts and that digest (or the same error when its size is
    wrong), so the next attestation does not depend on the one before. *)
Theorem reset_is_new algo target leaves expected v e v' expected' :
  new_verifier algo target leaves expected = Some v -> Attest v = Some (e, v') ->
  Reset v' expected' = new_verifier algo target leaves expected'.
Proof.
  intros [Ha Hv]%new_verifier_over Hat. apply Reset_over; [done|]. by eapply Attest_over.
Qed.
End Reset.

(** ** Witnesses *)

Definition plain_requests : list bpfima_measurement_request :=
  [file_request (lit "aa01") (lit "/usr/lib/my lib.so:bash"); file_request (lit "bb02") (lit "/bin/sh")].

Lemma plain_requests_ok :
  Forall (fun r => wf_measurement r /\ measurement_valid r /\ plain_request r = true) plain_requests.
Proof.
  repeat (constructor; [split_and!; [by split|apply measurement_checked_spec; [by split|by vm_compute]|by vm_compute]|]).
  constructor.
Qed.

Lemma kernel_text_is_marshalled_witness :
  HashedFiles (G := go_env) (FromBytes (flat_map container_measurements_seq_show (entry_of (E := tpm_env) <$> plain_requests))) SHA256 =
    Some (inr (file_of (G := go_env) <$> plain_requests)).
Proof. apply (kernel_text_is_marshalled (E := tpm_env) (G := go_env) plain_requests plain_requests_ok). Defined.

Lemma used_verifier : exists v e v',
  new_verifier SHA256 [] (lit "00" ++ [x0a]) (zeros 32) = Some v /\ Attest (G := go_env) v = Some (e, v').
Proof.
  destruct (new_verifier SHA256 [] (lit "00" ++ [x0a]) (zeros 32)) as [v|] eqn:Ev; [|by vm_compute in Ev].
  destruct (Attest_ends (G := go_env) v) as [[e v'] Ha]. by exists v, e, v'.
Qed.

Lemma reset_is_new_witness : exists v',
  Reset v' (zeros 32) = new_verifier SHA256 [] (lit "00" ++ [x0a]) (zeros 32).
Proof.
  destruct used_verifier as (v & e & v' & Hv & Ha). exists v'.
  exact (reset_is_new (G := go_env) SHA256 [] (lit "00" ++ [x0a]) (zeros 32) v e v' (zeros 32) Hv Ha).
Defined.

(** A file name may hold a newline, and the kernel accepts the measurement;
    the list that it prints then does not parse, so the container can no
    longer be attested. *)
Definition newline_request : bpfima_measurement_request := file_request (lit "aa01") (lit "/tmp/a" ++ [x0a] ++ lit "b:sh").

Lemma newline_path_unreadable :
  wf_measurement newline_request /\ measurement_valid newline_request /\ plain_request newline_request = false /\
  HashedFiles (G := go_env) (FromBytes (container_measurements_seq_show (entry_of (E := tpm_env) newline_request))) SHA256 =
    Some (inl [ErrInvalidEntry]).
Proof.
  assert (Hwf : wf_measurement newline_request) by by split.
  split_and!; [done| |by vm_compute|by vm_compute]. apply measurement_checked_spec; [done|by vm_compute].
Qed.
