(* ===== verification/BpfUtils.v ===== *)
(** * The string builders of the BPF programs

    The functions of [src/utils/utils.h] that LSM programs use to build the
    measured text: process data, the dependency chain, addresses, digests and
    inode attributes. A buffer is its list of bytes and has a fixed length; a
    write outside it is a fault. The helpers that the kernel gives to BPF
    programs are fields of [BpfEnv]: each call may fail. *)

From S2P Require Import Prelude CString Types Kernel Pattern Snapshot PolicyMap Merkle PolicyNamespace PolicyManager.

(** ** The helpers *)

(** A process: its name and its parent. *)
Record task_struct := TaskStruct { ts_comm : bytes; ts_real_parent : option nat }.

Class BpfEnv := {
  (** Memory that [BPF_CORE_READ] reads; a read through a bad pointer gives
      zero, so every address has a value. *)
  env_task : nat -> task_struct;
  (** [bpf_get_current_task_btf] and [bpf_task_storage_get]. *)
  env_current_task : nat -> option nat;
  env_storage : nat -> bool;
  (** [bpf_probe_read_kernel_str] and [bpf_probe_read_kernel]: a negative
      value is the error of that call; what a failed call leaves in the
      buffer is not specified. *)
  env_probe_str : nat -> Z;
  env_probe : nat -> Z;
  env_probe_junk : nat -> bytes;
  (** [bpf_snprintf]: a negative value is the error of that call. *)
  env_snprintf : nat -> Z;
  (** The name of a task's control group in the default hierarchy, [None] when
      a pointer on the way to it is NULL. *)
  env_cgroup_name : nat -> option bytes;
  (** [bpf_d_path]: an error or the path; [bpf_ima_file_hash]: the algorithm,
      or an error, and the digest; [bpf_get_task_exe_file]. *)
  env_d_path : nat -> Z + bytes;
  env_ima_file_hash : nat -> Z * bytes;
  env_exe_file : nat -> bool;
}.

Definition buf_set (buf : bytes) (i : Z) (b : byte) : option bytes :=
  if (0 <=? i) && (i <? Z.of_nat (length buf)) then Some (<[Z.to_nat i := b]> buf) else None.

(** A helper writes into [size] bytes of the buffer from [off]: the area must
    lie inside. *)
Definition in_area (buf : bytes) (off size : Z) : bool :=
  (0 <=? off) && (0 <? size) && (off + size <=? Z.of_nat (length buf)).

Section Helpers.
Context {B : BpfEnv}.

Definition probe_failed (n : nat) (buf : bytes) (off size : Z) : bytes :=
  blit buf (Z.to_nat off) (take (Z.to_nat size) (env_probe_junk n)).

(** Copies at most [size - 1] characters and a NUL; the result counts the NUL. *)
Definition bpf_probe_read_kernel_str (buf : bytes) (off size : Z) (src : bytes) : K (Z * bytes) :=
  let* n := call in
  if negb (in_area buf off size) then fault else
  if env_probe_str n <? 0 then ret (env_probe_str n, probe_failed n buf off size) else
  let text := take (Z.to_nat (size - 1)) (cstr src) in
  ret (Z.of_nat (length text) + 1, blit buf (Z.to_nat off) (text ++ [NUL])).

(** Copies exactly [size] bytes. *)
Definition bpf_probe_read_kernel (buf : bytes) (off size : Z) (src : bytes) : K (Z * bytes) :=
  let* n := call in
  if negb (in_area buf off size) then fault else
  if env_probe n <? 0 then ret (env_probe n, probe_failed n buf off size) else
  if Z.of_nat (length src) <? size then fault else
  ret (0, blit buf (Z.to_nat off) (take (Z.to_nat size) src)).

(** The length with the NUL; a path that does not fit is an error. *)
Definition bpf_d_path (buf : bytes) (size : Z) : K (Z * bytes) :=
  let* n := call in
  if negb (in_area buf 0 size) then fault else
  match env_d_path n with
  | inl e => ret (if e <? 0 then e else - 14, probe_failed n buf 0 size)
  | inr path =>
      let text := cstr path in
      if Z.of_nat (length text) + 1 >? size then ret (- 36, probe_failed n buf 0 size)
      else ret (Z.of_nat (length text) + 1, blit buf 0 (text ++ [NUL]))
  end.

Definition bpf_ima_file_hash (dst : bytes) (size : Z) : K (Z * bytes) :=
  let* n := call in
  if negb (in_area dst 0 size) then fault else
  let '(algo, digest) := env_ima_file_hash n in
  ret (algo, blit dst 0 (take (Z.to_nat size) digest)).

(** The required size with the NUL, and the truncated text. *)
Definition bpf_snprintf (buf : bytes) (size : Z) (text : bytes) : K (Z * bytes) :=
  let* n := call in
  if negb (in_area buf 0 size) then fault else
  if env_snprintf n <? 0 then ret (env_snprintf n, buf) else
  ret (Z.of_nat (length text) + 1, blit buf 0 (take (Z.to_nat (size - 1)) text ++ [NUL])).
End Helpers.

(** ** Process data *)

(** The digits of [temp], least significant first, at most 15. *)
Fixpoint temp_digits (n : nat) (value : Z) : bytes :=
  match n with
  | O => []
  | S n => if value >? 0 then to_u8 (48 + value mod 10) :: temp_digits n (value / 10) else []
  end.

Fixpoint write_all (buf : bytes) (len : Z) (text : bytes) : K (bytes * Z) :=
  match text with
  | [] => ret (buf, len)
  | b :: text => let* buf := deref (buf_set buf len b) in write_all buf (len + 1) text
  end.

(** Each function returns its result, the buffer and the new length. *)
Definition append_u32_to_buffer (buf : bytes) (len max_len value : Z) : K (Z * bytes * Z) :=
  if value =? 0 then
    if len >=? max_len - 1 then ret (- 1, buf, len) else
    let* buf := deref (buf_set buf len x30) in
    ret (0, buf, len + 1)
  else
    let temp := temp_digits 15 value in
    if len + Z.of_nat (length temp) >=? max_len then ret (- 1, buf, len) else
    let* (buf, len) := write_all buf len (rev temp) in
    ret (0, buf, len).

Fixpoint append_string_to_buffer (buf : bytes) (len max_len : Z) (str : bytes) (str_max_len : nat)
    : K (Z * bytes * Z) :=
  match str_max_len, str with
  | O, _ => ret (0, buf, len)
  | S _, [] => fault
  | S n, ch :: str =>
      if Byte.eqb ch NUL then ret (0, buf, len) else
      if len >=? max_len - 1 then ret (- 1, buf, len) else
      let* buf := deref (buf_set buf len ch) in
      append_string_to_buffer buf (len + 1) max_len str n
  end.

Definition append_separator (buf : bytes) (len max_len : Z) : K (Z * bytes * Z) :=
  if len >=? max_len - 1 then ret (- 1, buf, len) else
  let* buf := deref (buf_set buf len x5f) in
  ret (0, buf, len + 1).

Definition build_measurement_data (measurement_data : bytes) (max_len : Z) (comm : bytes) (pid uid : Z)
    : K (Z * bytes) :=
  let* (rc, buf, len) := append_string_to_buffer measurement_data 0 max_len comm 16 in
  if rc <? 0 then ret (- 1, buf) else
  let* (rc, buf, len) := append_separator buf len max_len in
  if rc <? 0 then ret (- 1, buf) else
  let* (rc, buf, len) := append_u32_to_buffer buf len max_len (to_u32 pid) in
  if rc <? 0 then ret (- 1, buf) else
  let* (rc, buf, len) := append_separator buf len max_len in
  if rc <? 0 then ret (- 1, buf) else
  let* (rc, buf, len) := append_u32_to_buffer buf len max_len uid in
  if rc <? 0 then ret (- 1, buf) else
  if len <? max_len then let* buf := deref (buf_set buf len NUL) in ret (len, buf)
  else ret (- 1, buf).

(** ** The dependency chain *)

Definition DEPS_BUF_SIZE : Z := 128.

Section Dependencies.
Context {B : BpfEnv}.

Record deps_loop_ctx := DepsLoopCtx {
  dl_deps : bytes;
  dl_deps_actual : Z;
  dl_deps_max : Z;
  dl_ancestor : option nat;
}.

(** The result, the buffer and [*next_out] (unchanged when it is [-1]). *)
Definition append_parent_comm (deps : bytes) (deps_actual deps_max : Z) (ancestor : option nat)
    (next_out : option nat) : K (Z * bytes * option nat) :=
  match ancestor with
  | None => ret (- 1, deps, next_out)
  | Some a =>
      let next_out := ts_real_parent (env_task a) in
      if (deps_actual >=? deps_max - 16) || (deps_actual >=? DEPS_BUF_SIZE - 16)
      then ret (deps_actual, deps, next_out) else
      let* (rc, deps) := bpf_probe_read_kernel_str deps deps_actual 16 (ts_comm (env_task a)) in
      if rc >? 1 then
        let deps_actual := deps_actual + (rc - 1) in
        if (deps_actual <? deps_max) || (deps_actual <? DEPS_BUF_SIZE) then
          let* deps := deref (buf_set deps deps_actual x3a) in
          ret (deps_actual + 1, deps, next_out)
        else ret (deps_actual, deps, next_out)
      else ret (deps_actual, deps, next_out)
  end.

(** Whether the loop stops, and the context. *)
Definition build_deps_cb (ctx : deps_loop_ctx) : K (bool * deps_loop_ctx) :=
  if (dl_deps_actual ctx >=? dl_deps_max ctx) || (dl_deps_actual ctx >=? DEPS_BUF_SIZE)
  then ret (true, ctx) else
  let* (next_deps, deps, next) := append_parent_comm (dl_deps ctx) (dl_deps_actual ctx) (dl_deps_max ctx)
    (dl_ancestor ctx) None in
  let ctx := DepsLoopCtx deps (dl_deps_actual ctx) (dl_deps_max ctx) (dl_ancestor ctx) in
  if next_deps <? 0 then ret (true, ctx) else
  let ctx := DepsLoopCtx deps next_deps (dl_deps_max ctx) (dl_ancestor ctx) in
  if bool_decide (next = None) || bool_decide (next = dl_ancestor ctx) then ret (true, ctx) else
  ret (false, DepsLoopCtx deps next_deps (dl_deps_max ctx) next).

(** [bpf_loop]: at most [nr_loops] calls of the callback. The helper fails only
    for unknown flags or more than [2^23] rounds, and it is called with no
    flags and at most 32 rounds. *)
Fixpoint bpf_loop (nr_loops : nat) (ctx : deps_loop_ctx) : K deps_loop_ctx :=
  match nr_loops with
  | O => ret ctx
  | S n =>
      let* (stop, ctx) := build_deps_cb ctx in
      if stop : bool then ret ctx else bpf_loop n ctx
  end.

Definition build_dependencies (deps : bytes) (deps_max : Z) (initial_name : option bytes)
    (current_task : option nat) (max_depth : Z) : K (Z * bytes) :=
  let* (deps_actual, deps) :=
    match initial_name with
    | None => ret (0, deps)
    | Some name =>
        let* (rc, deps) := bpf_probe_read_kernel_str deps 0 deps_max name in
        if rc >? 1 then
          let deps_actual := rc - 1 in
          if deps_actual <? deps_max then
            let* deps := deref (buf_set deps deps_actual x3a) in
            ret (deps_actual + 1, deps)
          else ret (deps_actual, deps)
        else ret (0, deps)
    end in
  let* (deps_actual, deps) :=
    if deps_actual =? 0 then
      let* (_, deps) := bpf_probe_read_kernel_str deps 0 deps_max (lit "unknown:") in
      ret (8, deps)
    else ret (deps_actual, deps) in
  let ancestor := match current_task with Some t => ts_real_parent (env_task t) | None => None end in
  let max_depth := if max_depth >? 32 then 32 else max_depth in
  let* ctx := bpf_loop (Z.to_nat max_depth) (DepsLoopCtx deps deps_actual deps_max ancestor) in
  let deps := dl_deps ctx in
  let deps_actual := dl_deps_actual ctx in
  if (deps_actual >? 0) && (deps_actual <=? deps_max) then
    let* deps := deref (buf_set deps (deps_actual - 1) NUL) in
    ret (deps_actual - 1, deps)
  else ret (deps_actual, deps).
End Dependencies.

(** ** Addresses *)

Record socket_addr_info := SocketAddrInfo {
  sa_additional_data : option bytes;
  sa_buf_size : Z;
  sa_saddr : Z;
  sa_daddr : Z;
  sa_sport : Z;
  sa_dport : Z;
}.

(** One octet, [(addr >> shift) & 0xFF]. *)
Definition octet (addr shift : Z) : Z := Z.land (Z.shiftr addr shift) 0xff.

(** [%u.%u.%u.%u:%u]. *)
Definition endpoint_text (addr port : Z) : bytes :=
  decimal (octet addr 0) ++ lit "." ++ decimal (octet addr 8) ++ lit "." ++
  decimal (octet addr 16) ++ lit "." ++ decimal (octet addr 24) ++ lit ":" ++ decimal port.

Definition build_socket_additional_data `{BpfEnv} (info : option socket_addr_info) : K (Z * option bytes) :=
  match info with
  | Some info =>
      match sa_additional_data info with
      | Some buf =>
          if sa_buf_size info <=? 0 then ret (- 1, Some buf) else
          let* (rc, buf) := bpf_snprintf buf (sa_buf_size info)
            (endpoint_text (sa_saddr info) (sa_sport info) ++ lit "-" ++
             endpoint_text (sa_daddr info) (sa_dport info)) in
          ret (rc, Some buf)
      | None => ret (- 1, None)
      end
  | None => ret (- 1, None)
  end.

(** ** Digests *)

(** Whether the loop ran out of room, the buffer and the position. *)
Fixpoint hex_loop (n : nat) (i max : Z) (bs : bytes) (out : bytes) (pos out_len : Z) : K (bool * bytes * Z) :=
  match n with
  | O => ret (false, out, pos)
  | S n =>
      if i >=? max then ret (false, out, pos) else
      if pos + 2 >=? out_len then ret (true, out, pos) else
      let* b := deref (bs !! Z.to_nat i) in
      let* out := deref (buf_set out pos (hex_digit (Z.land (Z.shiftr (u8_val b) 4) 0xf))) in
      let* out := deref (buf_set out (pos + 1) (hex_digit (Z.land (u8_val b) 0xf))) in
      hex_loop n (i + 1) max bs out (pos + 2) out_len
  end.

Definition bytes_to_hex_str (bs : bytes) (len : Z) (out : bytes) (out_len : Z) : K (Z * bytes) :=
  let max := if len >? 32 then 32 else len in
  let* (full, out, pos) := hex_loop 32 0 max bs out 0 out_len in
  if full : bool then ret (- 1, out) else
  if pos <? out_len then let* out := deref (buf_set out pos NUL) in ret (pos, out)
  else ret (- 1, out).

(** ** Inode attributes *)

Definition ATTR_MODE : Z := 0x1.
Definition ATTR_UID : Z := 0x2.
Definition ATTR_GID : Z := 0x4.
Definition ATTR_SIZE : Z := 0x8.
Definition ATTR_KILL_SUID : Z := 0x800.
Definition ATTR_KILL_SGID : Z := 0x1000.
Definition ATTR_KILL_PRIV : Z := 0x4000.

Record iattr := IAttr {
  ia_valid : Z;
  ia_mode : Z;
  ia_uid : Z;
  ia_gid : Z;
  ia_size : Z;
}.

(** A format with one [%llu] directive between two texts, or with none. *)
Inductive attr_format := FmtU64 (before after : string) | FmtText (text : string).

Definition format_u64 (fmt : attr_format) (val : Z) : bytes :=
  match fmt with
  | FmtU64 before after => lit before ++ decimal val ++ lit after
  | FmtText text => lit text
  end.

(** The copy of [formatted] into the buffer, with the range check of each
    index: whether it went out of range, and the buffer. *)
Fixpoint copy_formatted (k : nat) (i n : Z) (formatted buf : bytes) (offset buf_max : Z) : K (bool * bytes) :=
  match k with
  | O => ret (false, buf)
  | S k =>
      if i >=? n then ret (false, buf) else
      let position := offset + i in
      if (position <? 0) || (position >=? buf_max) then ret (true, buf) else
      let* ch := deref (formatted !! Z.to_nat i) in
      let* buf := deref (buf_set buf position ch) in
      copy_formatted k (i + 1) n formatted buf offset buf_max
  end.

Section Attributes.
Context {B : BpfEnv}.

(** The buffer and [*off]. *)
Definition append_attr (buf : bytes) (buf_max off : Z) (fmt : attr_format) (val : Z) : K (bytes * Z) :=
  let offset := off in
  if (offset <? 0) || (offset >=? buf_max) then ret (buf, - 1) else
  let remaining := buf_max - offset in
  let* (n, formatted) := bpf_snprintf (zeros 64) 64 (format_u64 fmt val) in
  if (n <=? 0) || (n >? 64) || (n >? remaining) then ret (buf, - 1) else
  let* (bad, buf) := copy_formatted 64 0 n formatted buf offset buf_max in
  ret (buf, if bad : bool then - 1 else offset + n - 1).

Definition append_if (cond : bool) (buf : bytes) (buf_max off : Z) (fmt : attr_format) (val : Z) : K (bytes * Z) :=
  if cond then append_attr buf buf_max off fmt val else ret (buf, off).

(** [None] for a NULL pointer. *)
Definition build_attributes (attrs : option bytes) (attrs_max : Z) (attr : option iattr) : K (Z * bytes) :=
  match attr, attrs with
  | Some attr, Some attrs =>
      if attrs_max <=? 0 then ret (0, attrs) else
      let valid := has_flag (ia_valid attr) in
      let* (attrs, off) := append_if (valid ATTR_MODE) attrs attrs_max 0 (FmtU64 "mode=" ",") (to_u64 (ia_mode attr)) in
      let* (attrs, off) := append_if (valid ATTR_UID) attrs attrs_max off (FmtU64 "uid=" ",") (to_u64 (ia_uid attr)) in
      let* (attrs, off) := append_if (valid ATTR_GID) attrs attrs_max off (FmtU64 "gid=" ",") (to_u64 (ia_gid attr)) in
      let* (attrs, off) := append_if (valid ATTR_SIZE) attrs attrs_max off (FmtU64 "size=" ",") (to_u64 (ia_size attr)) in
      let* (attrs, off) := append_if (valid ATTR_KILL_PRIV) attrs attrs_max off (FmtText "kill_priv=1,") 0 in
      let* (attrs, off) := append_if (valid ATTR_KILL_SUID) attrs attrs_max off (FmtText "kill_suid=1,") 0 in
      let* (attrs, off) := append_if (valid ATTR_KILL_SGID) attrs attrs_max off (FmtText "kill_sgid=1,") 0 in
      if (off <? 0) || (off >=? attrs_max) then ret (- 1, attrs) else
      let* off :=
        if off >? 0 then
          let* last := deref (attrs !! Z.to_nat (off - 1)) in
          ret (if Byte.eqb last x2c then off - 1 else off)
        else ret off in
      let* attrs := deref (buf_set attrs off NUL) in
      ret (off, attrs)
  | _, _ => ret (0, default [] attrs)
  end.
End Attributes.

(** ** The name of the control group *)

Section Cgroup.
Context {B : BpfEnv}.

Definition fetch_cgroup_name (cur : option nat) (cgroup_name : bytes) (size : Z) : K bytes :=
  if size =? 0 then ret cgroup_name else
  let* cgroup_name := deref (buf_set cgroup_name 0 NUL) in
  match cur with
  | None => ret cgroup_name
  | Some t =>
      match env_cgroup_name t with
      | None => ret cgroup_name
      | Some name => let* (_, cgroup_name) := bpf_probe_read_kernel_str cgroup_name 0 size name in ret cgroup_name
      end
  end.
End Cgroup.
