(* ===== verification/BpfUtilsSpec.v ===== *)
(** * What the string builders build

    Each builder of [BpfUtils] stays inside its buffer, whatever the helpers
    answer, and writes the text of a reference definition or reports that it
    does not fit. *)

From S2P Require Import Prelude CString Types Kernel Sample Pattern Snapshot PolicyMap Merkle PolicyNamespace PolicyManager PolicyAudit BpfUtils.

(** ** Buffers

    A buffer under construction is [t ++ rest]: the text so far and the bytes
    behind it. *)

Lemma buf_set_app t rest b :
  rest <> [] -> buf_set (t ++ rest) (Z.of_nat (length t)) b = Some ((t ++ [b]) ++ drop 1 rest).
Proof.
  intros Hr. destruct rest as [|c rest]; [done|]. unfold buf_set.
  destruct (Z.leb_spec 0 (Z.of_nat (length t))); [|lia].
  destruct (Z.ltb_spec (Z.of_nat (length t)) (Z.of_nat (length (t ++ c :: rest)))) as [_|Hl].
  2:{ rewrite length_app in Hl. cbn [length] in Hl. lia. }
  cbn [andb]. rewrite Nat2Z.id, insert_app_r_alt by lia. rewrite Nat.sub_diag. cbn. by rewrite <- app_assoc.
Qed.

Lemma wp_put_char t rest len b Q s :
  len = Z.of_nat (length t) -> rest <> [] -> Q ((t ++ [b]) ++ drop 1 rest) s ->
  wp (deref (buf_set (t ++ rest) len b)) Q s.
Proof. intros -> Hr HQ. apply wp_deref. eexists. split; [by apply buf_set_app|done]. Qed.

Lemma wp_write_all t rest text len (Q : bytes * Z -> kstate -> Prop) s :
  len = Z.of_nat (length t) -> (length text <= length rest)%nat ->
  Q ((t ++ text) ++ drop (length text) rest, len + Z.of_nat (length text)) s ->
  wp (write_all (t ++ rest) len text) Q s.
Proof.
  revert t rest len. induction text as [|b text IH]; intros t rest len Hlen Hl HQ; cbn [write_all].
  - apply wp_ret. by rewrite app_nil_r, drop_0, Z.add_0_r in HQ.
  - cbn [length] in *. apply wp_bind, wp_put_char; [done|by destruct rest; cbn in *; [lia|]|].
    apply IH; [rewrite length_app; cbn; lia|rewrite length_drop; lia|].
    rewrite drop_drop, <- (app_assoc t). replace (len + 1 + Z.of_nat (length text)) with
      (len + Z.of_nat (S (length text))) by lia. exact HQ.
Qed.

(** ** Decimal digits *)

Lemma decimal_fuel_more n m z : 0 <= z < 10 ^ Z.of_nat n -> (0 < n)%nat -> (n <= m)%nat -> decimal_fuel m z = decimal_fuel n z.
Proof.
  revert m z. induction n as [|n IH]; intros m z Hz Hn Hm; [lia|]. destruct m as [|m]; [lia|].
  cbn [decimal_fuel]. destruct (Z.ltb_spec z 10); [done|]. f_equal.
  rewrite Nat2Z.inj_succ, Z.pow_succ_r in Hz by lia.
  apply IH; [split; [apply Z.div_pos; lia|apply Z.div_lt_upper_bound; lia]| |lia].
  destruct n; [|lia]. cbn in Hz. lia.
Qed.

Lemma temp_digits_decimal n z : 0 < z < 10 ^ Z.of_nat n -> rev (temp_digits n z) = decimal_fuel n z.
Proof.
  revert z. induction n as [|n IH]; intros z Hz; [cbn in Hz; lia|]. cbn [temp_digits decimal_fuel].
  destruct (Z.gtb_spec z 0); [|lia]. cbn [rev]. f_equal.
  rewrite Nat2Z.inj_succ, Z.pow_succ_r in Hz by lia.
  destruct (Z.ltb_spec z 10).
  - rewrite Z.div_small by lia. by destruct n.
  - apply IH. split; [apply Z.div_str_pos; lia|apply Z.div_lt_upper_bound; lia].
Qed.

Lemma temp_digits_u32 v : is_u32 v -> v <> 0 -> rev (temp_digits 15 v) = decimal v.
Proof.
  intros Hv Hne. unfold is_u32 in Hv. rewrite temp_digits_decimal by (cbn; lia).
  symmetry. apply decimal_fuel_more; [cbn; lia|lia|lia].
Qed.

(** ** Process data *)

Section Append.
Context (t rest : bytes) (len max_len : Z).
Hypothesis Hlen : len = Z.of_nat (length t).
Hypothesis Hmax : max_len <= Z.of_nat (length (t ++ rest)).

Lemma room n : len + n < max_len -> 0 <= n -> (Z.to_nat n < length rest)%nat.
Proof. rewrite length_app in Hmax. lia. Qed.

Lemma wp_append_u32 v (Q : Z * bytes * Z -> kstate -> Prop) s :
  is_u32 v ->
  (len + Z.of_nat (length (decimal v)) < max_len ->
     Q (0, (t ++ decimal v) ++ drop (length (decimal v)) rest, len + Z.of_nat (length (decimal v))) s) ->
  (max_len <= len + Z.of_nat (length (decimal v)) -> Q (- 1, t ++ rest, len) s) ->
  wp (append_u32_to_buffer (t ++ rest) len max_len v) Q s.
Proof.
  intros Hv Hfit Hfull. unfold append_u32_to_buffer. destruct (Z.eqb_spec v 0) as [->|Hne].
  - change (decimal 0) with [x30] in *. cbn [length] in *.
    rewrite Z.geb_leb. destruct (Z.leb_spec (max_len - 1) len); [apply wp_ret, Hfull; lia|].
    apply wp_bind, wp_put_char; [done| |apply wp_ret, Hfit; lia].
    pose proof (room 1 ltac:(lia) ltac:(lia)). by destruct rest; cbn in *; [lia|].
  - rewrite <- (length_rev (temp_digits 15 v)), temp_digits_u32 by done.
    rewrite Z.geb_leb. destruct (Z.leb_spec max_len (len + Z.of_nat (length (decimal v)))).
    + by apply wp_ret, Hfull.
    + pose proof (room (Z.of_nat (length (decimal v))) ltac:(lia) ltac:(lia)).
      apply wp_bind, wp_write_all; [done|lia|]. apply wp_ret, Hfit. lia.
Qed.

Lemma wp_append_separator (Q : Z * bytes * Z -> kstate -> Prop) s :
  (len + 1 < max_len -> Q (0, (t ++ [x5f]) ++ drop 1 rest, len + 1) s) ->
  (max_len <= len + 1 -> Q (- 1, t ++ rest, len) s) ->
  wp (append_separator (t ++ rest) len max_len) Q s.
Proof.
  intros Hfit Hfull. unfold append_separator. rewrite Z.geb_leb.
  destruct (Z.leb_spec (max_len - 1) len); [apply wp_ret, Hfull; lia|].
  apply wp_bind, wp_put_char; [done| |apply wp_ret, Hfit; lia].
  pose proof (room 1 ltac:(lia) ltac:(lia)). by destruct rest; cbn in *; [lia|].
Qed.
End Append.

Lemma wp_append_string n str t rest len max_len (Q : Z * bytes * Z -> kstate -> Prop) s :
  len = Z.of_nat (length t) -> len < max_len <= Z.of_nat (length (t ++ rest)) -> (n <= length str)%nat ->
  let text := take n (cstr str) in
  (len + Z.of_nat (length text) < max_len ->
     Q (0, (t ++ text) ++ drop (length text) rest, len + Z.of_nat (length text)) s) ->
  (forall buf' len', max_len <= len + Z.of_nat (length text) -> length buf' = length (t ++ rest) ->
     Q (- 1, buf', len') s) ->
  wp (append_string_to_buffer (t ++ rest) len max_len str n) Q s.
Proof.
  revert str t rest len. induction n as [|n IH]; intros str t rest len Hlen Hmax Hn text Hfit Hfull.
  - destruct str; apply wp_ret; unfold text in *; cbn in Hfit; rewrite app_nil_r, drop_0, Z.add_0_r in Hfit; apply Hfit; lia.
  - destruct str as [|ch str]; [cbn in Hn; lia|]. cbn [append_string_to_buffer]. cbn in text.
    destruct (Byte.eqb ch NUL) eqn:Ec; unfold text in *.
    { apply wp_ret. cbn in Hfit. rewrite app_nil_r, drop_0, Z.add_0_r in Hfit. apply Hfit. lia. }
    cbn [take length] in *. rewrite Z.geb_leb. rewrite length_app in Hmax. cbn [length] in Hn.
    destruct (Z.leb_spec (max_len - 1) len); [apply wp_ret, Hfull; [lia|done]|].
    apply wp_bind, wp_put_char; [done|by destruct rest; cbn in *; [lia|]|].
    apply IH; [rewrite length_app; cbn; lia|rewrite !length_app, length_drop; cbn; lia|lia|..].
    + intros Hf. rewrite drop_drop, <- (app_assoc t).
      replace (len + 1 + Z.of_nat (length (take n (cstr str)))) with
        (len + Z.of_nat (S (length (take n (cstr str))))) by lia. apply Hfit. lia.
    + intros buf' len' Hf Hl. apply Hfull; [lia|]. rewrite Hl, !length_app, length_drop. cbn. lia.
Qed.

Lemma cstr_terminated t rest : nul_free t -> cstr ((t ++ [NUL]) ++ rest) = t.
Proof. intros Ht. rewrite <- app_assoc. by apply cstr_app_nul. Qed.

Lemma nul_free_app a b : nul_free (a ++ b) <-> nul_free a /\ nul_free b.
Proof. unfold nul_free. rewrite elem_of_app. tauto. Qed.

Lemma nul_free_take n t : nul_free t -> nul_free (take n t).
Proof. intros H Hin. apply H. rewrite <- (take_drop n t), elem_of_app. by left. Qed.

Lemma decimal_nul_free z : nul_free (decimal z).
Proof. intros H%decimal_fuel_digits. change (u8_val NUL) with 0 in H. lia. Qed.

#[local] Hint Resolve decimal_nul_free cstr_nul_free nul_free_take : core.

Definition process_text (comm : bytes) (pid uid : Z) : bytes :=
  ((((take 16 (cstr comm) ++ [x5f]) ++ decimal (to_u32 pid)) ++ [x5f]) ++ decimal uid).

Lemma process_text_nul_free comm pid uid : nul_free (process_text comm pid uid).
Proof.
  unfold process_text. rewrite !nul_free_app. split_and!; auto; by intros ?%list_elem_of_singleton.
Qed.

(** A buffer whose first bytes are the text [t]. *)
Definition filled (t buf : bytes) : bytes := t ++ drop (length t) buf.

Lemma filled_nil buf : filled [] buf = buf.
Proof. unfold filled. by rewrite drop_0. Qed.

Lemma filled_length t buf : (length t <= length buf)%nat -> length (filled t buf) = length buf.
Proof. intros H. unfold filled. rewrite length_app, length_drop. lia. Qed.

Lemma filled_app t x buf : (t ++ x) ++ drop (length x) (drop (length t) buf) = filled (t ++ x) buf.
Proof. unfold filled. by rewrite drop_drop, length_app. Qed.

Lemma wp_put_filled t b buf len Q s :
  len = Z.of_nat (length t) -> (length t < length buf)%nat -> Q (filled (t ++ [b]) buf) s ->
  wp (deref (buf_set (filled t buf) len b)) Q s.
Proof.
  intros -> Ht HQ. apply wp_put_char; [done|intros E; apply (f_equal length) in E; rewrite length_drop in E; cbn in E; lia|].
  by rewrite <- (filled_app t [b] buf) in HQ.
Qed.

Lemma filled_cstr t buf : nul_free t -> cstr (filled (t ++ [NUL]) buf) = t.
Proof. apply cstr_terminated. Qed.

Lemma filled_app_length (t x : bytes) : Z.of_nat (length (t ++ x)) = Z.of_nat (length t) + Z.of_nat (length x).
Proof. rewrite length_app. lia. Qed.

(** The three steps on a filled buffer: what is appended, or an error. *)
Section Filled.
Context (buf : bytes) (max_len : Z).
Hypothesis Hmax : max_len <= Z.of_nat (length buf).

(** What an appending function must show of its two outcomes. *)
Definition appends (t x : bytes) (Q : Z * bytes * Z -> kstate -> Prop) (s : kstate) : Prop :=
  (Z.of_nat (length (t ++ x)) < max_len -> Q (0, filled (t ++ x) buf, Z.of_nat (length (t ++ x))) s) /\
  (forall b len, max_len <= Z.of_nat (length (t ++ x)) -> length b = length buf -> Q (- 1, b, len) s).

Lemma wp_u32 t v Q s :
  Z.of_nat (length t) < max_len -> is_u32 v -> appends t (decimal v) Q s ->
  wp (append_u32_to_buffer (filled t buf) (Z.of_nat (length t)) max_len v) Q s.
Proof.
  intros Ht Hv [Hfit Hfull]. rewrite filled_app_length in *. pose proof (filled_length t buf ltac:(lia)) as Hl.
  apply (wp_append_u32 t (drop (length t) buf)); [done|fold (filled t buf); lia|done| |].
  - by rewrite filled_app.
  - intros Hf. by apply Hfull.
Qed.

Lemma wp_separator t Q s :
  Z.of_nat (length t) < max_len -> appends t [x5f] Q s ->
  wp (append_separator (filled t buf) (Z.of_nat (length t)) max_len) Q s.
Proof.
  intros Ht [Hfit Hfull]. rewrite filled_app_length in *. pose proof (filled_length t buf ltac:(lia)) as Hl.
  apply (wp_append_separator t (drop (length t) buf)); [done|fold (filled t buf); lia| |].
  - intros Hf. rewrite <- (filled_app t [x5f] buf) in Hfit. by apply Hfit.
  - intros Hf. by apply Hfull.
Qed.

Lemma wp_string t str n Q s :
  Z.of_nat (length t) < max_len -> (n <= length str)%nat -> appends t (take n (cstr str)) Q s ->
  wp (append_string_to_buffer (filled t buf) (Z.of_nat (length t)) max_len str n) Q s.
Proof.
  intros Ht Hn [Hfit Hfull]. rewrite filled_app_length in *. pose proof (filled_length t buf ltac:(lia)) as Hl.
  apply (wp_append_string n str t (drop (length t) buf)); [done|fold (filled t buf); lia|done| |].
  - by rewrite filled_app.
  - intros b len Hf Hb. apply Hfull; [done|]. by rewrite Hb.
Qed.
End Filled.

Ltac too_long Hend text := intros; cbn [Z.ltb]; apply Hend;
  [done|unfold text, process_text; rewrite !length_app in *; cbn [length] in *; lia].

(** The process data are the three fields with separators, or do not fit. *)
Lemma build_measurement_data_text buf max_len comm pid uid s :
  0 < max_len <= Z.of_nat (length buf) -> (16 <= length comm)%nat -> is_u32 uid ->
  let text := process_text comm pid uid in
  wp (build_measurement_data buf max_len comm pid uid) (fun r s' =>
    s' = s /\ length (snd r) = length buf /\
    (if decide (Z.of_nat (length text) < max_len)
     then fst r = Z.of_nat (length text) /\ cstr (snd r) = text else fst r = - 1)) s.
Proof.
  intros [H0 Hmax] Hcomm Hu text.
  assert (Hpid : is_u32 (to_u32 pid)) by (unfold is_u32, to_u32; apply Z.mod_pos_bound; lia).
  assert (Hend : forall b, length b = length buf -> max_len <= Z.of_nat (length text) ->
    wp (ret (- 1, b)) (fun r s' => s' = s /\ length (snd r) = length buf /\
      (if decide (Z.of_nat (length text) < max_len)
       then fst r = Z.of_nat (length text) /\ cstr (snd r) = text else fst r = - 1)) s).
  { intros b Hb Hf. apply wp_ret. case_decide; [lia|done]. }
  unfold build_measurement_data. apply wp_bind. rewrite <- (filled_nil buf) at 1.
  change 0 with (Z.of_nat (@length byte [])) at 1.
  apply wp_string; [done|cbn; lia|done|]. split; [|too_long Hend text].
  intros H1. apply wp_bind, wp_separator; [done|done|]. split; [|too_long Hend text].
  intros H2. apply wp_bind, wp_u32; [done|done|done|]. split; [|too_long Hend text].
  intros H3. apply wp_bind, wp_separator; [done|done|]. split; [|too_long Hend text].
  intros H4. apply wp_bind, wp_u32; [done|done|done|]. split; [|too_long Hend text].
  cbn [app]. fold (process_text comm pid uid). fold text. intros H5. cbn [Z.ltb].
  destruct (Z.ltb_spec (Z.of_nat (length text)) max_len); [|lia]. apply wp_bind, wp_put_filled; [done|lia|].
  apply wp_ret. split; [done|]. cbn [fst snd].
  split; [apply filled_length; rewrite length_app; cbn; lia|].
  case_decide; [|lia]. split; [done|]. apply filled_cstr, process_text_nul_free.
Qed.

(** ** Digests *)

Lemma nibbles b : hex_byte b =
  [hex_digit (Z.land (Z.shiftr (u8_val b) 4) 0xf); hex_digit (Z.land (u8_val b) 0xf)].
Proof.
  pose proof (u8_val_bound b). unfold hex_byte. change 0xf with (Z.ones 4).
  rewrite !Z.land_ones, Z.shiftr_div_pow2 by lia. change (2 ^ 4) with 16.
  rewrite (Z.mod_small (u8_val b / 16)); [done|]. split; [apply Z.div_pos|apply Z.div_lt_upper_bound]; lia.
Qed.

Lemma hex_nul_free bs : nul_free (hex bs).
Proof.
  unfold nul_free, hex. intros H. apply list_elem_of_In, in_flat_map in H as (b & _ & H).
  destruct b; cbn in H; intuition discriminate.
Qed.

Lemma wp_hex_loop n i max bs out out_len (Q : bool * bytes * Z -> kstate -> Prop) s :
  (i <= max)%nat -> (max <= i + n)%nat -> (max <= length bs)%nat ->
  Z.of_nat (2 * max) < out_len <= Z.of_nat (length out) ->
  Q (false, filled (hex (take max bs)) out, Z.of_nat (2 * max)) s ->
  wp (hex_loop n (Z.of_nat i) (Z.of_nat max) bs (filled (hex (take i bs)) out) (Z.of_nat (2 * i)) out_len) Q s.
Proof.
  revert i. induction n as [|n IH]; intros i Hi Hn Hb Ho HQ; cbn [hex_loop].
  - assert (i = max) as -> by lia. by apply wp_ret.
  - rewrite Z.geb_leb. destruct (Z.leb_spec (Z.of_nat max) (Z.of_nat i)).
    { assert (i = max) as -> by lia. by apply wp_ret. }
    rewrite Z.geb_leb. destruct (Z.leb_spec out_len (Z.of_nat (2 * i) + 2)); [lia|].
    destruct (lookup_lt_is_Some_2 bs i ltac:(lia)) as [b Hbi].
    assert (Hl : length (hex (take i bs)) = (2 * i)%nat) by (rewrite hex_length, length_take; lia).
    apply wp_bind, wp_deref. exists b. split; [by rewrite Nat2Z.id|].
    apply wp_bind, wp_put_filled; [lia|lia|]. apply wp_bind, wp_put_filled; [rewrite length_app; cbn; lia|rewrite length_app; cbn; lia|].
    rewrite <- app_assoc. cbn [app]. rewrite <- nibbles.
    assert (Hs : hex (take i bs) ++ hex_byte b = hex (take (S i) bs)).
    { unfold hex. rewrite (take_S_r _ _ b) by done. by rewrite flat_map_app. }
    rewrite Hs. replace (Z.of_nat i + 1) with (Z.of_nat (S i)) by lia.
    replace (Z.of_nat (2 * i) + 2) with (Z.of_nat (2 * S i)) by lia. apply IH; try done; lia.
Qed.

Lemma wp_bytes_to_hex bs len out out_len (Q : Z * bytes -> kstate -> Prop) s :
  (len <= 32)%nat -> (len <= length bs)%nat -> Z.of_nat (2 * len) < out_len <= Z.of_nat (length out) ->
  Q (Z.of_nat (2 * len), filled (hex (take len bs) ++ [NUL]) out) s ->
  wp (bytes_to_hex_str bs (Z.of_nat len) out out_len) Q s.
Proof.
  intros Hl Hb Ho HQ. unfold bytes_to_hex_str. rewrite Z.gtb_ltb.
  destruct (Z.ltb_spec 32 (Z.of_nat len)); [lia|]. apply wp_bind.
  pose proof (wp_hex_loop 32 0 len bs out out_len) as Hw. cbn [take hex flat_map] in Hw. rewrite filled_nil in Hw.
  apply Hw; [lia|lia|done|done|]. destruct (Z.ltb_spec (Z.of_nat (2 * len)) out_len); [|lia].
  assert (length (hex (take len bs)) = (2 * len)%nat) by (rewrite hex_length, length_take; lia).
  apply wp_bind, wp_put_filled; [lia|lia|]. by apply wp_ret.
Qed.

(** ** The dependency chain *)

(** The names of the ancestors that the loop visits. *)
Fixpoint ancestors `{BpfEnv} (depth : nat) (a : option nat) : list bytes :=
  match depth, a with
  | S depth, Some t =>
      ts_comm (env_task t) ::
      match ts_real_parent (env_task t) with
      | Some p => if decide (p = t) then [] else ancestors depth (Some p)
      | None => []
      end
  | _, _ => []
  end.

(** A name is appended while at least 16 bytes are left. *)
Definition add_comm (t comm : bytes) : bytes :=
  if decide (length t < 112 /\ cstr comm <> [])%nat then t ++ take 15 (cstr comm) ++ [x3a] else t.

Definition chain (t : bytes) (comms : list bytes) : bytes := foldl add_comm t comms.

Definition chain_start (name : option bytes) : bytes :=
  match name with
  | Some name => if decide (cstr name = []) then lit "unknown:" else take 127 (cstr name) ++ [x3a]
  | None => lit "unknown:"
  end.

Lemma chain_full t comms : (112 <= length t)%nat -> chain t comms = t.
Proof.
  intros Ht. induction comms as [|c comms IH]; [done|]. cbn. unfold add_comm at 2.
  case_decide as Hd; [lia|done].
Qed.

Lemma chain_nul_free t comms : nul_free t -> nul_free (chain t comms).
Proof.
  revert t. induction comms as [|c comms IH]; intros t Ht; [done|]. cbn. apply IH. unfold add_comm.
  case_decide; [|done]. rewrite !nul_free_app. split_and!; auto. by intros ?%list_elem_of_singleton.
Qed.

Section Deps.
Context {B : BpfEnv}.

(** No string read fails. *)
Definition reads_ok : Prop := forall n, 0 <= env_probe_str n.

Lemma wp_probe_str t rest off size src (Q : Z * bytes -> kstate -> Prop) s :
  off = Z.of_nat (length t) -> 0 < size <= Z.of_nat (length rest) ->
  (forall n rc rest', rc < 0 -> ~ reads_ok -> length rest' = length rest -> Q (rc, t ++ rest') (set_next n s)) ->
  (forall n rest', let x := take (Z.to_nat (size - 1)) (cstr src) in
     (length x + length rest' = length rest)%nat -> (rest' !! 0%nat = Some NUL) ->
     Q (Z.of_nat (length x) + 1, (t ++ x) ++ rest') (set_next n s)) ->
  wp (bpf_probe_read_kernel_str (t ++ rest) off size src) Q s.
Proof.
  intros -> Hs Hbad Hok. unfold bpf_probe_read_kernel_str. apply wp_bind, wp_call.
  assert (Ha : in_area (t ++ rest) (Z.of_nat (length t)) size = true).
  { unfold in_area. rewrite !andb_true_iff, !Z.leb_le, Z.ltb_lt, length_app. lia. }
  rewrite Ha. cbn [negb]. unfold probe_failed, blit. rewrite Nat2Z.id.
  destruct (Z.ltb_spec (env_probe_str (k_next s)) 0) as [Hn|Hn]; apply wp_ret.
  - rewrite take_app_length. apply Hbad; [done|intros H; specialize (H (k_next s)); lia|].
    rewrite length_app, length_drop, length_app, length_take. lia.
  - set (x := take (Z.to_nat (size - 1)) (cstr src)).
    assert (Hx : (length x < length rest)%nat) by (unfold x; rewrite length_take; lia).
    rewrite take_app_length, app_assoc, (app_assoc t x), <- (app_assoc (t ++ x)). cbn [app].
    apply (Hok (S (k_next s)) (NUL :: drop (length t + length (x ++ [NUL])) (t ++ rest))); [|done].
    cbn [length]. rewrite length_drop, !length_app. cbn [length]. fold x. lia.
Qed.

Lemma wp_append_parent t rest a next (Q : Z * bytes * option nat -> kstate -> Prop) s :
  length (t ++ rest) = 128%nat -> (1 <= length t)%nat ->
  (forall m t1 rest1, length (t1 ++ rest1) = 128%nat -> (1 <= length t1)%nat ->
     (reads_ok -> t1 = add_comm t (ts_comm (env_task a))) ->
     Q (Z.of_nat (length t1), t1 ++ rest1, ts_real_parent (env_task a)) (set_next m s)) ->
  wp (append_parent_comm (t ++ rest) (Z.of_nat (length t)) 128 (Some a) next) Q s.
Proof.
  intros Hl Ht HQ. unfold append_parent_comm. change DEPS_BUF_SIZE with 128. rewrite orb_diag, Z.geb_leb.
  unfold add_comm in HQ. destruct (Z.leb_spec (128 - 16) (Z.of_nat (length t))).
  { apply wp_ret. rewrite <- (set_next_eta s). apply HQ; [done|done|]. intros _. case_decide; [lia|done]. }
  rewrite length_app in Hl. apply wp_bind, wp_probe_str; [done|lia|..].
  - intros n rc rest' Hrc Hno Hr. rewrite Z.gtb_ltb. destruct (Z.ltb_spec 1 rc); [lia|]. apply wp_ret.
    apply HQ; [rewrite length_app; lia|done|done].
  - intros n rest' x Hr Hz. change (Z.to_nat (16 - 1)) with 15%nat in x. rewrite Z.gtb_ltb.
    assert (Hx : (length x <= 15)%nat) by (unfold x; rewrite length_take; lia).
    destruct (Z.ltb_spec 1 (Z.of_nat (length x) + 1)).
    + replace (Z.of_nat (length t) + (Z.of_nat (length x) + 1 - 1)) with (Z.of_nat (length (t ++ x)))
        by (rewrite length_app; lia).
      destruct (Z.ltb_spec (Z.of_nat (length (t ++ x))) 128); [|rewrite length_app in *; lia]. cbn [orb].
      apply wp_bind, wp_put_char; [done|by intros ->|]. apply wp_ret.
      replace (Z.of_nat (length (t ++ x)) + 1) with (Z.of_nat (length ((t ++ x) ++ [x3a])))
        by (rewrite (length_app (t ++ x)); cbn; lia).
      apply HQ; [|rewrite !length_app; lia|].
      * rewrite !length_app, length_drop. cbn [length]. lia.
      * intros _. case_decide as Hd; [by rewrite <- app_assoc|]. destruct Hd. split; [lia|].
        intros E. unfold x in *. rewrite E in *. cbn in *. lia.
    + assert (x = []) as Hx0 by (destruct x; [done|cbn in *; lia]). rewrite Hx0, app_nil_r in *. cbn [length] in Hr.
      apply wp_ret. apply HQ; [rewrite length_app; lia|done|]. intros _. case_decide as Hd; [|done].
      destruct Hd as [_ Hd]. unfold x in Hx0. by destruct (cstr (ts_comm (env_task a))).
Qed.

(** The next ancestor, if the walk goes on. *)
Definition next_ancestor (a : nat) : option nat :=
  match ts_real_parent (env_task a) with Some p => if decide (p = a) then None else Some p | None => None end.

Lemma ancestors_step n a : ancestors (S n) (Some a) = ts_comm (env_task a) :: ancestors n (next_ancestor a).
Proof.
  cbn [ancestors]. f_equal. unfold next_ancestor. destruct (ts_real_parent (env_task a)) as [p|]; [|by destruct n].
  case_decide; [|done]. by destruct n.
Qed.

Lemma wp_deps_cb t rest a (Q : bool * deps_loop_ctx -> kstate -> Prop) s :
  length (t ++ rest) = 128%nat -> (1 <= length t < 128)%nat ->
  (forall m t1 rest1, length (t1 ++ rest1) = 128%nat -> (1 <= length t1)%nat ->
     (reads_ok -> t1 = add_comm t (ts_comm (env_task a))) ->
     Q (match next_ancestor a with
        | None => (true, DepsLoopCtx (t1 ++ rest1) (Z.of_nat (length t1)) 128 (Some a))
        | Some p => (false, DepsLoopCtx (t1 ++ rest1) (Z.of_nat (length t1)) 128 (Some p))
        end) (set_next m s)) ->
  wp (build_deps_cb (DepsLoopCtx (t ++ rest) (Z.of_nat (length t)) 128 (Some a))) Q s.
Proof.
  intros Hl Ht HQ. unfold build_deps_cb. cbn [dl_deps dl_deps_actual dl_deps_max dl_ancestor].
  rewrite !Z.geb_leb. change DEPS_BUF_SIZE with 128. rewrite orb_diag.
  destruct (Z.leb_spec 128 (Z.of_nat (length t))); [lia|].
  apply wp_bind, wp_append_parent; [done|lia|]. intros m t1 rest1 Hl1 Ht1 Hc.
  specialize (HQ m t1 rest1 Hl1 Ht1 Hc). unfold next_ancestor in HQ.
  destruct (Z.ltb_spec (Z.of_nat (length t1)) 0); [lia|].
  destruct (ts_real_parent (env_task a)) as [p|]; [|by apply wp_ret].
  rewrite (bool_decide_eq_false_2 (Some p = None)) by done. cbn [orb].
  case_decide as Hpa.
  - rewrite bool_decide_eq_true_2 by congruence. by apply wp_ret.
  - rewrite bool_decide_eq_false_2 by congruence. by apply wp_ret.
Qed.

Lemma wp_bpf_loop n t rest anc (Q : deps_loop_ctx -> kstate -> Prop) s :
  length (t ++ rest) = 128%nat -> (1 <= length t)%nat ->
  (forall m t' rest' anc', length (t' ++ rest') = 128%nat -> (1 <= length t')%nat ->
     (reads_ok -> t' = chain t (ancestors n anc)) ->
     Q (DepsLoopCtx (t' ++ rest') (Z.of_nat (length t')) 128 anc') (set_next m s)) ->
  wp (bpf_loop n (DepsLoopCtx (t ++ rest) (Z.of_nat (length t)) 128 anc)) Q s.
Proof.
  revert t rest anc s. induction n as [|n IH]; intros t rest anc s Hl Ht HQ; cbn [bpf_loop].
  { apply wp_ret. rewrite <- (set_next_eta s). by apply HQ. }
  apply wp_bind. destruct (decide (128 <= length t)%nat) as [Hfull|Hfull].
  { unfold build_deps_cb. cbn [dl_deps dl_deps_actual dl_deps_max]. rewrite !Z.geb_leb.
    destruct (Z.leb_spec 128 (Z.of_nat (length t))); [|lia]. apply wp_ret, wp_ret.
    rewrite <- (set_next_eta s). apply HQ; [done|done|]. intros _. symmetry. apply chain_full. lia. }
  destruct anc as [a|].
  - apply wp_deps_cb; [done|lia|]. intros m t1 rest1 Hl1 Ht1 Hc. rewrite ancestors_step in HQ.
    destruct (next_ancestor a) as [p|].
    + apply IH; [done|done|]. intros m' t' rest' anc' Hl' Ht' Hc'. rewrite set_next_set_next.
      apply HQ; [done|done|]. intros Hok. cbn. rewrite <- Hc by done. by apply Hc'.
    + apply wp_ret, HQ; [done|done|]. intros Hok. rewrite (Hc Hok). by destruct n.
  - unfold build_deps_cb. cbn [dl_deps dl_deps_actual dl_deps_max dl_ancestor]. rewrite !Z.geb_leb.
    change DEPS_BUF_SIZE with 128. destruct (Z.leb_spec 128 (Z.of_nat (length t))); [lia|]. cbn [orb].
    apply wp_bind, wp_ret, wp_ret, wp_ret. rewrite <- (set_next_eta s). by apply HQ.
Qed.

Lemma wp_unknown deps (Q : Z * bytes -> kstate -> Prop) s :
  length deps = 128%nat ->
  (forall m t rest, length (t ++ rest) = 128%nat -> length t = 8%nat ->
     (reads_ok -> t = lit "unknown:") -> Q (8, t ++ rest) (set_next m s)) ->
  wp (let* (_, deps) := bpf_probe_read_kernel_str deps 0 128 (lit "unknown:") in ret (8, deps)) Q s.
Proof.
  intros Hl HQ. apply wp_bind. apply (wp_probe_str [] deps); [done|lia|..].
  - intros n rc rest' _ Hno Hr. apply wp_ret. rewrite app_nil_l, <- (take_drop 8 rest').
    apply HQ; [rewrite take_drop; lia|rewrite length_take; lia|done].
  - intros n rest' x Hr _. apply wp_ret. rewrite app_nil_l. by apply HQ; [rewrite length_app; lia|..].
Qed.

(** The first part of the chain: the initial name, or [unknown:]. *)
Lemma wp_start_deps {A} deps name (k : Z -> bytes -> K A) Q s :
  length deps = 128%nat ->
  (forall m t rest, length (t ++ rest) = 128%nat -> (1 <= length t)%nat ->
     (reads_ok -> t = chain_start name) -> wp (k (Z.of_nat (length t)) (t ++ rest)) Q (set_next m s)) ->
  wp (let* (deps_actual, deps) :=
        match name with
        | None => ret (0, deps)
        | Some name =>
            let* (rc, deps) := bpf_probe_read_kernel_str deps 0 128 name in
            if rc >? 1 then
              let deps_actual := rc - 1 in
              if deps_actual <? 128 then
                let* deps := deref (buf_set deps deps_actual x3a) in
                ret (deps_actual + 1, deps)
              else ret (deps_actual, deps)
            else ret (0, deps)
        end in
      let* (deps_actual, deps) :=
        if deps_actual =? 0 then
          let* (_, deps) := bpf_probe_read_kernel_str deps 0 128 (lit "unknown:") in
          ret (8, deps)
        else ret (deps_actual, deps) in
      k deps_actual deps) Q s.
Proof.
  intros Hl HQ.
  assert (Hunk : forall (x : kstate) d n, x = set_next n s -> length d = 128%nat ->
    (reads_ok -> chain_start name = lit "unknown:") ->
    wp (let* (a, d) := (let* (_, deps) := bpf_probe_read_kernel_str d 0 128 (lit "unknown:") in ret (8, deps)) in
        k a d) Q x).
  { intros x d n -> Hd Hs. apply wp_bind, wp_unknown; [done|]. intros m t rest H1 H2 H3. rewrite set_next_set_next.
    change 8 with (Z.of_nat 8). rewrite <- H2. apply HQ; [done|lia|]. intros Hok. by rewrite Hs, H3. }
  apply wp_bind. destruct name as [name|].
  2:{ apply wp_ret. apply (Hunk s deps (k_next s)); [by rewrite set_next_eta|done|done]. }
  apply wp_bind. apply (wp_probe_str [] deps); [done|lia|..].
  - intros n rc rest' Hrc Hno Hr. rewrite Z.gtb_ltb. destruct (Z.ltb_spec 1 rc); [lia|]. apply wp_ret.
    apply (Hunk _ _ n); [done|cbn; lia|done].
  - intros n rest' x Hr Hz. change (Z.to_nat (128 - 1)) with 127%nat in x. cbn [app]. rewrite Z.gtb_ltb.
    destruct (Z.ltb_spec 1 (Z.of_nat (length x) + 1)) as [Hx|Hx].
    + replace (Z.of_nat (length x) + 1 - 1) with (Z.of_nat (length x)) by lia.
      assert (Hne : rest' <> []) by (by intros ->).
      assert ((0 < length rest')%nat) by (destruct rest'; cbn; [done|lia]).
      destruct (Z.ltb_spec (Z.of_nat (length x)) 128); [|lia].
      apply wp_bind, wp_put_char; [done|done|]. apply wp_ret. destruct (Z.eqb_spec (Z.of_nat (length x) + 1) 0); [lia|].
      apply wp_bind, wp_ret.
      replace (Z.of_nat (length x) + 1) with (Z.of_nat (length (x ++ [x3a]))) by (rewrite length_app; cbn; lia).
      apply HQ; [rewrite !length_app, length_drop; cbn; lia|rewrite length_app; cbn; lia|]. intros _.
      unfold chain_start. case_decide as Hd; [|done]. unfold x in Hx. rewrite Hd in Hx. cbn in Hx. lia.
    + apply wp_ret. apply (Hunk _ _ n); [done|rewrite length_app; lia|]. intros _.
      unfold chain_start. case_decide as Hd; [done|]. unfold x in Hx. destruct (cstr name); [done|cbn in Hx; lia].
Qed.

(** The text that a dependency string holds. *)
Definition dependency_text (name : option bytes) (task : option nat) (max_depth : Z) : bytes :=
  let t := chain (chain_start name) (ancestors (Z.to_nat (Z.min max_depth 32))
    (match task with Some t => ts_real_parent (env_task t) | None => None end)) in
  take (length t - 1) t.

Lemma chain_start_nul_free name : nul_free (chain_start name).
Proof.
  assert (Hu : nul_free (lit "unknown:")) by (by vm_compute; set_solver).
  destruct name as [name|]; [|done]. cbn. case_decide; [done|]. rewrite nul_free_app. split; auto.
  by intros ?%list_elem_of_singleton.
Qed.

Lemma wp_build_dependencies deps name task max_depth s :
  length deps = 128%nat ->
  wp (build_dependencies deps 128 name task max_depth) (fun r s' =>
    (exists m, s' = set_next m s) /\ length (snd r) = 128%nat /\ 0 <= fst r < 128 /\
    snd r !! Z.to_nat (fst r) = Some NUL /\
    (reads_ok -> cstr (snd r) = dependency_text name task max_depth /\
       fst r = Z.of_nat (length (dependency_text name task max_depth)))) s.
Proof.
  intros Hl. unfold build_dependencies. apply wp_start_deps; [done|]. intros m t rest Hlt Ht Hc.
  apply wp_bind, wp_bpf_loop; [done|done|]. intros m' t' rest' anc' Hl' Ht' Hc'.
  cbn [dl_deps dl_deps_actual]. rewrite set_next_set_next. pose proof Hl' as Hl2. rewrite length_app in Hl2.
  rewrite Z.gtb_ltb. destruct (Z.ltb_spec 0 (Z.of_nat (length t'))); [|lia].
  destruct (Z.leb_spec (Z.of_nat (length t')) 128); [|lia]. cbn [andb].
  set (t0 := take (length t' - 1) t').
  assert (Hlt0 : length t0 = (length t' - 1)%nat) by (unfold t0; rewrite length_take; lia).
  assert (Hsplit : t' ++ rest' = t0 ++ (drop (length t' - 1) t' ++ rest')) by (unfold t0; by rewrite app_assoc, take_drop).
  assert (Hne : drop (length t' - 1) t' ++ rest' <> []).
  { intros E. apply (f_equal length) in E. rewrite length_app, length_drop in E. cbn in E. lia. }
  rewrite Hsplit. apply wp_bind, wp_put_char; [lia|done|]. apply wp_ret. cbn [fst snd].
  split; [by eexists|]. split.
  { apply (f_equal length) in Hsplit. rewrite Hl', !length_app, length_drop in Hsplit.
    rewrite !length_app, !length_drop, length_app, length_drop. cbn [length]. lia. }
  split; [lia|]. split.
  { rewrite <- app_assoc, lookup_app_r by lia. replace (Z.to_nat _ - _)%nat with 0%nat by lia. done. }
  intros Hok. rewrite (Hc Hok) in Hc'. specialize (Hc' Hok).
  assert (Hdepth : (if max_depth >? 32 then 32 else max_depth) = Z.min max_depth 32).
  { rewrite Z.gtb_ltb. destruct (Z.ltb_spec 32 max_depth); lia. }
  rewrite Hdepth in Hc'. assert (Htext : t0 = dependency_text name task max_depth).
  { unfold t0, dependency_text. by rewrite Hc'. }
  split; [|rewrite <- Htext; lia]. rewrite <- Htext. apply cstr_terminated. unfold t0.
  apply nul_free_take. rewrite Hc'. apply chain_nul_free, chain_start_nul_free.
Qed.

(** C38: The dependency string. For the 128-byte buffer that every program
    passes, [build_dependencies] stays inside the buffer whatever the reads
    answer, and returns the length of a terminated string that fits. When the
    reads succeed the string is the initial name (or [unknown]) followed by
    the names of the ancestors, separated by colons, nearest first: at most
    [max_depth] and never more than 32 of them, each cut to 15 characters, and
    none once fewer than 17 bytes are left. *)
Theorem build_dependencies_text deps name task max_depth s :
  length deps = 128%nat ->
  wp (build_dependencies deps 128 name task max_depth) (fun r s' =>
    (exists m, s' = set_next m s) /\ length (snd r) = 128%nat /\ 0 <= fst r < 128 /\
    snd r !! Z.to_nat (fst r) = Some NUL /\
    (reads_ok -> cstr (snd r) = dependency_text name task max_depth /\
       fst r = Z.of_nat (length (dependency_text name task max_depth)))) s.
Proof. exact (wp_build_dependencies deps name task max_depth s). Qed.
End Deps.

(** ** Inode attributes *)

(** The parts of the text, in the order of the code. *)
Definition attr_part (valid flag : Z) (part : bytes) : list bytes := if has_flag valid flag then [part] else [].

Definition attr_parts (a : iattr) : list bytes :=
  attr_part (ia_valid a) ATTR_MODE (format_u64 (FmtU64 "mode=" ",") (to_u64 (ia_mode a))) ++
  attr_part (ia_valid a) ATTR_UID (format_u64 (FmtU64 "uid=" ",") (to_u64 (ia_uid a))) ++
  attr_part (ia_valid a) ATTR_GID (format_u64 (FmtU64 "gid=" ",") (to_u64 (ia_gid a))) ++
  attr_part (ia_valid a) ATTR_SIZE (format_u64 (FmtU64 "size=" ",") (to_u64 (ia_size a))) ++
  attr_part (ia_valid a) ATTR_KILL_PRIV (lit "kill_priv=1,") ++
  attr_part (ia_valid a) ATTR_KILL_SUID (lit "kill_suid=1,") ++
  attr_part (ia_valid a) ATTR_KILL_SGID (lit "kill_sgid=1,").

(** With commas between the parts and none at the end. *)
Definition attributes_text (a : iattr) : bytes :=
  let t := concat (attr_parts a) in take (length t - 1) t.

Section Attrs.
Context {B : BpfEnv}.

Definition prints_ok : Prop := forall n, 0 <= env_snprintf n.

Lemma wp_copy_formatted k i n f t rest offset buf_max (Q : bool * bytes -> kstate -> Prop) s :
  offset = Z.of_nat (length t) -> (i <= n <= i + k)%nat -> (n <= length f)%nat ->
  Z.of_nat (length t + n) <= buf_max <= Z.of_nat (length ((t ++ take i f) ++ rest)) ->
  (forall rest', length ((t ++ take n f) ++ rest') = length ((t ++ take i f) ++ rest) ->
     Q (false, (t ++ take n f) ++ rest') s) ->
  wp (copy_formatted k (Z.of_nat i) (Z.of_nat n) f ((t ++ take i f) ++ rest) offset buf_max) Q s.
Proof.
  intros ->. revert i rest. induction k as [|k IH]; intros i rest Hi Hn Hmax HQ; cbn [copy_formatted].
  { assert (i = n) as -> by lia. by apply wp_ret, HQ. }
  rewrite Z.geb_leb. destruct (Z.leb_spec (Z.of_nat n) (Z.of_nat i)).
  { assert (i = n) as -> by lia. by apply wp_ret, HQ. }
  destruct (Z.ltb_spec (Z.of_nat (length t) + Z.of_nat i) 0); [lia|]. rewrite Z.geb_leb.
  destruct (Z.leb_spec buf_max (Z.of_nat (length t) + Z.of_nat i)); [lia|]. cbn [orb].
  destruct (lookup_lt_is_Some_2 f i ltac:(lia)) as [ch Hch]. apply wp_bind, wp_deref. exists ch.
  split; [by rewrite Nat2Z.id|].
  assert (Hlt : length (t ++ take i f) = (length t + i)%nat) by (rewrite length_app, length_take; lia).
  assert (Hr : rest <> []) by (intros ->; rewrite app_nil_r in Hmax; lia).
  apply wp_bind, wp_put_char; [lia|done|]. rewrite <- (app_assoc t), <- (take_S_r _ _ ch) by done.
  replace (Z.of_nat i + 1) with (Z.of_nat (S i)) by lia.
  assert (Hsame : length ((t ++ take (S i) f) ++ drop 1 rest) = length ((t ++ take i f) ++ rest)).
  { destruct rest; [done|]. rewrite !length_app, !length_take. cbn [drop length]. rewrite drop_0. lia. }
  apply IH; [lia|done|by rewrite Hsame|]. intros rest' H'. apply HQ. congruence.
Qed.

(** One attribute on a buffer with the text [t]. *)
Lemma wp_append_attr t rest buf_max fmt val (Q : bytes * Z -> kstate -> Prop) s :
  (length (format_u64 fmt val) < 64)%nat -> Z.of_nat (length t) < buf_max <= Z.of_nat (length (t ++ rest)) ->
  (forall m rest', Z.of_nat (length (t ++ format_u64 fmt val)) < buf_max ->
     length ((t ++ format_u64 fmt val) ++ rest') = length (t ++ rest) ->
     Q ((t ++ format_u64 fmt val) ++ rest', Z.of_nat (length (t ++ format_u64 fmt val))) (set_next m s)) ->
  (forall m, (prints_ok -> buf_max <= Z.of_nat (length (t ++ format_u64 fmt val))) ->
     Q (t ++ rest, - 1) (set_next m s)) ->
  wp (append_attr (t ++ rest) buf_max (Z.of_nat (length t)) fmt val) Q s.
Proof.
  intros Hx Hmax Hfit Hfull. set (x := format_u64 fmt val) in *. unfold append_attr.
  destruct (Z.ltb_spec (Z.of_nat (length t)) 0); [lia|]. rewrite Z.geb_leb.
  destruct (Z.leb_spec buf_max (Z.of_nat (length t))); [lia|]. cbn [orb].
  apply wp_bind. unfold bpf_snprintf. apply wp_bind, wp_call. cbn [negb in_area]. fold x.
  change (negb (in_area (zeros 64) 0 64)) with false. cbv iota.
  destruct (Z.ltb_spec (env_snprintf (k_next s)) 0) as [Hn|Hn]; apply wp_ret.
  { destruct (Z.leb_spec (env_snprintf (k_next s)) 0); [|lia]. apply wp_ret, Hfull.
    intros H'. specialize (H' (k_next s)). lia. }
  destruct (Z.leb_spec (Z.of_nat (length x) + 1) 0); [lia|]. rewrite !Z.gtb_ltb.
  destruct (Z.ltb_spec 64 (Z.of_nat (length x) + 1)); [lia|]. cbn [orb].
  destruct (Z.ltb_spec (buf_max - Z.of_nat (length t)) (Z.of_nat (length x) + 1)).
  { apply wp_ret, Hfull. intros _. rewrite length_app. lia. }
  rewrite take_ge by lia. set (f := blit (zeros 64) 0 (x ++ [NUL])).
  assert (Hf : take (S (length x)) f = x ++ [NUL]).
  { unfold f, blit. rewrite take_0, app_nil_l. rewrite take_app_le by (rewrite length_app; cbn; lia).
    apply take_ge. rewrite length_app. cbn. lia. }
  assert (Hfl : length f = 64%nat) by (apply length_blit; rewrite length_app; cbn; lia).
  apply wp_bind. pose proof (wp_copy_formatted 64 0 (S (length x)) f t rest (Z.of_nat (length t)) buf_max) as Hw.
  cbn [take] in Hw. rewrite app_nil_r, Hf in Hw. replace (Z.of_nat (length x) + 1) with (Z.of_nat (S (length x))) by lia.
  apply Hw; [done|lia|lia|lia|]. intros rest' Hl. apply wp_ret.
  replace (Z.of_nat (length t) + Z.of_nat (S (length x)) - 1) with (Z.of_nat (length (t ++ x))) by (rewrite length_app; lia).
  assert (Hsh : (t ++ x ++ [NUL]) ++ rest' = (t ++ x) ++ NUL :: rest') by (by rewrite (app_assoc t x), <- (app_assoc (t ++ x))).
  rewrite Hsh in *. apply Hfit; [rewrite length_app; lia|done].
Qed.

(** The buffer after some attributes; [off] is [-1] after an error. *)
Definition attrs_state (t : bytes) (buf0 buf : bytes) (buf_max off : Z) : Prop :=
  length buf = length buf0 /\
  ((off = - 1 /\ (prints_ok -> buf_max <= Z.of_nat (length t))) \/
   (off = Z.of_nat (length t) /\ off < buf_max /\ exists rest, buf = t ++ rest)).

Lemma wp_append_if valid flag part t buf0 buf buf_max off fmt val (Q : bytes * Z -> kstate -> Prop) s :
  buf_max <= Z.of_nat (length buf0) -> part = format_u64 fmt val -> (length part < 64)%nat ->
  attrs_state t buf0 buf buf_max off ->
  (forall m buf' off', attrs_state (t ++ concat (attr_part valid flag part)) buf0 buf' buf_max off' ->
     Q (buf', off') (set_next m s)) ->
  wp (append_if (has_flag valid flag) buf buf_max off fmt val) Q s.
Proof.
  intros Hmax -> Hp (Hl & Hst) HQ. unfold append_if, attr_part in *.
  destruct (has_flag valid flag); cbn [concat] in HQ; rewrite app_nil_r in HQ.
  2:{ apply wp_ret. rewrite <- (set_next_eta s). apply HQ. split; [done|]. exact Hst. }
  destruct Hst as [[-> Hfull]|(-> & Hoff & rest & ->)].
  - apply wp_ret. rewrite <- (set_next_eta s). apply HQ. split; [done|]. left. split; [done|].
    intros Hok. specialize (Hfull Hok). rewrite length_app. lia.
  - apply wp_append_attr; [done|lia|..].
    + intros m rest' Hf Hlr. apply HQ. split; [congruence|]. right. split_and!; [done|done|]. by eexists.
    + intros m Hf. apply HQ. split; [done|]. by left.
Qed.

(** Every part is a text without NUL that ends with a comma. *)
Definition part_ok (p : bytes) : Prop := nul_free p /\ exists q, p = q ++ [x2c].

Lemma part_ok_u64 name val : nul_free (lit name) -> part_ok (format_u64 (FmtU64 name ",") val).
Proof.
  intros Hn. split; [|exists (lit name ++ decimal val); cbn; by rewrite app_assoc].
  cbn [format_u64]. rewrite !nul_free_app. split; [done|]. split; [done|]. by intros ?%list_elem_of_singleton.
Qed.

Lemma attr_parts_ok a : Forall part_ok (attr_parts a).
Proof.
  assert (Hpart : forall v f p, part_ok p -> Forall part_ok (attr_part v f p)).
  { intros v f p Hp. unfold attr_part. destruct (has_flag v f); [by apply Forall_singleton|by apply Forall_nil]. }
  assert (Hlit : forall l q, q ++ [x2c] = l -> bool_decide (NUL ∈ l) = false -> part_ok l).
  { intros l q <- Hb. split; [by apply bool_decide_eq_false in Hb|by exists q]. }
  assert (Hname : forall l, bool_decide (NUL ∈ l) = false -> nul_free l) by (intros l Hb; by apply bool_decide_eq_false in Hb).
  unfold attr_parts. rewrite !Forall_app. split_and!; apply Hpart.
  - by apply part_ok_u64, Hname.
  - by apply part_ok_u64, Hname.
  - by apply part_ok_u64, Hname.
  - by apply part_ok_u64, Hname.
  - by apply (Hlit _ (lit "kill_priv=1")).
  - by apply (Hlit _ (lit "kill_suid=1")).
  - by apply (Hlit _ (lit "kill_sgid=1")).
Qed.

Lemma concat_parts ps : Forall part_ok ps -> nul_free (concat ps) /\ (concat ps = [] \/ exists q, concat ps = q ++ [x2c]).
Proof.
  induction 1 as [|p ps [Hn [q ->]] _ (Hn' & IH)]; [split; [by intros ?%not_elem_of_nil|by left]|].
  cbn. split; [by rewrite nul_free_app|]. right. destruct IH as [->|[r ->]].
  - exists q. by rewrite app_nil_r.
  - exists ((q ++ [x2c]) ++ r). by rewrite app_assoc.
Qed.

Lemma format_u64_short name val : (length (lit name) < 40)%nat -> (length (format_u64 (FmtU64 name ",") val) < 64)%nat.
Proof.
  intros Hn. cbn [format_u64]. rewrite !length_app. pose proof (decimal_fuel_length 20 val). unfold decimal.
  change (length (lit ",")) with 1%nat. lia.
Qed.

(** Dropping the last comma and terminating the text. *)
Lemma wp_close_text t rest (Q : Z * bytes -> kstate -> Prop) s :
  (t = [] \/ exists q, t = q ++ [x2c]) -> rest <> [] ->
  (forall rest', let x := take (length t - 1) t in
     length ((x ++ [NUL]) ++ rest') = length (t ++ rest) -> Q (Z.of_nat (length x), (x ++ [NUL]) ++ rest') s) ->
  wp (let* off :=
        if Z.of_nat (length t) >? 0 then
          let* last := deref ((t ++ rest) !! Z.to_nat (Z.of_nat (length t) - 1)) in
          ret (if Byte.eqb last x2c then Z.of_nat (length t) - 1 else Z.of_nat (length t))
        else ret (Z.of_nat (length t)) in
      let* attrs := deref (buf_set (t ++ rest) off NUL) in
      ret (off, attrs)) Q s.
Proof.
  intros Hcomma Hne HQ.
  assert (Hdrop : forall r : bytes, r <> [] -> S (length (drop 1 r)) = length r).
  { intros [|b r] Hr; [done|]. cbn. by rewrite drop_0. }
  destruct Hcomma as [->|[q Hq]].
  - cbn [length Z.of_nat Z.gtb Z.compare]. apply wp_bind, wp_ret, wp_bind.
    apply wp_put_char; [done|done|]. apply wp_ret. apply (HQ (drop 1 rest)). cbn. by apply Hdrop.
  - assert (Hlen : length t = S (length q)) by (rewrite Hq, length_app; cbn; lia).
    assert (Htake : take (length t - 1) t = q).
    { rewrite Hlen, Hq. cbn [Nat.sub]. rewrite Nat.sub_0_r. apply take_app_length. }
    rewrite Z.gtb_ltb. destruct (Z.ltb_spec 0 (Z.of_nat (length t))); [|lia].
    apply wp_bind, wp_bind, wp_deref. exists x2c. split.
    { replace (Z.to_nat (Z.of_nat (length t) - 1)) with (length q) by lia.
      rewrite Hq, <- app_assoc. by apply list_lookup_middle. }
    apply wp_ret. change (Byte.eqb x2c x2c) with true. cbv iota.
    replace (Z.of_nat (length t) - 1) with (Z.of_nat (length q)) by lia.
    cbv zeta in HQ. rewrite Htake in HQ. rewrite Hq in HQ |- *. rewrite <- (app_assoc q [x2c]) in HQ |- *. apply wp_bind, wp_put_char; [done|done|].
    apply wp_ret, HQ. cbn [app drop]. rewrite drop_0, !length_app. cbn. lia.
Qed.

Lemma wp_build_attributes attrs attrs_max a s :
  0 < attrs_max <= Z.of_nat (length attrs) ->
  wp (build_attributes (Some attrs) attrs_max (Some a)) (fun r s' =>
    (exists m, s' = set_next m s) /\ length (snd r) = length attrs /\
    let size := Z.of_nat (length (concat (attr_parts a))) in
    ((fst r = - 1 /\ (prints_ok -> attrs_max <= size)) \/
     (size < attrs_max /\ fst r = Z.of_nat (length (attributes_text a)) /\ cstr (snd r) = attributes_text a))) s.
Proof.
  intros Hmax. unfold build_attributes. destruct (Z.leb_spec attrs_max 0); [lia|].
  assert (H0 : attrs_state [] attrs attrs attrs_max 0) by (split; [done|]; right; split_and!; [done|lia|by exists attrs]).
  do 4 (apply wp_bind; eapply (wp_append_if _ _ _ _ attrs); [lia|reflexivity|by apply format_u64_short, Nat.ltb_lt|eassumption|];
    clear dependent H0; intros ? ? ? H0; rewrite ?set_next_set_next).
  do 3 (apply wp_bind; eapply (wp_append_if _ _ _ _ attrs); [lia|reflexivity|by apply Nat.ltb_lt|eassumption|];
    clear dependent H0; intros ? ? ? H0; rewrite ?set_next_set_next).
  assert (Ht : attrs_state (concat (attr_parts a)) attrs buf'5 attrs_max off'5).
  { unfold attr_parts. rewrite !concat_app. cbn [app] in H0. rewrite <- !app_assoc in H0. exact H0. }
  clear H0. set (t := concat (attr_parts a)) in *. destruct (concat_parts _ (attr_parts_ok a)) as [Hnf Hcomma].
  fold t in Hnf, Hcomma. destruct Ht as (Hl & [[-> Hfull]|(-> & Hfit & rest & ->)]).
  { apply wp_ret. split; [by eexists|]. split; [done|]. by left. }
  destruct (Z.ltb_spec (Z.of_nat (length t)) 0); [lia|]. rewrite Z.geb_leb.
  destruct (Z.leb_spec attrs_max (Z.of_nat (length t))); [lia|]. cbn [orb].
  apply wp_close_text; [done|intros ->; rewrite app_nil_r in Hl; lia|].
  intros rest' Hl'. cbn [fst snd]. split; [by eexists|]. split; [congruence|]. right.
  split_and!; [done|done|]. apply cstr_terminated, nul_free_take, Hnf.
Qed.

(** C39: The attribute string. [build_attributes] stays inside its buffer
    whatever the formatting helper answers. When it succeeds the string is the
    list of the changed attributes in a fixed order, separated by commas, and
    the result its length; it reports an error exactly when that list with its
    final comma does not fit the buffer or the helper failed. *)
Theorem build_attributes_text attrs attrs_max a s :
  0 < attrs_max <= Z.of_nat (length attrs) ->
  wp (build_attributes (Some attrs) attrs_max (Some a)) (fun r s' =>
    (exists m, s' = set_next m s) /\ length (snd r) = length attrs /\
    let size := Z.of_nat (length (concat (attr_parts a))) in
    ((fst r = - 1 /\ (prints_ok -> attrs_max <= size)) \/
     (size < attrs_max /\ fst r = Z.of_nat (length (attributes_text a)) /\ cstr (snd r) = attributes_text a))) s.
Proof. exact (wp_build_attributes attrs attrs_max a s). Qed.
End Attrs.

(** ** Witnesses *)

(** A task with one ancestor, whose helpers all succeed. *)
Definition sample_bpf : BpfEnv := {|
  env_task := fun t => if decide (t = 1%nat) then TaskStruct (lit "bash" ++ [NUL]) (Some 2%nat)
    else TaskStruct (lit "systemd" ++ [NUL]) (Some 2%nat);
  env_current_task := fun _ => Some 1%nat;
  env_storage := fun _ => true;
  env_probe_str := fun _ => 0;
  env_probe := fun _ => 0;
  env_probe_junk := fun _ => [];
  env_snprintf := fun _ => 0;
  env_cgroup_name := fun _ => Some (lit "web" ++ [NUL]);
  env_d_path := fun _ => inr (lit "/usr/bin/app" ++ [NUL]);
  env_ima_file_hash := fun _ => (4, replicate 32 x5b);
  env_exe_file := fun _ => true;
|}.

Lemma build_dependencies_text_witness :
  dependency_text (B := sample_bpf) (Some (lit "app")) (Some 1%nat) 32 = lit "app:systemd" /\
  wp (build_dependencies (B := sample_bpf) (zeros 128) 128 (Some (lit "app")) (Some 1%nat) 32)
    (fun r _ => cstr (snd r) = lit "app:systemd") sample_state.
Proof.
  split; [by vm_compute|].
  eapply wp_mono; [exact (build_dependencies_text (B := sample_bpf) (zeros 128) (Some (lit "app")) (Some 1%nat) 32
    sample_state eq_refl)|].
  intros r s' (_ & _ & _ & _ & H). destruct H as [-> _]; [intros n; cbn; lia|]. by vm_compute.
Defined.

Definition sample_attr : iattr := IAttr (Z.lor ATTR_MODE ATTR_UID) 33188 1000 0 0.

Lemma build_attributes_text_witness :
  0 < 64 <= Z.of_nat (length (zeros 64)) /\
  wp (build_attributes (B := sample_bpf) (Some (zeros 64)) 64 (Some sample_attr))
    (fun r _ => cstr (snd r) = lit "mode=33188,uid=1000" /\ fst r = 19) sample_state.
Proof.
  assert (H : 0 < 64 <= Z.of_nat (length (zeros 64))) by (split; [lia|by vm_compute]). split; [exact H|].
  eapply wp_mono; [exact (build_attributes_text (B := sample_bpf) (zeros 64) 64 sample_attr sample_state H)|].
  intros r s' (_ & _ & [[_ Hp]|(_ & -> & ->)]).
  - exfalso. assert (Hok : prints_ok (B := sample_bpf)) by (intros n; cbn; lia). specialize (Hp Hok).
    revert Hp. by vm_compute.
  - by vm_compute.
Defined.
