(* ===== verification/HookUtils.v ===== *)
(** * The shared part of the BPF programs

    [src/hooks/hook_utils.h]: the policy decision for a hook and the
    submission of a measurement. A program works in the scratch structure of
    its task, which persists between programs; a function takes it and returns
    it. Printing and the clock have no effect on the state. *)

From S2P Require Import Prelude CString Types Kernel Pattern Snapshot KfuncBuffer HashUtils Tpm PolicyMap Merkle PolicyNamespace PolicyManager Container Kfuncs BpfUtils.

Record scratch_t := Scratch {
  sc_buf : bytes;
  sc_digest_hex : bytes;
  sc_measurement : bpfima_measurement_request;
  sc_policy_context : bpfima_policy_context;
  sc_policy_result : bpfima_policy_result;
}.

Definition with_buf (b : bytes) (sc : scratch_t) : scratch_t :=
  Scratch b (sc_digest_hex sc) (sc_measurement sc) (sc_policy_context sc) (sc_policy_result sc).
Definition with_digest_hex (b : bytes) (sc : scratch_t) : scratch_t :=
  Scratch (sc_buf sc) b (sc_measurement sc) (sc_policy_context sc) (sc_policy_result sc).
Definition with_request (r : bpfima_measurement_request) (sc : scratch_t) : scratch_t :=
  Scratch (sc_buf sc) (sc_digest_hex sc) r (sc_policy_context sc) (sc_policy_result sc).
Definition with_context (c : bpfima_policy_context) (sc : scratch_t) : scratch_t :=
  Scratch (sc_buf sc) (sc_digest_hex sc) (sc_measurement sc) c (sc_policy_result sc).
Definition with_result (r : bpfima_policy_result) (sc : scratch_t) : scratch_t :=
  Scratch (sc_buf sc) (sc_digest_hex sc) (sc_measurement sc) (sc_policy_context sc) r.

Section HookUtils.
Context {E : KernelEnv} {B : BpfEnv}.

(** ** Task storage *)

Definition bpf_get_current_task_btf : K (option nat) := let* n := call in ret (env_current_task n).
Definition bpf_task_storage_get : K bool := let* n := call in ret (env_storage n).

Definition bpfima_scratch : K bool :=
  let* task := bpf_get_current_task_btf in
  match task with Some _ => bpf_task_storage_get | None => ret false end.

(** ** The policy decision *)

Definition bpfima_policy_for_hook (hook : Z) (path : option bytes) (size flags : Z) (sc : scratch_t)
    : K (Z * scratch_t) :=
  let* scratch := bpfima_scratch in
  if negb scratch then ret (- 12, sc) else
  let* task := bpf_get_current_task_btf in
  let* cgroup := fetch_cgroup_name task (zeros BPFIMA_NAMESPACE_SIZE) 128 in
  let namespace_id :=
    if negb (Byte.eqb (char_at cgroup 0) NUL) && negb (Byte.eqb (char_at cgroup 0) x2f)
    then cgroup else blit (zeros BPFIMA_NAMESPACE_SIZE) 0 (lit "default" ++ [NUL]) in
  let* (bad, p) :=
    match path with
    | None => ret (false, zeros BPFIMA_PATH_SIZE)
    | Some path =>
        let* (rc, p) := bpf_probe_read_kernel_str (zeros BPFIMA_PATH_SIZE) 0 256 path in
        ret ((rc <=? 0) || (rc >=? 256), p)
    end in
  if bad : bool then ret (- 36, with_context (PolicyContext namespace_id cgroup p 0 0 0) sc) else
  let context := PolicyContext namespace_id cgroup p size hook flags in
  let sc := with_context context sc in
  let* r := bpfima_policy_resolve (Some context) SIZEOF_POLICY_CONTEXT (Some []) SIZEOF_POLICY_RESULT in
  match r with
  | inl rc => ret (rc, sc)
  | inr result => ret (if rs_skip result then 1 else 0, with_result result sc)
  end.

Definition bpfima_get_policy (sc : scratch_t) : K (option bpfima_policy_config) :=
  let* scratch := bpfima_scratch in
  ret (if scratch then Some (rs_config (sc_policy_result sc)) else None).

Definition bpfima_logging_enabled (level : Z) (sc : scratch_t) : K bool :=
  let* policy := bpfima_get_policy sc in
  ret (match policy with
       | Some p => has_flag (cfg_action_flags p) POLICY_ACTION_LOG_KERNEL && (cfg_log_level p >=? level)
       | None => false
       end).

Definition bpfima_current_namespace (sc : scratch_t) : K (option bytes) :=
  let* scratch := bpfima_scratch in
  if negb scratch then ret None else
  ret (Some (if has_flag (hk_flags (rs_hook (sc_policy_result sc))) HOOK_FLAG_TRACK_CONTAINERS ||
                has_flag (cfg_action_flags (rs_config (sc_policy_result sc))) POLICY_ACTION_TRACK_CONTAINER
             then cx_namespace_id (sc_policy_context sc) else lit "default" ++ [NUL])).

(** ** Submission *)

Record measurement_ctx := MeasurementCtx {
  mc_event_name : option bytes;
  mc_namespace_id : option bytes;
  mc_dependencies : option bytes;
  mc_additional_data : option bytes;
  mc_additional_data_len : Z;
}.

(** Read an optional string into a zeroed array: whether it failed or does not
    fit, and the array. *)
Definition read_field (size least : Z) (src : option bytes) : K (bool * bytes) :=
  match src with
  | None => ret (false, zeros (Z.to_nat size))
  | Some src =>
      let* (rc, field) := bpf_probe_read_kernel_str (zeros (Z.to_nat size)) 0 size src in
      ret ((rc <=? least) || (rc >=? size), field)
  end.

(** Read the data into the zeroed array. *)
Definition read_data (len : Z) (src : option bytes) : K (bool * bytes) :=
  match src with
  | Some src =>
      if truth len then
        let* (rc, data) := bpf_probe_read_kernel (zeros BPFIMA_EVENT_DATA_SIZE) 0 len src in
        ret (truth rc, data)
      else ret (false, zeros BPFIMA_EVENT_DATA_SIZE)
  | None => ret (false, zeros BPFIMA_EVENT_DATA_SIZE)
  end.

Definition bpfima_submit_measurement (ctx : option measurement_ctx) (sc : scratch_t) : K (Z * scratch_t) :=
  match ctx with
  | None => ret (- 1, sc)
  | Some ctx =>
      let data_len := mc_additional_data_len ctx in
      if bool_decide (mc_event_name ctx = None) || (data_len <? 0) || (data_len >=? 256) ||
        (bool_decide (mc_additional_data ctx = None) && truth data_len)
      then ret (- 1, sc) else
      let* scratch := bpfima_scratch in
      if negb scratch then ret (- 1, sc) else
      let no_ns := zeros BPFIMA_NAMESPACE_SIZE in
      let no_deps := zeros BPFIMA_DEPENDENCIES_SIZE in
      let no_data := zeros BPFIMA_EVENT_DATA_SIZE in
      let* (bad, event_name) := read_field 256 1 (mc_event_name ctx) in
      if bad : bool then ret (- 1, with_request (MeasurementRequest event_name no_ns no_deps no_data 0 0) sc) else
      let* (bad, namespace_id) := read_field 128 0 (mc_namespace_id ctx) in
      if bad : bool
      then ret (- 1, with_request (MeasurementRequest event_name namespace_id no_deps no_data 0 0) sc) else
      let* (bad, dependencies) := read_field 256 0 (mc_dependencies ctx) in
      if bad : bool
      then ret (- 1, with_request (MeasurementRequest event_name namespace_id dependencies no_data 0 0) sc) else
      let flags := if bool_decide (mc_dependencies ctx = None) then 0 else BPFIMA_MEASUREMENT_HAS_DEPENDENCIES in
      let* (bad, data) := read_data data_len (mc_additional_data ctx) in
      if bad : bool
      then ret (- 1, with_request (MeasurementRequest event_name namespace_id dependencies data 0 flags) sc) else
      let request := MeasurementRequest event_name namespace_id dependencies data data_len flags in
      let* rc := bpfima_measurement_extend (Some request) SIZEOF_MEASUREMENT_REQUEST in
      ret (rc, with_request request sc)
  end.

(** ** Files *)

Record file_measure_ctx := FileMeasureCtx {
  fm_digest : option bytes;
  fm_event_name : option bytes;
  fm_cgroup_name : option bytes;
  fm_fname : option bytes;
  fm_cur : option nat;
  fm_policy : option bpfima_policy_config;
}.

(** Whether the dependency chain is wanted, and how deep. *)
Definition wants_deps (policy : option bpfima_policy_config) : bool :=
  match policy with Some p => has_flag (cfg_action_flags p) POLICY_ACTION_BUILD_DEPS | None => true end.
Definition deps_depth (policy : option bpfima_policy_config) : Z :=
  match policy with Some p => cfg_max_path_depth p | None => 32 end.

Definition measure_accessed_file (ctx : option file_measure_ctx) (sc : scratch_t) : K (Z * scratch_t) :=
  match ctx with
  | None => ret (- 1, sc)
  | Some ctx =>
      match fm_digest ctx, fm_event_name ctx with
      | Some digest, Some event_name =>
          let* scratch := bpfima_scratch in
          if negb scratch then ret (- 1, sc) else
          let* deps := deref (buf_set (sc_buf sc) 0 NUL) in
          let* (deps_actual, deps) :=
            if bool_decide (is_Some (fm_fname ctx)) && bool_decide (is_Some (fm_cur ctx)) && wants_deps (fm_policy ctx)
            then
              let* (deps_actual, deps) :=
                build_dependencies deps 128 (fm_fname ctx) (fm_cur ctx) (deps_depth (fm_policy ctx)) in
              let* _ := (if deps_actual <? 0 then ret false else bpfima_logging_enabled 2 sc) in
              ret (deps_actual, deps)
            else ret (0, deps) in
          let sc := with_buf deps sc in
          if deps_actual <? 0 then ret (- 1, sc) else
          let* (written, digest_hex) := bytes_to_hex_str digest 32 (sc_digest_hex sc) 68 in
          let sc := with_digest_hex digest_hex sc in
          if written <? 0 then ret (- 1, sc) else
          let* (rc, sc) := bpfima_submit_measurement (Some (MeasurementCtx (Some event_name)
            (fm_cgroup_name ctx) (Some deps) (Some digest_hex) 64)) sc in
          if truth rc then ret (rc, sc) else
          let* _ := bpfima_logging_enabled 2 sc in
          ret (0, sc)
      | _, _ => ret (- 1, sc)
      end
  end.

(** ** Sockets *)

Record socket_measure_ctx := SocketMeasureCtx {
  sm_event_name : option bytes;
  sm_cgroup_name : option bytes;
  sm_deps : option bytes;
  sm_deps_actual : Z;
  sm_additional_data : option bytes;
  sm_additional_data_len : Z;
}.

Definition measure_socket_data (ctx : option socket_measure_ctx) (sc : scratch_t) : K (Z * scratch_t) :=
  match ctx with
  | None => ret (- 1, sc)
  | Some ctx =>
      if bool_decide (sm_event_name ctx = None) then ret (- 1, sc) else
      if (sm_additional_data_len ctx <? 0) || (sm_additional_data_len ctx >=? 256) then ret (- 1, sc) else
      if sm_deps_actual ctx <? 0 then ret (- 1, sc) else
      let* (rc, sc) := bpfima_submit_measurement (Some (MeasurementCtx (sm_event_name ctx)
        (sm_cgroup_name ctx) (sm_deps ctx) (sm_additional_data ctx) (sm_additional_data_len ctx))) sc in
      if truth rc then ret (rc, sc) else
      let* _ := bpfima_logging_enabled 2 sc in
      ret (0, sc)
  end.
End HookUtils.
