(* ===== verification/HookUtilsSpec.v ===== *)
(** * Decisions and submissions

    [bpfima_policy_for_hook] asks the active policy and changes nothing else;
    a submission that returns 0 has recorded exactly the data, the
    dependencies and the namespace that the program passed. *)

From S2P Require Import Prelude CString Types Kernel Sample Pattern Snapshot Wire KfuncBuffer HashUtils Tpm PolicyMap Merkle MerkleSpec MerkleInv PolicyNamespace PolicyManager PolicySpec PolicyInv PolicyLog PolicyBind PolicyAudit Container ContainerSpec ContainerRules ContainerInv Kfuncs KfuncsInv KfuncsSpec Lifecycle LifecycleSpec Frame System BpfUtils BpfUtilsSpec HookUtils.

(** The arrays of the scratch structure. *)
Record wf_scratch (sc : scratch_t) : Prop := WfScratch {
  wsc_buf : length (sc_buf sc) = 128%nat;
  wsc_hex : length (sc_digest_hex sc) = 68%nat;
}.

Section HookUtilsSpec.
Context {E : KernelEnv} {L : KernelLaws E} {B : BpfEnv}.

(** The task that the programs run for. *)
Context (cur : nat).

(** The helpers succeed. *)
Record helpers_ok : Prop := HelpersOk {
  ho_task : forall n, env_current_task n = Some cur;
  ho_storage : forall n, env_storage n = true;
  ho_reads : reads_ok;
  ho_probes : forall n, 0 <= env_probe n;
  ho_prints : prints_ok;
  ho_hash : forall n, fst (env_ima_file_hash n) = 4;
  ho_exe : forall n, env_exe_file n = true;
}.

(** The state changed only by calls of helpers. *)
Definition called (s s' : kstate) : Prop := exists m, s' = set_next m s.

Lemma called_refl s : called s s.
Proof. exists (k_next s). by rewrite set_next_eta. Qed.

Lemma called_next m s : called s (set_next m s).
Proof. by exists m. Qed.

Lemma called_trans s1 s2 s3 : called s1 s2 -> called s2 s3 -> called s1 s3.
Proof. intros [m ->] [m' ->]. rewrite set_next_set_next. apply called_next. Qed.

Lemma sys_inv_called pcr vs s s' : called s s' -> sys_inv pcr vs s -> sys_inv pcr vs s'.
Proof. intros [m ->] [Hm Hp]. split; [by apply module_inv_next|exact Hp]. Qed.

Lemma wp_scratch Q s :
  (forall m b, (b = false -> ~ helpers_ok) -> Q b (set_next m s)) -> wp bpfima_scratch Q s.
Proof.
  intros HQ. unfold bpfima_scratch, bpf_get_current_task_btf, bpf_task_storage_get.
  apply wp_bind, wp_bind, wp_call, wp_ret. destruct (env_current_task (k_next s)) eqn:E1.
  - apply wp_bind, wp_call, wp_ret. rewrite set_next_set_next. apply HQ. intros E2 H.
    pose proof (ho_storage H (k_next (set_next (S (k_next s)) s))). congruence.
  - apply wp_ret, HQ. intros _ H. pose proof (ho_task H (k_next s)). congruence.
Qed.

Lemma wp_logging level sc Q s : (forall m b, Q b (set_next m s)) -> wp (bpfima_logging_enabled level sc) Q s.
Proof.
  intros HQ. unfold bpfima_logging_enabled, bpfima_get_policy.
  apply wp_bind, wp_bind, wp_scratch. intros m b _. apply wp_ret, wp_ret, HQ.
Qed.

(** A read into a zeroed array of its own. *)
Lemma wp_read_zeros size src (Q : Z * bytes -> kstate -> Prop) s :
  (0 < size)%nat ->
  (forall m rc b, rc < 0 -> ~ reads_ok -> length b = size -> Q (rc, b) (set_next m s)) ->
  (forall m b, length b = size -> cstr b = take (size - 1) (cstr src) ->
     Q (Z.of_nat (length (cstr b)) + 1, b) (set_next m s)) ->
  wp (bpf_probe_read_kernel_str (zeros size) 0 (Z.of_nat size) src) Q s.
Proof.
  intros Hs Hbad Hok. apply (wp_probe_str [] (zeros size)); [done|rewrite length_zeros; lia|..].
  - intros n rc rest Hrc Hno Hl. rewrite length_zeros in Hl. by apply Hbad.
  - intros n rest x Hl Hz. rewrite length_zeros in Hl. rewrite app_nil_l.
    assert (Hx : x = take (size - 1) (cstr src)) by (unfold x; f_equal; lia).
    destruct rest as [|b rest]; [done|]. injection Hz as ->.
    assert (Hc : cstr (x ++ NUL :: rest) = x).
    { apply cstr_app_nul. rewrite Hx. apply nul_free_take, cstr_nul_free. }
    rewrite <- Hc at 1. apply Hok; [by rewrite length_app|by rewrite Hc].
Qed.

(** ** The decision *)

(** The name of a task's control group as the programs read it. *)
Definition cgroup_text (task : option nat) : bytes :=
  take 127 (match task with Some t => cstr (default [] (env_cgroup_name t)) | None => [] end).

(** The namespace of the task: its control group, or [default] for none and
    for a name that starts with a slash. *)
Definition namespace_text : bytes :=
  let name := cgroup_text (Some cur) in
  if decide (name = [] \/ head name = Some x2f) then lit "default" else name.

Lemma wp_fetch_cgroup task Q s :
  (forall m b, length b = 128%nat -> (reads_ok -> cstr b = cgroup_text task) -> Q b (set_next m s)) -> wp (fetch_cgroup_name task (zeros 128) 128) Q s.
Proof.
  intros HQ. unfold fetch_cgroup_name. cbn [Z.eqb].
  apply wp_bind, wp_deref. exists (zeros 128). split; [by vm_compute|].
  assert (Hz : cgroup_text task = [] -> Q (zeros 128) s).
  { intros Hc. rewrite <- (set_next_eta s). apply HQ; [done|]. by rewrite cstr_zeros. }
  destruct task as [t|]; [|by apply wp_ret, Hz]. unfold cgroup_text in *.
  destruct (env_cgroup_name t) as [name|]; [|by apply wp_ret, Hz].
  apply wp_bind. apply (wp_read_zeros 128); [lia|..].
  - intros m rc b _ Hno Hb. by apply wp_ret, HQ.
  - intros m b Hb Hc. by apply wp_ret, HQ.
Qed.

(** What the active policy of [s] decides for a context. *)
Definition policy_decides (s : kstate) (context : bpfima_policy_context) (result : bpfima_policy_result) : Prop :=
  exists st, policy_view s = Some st /\
    result = resolve_decision (st_generation st) (rec_snapshot (record_at st 0))
      (extension_of st (namespace_index st (Some (cx_namespace_id context)))) context.

(** A decision depends on the strings of a context only up to their NUL. *)
Lemma patterns_match_ext patterns a b : cstr a = cstr b -> patterns_match patterns a = patterns_match patterns b.
Proof.
  intros H. unfold patterns_match. induction patterns as [|e patterns IH]; [done|]. cbn [existsb]. rewrite IH. f_equal.
  apply eq_iff_eq_true. by rewrite !pattern_matches_spec, H.
Qed.

Lemma starts_with_ext a b prefix : nul_free prefix -> cstr a = cstr b -> starts_with a prefix = starts_with b prefix.
Proof.
  intros Hp H. unfold starts_with. apply eq_iff_eq_true. rewrite !Z.eqb_eq.
  assert (Hl : length prefix = strlen prefix) by (unfold strlen; by rewrite cstr_id).
  by rewrite Hl, !strncmp_strlen, H.
Qed.

Lemma strstr_ext a b needle : cstr a = cstr b -> strstr a needle = strstr b needle.
Proof. intros H. apply eq_iff_eq_true. by rewrite !strstr_spec, H. Qed.

Definition same_context (c d : bpfima_policy_context) : Prop :=
  cstr (cx_namespace_id c) = cstr (cx_namespace_id d) /\ cstr (cx_cgroup c) = cstr (cx_cgroup d) /\
  cstr (cx_path c) = cstr (cx_path d) /\ cx_file_size c = cx_file_size d /\ cx_hook c = cx_hook d /\
  cx_flags c = cx_flags d.

Lemma filtered_ext snapshot c d : same_context c d -> filtered snapshot c = filtered snapshot d.
Proof.
  intros (Hn & Hc & Hp & Hs & Hh & Hf). unfold filtered.
  rewrite (patterns_match_ext _ _ _ Hc), (patterns_match_ext _ _ _ Hp), !strcmp_eqb, Hc, Hs, Hf.
  rewrite (starts_with_ext (cx_cgroup c) (cx_cgroup d)), !(starts_with_ext (cx_path c) (cx_path d)),
    (strstr_ext (cx_path c) (cx_path d)); try done; vm_compute; set_solver.
Qed.

Lemma namespace_index_ext st a b : cstr a = cstr b -> namespace_index st (Some a) = namespace_index st (Some b).
Proof.
  intros H. unfold namespace_index.
  assert (Hz : Byte.eqb (char_at a 0) NUL = Byte.eqb (char_at b 0) NUL).
  { apply eq_iff_eq_true. destruct (byte_eqb_spec (char_at a 0) NUL) as [Ha|Ha], (byte_eqb_spec (char_at b 0) NUL) as [Hb|Hb];
      rewrite <- cstr_nil in Ha, Hb; rewrite H in Ha; tauto. }
  rewrite Hz. assert (Hfind : forall l, List.find (fun i => strcmp (rec_namespace_id (record_at st i)) a =? 0) l =
    List.find (fun i => strcmp (rec_namespace_id (record_at st i)) b =? 0) l); [|by rewrite Hfind].
  induction l as [|i l IH]; cbn; [done|]. by rewrite IH, !strcmp_eqb, H.
Qed.

Lemma policy_decides_ext s c d r : same_context c d -> policy_decides s c r -> policy_decides s d r.
Proof.
  intros Hs (st & Hv & ->). exists st. split; [done|]. pose proof Hs as (Hn & _ & _ & _ & Hh & Hf).
  rewrite <- (namespace_index_ext st _ _ Hn). unfold resolve_decision. rewrite Hh, Hf, (filtered_ext _ _ _ Hs).
  destruct (extension_of _ _) as [x|]; [|done]. by rewrite (filtered_ext x _ _ Hs).
Qed.

Lemma wp_resolve context Q s :
  policy_inv s -> (forall e, e < 0 -> Q (inl e) s) ->
  (forall r, policy_decides s context r -> Q (inr r) s) ->
  wp (bpfima_policy_resolve_context context) Q s.
Proof.
  intros Hp He HQ. unfold bpfima_policy_resolve_context. destruct (_ || _); [by apply wp_ret, He|].
  apply wp_bind, wp_gets. destruct (policy_map (k_policy s)) as [map|] eqn:Ep; [|by apply wp_ret, He].
  destruct (policy_inv_view s map Hp Ep) as (m & st & Hm & Hok & Hv).
  apply wp_bind. eapply wp_active_state; [exact Hm|exact Hok|].
  apply wp_bind. eapply wp_load_state; [exact Hm|apply Hok|]. apply wp_ret, HQ. by exists st.
Qed.

(** The outcomes of asking the policy: an error, skip, or measure; the scratch
    then holds the context that was asked and the answer. *)
Definition asked (s : kstate) (hook : Z) (path : option bytes) (size flags : Z) (r : Z) (sc' : scratch_t) : Prop :=
  let context := sc_policy_context sc' in
  cx_hook context = hook /\ cx_file_size context = size /\ cx_flags context = flags /\
  cstr (cx_path context) = cstr (default [] path) /\
  (helpers_ok -> cstr (cx_cgroup context) = cgroup_text (Some cur) /\ cstr (cx_namespace_id context) = namespace_text) /\
  policy_decides s context (sc_policy_result sc') /\
  r = (if rs_skip (sc_policy_result sc') then 1 else 0).

(** The namespace that is asked about, from the control group that was read. *)
Definition choose_namespace (cgroup : bytes) : bytes :=
  if negb (Byte.eqb (char_at cgroup 0) NUL) && negb (Byte.eqb (char_at cgroup 0) x2f)
  then cgroup else blit (zeros BPFIMA_NAMESPACE_SIZE) 0 (lit "default" ++ [NUL]).

Lemma choose_namespace_text cgroup :
  cstr cgroup = cgroup_text (Some cur) -> cstr (choose_namespace cgroup) = namespace_text.
Proof.
  intros Hc. unfold choose_namespace, namespace_text. rewrite <- Hc.
  assert (Hd : cstr (blit (zeros BPFIMA_NAMESPACE_SIZE) 0 (lit "default" ++ [NUL])) = lit "default") by reflexivity.
  destruct cgroup as [|b rest]; [by rewrite decide_True by tauto|]. unfold char_at. cbn.
  destruct (byte_eqb_spec b NUL) as [->|Hn]; cbn [negb andb]; [by rewrite decide_True by tauto|].
  destruct (byte_eqb_spec b x2f) as [->|Hs]; cbn [negb].
  - by rewrite decide_True by (by right).
  - rewrite decide_False by naive_solver. cbn. by destruct (byte_eqb_spec b NUL).
Qed.

(** The path that is asked about. *)
Definition hook_path (path : option bytes) : K (bool * bytes) :=
  match path with
  | None => ret (false, zeros BPFIMA_PATH_SIZE)
  | Some path =>
      let* (rc, p) := bpf_probe_read_kernel_str (zeros BPFIMA_PATH_SIZE) 0 256 path in
      ret ((rc <=? 0) || (rc >=? 256), p)
  end.

Lemma wp_hook_path path (Q : bool * bytes -> kstate -> Prop) s :
  (forall m b, Q (true, b) (set_next m s)) ->
  (forall m b, cstr b = cstr (default [] path) -> Q (false, b) (set_next m s)) -> wp (hook_path path) Q s.
Proof.
  intros Hbad Hok. unfold hook_path. destruct path as [path|].
  2:{ apply wp_ret. rewrite <- (set_next_eta s). by apply Hok. }
  apply wp_bind, (wp_read_zeros 256); [lia|..].
  - intros m rc b Hrc _ _. apply wp_ret. destruct (Z.leb_spec rc 0); [|lia]. apply Hbad.
  - intros m b Hb Hc. apply wp_ret.
    destruct (Z.leb_spec (Z.of_nat (length (cstr b)) + 1) 0); [lia|]. rewrite Z.geb_leb. cbn [orb].
    destruct (Z.leb_spec 256 (Z.of_nat (length (cstr b)) + 1)); [by apply Hbad|].
    apply Hok. rewrite Hc in *. rewrite length_take in *. apply take_ge. cbn. lia.
Qed.

Lemma wp_policy_for_hook hook path size flags sc (Q : Z * scratch_t -> kstate -> Prop) s :
  policy_inv s -> wf_scratch sc ->
  (forall m r sc', r < 0 -> wf_scratch sc' -> Q (r, sc') (set_next m s)) ->
  (forall m r sc', wf_scratch sc' -> asked s hook path size flags r sc' -> Q (r, sc') (set_next m s)) ->
  wp (bpfima_policy_for_hook hook path size flags sc) Q s.
Proof.
  intros Hp Hw Hneg Hok.
  assert (Hctx : forall c, wf_scratch (with_context c sc)) by (intros c; by destruct Hw).
  unfold bpfima_policy_for_hook. apply wp_bind, wp_scratch. intros m1 [] Hst; cbn [negb]; [|by apply wp_ret, Hneg].
  unfold bpf_get_current_task_btf. apply wp_bind, wp_bind, wp_call, wp_ret, wp_bind, wp_fetch_cgroup.
  intros m2 cgroup Hcg Hct. rewrite !set_next_set_next. cbv zeta.
  change (if _ && _ then cgroup else _) with (choose_namespace cgroup).
  apply wp_bind. fold (hook_path path). apply wp_hook_path.
  - intros m b. rewrite set_next_set_next. by apply wp_ret, Hneg.
  - intros m b Hpath. rewrite set_next_set_next. apply wp_bind. cbn [bpfima_policy_resolve Z.eqb negb orb].
    apply wp_resolve; [done|..].
    + intros e He. by apply wp_ret, Hneg.
    + intros r Hd. apply wp_ret, Hok; [by destruct Hw|]. split_and!; try done.
      intros Hh. specialize (Hct (ho_reads Hh)). rewrite (ho_task Hh) in Hct. split; [done|by apply choose_namespace_text].
Qed.

(** ** The submission *)

Definition submitted_ns (ns : option bytes) : bytes :=
  match ns with Some n => if decide (cstr n = []) then DEFAULT_NS else cstr n | None => DEFAULT_NS end.

(** The bytes that a measurement hashes. *)
Definition submitted_payload (data : bytes) (deps : option bytes) : bytes :=
  data ++ (match deps with Some _ => if decide (data = []) then [] else [x20] | None => [] end) ++
  match deps with Some d => cstr d | None => [] end.

(** The digest of the payload is recorded for the namespace, and nothing else. *)
Definition recorded_for (payload ns : bytes) (s s' : kstate) : Prop := seen s' = {[(sha256 payload, ns)]} ∪ seen s.

Lemma wp_read_field size least src (Q : bool * bytes -> kstate -> Prop) s :
  (1 < size)%nat -> 0 <= least ->
  (forall m b, length b = size -> Q (true, b) (set_next m s)) ->
  (forall m b, length b = size -> cstr b = match src with Some x => cstr x | None => [] end ->
     (src = None \/ least <= Z.of_nat (length (cstr b))) -> (strlen b < size)%nat -> Q (false, b) (set_next m s)) ->
  wp (read_field (Z.of_nat size) least src) Q s.
Proof.
  intros Hs Hl Hbad Hok. unfold read_field. rewrite Nat2Z.id. destruct src as [src|].
  2:{ apply wp_ret. rewrite <- (set_next_eta s). apply Hok; [apply length_zeros|apply cstr_zeros|by left|].
      unfold strlen. rewrite cstr_zeros. cbn. lia. }
  apply wp_bind, wp_read_zeros; [lia|..].
  - intros m rc b Hrc _ Hb. apply wp_ret. destruct (Z.leb_spec rc least); [|lia]. by apply Hbad.
  - intros m b Hb Hc. apply wp_ret.
    destruct (Z.leb_spec (Z.of_nat (length (cstr b)) + 1) least); cbn [orb]; [by apply Hbad|].
    rewrite Z.geb_leb. destruct (Z.leb_spec (Z.of_nat size) (Z.of_nat (length (cstr b)) + 1)); [by apply Hbad|].
    apply Hok; [done| |right; lia|unfold strlen; lia].
    rewrite Hc in *. rewrite length_take in *. apply take_ge. lia.
Qed.

Lemma wp_read_data len src (Q : bool * bytes -> kstate -> Prop) s :
  0 <= len < 256 -> match src with Some d => len <= Z.of_nat (length d) | None => len = 0 end ->
  (forall m b, length b = 256%nat -> Q (true, b) (set_next m s)) ->
  (forall m b, length b = 256%nat -> take (Z.to_nat len) b = take (Z.to_nat len) (default [] src) ->
     Q (false, b) (set_next m s)) ->
  wp (read_data len src) Q s.
Proof.
  intros Hl Hd Hbad Hok. unfold read_data. destruct src as [d|].
  2:{ apply wp_ret. rewrite <- (set_next_eta s). apply Hok; [done|]. by rewrite Hd. }
  destruct (truth len) eqn:Et.
  2:{ apply truth_false in Et. subst len. apply wp_ret. rewrite <- (set_next_eta s). by apply Hok. }
  apply truth_true in Et. apply wp_bind. unfold bpf_probe_read_kernel. apply wp_bind, wp_call.
  assert (Ha : in_area (zeros BPFIMA_EVENT_DATA_SIZE) 0 len = true).
  { unfold in_area. rewrite length_zeros, !andb_true_iff, !Z.leb_le, Z.ltb_lt. change BPFIMA_EVENT_DATA_SIZE with 256%nat. lia. }
  rewrite Ha. cbn [negb]. destruct (Z.ltb_spec (env_probe (k_next s)) 0).
  - apply wp_ret, wp_ret. destruct (truth (env_probe (k_next s))) eqn:E1; [|apply truth_false in E1; lia].
    apply Hbad. unfold probe_failed. rewrite length_blit; [done|].
    rewrite length_take, length_zeros. change BPFIMA_EVENT_DATA_SIZE with 256%nat. lia.
  - destruct (Z.ltb_spec (Z.of_nat (length d)) len); [lia|]. apply wp_ret, wp_ret. cbn [truth Z.eqb negb].
    assert (Htl : length (take (Z.to_nat len) d) = Z.to_nat len) by (rewrite length_take; lia).
    apply Hok.
    + rewrite length_blit; [done|]. rewrite Htl, length_zeros. change BPFIMA_EVENT_DATA_SIZE with 256%nat. lia.
    + cbn [default]. pose proof (take_blit (zeros BPFIMA_EVENT_DATA_SIZE) 0 (take (Z.to_nat len) d) ltac:(lia)) as H'.
      by rewrite Nat.add_0_l, Htl in H'.
Qed.

(** What running a program, or a part of one, promises: a result that is 0 or
    an error, a system that is still consistent and has only logged more, an
    unchanged policy, nothing recorded on an error, and [allowed] when the
    result is 0. *)
Record outcome (pcr : bytes) (vs : list bytes) (s : kstate) (allowed : kstate -> Prop)
    (r : Z * scratch_t) (s' : kstate) : Prop := Outcome {
  oc_rc : fst r <= 0;
  oc_scratch : wf_scratch (snd r);
  oc_inv : exists ws, sys_inv pcr (vs ++ ws) s';
  oc_policy : k_policy s' = k_policy s;
  oc_error : fst r <> 0 -> seen s' = seen s;
  oc_allowed : fst r = 0 -> allowed s';
}.

Lemma outcome_called pcr vs s m P r s' : outcome pcr vs (set_next m s) P r s' -> outcome pcr vs s P r s'.
Proof. by intros []. Qed.

Lemma outcome_after pcr vs s P r s' m : outcome pcr vs s P r s' -> (P s' -> P (set_next m s')) -> outcome pcr vs s P r (set_next m s').
Proof.
  intros [H1 H2 [ws H3] H4 H5 H6] Hn. split; auto. exists ws. apply (sys_inv_called pcr _ s'); [apply called_next|done].
Qed.

(** Nothing was done. *)
Lemma outcome_none pcr vs s m (P : kstate -> Prop) rc sc :
  sys_inv pcr vs s -> wf_scratch sc -> rc <= 0 -> (rc = 0 -> P (set_next m s)) -> outcome pcr vs s P (rc, sc) (set_next m s).
Proof.
  intros Hi Hw Hrc HP. split; try done. exists []. rewrite app_nil_r. apply (sys_inv_called pcr vs s); [apply called_next|done].
Qed.

Lemma outcome_error pcr vs s m P rc sc :
  sys_inv pcr vs s -> wf_scratch sc -> rc < 0 -> outcome pcr vs s P (rc, sc) (set_next m s).
Proof. intros Hi Hw Hrc. apply outcome_none; auto; lia. Qed.

Lemma wf_scratch_request r sc : wf_scratch sc -> wf_scratch (with_request r sc).
Proof. by intros []. Qed.

Lemma effective_ns_text r ns :
  cstr (mr_namespace_id r) = match ns with Some x => cstr x | None => [] end ->
  cstr (effective_ns r) = submitted_ns ns.
Proof.
  intros Hc. unfold effective_ns, submitted_ns. destruct (Byte.eqb (char_at (mr_namespace_id r) 0) NUL) eqn:Ee; cbn [negb].
  - assert (Hn : cstr (mr_namespace_id r) = []) by (apply cstr_nil; destruct (byte_eqb_spec (char_at (mr_namespace_id r) 0) NUL); done).
    rewrite Hn in Hc. destruct ns as [x|]; [|done]. rewrite <- Hc. done.
  - apply char_at_cstr_nonempty in Ee. rewrite Hc in *. destruct ns as [x|]; [|done]. by case_decide.
Qed.

Lemma submitted_payload_text r deps :
  (deps = None -> cstr (mr_dependencies r) = []) -> (forall d, deps = Some d -> cstr (mr_dependencies r) = cstr d) ->
  mr_flags r = (if bool_decide (deps = None) then 0 else BPFIMA_MEASUREMENT_HAS_DEPENDENCIES) ->
  measurement_payload r = submitted_payload (take (Z.to_nat (mr_additional_data_len r)) (mr_additional_data r)) deps.
Proof.
  intros Hn Hd Hf. unfold measurement_payload, submitted_payload, has_dependencies. rewrite Hf.
  destruct deps as [d|].
  - rewrite (Hd d eq_refl). rewrite bool_decide_eq_false_2 by done.
    change (truth (Z.land _ _)) with true. cbn [andb]. case_decide; [by rewrite bool_decide_eq_true_2|].
    by rewrite bool_decide_eq_false_2.
  - rewrite Hn by done. by rewrite bool_decide_eq_true_2.
Qed.

(** The call of the kfunc. *)
Lemma wp_extend_request pcr vs request (Q : Z -> kstate -> Prop) s :
  sys_inv pcr vs s -> wf_measurement request ->
  (forall rc s', rc <= 0 -> (exists ws, sys_inv pcr (vs ++ ws) s') -> k_policy s' = k_policy s ->
     (rc <> 0 -> seen s' = seen s) ->
     (rc = 0 -> recorded_for (measurement_payload request) (cstr (effective_ns request)) s s') -> Q rc s') ->
  wp (bpfima_measurement_extend (Some request) SIZEOF_MEASUREMENT_REQUEST) Q s.
Proof.
  intros [Hm Hp] Hw HQ.
  eapply wp_mono; [exact (wp_keeps _ _ _ (keeps_measurement _ _) (wp_measurement_extend pcr vs [] (globals s) request s Hm nothing_held Hw))|].
  intros rc s' ((Hpol & Hd & _) & Hrc & _ & Hfail & Hdone).
  assert (Hinv : forall ws, module_inv pcr (vs ++ ws) [] (globals s) s' -> exists ws, sys_inv pcr (vs ++ ws) s').
  { intros ws Hm'. exists ws. split; [by rewrite (globals_same s s')|]. unfold policy_inv. by rewrite Hpol. }
  destruct (decide (rc = 0)) as [->|Hne].
  - apply HQ; try done.
    + destruct (Hdone eq_refl) as [(_ & Hm' & _)|(_ & _ & _ & leaf & Hm')]; [|eauto].
      apply (Hinv []). by rewrite app_nil_r.
    + intros _. unfold recorded_for. destruct (Hdone eq_refl) as [(Hin & _ & ->)|(_ & -> & _)]; [set_solver|done].
  - destruct (Hfail Hne) as [Hm' Hs]. apply HQ; try done. apply (Hinv []). by rewrite app_nil_r.
Qed.

(** What a submission records. *)
Definition submits (ctx : measurement_ctx) (s s' : kstate) : Prop :=
  recorded_for (submitted_payload (take (Z.to_nat (mc_additional_data_len ctx)) (default [] (mc_additional_data ctx)))
    (mc_dependencies ctx)) (submitted_ns (mc_namespace_id ctx)) s s'.

Lemma wp_submit pcr vs ctx sc s :
  sys_inv pcr vs s -> wf_scratch sc ->
  match mc_additional_data ctx with Some d => mc_additional_data_len ctx <= Z.of_nat (length d) | None => True end ->
  wp (bpfima_submit_measurement (Some ctx) sc) (outcome pcr vs s (submits ctx s)) s.
Proof.
  intros Hi Hw Hdata. unfold bpfima_submit_measurement.
  pose proof (fun r => wf_scratch_request r sc Hw) as Hwr.
  assert (Herr : forall m sc', wf_scratch sc' -> wp (ret (- 1, sc')) (outcome pcr vs s (submits ctx s)) (set_next m s)).
  { intros m sc' Hsc. apply wp_ret. by apply outcome_error. }
  destruct (_ || _) eqn:Eo; [specialize (Herr (k_next s) sc Hw); by rewrite set_next_eta in Herr|].
  rewrite !orb_false_iff, Z.ltb_ge, Z.geb_leb, Z.leb_gt in Eo. destruct Eo as [[[Hev H0] Hlt] Hnd].
  apply wp_bind, wp_scratch. intros m1 [] _; cbn [negb]; [|by apply Herr].
  apply wp_bind. apply (wp_read_field 256 1); [lia|lia|intros m b _; rewrite set_next_set_next; by apply Herr|].
  intros m2 event Hel Hec Hene Het. rewrite set_next_set_next.
  apply wp_bind. apply (wp_read_field 128 0); [lia|lia|intros m b _; rewrite set_next_set_next; by apply Herr|].
  intros m3 ns Hnl Hnc _ Hnt. rewrite set_next_set_next.
  apply wp_bind. apply (wp_read_field 256 0); [lia|lia|intros m b _; rewrite set_next_set_next; by apply Herr|].
  intros m4 deps Hdl Hdc _ Hdt. rewrite set_next_set_next. cbv zeta.
  apply wp_bind. apply wp_read_data; [lia| |intros m b _; rewrite set_next_set_next; by apply Herr|].
  { destruct (mc_additional_data ctx); [done|]. cbn in Hnd. by apply truth_false in Hnd. }
  intros m5 data Hal Hac. rewrite set_next_set_next. cbv zeta. set (request := MeasurementRequest _ _ _ _ _ _).
  apply wp_bind. apply (wp_extend_request pcr vs); [by apply (sys_inv_called pcr vs s); [apply called_next|]|..].
  { split; try done; unfold is_u32; cbn; [lia|]. by destruct (bool_decide (mc_dependencies ctx = None)). }
  intros rc s' Hrc Hinv Hpol Hne Hrec. apply wp_ret. split; try done; [by apply Hwr|].
  cbn [fst]. intros Hz. specialize (Hrec Hz). unfold submits.
  rewrite (submitted_payload_text request (mc_dependencies ctx)), (effective_ns_text request (mc_namespace_id ctx)) in Hrec; try done.
  - cbn in Hrec. by rewrite Hac in Hrec.
  - intros Hn. change (cstr deps = []). by rewrite Hdc, Hn.
  - intros d Hd. change (cstr deps = cstr d). by rewrite Hdc, Hd.
Qed.

(** ** The measurement of a file *)

(** The dependency string that a program measures. *)
Definition wanted_deps (policy : option bpfima_policy_config) (name : option bytes) (task : option nat) : bytes :=
  if bool_decide (is_Some name) && bool_decide (is_Some task) && wants_deps policy
  then dependency_text name task (deps_depth policy) else [].

(** The bytes that are hashed for data with a dependency string. *)
Definition joined (data deps : bytes) : bytes := data ++ (if decide (data = []) then [] else [x20]) ++ deps.

(** The data and some dependency string were recorded, and it is [text] when
    the helpers succeed. *)
Definition recorded_with (data text ns : bytes) (s s' : kstate) : Prop :=
  exists deps, (helpers_ok -> deps = text) /\
    recorded_for (joined data deps) ns s s'.

(** The last step of the two functions: a submission and a log message. *)
Lemma wp_submit_and_log pcr vs ctx data deps text sc s :
  sys_inv pcr vs s -> wf_scratch sc ->
  match mc_additional_data ctx with Some d => mc_additional_data_len ctx <= Z.of_nat (length d) | None => True end ->
  mc_dependencies ctx = Some deps -> (helpers_ok -> cstr deps = text) ->
  take (Z.to_nat (mc_additional_data_len ctx)) (default [] (mc_additional_data ctx)) = data ->
  wp (let* (rc, sc) := bpfima_submit_measurement (Some ctx) sc in
      if truth rc then ret (rc, sc) else
      let* _ := bpfima_logging_enabled 2 sc in
      ret (0, sc)) (outcome pcr vs s (recorded_with data text (submitted_ns (mc_namespace_id ctx)) s)) s.
Proof.
  intros Hi Hw Hlen Hd Ht Hdata. apply wp_bind.
  eapply wp_mono; [by apply (wp_submit pcr vs)|]. intros [rc sc'] s' [H1 H2 [ws H3] H4 H5 H6]. cbn [fst snd] in *.
  destruct (truth rc) eqn:Et.
  - apply truth_true in Et. apply wp_ret. split; eauto. done.
  - apply truth_false in Et. subst rc. specialize (H6 eq_refl). apply wp_bind, wp_logging. intros m b. apply wp_ret.
    split; try done.
    + exists ws. apply (sys_inv_called pcr _ s'); [apply called_next|done].
    + intros _. exists (cstr deps). split; [done|]. unfold submits, submitted_payload in H6. by rewrite Hdata, Hd in H6.
Qed.

(** The start of the scratch buffer is cleared. *)
Lemma wp_clear_buf sc (Q : bytes -> kstate -> Prop) s :
  wf_scratch sc -> (forall b, length b = 128%nat -> cstr b = [] -> Q b s) -> wp (deref (buf_set (sc_buf sc) 0 NUL)) Q s.
Proof.
  intros [Hb _] HQ. apply wp_deref. destruct (sc_buf sc) as [|x rest]; [done|].
  exists (NUL :: rest). split; [|by apply HQ]. unfold buf_set. rewrite Hb. done.
Qed.

Lemma wp_wanted_deps sc deps name task policy (Q : Z * bytes -> kstate -> Prop) s :
  length deps = 128%nat -> cstr deps = [] ->
  (forall m n b, 0 <= n -> length b = 128%nat -> (helpers_ok -> cstr b = wanted_deps policy name task) -> Q (n, b) (set_next m s)) ->
  wp (if bool_decide (is_Some name) && bool_decide (is_Some task) && wants_deps policy
      then
        let* (deps_actual, deps) := build_dependencies deps 128 name task (deps_depth policy) in
        let* _ := (if deps_actual <? 0 then ret false else bpfima_logging_enabled 2 sc) in
        ret (deps_actual, deps)
      else ret (0, deps)) Q s.
Proof.
  intros Hl Hc HQ. unfold wanted_deps in HQ. destruct (_ && _).
  - apply wp_bind. eapply wp_mono; [by apply wp_build_dependencies|].
    intros [n b] s' ([m ->] & Hb & Hn & _ & Ht). cbn [fst snd] in *. destruct (Z.ltb_spec n 0); [lia|].
    apply wp_bind, wp_logging. intros m2 x. apply wp_ret. rewrite set_next_set_next. apply HQ; [lia|done|].
    intros Hh. by apply Ht, Hh.
  - apply wp_ret. rewrite <- (set_next_eta s). by apply HQ.
Qed.

(** A file's digest is recorded in hexadecimal, with the dependencies. *)
Lemma wp_measure_file pcr vs digest event ns name task policy sc s :
  sys_inv pcr vs s -> wf_scratch sc -> length digest = 32%nat ->
  wp (measure_accessed_file (Some (FileMeasureCtx (Some digest) (Some event) ns name task policy)) sc)
    (outcome pcr vs s (recorded_with (hex digest) (wanted_deps policy name task) (submitted_ns ns) s)) s.
Proof.
  intros Hi Hw Hd. cbn [measure_accessed_file fm_digest fm_event_name fm_fname fm_cur fm_policy fm_cgroup_name].
  apply wp_bind, wp_scratch. intros m1 [] _; cbn [negb]; [|by apply wp_ret, outcome_error].
  apply wp_bind, wp_clear_buf; [done|]. intros deps0 Hl0 Hc0.
  apply wp_bind, wp_wanted_deps; [done|done|]. intros m2 n deps Hn Hl Ht. rewrite set_next_set_next. cbv zeta.
  destruct (Z.ltb_spec n 0); [lia|]. apply wp_bind.
  assert (Hh : length (sc_digest_hex (with_buf deps sc)) = 68%nat) by apply Hw.
  apply (wp_bytes_to_hex digest 32); [lia|lia|lia|]. rewrite take_ge by lia.
  cbn [Z.ltb Z.compare Z.of_nat]. cbn [Nat.mul Nat.add Pos.of_succ_nat Pos.succ].
  set (text := filled _ _).
  assert (Hlt : length text = 68%nat).
  { unfold text. rewrite filled_length; [done|]. rewrite length_app, hex_length, Hh, Hd. cbn. lia. }
  eapply wp_mono; [apply (wp_submit_and_log pcr vs _ (hex digest) deps (wanted_deps policy name task))|].
  - apply (sys_inv_called pcr vs s); [apply called_next|done].
  - by split.
  - cbn. lia.
  - done.
  - done.
  - cbn [mc_additional_data mc_additional_data_len default]. unfold text, filled. rewrite <- app_assoc.
    apply take_app_length'. rewrite hex_length. lia.
  - intros r s' Ho. exact (outcome_called _ _ _ _ _ _ _ Ho).
Qed.

(** The data and the dependencies of a connection are recorded. *)
Lemma wp_measure_socket pcr vs event ns deps n data len text sc s :
  sys_inv pcr vs s -> wf_scratch sc -> 0 <= n -> (helpers_ok -> cstr deps = text) -> 0 <= len <= Z.of_nat (length data) ->
  wp (measure_socket_data (Some (SocketMeasureCtx (Some event) ns (Some deps) n (Some data) len)) sc)
    (outcome pcr vs s (recorded_with (take (Z.to_nat len) data) text (submitted_ns ns) s)) s.
Proof.
  intros Hi Hw Hn Ht Hlen. unfold measure_socket_data. cbn [sm_event_name sm_additional_data_len sm_deps_actual sm_cgroup_name sm_deps sm_additional_data].
  rewrite bool_decide_eq_false_2 by done. destruct (_ || _).
  { apply wp_ret. rewrite <- (set_next_eta s) at 3. by apply outcome_error. }
  destruct (Z.ltb_spec n 0); [lia|].
  eapply wp_submit_and_log; [done|done|cbn; lia|done|done|done].
Qed.
End HookUtilsSpec.
