(* ===== verification/Hooks.v ===== *)
(** * The LSM programs

    The five programs of [src/hooks/lsm]: what each checks, which policy
    decision it asks for, what it measures and what it returns to the kernel.
    The statistics that two programs keep after a successful measurement do
    not influence the result: they are in [Timing.v]. *)

From S2P Require Import Prelude CString Types Kernel Pattern Snapshot KfuncBuffer HashUtils Tpm PolicyMap Merkle PolicyNamespace PolicyManager Container Kfuncs BpfUtils HookUtils.

(** ** The kernel objects that the programs read *)

Record inode := Inode { i_mode : Z; i_size : Z }.

Record file := File {
  f_inode : option inode;
  f_mode : Z;
  (** [f_path.dentry->d_name.name], [None] when a pointer is NULL. *)
  f_dentry_name : option bytes;
}.

Record linux_binprm := Binprm {
  bprm_filename : option bytes;
  bprm_interp : option bytes;
  bprm_file : option file;
}.

(** The bytes of a [struct sockaddr] seen as the internet and as the local
    address. *)
Record sockaddr := Sockaddr {
  sa_family : Z;
  sin_addr : Z;
  sin_port : Z;
  sun_path : bytes;
}.

Record sock := Sock { skc_rcv_saddr : Z; skc_num : Z }.

Definition HASH_ALGO_SHA256 : Z := 4.
Definition S_ISREG (m : Z) : bool := Z.land m 0xf000 =? 0x8000.

(** What a program returns: errors below [-4095] are cut, positive values
    allow the operation. *)
Definition lsm_result (r : Z) : Z := if r <? - 4095 then - 4095 else if r >? 0 then 0 else r.

Section Hooks.
Context {E : KernelEnv} {B : BpfEnv}.

(** ** mmap_file *)

Definition bpf_mmap_file (f : option file) (prot previous_ret : Z) (sc : scratch_t) : K (Z * scratch_t) :=
  if negb (previous_ret =? 0) then ret (previous_ret, sc) else
  match f with
  | None => ret (0, sc)
  | Some f =>
      if match f_inode f with Some i => negb (S_ISREG (i_mode i)) | None => false end then ret (0, sc) else
      let* (rc, filepath) := bpf_d_path (zeros BPFIMA_PATH_SIZE) 256 in
      if rc <? 0 then ret (- 36, sc) else
      let size := match f_inode f with Some i => to_u64 (i_size i) | None => 0 end in
      let policy_flags := Z.lor BPFIMA_POLICY_FILE (if truth (Z.land prot 4) then BPFIMA_POLICY_EXECUTABLE else 0) in
      let policy_flags := if negb (truth (Z.land (f_mode f) 2))
        then Z.lor policy_flags BPFIMA_POLICY_READONLY else policy_flags in
      let* (decision, sc) := bpfima_policy_for_hook HOOK_LSM_MMAP_FILE (Some filepath) size policy_flags sc in
      if truth decision then ret (lsm_result decision, sc) else
      let* (hash_algo, digest) := bpf_ima_file_hash (zeros 32) 32 in
      if negb (hash_algo =? HASH_ALGO_SHA256) then ret (0, sc) else
      let* scratch := bpfima_scratch in
      if negb scratch then ret (0, sc) else
      let* (written, digest_hex) := bytes_to_hex_str digest 32 (sc_digest_hex sc) 68 in
      let sc := with_digest_hex digest_hex sc in
      if written <? 0 then ret (0, sc) else
      let* ns := bpfima_current_namespace sc in
      let* (rc, sc) := bpfima_submit_measurement (Some (MeasurementCtx (Some (lit "mmap_file" ++ [NUL])) ns None
        (Some digest_hex) 64)) sc in
      let* _ := (if rc >=? 0 then bpfima_logging_enabled 2 sc else ret false) in
      ret (lsm_result rc, sc)
  end.

(** ** file_post_open *)

Definition lsm_file_post_open (f : option file) (mask previous_ret : Z) (sc : scratch_t) : K (Z * scratch_t) :=
  if negb (previous_ret =? 0) then ret (previous_ret, sc) else
  if negb (truth (Z.land mask 4)) then ret (0, sc) else
  match f with
  | None => ret (0, sc)
  | Some f =>
      let* (rc, filepath) := bpf_d_path (zeros 256) 256 in
      let* filepath :=
        if rc <? 0 then
          match f_dentry_name f with
          | None => ret None
          | Some name => let* (_, filepath) := bpf_probe_read_kernel_str filepath 0 256 name in ret (Some filepath)
          end
        else ret (Some filepath) in
      match filepath, f_inode f with
      | Some filepath, Some i =>
          if negb (S_ISREG (i_mode i)) then ret (0, sc) else
          if negb (truth (Z.land (f_mode f) 1)) then ret (0, sc) else
          if truth (Z.land (f_mode f) 2) then ret (0, sc) else
          let* (decision, sc) := bpfima_policy_for_hook HOOK_LSM_FILE_POST_OPEN (Some filepath) (to_u64 (i_size i))
            (Z.lor (Z.lor BPFIMA_POLICY_FILE BPFIMA_POLICY_READONLY)
               (if truth (Z.land mask 1) then BPFIMA_POLICY_EXECUTABLE else 0)) sc in
          if truth decision then ret (lsm_result decision, sc) else
          let* _ := bpfima_logging_enabled 2 sc in
          let* (hash_algo, digest) := bpf_ima_file_hash (zeros 32) 32 in
          if negb (hash_algo =? HASH_ALGO_SHA256) then ret (0, sc) else
          let* scratch := bpfima_scratch in
          if negb scratch then ret (0, sc) else
          let* (written, digest_hex) := bytes_to_hex_str digest 32 (sc_digest_hex sc) 68 in
          let sc := with_digest_hex digest_hex sc in
          if written <? 0 then ret (0, sc) else
          let* ns := bpfima_current_namespace sc in
          let* (rc, sc) := bpfima_submit_measurement (Some (MeasurementCtx (Some (lit "file_post_open" ++ [NUL])) ns None
            (Some digest_hex) 64)) sc in
          let* _ := (if rc >=? 0 then bpfima_logging_enabled 2 sc else ret false) in
          ret (lsm_result rc, sc)
      | _, _ => ret (0, sc)
      end
  end.

(** ** inode_setattr *)

Definition bpf_inode_setattr (dentry_name : option (option bytes)) (attr : option iattr) (previous_ret : Z)
    (sc : scratch_t) : K (Z * scratch_t) :=
  if negb (previous_ret =? 0) then ret (previous_ret, sc) else
  match dentry_name, attr with
  | Some name, Some attr =>
      let* (decision, sc) := bpfima_policy_for_hook HOOK_LSM_INODE_SETATTR name 0 0 sc in
      if truth decision then ret (lsm_result decision, sc) else
      let* (attr_len, attrs) := build_attributes (Some (zeros 64)) 64 (Some attr) in
      if attr_len <=? 0 then ret (0, sc) else
      let* ns := bpfima_current_namespace sc in
      let* (rc, sc) := bpfima_submit_measurement (Some (MeasurementCtx (Some (lit "inode_setattr" ++ [NUL])) ns None
        (Some attrs) attr_len)) sc in
      ret (lsm_result rc, sc)
  | _, _ => ret (0, sc)
  end.

(** ** bprm_check_security *)

Definition bprm_event : bytes := lit "bprm_check_security" ++ zeros 13.

Definition lsm_bprm_check_security (bprm : option linux_binprm) (previous_ret : Z) (sc : scratch_t)
    : K (Z * scratch_t) :=
  if negb (previous_ret =? 0) then ret (previous_ret, sc) else
  match bprm with
  | None => ret (0, sc)
  | Some bprm =>
      let* cur := bpf_get_current_task_btf in
      match bprm_file bprm with
      | None => ret (0, sc)
      | Some f =>
          let size := match f_inode f with Some i => to_u64 (i_size i) | None => 0 end in
          let* (decision, sc) := bpfima_policy_for_hook HOOK_LSM_BPRM_CHECK_SECURITY (bprm_filename bprm) size
            (Z.lor (Z.lor BPFIMA_POLICY_FILE BPFIMA_POLICY_READONLY) BPFIMA_POLICY_EXECUTABLE) sc in
          if truth decision then ret (lsm_result decision, sc) else
          let* policy := bpfima_get_policy sc in
          let* ns := bpfima_current_namespace sc in
          let* (hash_algo, hash) := bpf_ima_file_hash (zeros 32) 32 in
          if negb (hash_algo =? HASH_ALGO_SHA256) then ret (0, sc) else
          let* (rc, sc) := measure_accessed_file (Some (FileMeasureCtx (Some hash) (Some bprm_event) ns
            (bprm_interp bprm) cur policy)) sc in
          if rc <? 0 then ret (lsm_result rc, sc) else ret (0, sc)
      end
  end.

(** ** socket_connect *)

Definition AF_UNIX : Z := 1.
Definition AF_INET : Z := 2.

(** [__builtin_bswap16]. *)
Definition bswap16 (x : Z) : Z := Z.lor (Z.land (Z.shiftl x 8) 0xff00) (Z.land (Z.shiftr x 8) 0xff).

(** The text of the connection in its buffer, and how much of it is measured. *)
Definition socket_data (sk : sock) (address : sockaddr) : K (Z * bytes) :=
  let* (len, data) := build_socket_additional_data (Some (SocketAddrInfo (Some (zeros 64)) 64
    (skc_rcv_saddr sk) (sin_addr address) (skc_num sk) (bswap16 (sin_port address)))) in
  let data := default (zeros 64) data in
  let buffer_len := if len >? 0 then (if len >? 64 then 63 else len - 1) else 0 in
  let* data := (if len >? 0 then deref (buf_set data buffer_len NUL) else ret data) in
  ret (buffer_len, data).

(** The path of the program, or of the local socket; [None] when the program
    has no file. *)
Definition socket_path (address : sockaddr) (addrlen : Z) : K (option bytes) :=
  let path := zeros 108 in
  if sa_family address =? AF_INET then
    let* task := bpf_get_current_task_btf in
    match task with
    | None => ret None
    | Some _ =>
        let* n := call in
        if negb (env_exe_file n) then ret None else
        let* (_, path) := bpf_d_path path 108 in
        ret (Some path)
    end
  else if sa_family address =? AF_UNIX then
    let path_len := Z.land (to_u64 (addrlen - 2)) 0x7f in
    if (path_len >? 0) && (path_len <? 108) then
      let* (_, path) := bpf_probe_read_kernel path 0 path_len (sun_path address) in
      let* path := deref (buf_set path path_len NUL) in
      ret (Some path)
    else ret (Some path)
  else ret (Some path).

Definition bpf_socket_connect (sk : option sock) (address : option sockaddr) (addrlen previous_ret : Z)
    (sc : scratch_t) : K (Z * scratch_t) :=
  if negb (previous_ret =? 0) then ret (previous_ret, sc) else
  match address with
  | None => ret (0, sc)
  | Some address =>
      if negb (sa_family address =? AF_INET) && negb (sa_family address =? AF_UNIX) then ret (0, sc) else
      let* scratch := bpfima_scratch in
      if negb scratch then ret (0, sc) else
      let sc := with_buf (zeros 128) sc in
      match sk with
      | None => ret (0, sc)
      | Some sk =>
          let* (buffer_len, data) := socket_data sk address in
          let* path := socket_path address addrlen in
          match path with
          | None => ret (0, sc)
          | Some path =>
              let* cur := bpf_get_current_task_btf in
              let* (decision, sc) := bpfima_policy_for_hook HOOK_LSM_SOCKET_CONNECT (Some path) 0 0 sc in
              if truth decision then ret (lsm_result decision, sc) else
              let* policy := bpfima_get_policy sc in
              let* ns := bpfima_current_namespace sc in
              let* deps := deref (buf_set (sc_buf sc) 0 NUL) in
              let* (deps_actual, deps) :=
                if wants_deps policy then build_dependencies deps 128 (Some path) cur (deps_depth policy)
                else ret (0, deps) in
              let sc := with_buf deps sc in
              let* (rc, sc) := measure_socket_data (Some (SocketMeasureCtx (Some (lit "socket_connect" ++ [NUL])) ns
                (Some deps) deps_actual (Some data) buffer_len)) sc in
              if rc <? 0 then ret (if rc <? - 4095 then - 4095 else rc, sc) else ret (0, sc)
          end
      end
  end.
End Hooks.
