(* ===== verification/HooksSpec.v ===== *)
(** * Nothing passes unmeasured

    The five LSM programs as one interface between the kernel and the module:
    what a call asks the policy, which calls are exempt, what is measured, and
    the theorem that an operation that a program allows was exempt, skipped by
    the active policy, or recorded. *)

From S2P Require Import Prelude CString Types Kernel Sample Pattern Snapshot Wire KfuncBuffer HashUtils Tpm PolicyMap Merkle MerkleSpec MerkleInv PolicyNamespace PolicyManager PolicySpec PolicyInv PolicyLog PolicyBind PolicyAudit Container ContainerSpec ContainerRules ContainerInv Kfuncs KfuncsInv KfuncsSpec Lifecycle LifecycleSpec Frame Requests System BpfUtils BpfUtilsSpec HookUtils HookUtilsSpec Hooks.

(** A call of a program with its arguments. *)
Inductive hook_call :=
  | MmapFile (f : option file) (prot : Z)
  | FilePostOpen (f : option file) (mask : Z)
  | InodeSetattr (dentry_name : option (option bytes)) (attr : option iattr)
  | BprmCheckSecurity (bprm : option linux_binprm)
  | SocketConnect (sk : option sock) (address : option sockaddr) (addrlen : Z).

Definition run_hook {E : KernelEnv} {B : BpfEnv} (h : hook_call) (previous_ret : Z) (sc : scratch_t) : K (Z * scratch_t) :=
  match h with
  | MmapFile f prot => bpf_mmap_file f prot previous_ret sc
  | FilePostOpen f mask => lsm_file_post_open f mask previous_ret sc
  | InodeSetattr name attr => bpf_inode_setattr name attr previous_ret sc
  | BprmCheckSecurity bprm => lsm_bprm_check_security bprm previous_ret sc
  | SocketConnect sk address addrlen => bpf_socket_connect sk address addrlen previous_ret sc
  end.

(** The path of a local address is an array of 108 bytes. *)
Definition wf_call (h : hook_call) : Prop :=
  match h with SocketConnect _ (Some a) _ => length (sun_path a) = 108%nat | _ => True end.

(** ** What the policy is asked *)

Definition hook_id (h : hook_call) : Z :=
  match h with
  | MmapFile _ _ => HOOK_LSM_MMAP_FILE
  | FilePostOpen _ _ => HOOK_LSM_FILE_POST_OPEN
  | InodeSetattr _ _ => HOOK_LSM_INODE_SETATTR
  | BprmCheckSecurity _ => HOOK_LSM_BPRM_CHECK_SECURITY
  | SocketConnect _ _ _ => HOOK_LSM_SOCKET_CONNECT
  end.

Definition file_size (f : option file) : Z :=
  match f with Some (File (Some i) _ _) => to_u64 (i_size i) | _ => 0 end.

Definition hook_file_size (h : hook_call) : Z :=
  match h with
  | MmapFile f _ | FilePostOpen f _ => file_size f
  | BprmCheckSecurity (Some b) => file_size (bprm_file b)
  | _ => 0
  end.

(** The three flags of a request. *)
Definition request_flags (is_file executable readonly : bool) : Z :=
  Z.lor (Z.lor (if is_file then BPFIMA_POLICY_FILE else 0) (if executable then BPFIMA_POLICY_EXECUTABLE else 0))
    (if readonly then BPFIMA_POLICY_READONLY else 0).

Definition hook_flags (h : hook_call) : Z :=
  match h with
  | MmapFile (Some f) prot => request_flags true (truth (Z.land prot 4)) (negb (truth (Z.land (f_mode f) 2)))
  | FilePostOpen _ mask => request_flags true (truth (Z.land mask 1)) true
  | BprmCheckSecurity _ => request_flags true true true
  | _ => 0
  end.

(** ** What is never measured *)

Definition regular (f : option file) : Prop :=
  exists i mode name, f = Some (File (Some i) mode name) /\ S_ISREG (i_mode i) = true.

Definition exempt (h : hook_call) : Prop :=
  match h with
  | MmapFile f _ => f = None \/ exists f', f = Some f' /\ f_inode f' <> None /\ ~ regular f
  | FilePostOpen f mask =>
      (** not opened with [MAY_READ], not regular, not opened for reading, or
          opened for writing; or neither a path nor a name exists *)
      truth (Z.land mask 4) = false \/ ~ regular f \/
      exists f', f = Some f' /\ (truth (Z.land (f_mode f') 1) = false \/ truth (Z.land (f_mode f') 2) = true \/ f_dentry_name f' = None)
  | InodeSetattr name attr =>
      name = None \/ attr = None \/
      (** no recorded attribute, or a text that does not fit *)
      exists a, attr = Some a /\ (attributes_text a = [] \/ 64 <= Z.of_nat (length (concat (attr_parts a))))
  | BprmCheckSecurity bprm => bprm = None \/ exists b, bprm = Some b /\ bprm_file b = None
  | SocketConnect sk address _ =>
      sk = None \/ address = None \/ exists a, address = Some a /\ sa_family a <> AF_INET /\ sa_family a <> AF_UNIX
  end.

Section HooksSpec.
Context {E : KernelEnv} {L : KernelLaws E} {B : BpfEnv}.
Context (cur : nat).

(** The path that is matched: the full path of the file, or the name of its
    entry, or what the call gives. The path of a connection is not
    constrained. *)
Definition full_path (p : bytes) : Prop := exists n path, env_d_path n = inr path /\ p = cstr path.

Definition call_path (h : hook_call) (p : bytes) : Prop :=
  match h with
  | MmapFile _ _ => full_path p
  | FilePostOpen (Some f) _ =>
      full_path p \/ exists name, f_dentry_name f = Some name /\ (helpers_ok cur -> p = take 255 (cstr name))
  | InodeSetattr (Some name) _ => p = cstr (default [] name)
  | BprmCheckSecurity (Some b) => p = cstr (default [] (bprm_filename b))
  | _ => True
  end.

Definition asks (h : hook_call) (context : bpfima_policy_context) : Prop :=
  cx_hook context = hook_id h /\ cx_file_size context = hook_file_size h /\ cx_flags context = hook_flags h /\
  call_path h (cstr (cx_path context)) /\
  (helpers_ok cur -> cstr (cx_cgroup context) = cgroup_text (Some cur) /\
     cstr (cx_namespace_id context) = namespace_text cur).

(** ** What is measured *)

Definition ima_digest (n : nat) : bytes := blit (zeros 32) 0 (take 32 (snd (env_ima_file_hash n))).

Definition connection_text (sk : sock) (a : sockaddr) : bytes :=
  endpoint_text (skc_rcv_saddr sk) (skc_num sk) ++ lit "-" ++ endpoint_text (sin_addr a) (bswap16 (sin_port a)).

Definition hook_payload (h : hook_call) (result : bpfima_policy_result) (payload : bytes) : Prop :=
  match h with
  | MmapFile _ _ | FilePostOpen _ _ => exists n, payload = hex (ima_digest n)
  | InodeSetattr _ attr => exists a, attr = Some a /\ payload = attributes_text a
  | BprmCheckSecurity bprm => exists b n, bprm = Some b /\
      payload = joined (hex (ima_digest n)) (wanted_deps (Some (rs_config result)) (bprm_interp b) (Some cur))
  | SocketConnect sk address _ => exists k a path, sk = Some k /\ address = Some a /\
      payload = joined (take 63 (connection_text k a)) (wanted_deps (Some (rs_config result)) (Some path) (Some cur))
  end.

(** Whether measurements are attributed to the task's container. *)
Definition tracked (result : bpfima_policy_result) : bool :=
  has_flag (hk_flags (rs_hook result)) HOOK_FLAG_TRACK_CONTAINERS ||
  has_flag (cfg_action_flags (rs_config result)) POLICY_ACTION_TRACK_CONTAINER.

Definition hook_namespace (result : bpfima_policy_result) : bytes :=
  if tracked result then namespace_text cur else lit "default".

(** An allowed operation: exempt, skipped by the policy, or recorded. *)
Definition skipped (h : hook_call) (s : kstate) : Prop :=
  exists context result, asks h context /\ policy_decides s context result /\ rs_skip result = true.

Definition measured (h : hook_call) (s s' : kstate) : Prop :=
  exists context result payload ns, asks h context /\ policy_decides s context result /\ rs_skip result = false /\
    recorded_for payload ns s s' /\
    (helpers_ok cur -> ns = hook_namespace result /\ hook_payload h result payload).

Definition accounted (h : hook_call) (s s' : kstate) : Prop :=
  (seen s' = seen s /\ (exempt h \/ ~ helpers_ok cur \/ skipped h s)) \/ measured h s s'.

(** ** Steps that the programs share *)

Lemma lsm_result_nonpos r : r <= 0 -> lsm_result r <= 0 /\ (lsm_result r = 0 <-> r = 0).
Proof.
  intros Hr. unfold lsm_result. rewrite Z.gtb_ltb. destruct (Z.ltb_spec r (- 4095)); [lia|].
  destruct (Z.ltb_spec 0 r); lia.
Qed.

Lemma outcome_result pcr vs s P r sc s' : outcome pcr vs s P (r, sc) s' -> outcome pcr vs s P (lsm_result r, sc) s'.
Proof.
  intros [H1 H2 H3 H4 H5 H6]. cbn [fst snd] in *. destruct (lsm_result_nonpos r H1) as [Hr Hz].
  split; auto; cbn [fst]; intros Hx; [apply H5|apply H6]; tauto.
Qed.

(** Allowed without a record. *)
Lemma outcome_unmeasured pcr vs h s m sc :
  sys_inv pcr vs s -> wf_scratch sc -> exempt h \/ ~ helpers_ok cur \/ skipped h s ->
  outcome pcr vs s (accounted h s) (0, sc) (set_next m s).
Proof. intros Hi Hw Hx. apply outcome_none; [done..|]. intros _. by left. Qed.

(** The scratch after the policy decided to measure. *)
Record to_measure (h : hook_call) (s : kstate) (sc : scratch_t) : Prop := ToMeasure {
  tm_scratch : wf_scratch sc;
  tm_asks : asks h (sc_policy_context sc);
  tm_decides : policy_decides s (sc_policy_context sc) (sc_policy_result sc);
  tm_skip : rs_skip (sc_policy_result sc) = false;
}.

Lemma to_measure_hex h s sc b : length b = 68%nat -> to_measure h s sc -> to_measure h s (with_digest_hex b sc).
Proof. intros Hb [[] ? ? ?]. by split. Qed.

Lemma to_measure_buf h s sc b : length b = 128%nat -> to_measure h s sc -> to_measure h s (with_buf b sc).
Proof. intros Hb [[] ? ? ?]. by split. Qed.

Lemma wp_decision pcr vs h path size flags sc (k : scratch_t -> K (Z * scratch_t)) s m :
  sys_inv pcr vs s -> wf_scratch sc -> hook_file_size h = size -> hook_flags h = flags ->
  call_path h (cstr (default [] path)) ->
  (forall m sc', to_measure h s sc' -> wp (k sc') (outcome pcr vs s (accounted h s)) (set_next m s)) ->
  wp (let* (decision, sc) := bpfima_policy_for_hook (hook_id h) path size flags sc in
      if truth decision then ret (lsm_result decision, sc) else k sc) (outcome pcr vs s (accounted h s)) (set_next m s).
Proof.
  intros Hi Hw <- <- Hpath Hk. apply wp_bind, (wp_policy_for_hook cur); [apply Hi|done|..].
  - intros m' r sc' Hr Hsc. destruct (truth r) eqn:Et; [|apply truth_false in Et; lia].
    rewrite set_next_set_next. by apply wp_ret, outcome_result, outcome_error.
  - intros m' r sc' Hsc (H1 & H2 & H3 & H4 & H5 & H6 & ->).
    assert (Ha : asks h (sc_policy_context sc')).
    { split_and!; try done. by rewrite H4. }
    rewrite set_next_set_next. destruct (rs_skip _) eqn:Es; cbn [truth Z.eqb negb].
    + change (lsm_result 1) with 0. apply wp_ret, outcome_unmeasured; [done|done|]. right; right. by do 2 eexists.
    + apply Hk. by split.
Qed.

(** The namespace that a measurement is recorded for. *)
Lemma wp_current_ns h sc (Q : option bytes -> kstate -> Prop) s0 s :
  to_measure h s0 sc ->
  (forall m ns, (helpers_ok cur -> submitted_ns ns = hook_namespace (sc_policy_result sc)) -> Q ns (set_next m s)) ->
  wp (bpfima_current_namespace sc) Q s.
Proof.
  intros Htm HQ. unfold bpfima_current_namespace. apply wp_bind, (wp_scratch cur). intros m [] Hb; cbn [negb]; apply wp_ret, HQ.
  - intros Hh. unfold hook_namespace, tracked. destruct (_ || _); [|reflexivity]. cbn [submitted_ns].
    destruct (tm_asks _ _ _ Htm) as (_ & _ & _ & _ & Hc). rewrite (proj2 (Hc Hh)). rewrite decide_False; [done|].
    unfold namespace_text. case_decide as Hd; [done|tauto].
  - intros Hh. by destruct (Hb eq_refl).
Qed.

Lemma wp_file_hash (Q : Z * bytes -> kstate -> Prop) s :
  (forall m algo n, (helpers_ok cur -> algo = HASH_ALGO_SHA256) -> Q (algo, ima_digest n) (set_next m s)) ->
  wp (bpf_ima_file_hash (zeros 32) 32) Q s.
Proof.
  intros HQ. unfold bpf_ima_file_hash. apply wp_bind, wp_call. change (in_area _ _ _) with true. cbn [negb].
  specialize (HQ (S (k_next s)) (fst (env_ima_file_hash (k_next s))) (k_next s) (fun Hh => ho_hash _ Hh _)).
  unfold ima_digest in HQ. destruct (env_ima_file_hash (k_next s)) as [algo d]. by apply wp_ret.
Qed.

Lemma ima_digest_length n : length (ima_digest n) = 32%nat.
Proof. unfold ima_digest. rewrite length_blit; [done|]. rewrite length_take, length_zeros. lia. Qed.

(** A recorded submission accounts for the call. *)
Lemma outcome_measured pcr vs h s m sc P ns r s' :
  to_measure h s sc -> outcome pcr vs (set_next m s) P r s' ->
  (P s' -> exists payload, recorded_for payload ns s s' /\ (helpers_ok cur -> hook_payload h (sc_policy_result sc) payload)) ->
  (helpers_ok cur -> ns = hook_namespace (sc_policy_result sc)) ->
  outcome pcr vs s (accounted h s) r s'.
Proof.
  intros [H1 H2 H3 H4] [O1 O2 O3 O4 O5 O6] HP Hns. split; auto. intros Hz.
  destruct (HP (O6 Hz)) as (p & Hp & Hh). right. do 2 eexists. exists p, ns. split_and!; eauto.
Qed.

(** ** The programs *)

Lemma wp_here {A} (f : K A) Q s : (forall m, wp f Q (set_next m s)) -> wp f Q s.
Proof. intros H. specialize (H (k_next s)). by rewrite set_next_eta in H. Qed.

(** A file's digest is submitted in hexadecimal. *)
Definition digest_tail (event : bytes) (sc : scratch_t) : K (Z * scratch_t) :=
  let* (hash_algo, digest) := bpf_ima_file_hash (zeros 32) 32 in
  if negb (hash_algo =? HASH_ALGO_SHA256) then ret (0, sc) else
  let* scratch := bpfima_scratch in
  if negb scratch then ret (0, sc) else
  let* (written, digest_hex) := bytes_to_hex_str digest 32 (sc_digest_hex sc) 68 in
  let sc := with_digest_hex digest_hex sc in
  if written <? 0 then ret (0, sc) else
  let* ns := bpfima_current_namespace sc in
  let* (rc, sc) := bpfima_submit_measurement (Some (MeasurementCtx (Some event) ns None (Some digest_hex) 64)) sc in
  let* _ := (if rc >=? 0 then bpfima_logging_enabled 2 sc else ret false) in
  ret (lsm_result rc, sc).

Lemma wp_log_if (c : bool) sc (Q : bool -> kstate -> Prop) s :
  (forall m b, Q b (set_next m s)) -> wp (if c then bpfima_logging_enabled 2 sc else ret false) Q s.
Proof. intros HQ. destruct c; [by apply (wp_logging cur)|]. apply wp_ret. by rewrite <- (set_next_eta s). Qed.

Lemma wp_digest_tail pcr vs h event sc s m :
  sys_inv pcr vs s -> to_measure h s sc ->
  (forall result n, hook_payload h result (hex (ima_digest n))) ->
  wp (digest_tail event sc) (outcome pcr vs s (accounted h s)) (set_next m s).
Proof.
  intros Hi Htm Hpay. unfold digest_tail. apply wp_bind, wp_file_hash. intros m1 algo n Halgo. rewrite set_next_set_next.
  pose proof (tm_scratch _ _ _ Htm) as Hw.
  destruct (Z.eqb_spec algo HASH_ALGO_SHA256); cbn [negb]; [|apply wp_ret, outcome_unmeasured; [done|done|naive_solver]].
  apply wp_bind, (wp_scratch cur). intros m2 b Hsc. rewrite set_next_set_next.
  destruct b; cbn [negb]; [|apply wp_ret, outcome_unmeasured; [done|done|naive_solver]].
  pose proof (ima_digest_length n) as Hd. pose proof (wsc_hex _ Hw) as Hh.
  apply wp_bind, (wp_bytes_to_hex _ 32); [lia|lia|lia|]. rewrite take_ge by lia. cbv zeta.
  change (Z.of_nat (2 * 32) <? 0) with false. cbv iota. set (text := filled _ _).
  assert (Hlt : length text = 68%nat).
  { unfold text. rewrite filled_length; [done|]. rewrite length_app, hex_length, Hh, Hd. cbn. lia. }
  apply (to_measure_hex _ _ _ text Hlt) in Htm. apply wp_bind, (wp_current_ns h _ _ s); [done|].
  intros m3 ns Hns. rewrite set_next_set_next. apply wp_bind.
  eapply wp_mono; [apply (wp_submit cur pcr vs)|].
  { apply (sys_inv_called pcr vs s); [apply called_next|done]. }
  { apply Htm. }
  { cbn [mc_additional_data mc_additional_data_len]. rewrite Hlt. done. }
  intros [rc sc'] s' Ho. apply wp_bind, wp_log_if. intros m4 b. apply wp_ret, outcome_result.
  eapply outcome_measured; [exact Htm|apply outcome_after; [exact Ho|done]| |exact Hns].
  intros Hs. exists (hex (ima_digest n)). split; [|by intros _].
  unfold submits, submitted_payload in Hs. cbn [mc_additional_data_len mc_additional_data mc_dependencies mc_namespace_id default from_option] in Hs.
  unfold id, text, filled in Hs. rewrite <- !app_assoc, take_app_length', !app_nil_r in Hs; [done|]. rewrite hex_length. lia.
Qed.

(** Path lookups do not change the state. *)
Lemma wp_d_path size (Q : Z * bytes -> kstate -> Prop) s :
  (0 < size)%nat -> (forall m rc b, length b = size -> (0 <= rc -> full_path (cstr b)) -> Q (rc, b) (set_next m s)) ->
  wp (bpf_d_path (zeros size) (Z.of_nat size)) Q s.
Proof.
  intros Hs HQ. unfold bpf_d_path. apply wp_bind, wp_call.
  assert (Ha : in_area (zeros size) 0 (Z.of_nat size) = true).
  { unfold in_area. rewrite length_zeros, !andb_true_iff, !Z.leb_le, Z.ltb_lt. lia. }
  rewrite Ha. cbn [negb].
  assert (Hf : forall n, length (probe_failed n (zeros size) 0 (Z.of_nat size)) = size).
  { intros n. unfold probe_failed. rewrite length_blit, length_zeros; [done|]. rewrite length_take, length_zeros. cbn. lia. }
  destruct (env_d_path _) as [e|path] eqn:Ed.
  { apply wp_ret, HQ; [done|]. destruct (Z.ltb_spec e 0); lia. }
  rewrite Z.gtb_ltb. destruct (Z.ltb_spec (Z.of_nat size) (Z.of_nat (length (cstr path)) + 1)); apply wp_ret, HQ.
  - done.
  - lia.
  - rewrite length_blit, length_zeros; [done|]. rewrite length_app, length_zeros. cbn. lia.
  - intros _. exists (k_next s), path. split; [done|]. unfold blit. rewrite take_0, app_nil_l, <- app_assoc.
    apply cstr_app_nul, cstr_nul_free.
Qed.

Lemma wp_mmap_file pcr vs f prot sc s :
  sys_inv pcr vs s -> wf_scratch sc ->
  wp (bpf_mmap_file f prot 0 sc) (outcome pcr vs s (accounted (MmapFile f prot) s)) s.
Proof.
  intros Hi Hw. apply wp_here. intros m0. unfold bpf_mmap_file. cbn [Z.eqb negb].
  destruct f as [f|]; [|apply wp_ret, outcome_unmeasured; [done|done|]; left; by left].
  destruct (match f_inode f with Some i => _ | None => _ end) eqn:Ereg.
  { apply wp_ret, outcome_unmeasured; [done|done|]. left. right. exists f. destruct f as [[i|] mode name]; [|done].
    split_and!; try done. intros (i' & ? & ? & [= -> <- <-] & Hr). cbn in Ereg. by rewrite Hr in Ereg. }
  apply wp_bind, (wp_d_path 256); [lia|]. intros m rc path _ Hpath. rewrite set_next_set_next.
  destruct (Z.ltb_spec rc 0); [by apply wp_ret, outcome_error|]. cbv zeta.
  apply (wp_decision pcr vs (MmapFile (Some f) prot)); [done|done| | |by apply Hpath|].
  - by destruct f as [[]].
  - unfold hook_flags, request_flags. by destruct (truth (Z.land prot 4)), (truth (Z.land (f_mode f) 2)).
  - intros m' sc' Htm. apply wp_digest_tail; [done|done|]. intros result n. by exists n.
Qed.

(** A string read over a buffer. *)
Lemma wp_read_over b size src (Q : Z * bytes -> kstate -> Prop) s :
  length b = size -> (0 < size)%nat ->
  (forall m rc b', (helpers_ok cur -> cstr b' = take (size - 1) (cstr src)) -> Q (rc, b') (set_next m s)) ->
  wp (bpf_probe_read_kernel_str b 0 (Z.of_nat size) src) Q s.
Proof.
  intros Hb Hs HQ. apply (wp_probe_str [] b); [done|lia|..].
  - intros n rc rest _ Hno _. apply HQ. intros Hh. destruct Hno. apply Hh.
  - intros n rest x _ Hz. destruct rest as [|y rest]; [done|]. injection Hz as ->. apply HQ. intros _.
    unfold x. rewrite app_nil_l, cstr_app_nul by apply nul_free_take, cstr_nul_free. f_equal. lia.
Qed.

(** The path of an opened file: its full path, or the name of its entry. *)
Lemma wp_open_path (f : file) rc b (Q : option bytes -> kstate -> Prop) s :
  length b = 256%nat -> (0 <= rc -> full_path (cstr b)) -> (forall m, f_dentry_name f = None -> Q None (set_next m s)) ->
  (forall m b' mask, call_path (FilePostOpen (Some f) mask) (cstr b') -> Q (Some b') (set_next m s)) ->
  wp (if rc <? 0 then
        match f_dentry_name f with
        | None => ret None
        | Some name => let* (_, filepath) := bpf_probe_read_kernel_str b 0 256 name in ret (Some filepath)
        end
      else ret (Some b)) Q s.
Proof.
  intros Hb Hp Hn Hs. apply wp_here. intros m. destruct (Z.ltb_spec rc 0).
  2:{ apply wp_ret, (Hs _ _ 0). left. by apply Hp. }
  destruct (f_dentry_name f) as [name|] eqn:En; [|by apply wp_ret, Hn].
  apply wp_bind, (wp_read_over b 256); [done|lia|]. intros m' r b' Hb'. rewrite set_next_set_next.
  apply wp_ret, (Hs _ _ 0). right. by exists name.
Qed.

Lemma wp_file_post_open pcr vs f mask sc s :
  sys_inv pcr vs s -> wf_scratch sc ->
  wp (lsm_file_post_open f mask 0 sc) (outcome pcr vs s (accounted (FilePostOpen f mask) s)) s.
Proof.
  intros Hi Hw. apply wp_here. intros m0. unfold lsm_file_post_open. cbn [Z.eqb negb].
  assert (Hex : forall m, exempt (FilePostOpen f mask) ->
    wp (ret (0, sc)) (outcome pcr vs s (accounted (FilePostOpen f mask) s)) (set_next m s)).
  { intros m He. apply wp_ret, outcome_unmeasured; auto. }
  destruct (truth (Z.land mask 4)) eqn:Em; cbn [negb]; [|apply Hex; by left].
  destruct f as [f|]; [|apply Hex; right; left; by intros (? & ? & ? & ? & ?)].
  apply wp_bind, (wp_d_path 256); [lia|]. intros m rc b Hb Hfull. rewrite set_next_set_next.
  apply wp_bind, wp_open_path; [done|done|..].
  { intros m1 Hn. rewrite set_next_set_next. apply Hex. right; right. exists f. tauto. }
  intros m1 path any Hpath. rewrite set_next_set_next.
  destruct f as [[i|] mode name]; cbn [f_inode f_mode]; [|apply Hex; right; left; by intros (? & ? & ? & ? & ?)].
  destruct (S_ISREG (i_mode i)) eqn:Er; cbn [negb].
  2:{ apply Hex. right; left. intros (i' & ? & ? & [= -> <- <-] & Hr). congruence. }
  destruct (truth (Z.land mode 1)) eqn:E1; cbn [negb]; [|apply Hex; right; right; eexists; split; [done|tauto]].
  destruct (truth (Z.land mode 2)) eqn:E2; [apply Hex; right; right; eexists; split; [done|tauto]|].
  apply (wp_decision pcr vs (FilePostOpen (Some (File (Some i) mode name)) mask)); [done..| |done|].
  - unfold hook_flags, request_flags. by destruct (truth (Z.land mask 1)).
  - intros m2 sc' Htm. apply wp_bind, (wp_logging cur). intros m3 x. rewrite set_next_set_next.
    apply wp_digest_tail; [done|done|]. intros result n. by exists n.
Qed.

Lemma wp_inode_setattr pcr vs name attr sc s :
  sys_inv pcr vs s -> wf_scratch sc ->
  wp (bpf_inode_setattr name attr 0 sc) (outcome pcr vs s (accounted (InodeSetattr name attr) s)) s.
Proof.
  intros Hi Hw. apply wp_here. intros m0. unfold bpf_inode_setattr. cbn [Z.eqb negb].
  assert (Hex : forall m sc, wf_scratch sc -> exempt (InodeSetattr name attr) \/ ~ helpers_ok cur ->
    wp (ret (0, sc)) (outcome pcr vs s (accounted (InodeSetattr name attr) s)) (set_next m s)).
  { intros m sc' Hsc He. apply wp_ret, outcome_unmeasured; tauto. }
  destruct name as [name|]; [|apply Hex; [done|]; left; by left].
  destruct attr as [attr|]; [|apply Hex; [done|]; left; right; by left].
  apply (wp_decision pcr vs (InodeSetattr (Some name) (Some attr))); [done..|].
  intros m1 sc' Htm. apply wp_bind. eapply wp_mono; [by apply wp_build_attributes|].
  intros [len b] s' ([m2 ->] & Hb & Hcase). rewrite set_next_set_next. cbn [fst snd] in *.
  destruct (Z.leb_spec len 0).
  { apply Hex; [apply Htm|]. destruct Hcase as [[-> Hp]|(_ & -> & _)].
    - destruct (decide (64 <= Z.of_nat (length (concat (attr_parts attr))))) as [Hl|Hl].
      + left; right; right. exists attr. tauto.
      + right. intros Hh. apply Hl, Hp, Hh.
    - left; right; right. exists attr. split; [done|]. left. apply length_zero_iff_nil. lia. }
  destruct Hcase as [[-> _]|(Hsize & -> & Hc)]; [lia|].
  apply wp_bind, (wp_current_ns _ _ _ s _ Htm). intros m3 ns Hns. rewrite set_next_set_next.
  assert (Hpre : take (length (attributes_text attr)) b = attributes_text attr).
  { rewrite <- Hc at 1. pose proof (cstr_prefix b) as [r Hr]. rewrite Hr at 2. rewrite take_app_length. by rewrite Hc. }
  apply wp_bind. eapply wp_mono; [apply (wp_submit cur pcr vs)|].
  { apply (sys_inv_called pcr vs s); [apply called_next|done]. }
  { apply Htm. }
  { cbn. rewrite <- Hpre, length_take. lia. }
  intros [rc sc2] s' Ho. apply wp_ret, outcome_result.
  eapply outcome_measured; [exact Htm|exact Ho| |exact Hns].
  intros Hs. exists (attributes_text attr). split; [|intros _; by exists attr].
  unfold submits, submitted_payload in Hs.
  cbn [mc_additional_data_len mc_additional_data mc_dependencies mc_namespace_id default from_option] in Hs.
  unfold id in Hs. by rewrite Nat2Z.id, Hpre, !app_nil_r in Hs.
Qed.

Lemma wp_get_policy sc (Q : option bpfima_policy_config -> kstate -> Prop) s :
  (forall m p, (helpers_ok cur -> p = Some (rs_config (sc_policy_result sc))) -> Q p (set_next m s)) ->
  wp (bpfima_get_policy sc) Q s.
Proof.
  intros HQ. unfold bpfima_get_policy. apply wp_bind, (wp_scratch cur). intros m b Hb. apply wp_ret, HQ.
  intros Hh. destruct b; [done|]. by destruct (Hb eq_refl).
Qed.

Lemma wp_current_task (Q : option nat -> kstate -> Prop) s :
  (forall m t, (helpers_ok cur -> t = Some cur) -> Q t (set_next m s)) -> wp bpf_get_current_task_btf Q s.
Proof. intros HQ. apply wp_bind, wp_call, wp_ret, HQ. intros Hh. apply Hh. Qed.

Lemma wp_bprm_check pcr vs bprm sc s :
  sys_inv pcr vs s -> wf_scratch sc ->
  wp (lsm_bprm_check_security bprm 0 sc) (outcome pcr vs s (accounted (BprmCheckSecurity bprm) s)) s.
Proof.
  intros Hi Hw. apply wp_here. intros m0. unfold lsm_bprm_check_security. cbn [Z.eqb negb].
  destruct bprm as [b|]; [|apply wp_ret, outcome_unmeasured; [done|done|]; left; by left].
  apply wp_bind, wp_current_task. intros m1 task Htask. rewrite set_next_set_next.
  destruct (bprm_file b) as [f|] eqn:Ef.
  2:{ apply wp_ret, outcome_unmeasured; [done|done|]. left; right. by exists b. }
  apply (wp_decision pcr vs (BprmCheckSecurity (Some b))); [done..| |done|done|].
  { cbn. rewrite Ef. by destruct f as [[]]. }
  intros m2 sc' Htm. apply wp_bind, wp_get_policy. intros m3 policy Hpol. rewrite set_next_set_next.
  apply wp_bind, (wp_current_ns _ _ _ s _ Htm). intros m4 ns Hns. rewrite set_next_set_next.
  apply wp_bind, wp_file_hash. intros m5 algo n Halgo. rewrite set_next_set_next.
  destruct (Z.eqb_spec algo HASH_ALGO_SHA256); cbn [negb].
  2:{ apply wp_ret, outcome_unmeasured; [done|apply Htm|naive_solver]. }
  apply wp_bind. eapply wp_mono; [apply (wp_measure_file cur pcr vs)|].
  { apply (sys_inv_called pcr vs s); [apply called_next|done]. }
  { apply Htm. }
  { apply ima_digest_length. }
  intros [rc sc2] s' Ho. assert (Hdone : outcome pcr vs s (accounted (BprmCheckSecurity (Some b)) s) (rc, sc2) s').
  { eapply outcome_measured; [exact Htm|exact Ho| |exact Hns]. intros (deps & Hdeps & Hrec).
    eexists. split; [exact Hrec|]. intros Hh. exists b, n. split; [done|].
    by rewrite (Hdeps Hh), (Hpol Hh), (Htask Hh). }
  destruct (Z.ltb_spec rc 0); [by apply wp_ret, outcome_result|].
  pose proof (oc_rc _ _ _ _ _ _ Hdone). cbn in *. replace rc with 0 in Hdone by lia. by apply wp_ret.
Qed.

(** The text of the connection in its buffer of 64 bytes, and the number of
    bytes that are measured. *)
Lemma wp_socket_data sk a (Q : Z * bytes -> kstate -> Prop) s :
  (forall m n data, (n <= 63)%nat -> length data = 64%nat ->
     (helpers_ok cur -> take n data = take 63 (connection_text sk a)) -> Q (Z.of_nat n, data) (set_next m s)) ->
  wp (socket_data sk a) Q s.
Proof.
  intros HQ. unfold socket_data, build_socket_additional_data.
  cbn [sa_additional_data sa_buf_size Z.leb Z.compare sa_saddr sa_sport sa_daddr sa_dport].
  fold (connection_text sk a). set (text := connection_text sk a) in *.
  unfold bpf_snprintf. apply wp_bind, wp_bind, wp_bind, wp_call. change (in_area _ _ _) with true. cbn [negb].
  destruct (Z.ltb_spec (env_snprintf (k_next s)) 0) as [Hf|Hf].
  { apply wp_ret, wp_ret. destruct (Z.gtb_spec (env_snprintf (k_next s)) 0); [lia|]. apply wp_bind, wp_ret, wp_ret.
    apply (HQ _ 0%nat); [lia|done|]. intros Hh. pose proof (ho_prints _ Hh (k_next s)). lia. }
  change (Z.to_nat (64 - 1)) with 63%nat. apply wp_ret, wp_ret. cbn [default from_option id].
  destruct (Z.gtb_spec (Z.of_nat (length text) + 1) 0); [|lia].
  set (x := take 63 text). assert (Hx : length x = Nat.min 63 (length text)) by apply length_take.
  assert (Hn : (if Z.of_nat (length text) + 1 >? 64 then 63 else Z.of_nat (length text) + 1 - 1) = Z.of_nat (length x)).
  { rewrite Hx. destruct (Z.gtb_spec (Z.of_nat (length text) + 1) 64); lia. }
  rewrite Hn. assert (Hbl : blit (zeros 64) 0 (x ++ [NUL]) = filled x (zeros 64)).
  { unfold blit, filled. rewrite take_0, app_nil_l, length_app, <- app_assoc. cbn [length Nat.add].
    f_equal. replace (length x + 1)%nat with (S (length x)) by lia. symmetry. apply drop_S.
    apply lookup_replicate. split; [done|lia]. }
  rewrite Hbl. apply wp_bind, wp_put_filled; [done|rewrite length_zeros; lia|]. apply wp_ret, HQ.
  - lia.
  - rewrite filled_length, ?length_zeros; [done|]. rewrite length_app, length_zeros, Hx. cbn [length]. lia.
  - intros _. unfold filled. rewrite <- app_assoc. apply take_app_length.
Qed.

Lemma wp_socket_path a addrlen (Q : option bytes -> kstate -> Prop) s :
  length (sun_path a) = 108%nat -> (forall m, ~ helpers_ok cur -> Q None (set_next m s)) ->
  (forall m p, Q (Some p) (set_next m s)) -> wp (socket_path a addrlen) Q s.
Proof.
  intros Hl Hn HQ. apply wp_here. intros m0. unfold socket_path. cbv zeta. destruct (_ =? AF_INET).
  { apply wp_bind, wp_current_task. intros m t Ht. rewrite set_next_set_next.
    destruct t; [|apply wp_ret, Hn; intros Hh; by specialize (Ht Hh)].
    apply wp_bind, wp_call. rewrite set_next_set_next. destruct (env_exe_file _) eqn:Ee; cbn [negb].
    - apply wp_bind, (wp_d_path 108); [lia|]. intros m2 rc p _ _. rewrite set_next_set_next. apply wp_ret, HQ.
    - apply wp_ret, Hn. intros Hh. pose proof (ho_exe _ Hh (k_next (set_next m s))). congruence. }
  destruct (_ =? AF_UNIX); [|apply wp_ret, HQ]. set (n := Z.land _ _).
  destruct (Z.gtb_spec n 0) as [Hn0|]; cbn [andb]; [|apply wp_ret, HQ].
  destruct (Z.ltb_spec n 108) as [Hn1|]; [|apply wp_ret, HQ].
  unfold bpf_probe_read_kernel. apply wp_bind, wp_bind, wp_call. rewrite set_next_set_next.
  assert (Ha : in_area (zeros 108) 0 n = true).
  { unfold in_area. rewrite length_zeros, !andb_true_iff, !Z.leb_le, Z.ltb_lt. lia. }
  rewrite Ha. cbn [negb].
  assert (Hset : forall p, length p = 108%nat -> forall Q' s', (forall p', Q' p' s') -> wp (deref (buf_set p n NUL)) Q' s').
  { intros p Hp Q' s' H'. apply wp_deref. eexists. split; [|apply H']. unfold buf_set. rewrite Hp.
    destruct (Z.leb_spec 0 n); [|lia]. destruct (Z.ltb_spec n (Z.of_nat 108)); [done|lia]. }
  destruct (env_probe _ <? 0).
  - apply wp_ret, wp_bind, Hset; [|intros p'; apply wp_ret, HQ].
    unfold probe_failed. rewrite length_blit; [done|]. rewrite length_take, length_zeros. lia.
  - rewrite Hl. destruct (Z.ltb_spec (Z.of_nat 108) n); [lia|]. apply wp_ret, wp_bind, Hset; [|intros p'; apply wp_ret, HQ].
    rewrite length_blit; [done|]. rewrite length_take, length_zeros. lia.
Qed.

(** The dependencies of a connection. *)
Lemma wp_socket_deps deps path task policy (Q : Z * bytes -> kstate -> Prop) s :
  length deps = 128%nat -> cstr deps = [] -> (helpers_ok cur -> task = Some cur) ->
  (forall m n b, 0 <= n -> length b = 128%nat ->
     (helpers_ok cur -> cstr b = wanted_deps policy (Some path) (Some cur)) -> Q (n, b) (set_next m s)) ->
  wp (if wants_deps policy then build_dependencies deps 128 (Some path) task (deps_depth policy) else ret (0, deps)) Q s.
Proof.
  intros Hl Hc Ht HQ. unfold wanted_deps in HQ. rewrite !bool_decide_eq_true_2 in HQ by done. cbn [andb] in HQ.
  destruct (wants_deps policy).
  - eapply wp_mono; [by apply wp_build_dependencies|]. intros [n b] s' ([m ->] & Hb & Hn & _ & Htext).
    cbn [fst snd] in *. apply HQ; [lia|done|]. intros Hh. rewrite <- (Ht Hh). by apply Htext, Hh.
  - apply wp_ret. rewrite <- (set_next_eta s). by apply HQ.
Qed.

Lemma wp_socket_connect pcr vs sk address addrlen sc s :
  sys_inv pcr vs s -> wf_scratch sc -> wf_call (SocketConnect sk address addrlen) ->
  wp (bpf_socket_connect sk address addrlen 0 sc) (outcome pcr vs s (accounted (SocketConnect sk address addrlen) s)) s.
Proof.
  intros Hi Hw Hwf. apply wp_here. intros m0. unfold bpf_socket_connect. cbn [Z.eqb negb].
  assert (Hex : forall m sc, wf_scratch sc -> exempt (SocketConnect sk address addrlen) \/ ~ helpers_ok cur ->
    wp (ret (0, sc)) (outcome pcr vs s (accounted (SocketConnect sk address addrlen) s)) (set_next m s)).
  { intros m sc' Hsc He. apply wp_ret, outcome_unmeasured; tauto. }
  destruct address as [a|]; [|apply Hex; [done|]; left; right; by left].
  destruct (negb _ && _) eqn:Efam.
  { apply andb_true_iff in Efam as [E1%negb_true_iff E2%negb_true_iff]. apply Z.eqb_neq in E1, E2.
    apply Hex; [done|]. left; right; right. by exists a. }
  apply wp_bind, (wp_scratch cur). intros m1 b Hb. rewrite set_next_set_next.
  destruct b; cbn [negb]; [|apply Hex; [done|right; by apply Hb]].
  assert (Hw' : wf_scratch (with_buf (zeros 128) sc)) by (split; [done|apply Hw]). cbv zeta.
  destruct sk as [k|]; [|apply Hex; [done|]; left; by left].
  apply wp_bind, wp_socket_data. intros m2 n data Hn Hd Hdata. rewrite set_next_set_next.
  apply wp_bind, wp_socket_path; [done|intros m3 Hno; rewrite set_next_set_next; apply Hex; [done|by right]|].
  intros m3 path. rewrite set_next_set_next. apply wp_bind, wp_current_task. intros m4 task Htask. rewrite set_next_set_next.
  apply (wp_decision pcr vs (SocketConnect (Some k) (Some a) addrlen)); [done..|].
  intros m5 sc1 Htm. apply wp_bind, wp_get_policy. intros m6 policy Hpol. rewrite set_next_set_next.
  apply wp_bind, (wp_current_ns _ _ _ s _ Htm). intros m7 ns Hns. rewrite set_next_set_next.
  apply wp_bind, wp_clear_buf; [apply Htm|]. intros deps0 Hl0 Hc0.
  apply wp_bind, wp_socket_deps; [done|done|done|]. intros m8 nd deps Hnd Hl Hdeps. rewrite set_next_set_next.
  apply (to_measure_buf _ _ _ deps Hl) in Htm.
  apply wp_bind. eapply wp_mono; [apply (wp_measure_socket cur pcr vs _ _ _ _ _ _ (wanted_deps policy (Some path) (Some cur)))|].
  { apply (sys_inv_called pcr vs s); [apply called_next|done]. }
  { apply Htm. }
  { done. }
  { done. }
  { lia. }
  intros [rc sc2] s' Ho.
  assert (Hdone : outcome pcr vs s (accounted (SocketConnect (Some k) (Some a) addrlen) s) (rc, sc2) s').
  { eapply outcome_measured; [exact Htm|exact Ho| |exact Hns]. intros (d & Htext & Hrec).
    eexists. split; [exact Hrec|]. intros Hh. exists k, a, path. rewrite Nat2Z.id. split; [done|]. split; [done|].
    by rewrite (Htext Hh), (Hdata Hh), (Hpol Hh). }
  destruct (Z.ltb_spec rc 0) as [Hneg|].
  - apply outcome_result in Hdone. unfold lsm_result in Hdone. destruct (Z.gtb_spec rc 0); [lia|]. by apply wp_ret.
  - pose proof (oc_rc _ _ _ _ _ _ Hdone). cbn in *. replace rc with 0 in Hdone by lia. by apply wp_ret.
Qed.

Lemma wp_run_hook pcr vs h sc s :
  sys_inv pcr vs s -> wf_scratch sc -> wf_call h -> wp (run_hook h 0 sc) (outcome pcr vs s (accounted h s)) s.
Proof.
  intros Hi Hw Hc. destruct h; cbn [run_hook].
  - by apply wp_mmap_file.
  - by apply wp_file_post_open.
  - by apply wp_inode_setattr.
  - by apply wp_bprm_check.
  - by apply wp_socket_connect.
Qed.

(** An earlier refusal stands. *)
Lemma wp_refused pcr vs h previous_ret sc s (P : kstate -> Prop) :
  previous_ret <> 0 ->
  wp (run_hook h previous_ret sc) (fun r s' =>
    (previous_ret <> 0 -> r = (previous_ret, sc) /\ s' = s) /\
    (previous_ret = 0 -> outcome pcr vs s P r s')) s.
Proof.
  intros Hne. apply Z.eqb_neq in Hne as Hb.
  destruct h; cbn [run_hook]; unfold bpf_mmap_file, lsm_file_post_open, bpf_inode_setattr, lsm_bprm_check_security, bpf_socket_connect;
    rewrite Hb; cbn [negb]; by apply wp_ret.
Qed.

(** C7: Nothing passes unmeasured. Each of the five LSM programs, called in any
    consistent state of the module, returns without a fault and leaves the
    module consistent, with the log only longer and the policy untouched. An
    earlier refusal is returned unchanged and has no effect. Otherwise the
    result is 0 or an error, an error records nothing, and when the operation
    is allowed either nothing was recorded because the call is exempt, a
    helper failed or the active policy decided to skip it, or exactly one
    digest was recorded: of the text that the program measures, for the
    container of the task when the policy tracks containers. *)
Theorem hooks_accounted pcr vs h previous_ret sc s :
  sys_inv pcr vs s -> wf_scratch sc -> wf_call h ->
  wp (run_hook h previous_ret sc) (fun r s' =>
    (previous_ret <> 0 -> r = (previous_ret, sc) /\ s' = s) /\
    (previous_ret = 0 -> outcome pcr vs s (accounted h s) r s')) s.
Proof.
  intros Hi Hw Hc. destruct (decide (previous_ret = 0)) as [->|Hne].
  - eapply wp_mono; [by apply (wp_run_hook pcr vs)|]. intros r s' Ho. by split.
  - by apply wp_refused.
Qed.
End HooksSpec.

(** ** Programs and entry points interleaved *)

(** An event: an entry point of the module, or a program that some task runs,
    with whatever its helpers answer and whatever its scratch holds. *)
Inductive event :=
  | Entry (e : entry)
  | Program (B : BpfEnv) (h : hook_call) (previous_ret : Z) (sc : scratch_t).

Section World.
Context {E : KernelEnv}.

Definition run_event (ev : event) : K Z :=
  match ev with
  | Entry e => run_entry e;; ret 0
  | Program B h previous_ret sc => let* (rc, _) := run_hook (B := B) h previous_ret sc in ret rc
  end.

Definition event_ok (ev : event) (s : kstate) : Prop :=
  match ev with
  | Entry e => entry_ok e s
  | Program _ h _ sc => wf_call h /\ wf_scratch sc
  end.

Inductive world : kstate -> list event -> kstate -> Prop :=
  | world_nil s : world s [] s
  | world_cons s ev rc s1 evs s2 :
      event_ok ev s -> run_event ev s = Some (rc, s1) -> world s1 evs s2 -> world s (ev :: evs) s2.

Context {L : KernelLaws E}.

Lemma accounted_grows (B : BpfEnv) cur h s s' : accounted cur h s s' -> seen s ⊆ seen s'.
Proof. intros [[-> _]|(c & r & p & ns & _ & _ & _ & Hr & _)]; [done|]. unfold recorded_for in Hr. set_solver. Qed.

Lemma event_step pcr vs ev s :
  sys_inv pcr vs s -> event_ok ev s ->
  wp (run_event ev) (fun _ s' => (exists ws, sys_inv pcr (vs ++ ws) s') /\ seen s ⊆ seen s') s.
Proof.
  intros Hi Hok. destruct ev as [e|B h prev sc]; cbn [run_event event_ok] in *.
  - apply wp_bind. eapply wp_mono; [by apply (entry_step_grows pcr vs)|]. intros [] s' H. by apply wp_ret.
  - destruct Hok as [Hc Hw]. apply wp_bind. destruct (decide (prev = 0)) as [->|Hne].
    + eapply wp_mono; [by apply (wp_run_hook 0 pcr vs)|]. intros [rc sc'] s' Ho. apply wp_ret. split; [apply Ho|].
      destruct (decide (rc = 0)) as [->|Hr]; [exact (accounted_grows _ _ _ _ _ (oc_allowed _ _ _ _ _ _ Ho eq_refl))|].
      by rewrite (oc_error _ _ _ _ _ _ Ho Hr).
    + eapply wp_mono; [by apply (wp_refused pcr vs _ _ _ _ (fun _ => True))|]. intros [rc sc'] s' [Hr _]. destruct (Hr Hne) as [_ ->].
      apply wp_ret. split; [|done]. exists []. by rewrite app_nil_r.
Qed.

Lemma world_inv pcr vs s evs s' :
  sys_inv pcr vs s -> world s evs s' -> (exists ws, sys_inv pcr (vs ++ ws) s') /\ seen s ⊆ seen s'.
Proof.
  intros Hi Hs. revert vs Hi. induction Hs as [s|s ev rc s1 evs s2 Hok Hrun _ IH]; intros vs Hi.
  - split; [|done]. exists []. by rewrite app_nil_r.
  - pose proof (event_step pcr vs ev s Hi Hok) as Hw. unfold wp in Hw. rewrite Hrun in Hw.
    destruct Hw as [[ws1 Hi1] Hg]. destruct (IH _ Hi1) as [[ws2 Hi2] Hg2]. split; [|by etrans].
    exists (ws1 ++ ws2). by rewrite app_assoc.
Qed.

(** C8: A measurement is never forgotten. In any interleaving of programs and
    entry points, when a program whose helpers succeed allows an operation
    that is not exempt and that the active policy does not skip, the digest
    of what it measures is recorded from then on, whatever runs later, and
    the log stays anchored. *)
Theorem measured_forever (B : BpfEnv) cur pcr vs s0 evs1 s h sc sc' s1 evs2 s2 :
  sys_inv pcr vs s0 -> world s0 evs1 s -> wf_call h -> wf_scratch sc ->
  run_hook h 0 sc s = Some ((0, sc'), s1) -> helpers_ok cur -> ~ exempt h -> ~ skipped cur h s ->
  world s1 evs2 s2 ->
  exists context result payload ws, asks cur h context /\ policy_decides s context result /\
    hook_payload cur h result payload /\
    (sha256 payload, hook_namespace cur result) ∈ seen s2 /\ sys_inv pcr (vs ++ ws) s2.
Proof.
  intros Hi H1 Hc Hw Hrun Hh Hex Hskip H2.
  destruct (world_inv _ _ _ _ _ Hi H1) as [[ws1 Hi1] _].
  pose proof (wp_run_hook cur pcr (vs ++ ws1) h sc s Hi1 Hw Hc) as Ho. unfold wp in Ho. rewrite Hrun in Ho.
  destruct (oc_inv _ _ _ _ _ _ Ho) as [ws2 Hi2]. destruct (world_inv _ _ _ _ _ Hi2 H2) as [[ws3 Hi3] Hg].
  destruct (oc_allowed _ _ _ _ _ _ Ho eq_refl) as [[_ Hx]|(c & r & p & ns & Ha & Hd & _ & Hr & Hok)]; [tauto|].
  destruct (Hok Hh) as (-> & Hp). exists c, r, p, (ws1 ++ ws2 ++ ws3). split_and!; try done.
  - apply Hg. unfold recorded_for in Hr. set_solver.
  - by rewrite !app_assoc in *.
Qed.
End World.

(** ** Witnesses *)

Definition sample_scratch : scratch_t :=
  Scratch (zeros 128) (zeros 68) (MeasurementRequest [] [] [] [] 0 0) (PolicyContext [] [] [] 0 0 0)
    (PolicyResult 0 (PolicyConfig 0 0 0 0 0 0 0 0 0) (HookConfig 0 0 0 0) false).

Lemma sample_scratch_wf : wf_scratch sample_scratch.
Proof. by split. Qed.

Lemma sample_helpers_ok : helpers_ok (B := sample_bpf) 1.
Proof. split; try done; intros n; cbn; lia. Qed.

(** A change of mode and owner of [/srv/key]. *)
Definition sample_call : hook_call := InodeSetattr (Some (Some (lit "/srv/key" ++ [NUL]))) (Some sample_attr).

Lemma hooks_accounted_witness :
  wf_call sample_call /\
  wp (run_hook (E := tpm_env) (B := sample_bpf) sample_call 0 sample_scratch) (fun r _ => fst r <= 0) sample_state.
Proof.
  split; [exact I|].
  eapply wp_mono; [exact (hooks_accounted (E := tpm_env) (B := sample_bpf) 1 (zeros MERKLE_HASH_SIZE) [] sample_call 0
    sample_scratch sample_state sample_sys_inv sample_scratch_wf I)|].
  intros r s' [_ H]. exact (oc_rc _ _ _ _ _ _ (H eq_refl)).
Defined.

(** What the sample call asks. *)
Definition sample_asked : bpfima_policy_context :=
  PolicyContext (lit "web") (lit "web") (lit "/srv/key") 0 HOOK_LSM_INODE_SETATTR 0.

(** Bind the policy map, then run the sample call: allowed, and the default
    policy does not skip it. *)
Definition sample_allowed (r : option (Z * kstate)) : bool :=
  match r with
  | Some (_, s) =>
      match policy_view s with
      | Some st => negb (rs_skip (resolve_decision (st_generation st) (rec_snapshot (record_at st 0))
          (extension_of st (namespace_index st (Some (cx_namespace_id sample_asked)))) sample_asked))
      | None => false
      end &&
      match run_hook (E := tpm_env) (B := sample_bpf) sample_call 0 sample_scratch s with
      | Some (rc, _, _) => rc =? 0
      | None => false
      end
  | None => false
  end.

Lemma sample_allowed_ok : sample_allowed (run_event (E := tpm_env) (Entry (BindMap 3)) sample_state) = true.
Proof. by vm_compute. Qed.

Lemma sample_allowed_run r :
  sample_allowed r = true ->
  exists rc s sc' s1, r = Some (rc, s) /\ ~ skipped (B := sample_bpf) 1 sample_call s /\
    run_hook (E := tpm_env) (B := sample_bpf) sample_call 0 sample_scratch s = Some ((0, sc'), s1).
Proof.
  destruct r as [[rc s]|]; [|done]. cbn [sample_allowed]. intros [Hs Hr]%andb_true_iff.
  destruct (run_hook _ _ _ s) as [[[rc' sc'] s1]|] eqn:Erun; [|done]. apply Z.eqb_eq in Hr as ->.
  exists rc, s, sc', s1. split; [done|]. split; [|exact Erun].
  intros (c & res & (H1 & H2 & H3 & H4 & H5) & Hd & Hskip). destruct (H5 sample_helpers_ok) as [Hcg Hns].
  assert (Hctx : same_context c sample_asked).
  { split; [by rewrite Hns|]. split; [by rewrite Hcg|]. split; [by rewrite H4|]. done. }
  destruct (policy_decides_ext (E := tpm_env) s c sample_asked res Hctx Hd) as (st & Hv & ->). rewrite Hv in Hs.
  by rewrite Hskip in Hs.
Qed.

Lemma sample_not_exempt : ~ exempt sample_call.
Proof.
  assert (H1 : bool_decide (attributes_text sample_attr = []) = false) by by vm_compute.
  assert (H2 : bool_decide (64 <= Z.of_nat (length (concat (attr_parts sample_attr)))) = false) by by vm_compute.
  apply bool_decide_eq_false in H1, H2.
  intros [H|[H|(a & Ha & H)]]; [discriminate H|discriminate H|]. apply (inj Some) in Ha. subst a. tauto.
Qed.

Lemma measured_forever_witness :
  exists s2 ws payload ns, sys_inv (E := tpm_env) (zeros MERKLE_HASH_SIZE) ws s2 /\
    payload = lit "mode=33188,uid=1000" /\ (sha256 (KernelEnv := tpm_env) payload, ns) ∈ seen s2.
Proof.
  destruct (sample_allowed_run _ sample_allowed_ok) as (rc & s & sc' & s1 & Hbind & Hskip & Hrun).
  assert (H1 : world (E := tpm_env) sample_state [Entry (BindMap 3)] s).
  { eapply world_cons; [exact sample_fd_ok|exact Hbind|constructor]. }
  destruct (measured_forever (E := tpm_env) sample_bpf 1 (zeros MERKLE_HASH_SIZE) [] sample_state [Entry (BindMap 3)] s
    sample_call sample_scratch sc' s1 [] s1 sample_sys_inv H1 I sample_scratch_wf Hrun sample_helpers_ok sample_not_exempt Hskip
    (world_nil s1)) as (c & r & p & ws & _ & _ & (a & [= <-] & ->) & Hin & Hi).
  exists s1, ws, (attributes_text sample_attr), (hook_namespace (B := sample_bpf) 1 r).
  split; [exact Hi|]. split; [by vm_compute|exact Hin].
Defined.
