(* ===== verification/Timing.v ===== *)
(** * The timing statistics of the programs

    After a successful measurement [lsm_bprm_check_security.c] and
    [lsm_socket_connect.c] take an index with an atomic addition and fill that
    slot of an array of [struct hook_timing] ([utils.h]). Programs run on all
    processors at once: the steps below are the single atomic operations of
    any number of invocations, in any order. *)

From S2P Require Import Prelude CString.

Definition TIMING_MAX_ENTRIES : nat := 1024.
Definition TIMING_MAX_BUF : nat := 64.

Record hook_timing := HookTiming {
  total_time : Z;
  deps_time : Z;
  measure_time : Z;
  hash_time : Z;
  extend_time : Z;
  get_config_time : Z;
  filtering_time : Z;
  binary_name : bytes;
}.

Definition zero_timing : hook_timing := HookTiming 0 0 0 0 0 0 0 (zeros TIMING_MAX_BUF).

(** [__sync_fetch_and_add] on a [u64]. *)
Definition sync_add (x d : Z) : Z := to_u64 (x + d).

Definition add_total (d : Z) (t : hook_timing) : hook_timing :=
  HookTiming (sync_add (total_time t) d) (deps_time t) (measure_time t) (hash_time t) (extend_time t) (get_config_time t) (filtering_time t) (binary_name t).
Definition add_deps (d : Z) (t : hook_timing) : hook_timing :=
  HookTiming (total_time t) (sync_add (deps_time t) d) (measure_time t) (hash_time t) (extend_time t) (get_config_time t) (filtering_time t) (binary_name t).
Definition add_measure (d : Z) (t : hook_timing) : hook_timing :=
  HookTiming (total_time t) (deps_time t) (sync_add (measure_time t) d) (hash_time t) (extend_time t) (get_config_time t) (filtering_time t) (binary_name t).
Definition add_hash (d : Z) (t : hook_timing) : hook_timing :=
  HookTiming (total_time t) (deps_time t) (measure_time t) (sync_add (hash_time t) d) (extend_time t) (get_config_time t) (filtering_time t) (binary_name t).
Definition add_extend (d : Z) (t : hook_timing) : hook_timing :=
  HookTiming (total_time t) (deps_time t) (measure_time t) (hash_time t) (sync_add (extend_time t) d) (get_config_time t) (filtering_time t) (binary_name t).
Definition add_get_config (d : Z) (t : hook_timing) : hook_timing :=
  HookTiming (total_time t) (deps_time t) (measure_time t) (hash_time t) (extend_time t) (sync_add (get_config_time t) d) (filtering_time t) (binary_name t).
Definition add_filtering (d : Z) (t : hook_timing) : hook_timing :=
  HookTiming (total_time t) (deps_time t) (measure_time t) (hash_time t) (extend_time t) (get_config_time t) (sync_add (filtering_time t) d) (binary_name t).
Definition set_name (f : bytes -> bytes) (t : hook_timing) : hook_timing :=
  HookTiming (total_time t) (deps_time t) (measure_time t) (hash_time t) (extend_time t) (get_config_time t) (filtering_time t) (f (binary_name t)).

(** What an invocation measured. *)
Record durations := Durations {
  d_total : Z;
  d_deps : Z;
  d_measure : Z;
  d_hash : Z;
  d_extend : Z;
  d_get_config : Z;
  d_filtering : Z;
}.

(** The name of a slot: [bpf_probe_read_kernel_str] of the file name, which
    copies a string or, when it fails, leaves unspecified bytes; or the copy
    of the connection's text or of the socket's path. *)
Inductive timing_event :=
  | Bprm (d : durations) (filename : bytes + bytes)
  | Socket (d : durations) (family : Z) (additional_data socket_path : bytes).

Definition when_positive (d : Z) (op : Z -> hook_timing -> hook_timing) : list (hook_timing -> hook_timing) :=
  if d >? 0 then [op d] else [].

Definition terminate (b : bytes) : bytes := <[(TIMING_MAX_BUF - 1)%nat := NUL]> b.

Definition read_name (filename : bytes + bytes) (b : bytes) : bytes :=
  match filename with
  | inl junk => blit b 0 (take TIMING_MAX_BUF junk)
  | inr s => blit b 0 (take (TIMING_MAX_BUF - 1) (cstr s) ++ [NUL])
  end.

Definition copy_name (family : Z) (additional_data socket_path b : bytes) : bytes :=
  if family =? 2 then blit b 0 (take TIMING_MAX_BUF additional_data)
  else if family =? 1 then blit b 0 (take TIMING_MAX_BUF socket_path) else b.

(** The operations on the slot, in the order of the program. *)
Definition slot_writes (ev : timing_event) : list (hook_timing -> hook_timing) :=
  match ev with
  | Bprm d filename =>
      [add_total (d_total d)] ++ when_positive (d_deps d) add_deps ++ when_positive (d_measure d) add_measure ++
      [add_hash (d_hash d); add_extend (d_extend d); add_get_config (d_get_config d); add_filtering (d_filtering d);
       set_name (read_name filename); set_name terminate]
  | Socket d family additional_data socket_path =>
      [add_total (d_total d)] ++ when_positive (d_deps d) add_deps ++ when_positive (d_measure d) add_measure ++
      [add_extend (d_extend d); add_get_config (d_get_config d); add_filtering (d_filtering d);
       set_name (copy_name family additional_data socket_path); set_name terminate]
  end.

Definition apply_writes (ws : list (hook_timing -> hook_timing)) (t : hook_timing) : hook_timing :=
  foldl (fun t w => w t) t ws.

(** ** One invocation alone *)

Record table := Table { t_count : Z; t_slots : list hook_timing }.

Definition fresh_table : table := Table 0 (replicate TIMING_MAX_ENTRIES zero_timing).

(** The statistics of one invocation: its index, then its slot. *)
Definition record_timing (ev : timing_event) (t : table) : table :=
  let current_index := t_count t in
  let count := sync_add (t_count t) 1 in
  if current_index <? Z.of_nat TIMING_MAX_ENTRIES
  then Table count (alter (apply_writes (slot_writes ev)) (Z.to_nat current_index) (t_slots t))
  else Table count (t_slots t).

(** ** Any number of invocations at once *)

(** An invocation that has its statistics to write, or that took an index and
    did some of its operations. *)
Inductive invocation :=
  | Waiting (ev : timing_event)
  | Writing (ev : timing_event) (index : Z) (ops_done : nat).

Inductive tstep : table * list invocation -> table * list invocation -> Prop :=
  | t_fetch count slots vs i ev :
      vs !! i = Some (Waiting ev) ->
      tstep (Table count slots, vs) (Table (sync_add count 1) slots, <[i := Writing ev count 0]> vs)
  | t_write count slots vs i ev index k w :
      vs !! i = Some (Writing ev index k) -> index < Z.of_nat TIMING_MAX_ENTRIES -> slot_writes ev !! k = Some w ->
      tstep (Table count slots, vs)
        (Table count (alter w (Z.to_nat index) slots), <[i := Writing ev index (S k)]> vs).

Inductive tsteps : table * list invocation -> table * list invocation -> Prop :=
  | tsteps_nil st : tsteps st st
  | tsteps_cons st1 st2 st3 : tstep st1 st2 -> tsteps st2 st3 -> tsteps st1 st3.

(** The invocation is through. *)
Definition through (v : invocation) : Prop :=
  match v with
  | Waiting _ => False
  | Writing ev index k => Z.of_nat TIMING_MAX_ENTRIES <= index \/ k = length (slot_writes ev)
  end.

Definition event_of (v : invocation) : timing_event := match v with Waiting ev => ev | Writing ev _ _ => ev end.
Definition took_index (v : invocation) : bool := match v with Waiting _ => false | Writing _ _ _ => true end.

(** How many invocations took an index. *)
Definition taken (vs : list invocation) : Z := Z.of_nat (length (filter (fun v => took_index v = true) vs)).

Record timing_inv (st : table * list invocation) : Prop := TimingInv {
  ti_count : t_count (fst st) = taken (snd st);
  ti_bound : Z.of_nat (length (snd st)) < 2 ^ 64;
  ti_slots : length (t_slots (fst st)) = TIMING_MAX_ENTRIES;
  ti_index : forall i ev index k, snd st !! i = Some (Writing ev index k) -> 0 <= index < t_count (fst st);
  ti_own : forall i j ev ev' index k k', snd st !! i = Some (Writing ev index k) ->
    snd st !! j = Some (Writing ev' index k') -> i = j;
  ti_slot : forall i ev index k, snd st !! i = Some (Writing ev index k) -> index < Z.of_nat TIMING_MAX_ENTRIES ->
    t_slots (fst st) !! Z.to_nat index = Some (apply_writes (take k (slot_writes ev)) zero_timing);
  ti_free : forall m, (m < TIMING_MAX_ENTRIES)%nat -> t_count (fst st) <= Z.of_nat m ->
    t_slots (fst st) !! m = Some zero_timing;
}.

Lemma filter_insert_took (vs : list invocation) i ev index k v :
  vs !! i = Some v ->
  taken (<[i := Writing ev index k]> vs) = taken vs + (if took_index v then 0 else 1).
Proof.
  intros Hi. unfold taken. rewrite (insert_take_drop vs i (Writing ev index k)) by (by eapply lookup_lt_Some).
  rewrite <- (take_drop_middle vs i v Hi) at 3. rewrite !filter_app, !length_app, !filter_cons.
  rewrite decide_True by done. destruct (took_index v) eqn:Ev.
  - rewrite decide_True by done. cbn [length]. lia.
  - rewrite decide_False by congruence. cbn [length]. lia.
Qed.

Lemma taken_le vs : taken vs <= Z.of_nat (length vs).
Proof. unfold taken. pose proof (length_filter (fun v => took_index v = true) vs). lia. Qed.

Lemma taken_lt vs i ev : vs !! i = Some (Waiting ev) -> taken vs < Z.of_nat (length vs).
Proof.
  intros Hi. pose proof (filter_insert_took vs i ev 0 0 _ Hi) as H. pose proof (taken_le (<[i := Writing ev 0 0]> vs)) as Hle.
  rewrite length_insert in Hle. cbn [took_index] in H. lia.
Qed.

Lemma apply_snoc ws k w t : ws !! k = Some w -> apply_writes (take (S k) ws) t = w (apply_writes (take k ws) t).
Proof. intros H. unfold apply_writes. rewrite (take_S_r _ _ _ H), foldl_app. done. Qed.

Lemma tstep_inv st st' : tstep st st' -> timing_inv st -> timing_inv st'.
Proof.
  intros [count slots vs i ev Hi|count slots vs i ev index k w Hi Hlt Hw] [Hc Hb Hs Hix Hown Hsl Hfree]; cbn [fst snd t_count t_slots] in *.
  - pose proof (taken_lt vs i ev Hi) as Ht. assert (0 <= count) by (unfold taken in *; lia).
    assert (Hadd : sync_add count 1 = count + 1) by (unfold sync_add, to_u64; apply Z.mod_small; lia).
    pose proof (filter_insert_took vs i ev count 0 _ Hi) as Hcnt. cbn [took_index] in Hcnt.
    assert (Hcase : forall j ev' ix k, <[i := Writing ev count 0]> vs !! j = Some (Writing ev' ix k) ->
      (j = i /\ ev' = ev /\ ix = count /\ k = 0%nat) \/ (j <> i /\ vs !! j = Some (Writing ev' ix k))).
    { intros j ev' ix k Hj. apply list_lookup_insert_Some in Hj as [(<- & [= <- <- <-] & _)|[Hne Hj]]; [by left|by right]. }
    split; cbn [fst snd t_count t_slots]; rewrite ?length_insert; try done.
    + rewrite Hadd, Hcnt. lia.
    + intros j ev' ix k [(-> & -> & -> & ->)|[_ Hj]]%Hcase; [lia|]. specialize (Hix j ev' ix k Hj). lia.
    + intros j j' ev1 ev2 ix k k' [(-> & _ & -> & _)|[Hne Hj]]%Hcase [(-> & _ & Hx & _)|[Hne' Hj']]%Hcase; [done|..].
      * specialize (Hix _ _ _ _ Hj'). lia.
      * subst ix. specialize (Hix _ _ _ _ Hj). lia.
      * by eapply Hown.
    + intros j ev' ix k [(-> & -> & -> & ->)|[_ Hj]]%Hcase Hl; [|by eapply Hsl].
      rewrite take_0. apply Hfree; lia.
    + intros m Hm Hle. apply Hfree; [done|]. lia.
  - specialize (Hix _ _ _ _ Hi) as Hidx. pose proof (Hsl _ _ _ _ Hi Hlt) as Hslot.
    pose proof (filter_insert_took vs i ev index (S k) _ Hi) as Hcnt. cbn [took_index] in Hcnt.
    assert (Hcase : forall j ev' ix k0, <[i := Writing ev index (S k)]> vs !! j = Some (Writing ev' ix k0) ->
      (j = i /\ ev' = ev /\ ix = index /\ k0 = S k) \/ (j <> i /\ vs !! j = Some (Writing ev' ix k0))).
    { intros j ev' ix k0 Hj. apply list_lookup_insert_Some in Hj as [(<- & [= <- <- <-] & _)|[Hne Hj]]; [by left|by right]. }
    split; cbn [fst snd t_count t_slots]; rewrite ?length_insert, ?length_alter; try done.
    + lia.
    + intros j ev' ix k0 [(-> & -> & -> & ->)|[_ Hj]]%Hcase; [done|by eapply Hix].
    + intros j j' ev1 ev2 ix k0 k1 [(-> & _ & -> & _)|[Hne Hj]]%Hcase [(-> & _ & Hx & _)|[Hne' Hj']]%Hcase; [done|..].
      * by eapply Hown.
      * subst ix. by eapply Hown.
      * by eapply Hown.
    + intros j ev' ix k0 [(-> & -> & -> & ->)|[Hne Hj]]%Hcase Hl.
      * rewrite list_lookup_alter_eq, Hslot. cbn. by rewrite (apply_snoc _ _ w).
      * rewrite list_lookup_alter_ne; [by eapply Hsl|]. specialize (Hix _ _ _ _ Hj) as Hidx'. intros Heq.
        apply Hne. eapply (Hown _ _ _ _ ix); [exact Hj|]. replace ix with index by lia. exact Hi.
    + intros m Hm Hle. rewrite list_lookup_alter_ne; [by apply Hfree|]. lia.
Qed.

Lemma tsteps_inv st st' : tsteps st st' -> timing_inv st -> timing_inv st'.
Proof. induction 1 as [|st1 st2 st3 Hs _ IH]; [done|]. intros Hi. by eapply IH, tstep_inv. Qed.

(** An invocation keeps its event. *)
Lemma tsteps_events st st' : tsteps st st' -> event_of <$> snd st' = event_of <$> snd st.
Proof.
  induction 1 as [|st1 st2 st3 Hs _ ->]; [done|].
  destruct Hs as [count slots vs i ev Hi|count slots vs i ev index k w Hi _ _]; cbn [snd];
    rewrite list_fmap_insert; apply list_insert_id; by rewrite list_lookup_fmap, Hi.
Qed.

(** ** What a slot holds *)

Definition durations_of (ev : timing_event) : durations := match ev with Bprm d _ => d | Socket d _ _ _ => d end.

Definition durations_ok (d : durations) : Prop :=
  is_u64 (d_total d) /\ is_u64 (d_deps d) /\ is_u64 (d_measure d) /\ is_u64 (d_hash d) /\ is_u64 (d_extend d) /\
  is_u64 (d_get_config d) /\ is_u64 (d_filtering d).

(** The slot of one invocation: its durations (the socket program has no hash
    time) and a terminated name. *)
Definition slot_of (ev : timing_event) (t : hook_timing) : Prop :=
  let d := durations_of ev in
  total_time t = d_total d /\ deps_time t = d_deps d /\ measure_time t = d_measure d /\
  hash_time t = (match ev with Bprm _ _ => d_hash d | Socket _ _ _ _ => 0 end) /\
  extend_time t = d_extend d /\ get_config_time t = d_get_config d /\ filtering_time t = d_filtering d /\
  length (binary_name t) = TIMING_MAX_BUF /\ (strlen (binary_name t) < TIMING_MAX_BUF)%nat.

Lemma sync_add_0 d : is_u64 d -> sync_add 0 d = d.
Proof. intros H. unfold sync_add, to_u64. by apply Z.mod_small. Qed.

Lemma terminate_ok b : length b = TIMING_MAX_BUF -> length (terminate b) = TIMING_MAX_BUF /\ (strlen (terminate b) < TIMING_MAX_BUF)%nat.
Proof.
  intros Hb. assert (Hl : length (terminate b) = TIMING_MAX_BUF) by (unfold terminate; by rewrite length_insert).
  split; [done|]. apply memchr_true; [lia|]. unfold memchr. apply existsb_exists. exists NUL.
  split; [|by destruct (byte_eqb_spec NUL NUL)]. rewrite take_ge by lia. apply list_elem_of_In.
  apply list_elem_of_lookup_2 with (TIMING_MAX_BUF - 1)%nat. unfold terminate. apply list_lookup_insert_eq. rewrite Hb. unfold TIMING_MAX_BUF. lia.
Qed.

Lemma length_blit_front b src : (length src <= length b)%nat -> length (blit b 0 src) = length b.
Proof. intros H. apply length_blit. lia. Qed.

Lemma read_name_length filename b : length b = TIMING_MAX_BUF -> length (read_name filename b) = TIMING_MAX_BUF.
Proof.
  intros Hb. destruct filename as [junk|s]; cbn [read_name]; rewrite length_blit_front; try done; rewrite Hb.
  - rewrite length_take. lia.
  - rewrite length_app, length_take. cbn [length]. unfold TIMING_MAX_BUF. lia.
Qed.

Lemma copy_name_length family data path b : length b = TIMING_MAX_BUF -> length (copy_name family data path b) = TIMING_MAX_BUF.
Proof.
  intros Hb. unfold copy_name. destruct (_ =? 2); [|destruct (_ =? 1); [|done]]; rewrite length_blit_front; try done; rewrite length_take; lia.
Qed.

Lemma apply_app ws ws' t : apply_writes (ws ++ ws') t = apply_writes ws' (apply_writes ws t).
Proof. apply foldl_app. Qed.

Lemma apply_deps d tt mt ht et gt ft nm :
  is_u64 d -> apply_writes (when_positive d add_deps) (HookTiming tt 0 mt ht et gt ft nm) = HookTiming tt d mt ht et gt ft nm.
Proof.
  intros Hd. unfold when_positive. destruct (Z.gtb_spec d 0); cbn.
  - unfold add_deps. cbn. by rewrite sync_add_0.
  - unfold is_u64 in Hd. by replace d with 0 by lia.
Qed.

Lemma apply_measure d tt dt ht et gt ft nm :
  is_u64 d -> apply_writes (when_positive d add_measure) (HookTiming tt dt 0 ht et gt ft nm) = HookTiming tt dt d ht et gt ft nm.
Proof.
  intros Hd. unfold when_positive. destruct (Z.gtb_spec d 0); cbn.
  - unfold add_measure. cbn. by rewrite sync_add_0.
  - unfold is_u64 in Hd. by replace d with 0 by lia.
Qed.

Lemma slot_written ev : durations_ok (durations_of ev) -> slot_of ev (apply_writes (slot_writes ev) zero_timing).
Proof.
  intros (H1 & H2 & H3 & H4 & H5 & H6 & H7). assert (H0 : length (zeros TIMING_MAX_BUF) = TIMING_MAX_BUF) by done.
  assert (Ht : forall d, is_u64 d -> apply_writes [add_total d] zero_timing = HookTiming d 0 0 0 0 0 0 (zeros TIMING_MAX_BUF)).
  { intros d Hd. unfold apply_writes, add_total, zero_timing. cbn [foldl total_time]. by rewrite sync_add_0. }
  destruct ev as [d filename|d family data path]; cbn [slot_writes durations_of] in *;
    rewrite !apply_app, Ht, apply_deps, apply_measure by done; unfold apply_writes, slot_of, durations_of;
    cbn -[terminate read_name copy_name zeros sync_add]; rewrite !sync_add_0 by done; split_and!; try done;
    apply terminate_ok; by apply read_name_length || apply copy_name_length.
Qed.

Lemma taken_waiting (evs : list timing_event) : taken (Waiting <$> evs) = 0.
Proof. unfold taken. induction evs as [|ev evs IH]; [done|]. by rewrite fmap_cons, filter_cons_False. Qed.

Lemma waiting_lookup (evs : list timing_event) i ev index k : (Waiting <$> evs) !! i <> Some (Writing ev index k).
Proof. rewrite list_lookup_fmap. by destruct (evs !! i). Qed.

Lemma untouched_slots_inv evs : Z.of_nat (length evs) < 2 ^ 64 -> timing_inv (fresh_table, Waiting <$> evs).
Proof.
  intros Hlen. split; cbn [fst snd].
  - by rewrite taken_waiting.
  - by rewrite length_fmap.
  - done.
  - intros i ev index k H. by apply waiting_lookup in H.
  - intros i j ev ev' index k k' H. by apply waiting_lookup in H.
  - intros i ev index k H. by apply waiting_lookup in H.
  - intros m Hm _. by apply lookup_replicate_2.
Qed.

Lemma taken_through vs : Forall through vs -> taken vs = Z.of_nat (length vs).
Proof.
  unfold taken. induction 1 as [|v vs Hv _ IH]; [done|]. destruct v as [ev|ev index k]; [done|].
  rewrite filter_cons_True by done. cbn [length]. lia.
Qed.

Lemma events_waiting (evs : list timing_event) : event_of <$> (Waiting <$> evs) = evs.
Proof. induction evs as [|ev evs IH]; [done|]. rewrite !fmap_cons, IH. done. Qed.

Lemma through_lookup vs i ev :
  Forall through vs -> (event_of <$> vs) !! i = Some ev ->
  exists index k, vs !! i = Some (Writing ev index k) /\
    (index < Z.of_nat TIMING_MAX_ENTRIES -> k = length (slot_writes ev)).
Proof.
  intros Hth. rewrite list_lookup_fmap. destruct (vs !! i) as [v|] eqn:Hv; [|done].
  pose proof (Forall_lookup_1 _ _ _ _ Hth Hv) as H. destruct v as [ev'|ev' index k]; [done|].
  intros [= <-]. exists index, k. split; [done|]. cbn [through] in H. intros. lia.
Qed.

(** Concurrent invocations do not disturb each other's statistics. Start
    from empty maps and let any number of invocations, below [2^64], run
    their atomic operations in any interleaving until all are through. Then
    the counter is their number, each took an index of its own, and for each
    index below 1024 the slot holds exactly the durations of its invocation
    and a terminated name; later invocations are counted only. *)
Theorem timing_slots_private evs t vs :
  Z.of_nat (length evs) < 2 ^ 64 -> tsteps (fresh_table, Waiting <$> evs) (t, vs) -> Forall through vs ->
  t_count t = Z.of_nat (length evs) /\
  (forall i ev, evs !! i = Some ev -> exists index k, vs !! i = Some (Writing ev index k) /\
     0 <= index < t_count t /\
     (forall j ev' k', vs !! j = Some (Writing ev' index k') -> i = j) /\
     (index < Z.of_nat TIMING_MAX_ENTRIES -> durations_ok (durations_of ev) ->
        exists slot, t_slots t !! Z.to_nat index = Some slot /\ slot_of ev slot)).
Proof.
  intros Hlen Hs Hth. pose proof (tsteps_inv _ _ Hs (untouched_slots_inv evs Hlen)) as [Hc _ _ Hix Hown Hsl _].
  pose proof (tsteps_events _ _ Hs) as Hev. cbn [fst snd] in *. rewrite events_waiting in Hev. split.
  - by rewrite Hc, taken_through, <- Hev, length_fmap.
  - intros i ev Hi. rewrite <- Hev in Hi. destruct (through_lookup vs i ev Hth Hi) as (index & k & Hv & Hk).
    exists index, k. split_and!; [done|by apply (Hix _ _ _ _ Hv)|by apply (Hix _ _ _ _ Hv)|by intros; eapply Hown|].
    intros Hlt Hd. eexists. split; [by eapply Hsl|]. rewrite take_ge by (rewrite (Hk Hlt); lia). by apply slot_written.
Qed.

(** *** Sequential invocations *)

Lemma alter_twice (f g : hook_timing -> hook_timing) n (l : list hook_timing) : alter f n (alter g n l) = alter (f ∘ g) n l.
Proof. revert n. induction l as [|x l IH]; intros [|n]; try done. cbn. by f_equal. Qed.

(** One invocation alone is a run of these steps. *)
Lemma slot_run count slots ev index vs i k :
  index < Z.of_nat TIMING_MAX_ENTRIES -> vs !! i = Some (Writing ev index k) ->
  tsteps (Table count slots, vs)
    (Table count (alter (apply_writes (drop k (slot_writes ev))) (Z.to_nat index) slots),
     <[i := Writing ev index (k `max` length (slot_writes ev))%nat]> vs).
Proof.
  intros Hlt. remember (drop k (slot_writes ev)) as ws eqn:Hws. revert k vs slots Hws.
  induction ws as [|w ws IH]; intros k vs slots Hws Hi.
  - assert (Hge : (length (slot_writes ev) <= k)%nat).
    { pose proof (f_equal length Hws) as H. rewrite length_drop in H. cbn [length] in H. lia. }
    rewrite Nat.max_l, list_insert_id by done. rewrite list_alter_id by done. constructor.
  - assert (Hw : slot_writes ev !! k = Some w) by (by rewrite <- (Nat.add_0_r k), <- lookup_drop, <- Hws).
    assert (Hk : (k < length (slot_writes ev))%nat) by (by apply lookup_lt_Some with w).
    eapply tsteps_cons; [exact (t_write count slots vs i ev index k w Hi Hlt Hw)|].
    pose proof (IH (S k) (<[i := Writing ev index (S k)]> vs) (alter w (Z.to_nat index) slots)) as Hrun.
    rewrite list_insert_insert_eq in Hrun. rewrite Nat.max_r in Hrun |- * by lia.
    rewrite alter_twice in Hrun. apply Hrun.
    + rewrite (drop_S _ _ _ Hw) in Hws. by injection Hws.
    + apply list_lookup_insert_eq. by eapply lookup_lt_Some.
Qed.

Lemma record_run t vs i ev :
  vs !! i = Some (Waiting ev) ->
  exists k, tsteps (t, vs) (record_timing ev t, <[i := Writing ev (t_count t) k]> vs) /\
    through (Writing ev (t_count t) k).
Proof.
  intros Hi. destruct t as [count slots]. unfold record_timing. cbn [t_count t_slots].
  pose proof (t_fetch count slots vs i ev Hi) as Hf. destruct (Z.ltb_spec count (Z.of_nat TIMING_MAX_ENTRIES)) as [Hlt|Hge].
  - exists (length (slot_writes ev)). split; [|by right]. eapply tsteps_cons; [exact Hf|].
    pose proof (slot_run (sync_add count 1) slots ev count (<[i := Writing ev count 0]> vs) i 0 Hlt) as Hrun.
    rewrite list_insert_insert_eq, Nat.max_0_l, drop_0 in Hrun. apply Hrun.
    apply list_lookup_insert_eq. by eapply lookup_lt_Some.
  - exists 0%nat. split; [|by left]. eapply tsteps_cons; [exact Hf|constructor].
Qed.

Lemma tsteps_trans st1 st2 st3 : tsteps st1 st2 -> tsteps st2 st3 -> tsteps st1 st3.
Proof. induction 1; [done|]. intros. econstructor; eauto. Qed.

Lemma sequential_run_from evs t vs :
  Forall through vs ->
  exists vs', tsteps (t, vs ++ (Waiting <$> evs)) (foldl (fun t ev => record_timing ev t) t evs, vs') /\ Forall through vs'.
Proof.
  revert t vs. induction evs as [|ev evs IH]; intros t vs Hvs.
  - exists vs. rewrite app_nil_r. split; [constructor|done].
  - destruct (record_run t (vs ++ (Waiting <$> ev :: evs)) (length vs) ev) as (k & Hrun & Hk);
      [by rewrite lookup_app_r, Nat.sub_diag by done|].
    destruct (IH (record_timing ev t) (vs ++ [Writing ev (t_count t) k])) as (vs' & Hrest & Hth).
    { apply Forall_app. split; [done|]. by constructor. }
    exists vs'. split; [|done]. eapply tsteps_trans; [exact Hrun|].
    rewrite insert_app_r_alt, Nat.sub_diag by done. rewrite <- app_assoc in Hrest. exact Hrest.
Qed.

(** Running the invocations one after another is one of the interleavings, and
    it ends. *)
Lemma sequential_run evs :
  exists vs, tsteps (fresh_table, Waiting <$> evs) (foldl (fun t ev => record_timing ev t) fresh_table evs, vs) /\ Forall through vs.
Proof. apply (sequential_run_from evs fresh_table []). constructor. Qed.

Definition sample_durations : durations := Durations 90 10 40 20 15 5 0.
Definition sample_events : list timing_event :=
  [Bprm sample_durations (inr (lit "/bin/ls")); Socket sample_durations 1 [] (zeros 256)].

Lemma timing_slots_private_witness :
  let t := foldl (fun t ev => record_timing ev t) fresh_table sample_events in
  t_count t = 2 /\
  exists index slot, t_slots t !! index = Some slot /\ slot_of (Bprm sample_durations (inr (lit "/bin/ls"))) slot.
Proof.
  destruct (sequential_run sample_events) as (vs & Hrun & Hth).
  destruct (timing_slots_private sample_events _ vs ltac:(vm_compute; reflexivity) Hrun Hth) as [Hc Hslots].
  split; [exact Hc|].
  destruct (Hslots 0%nat _ eq_refl) as (index & k & _ & Hidx & _ & Hs).
  rewrite Hc in Hidx. destruct (Hs ltac:(unfold TIMING_MAX_ENTRIES; cbn [length sample_events] in Hidx; lia) ltac:(repeat split; vm_compute; congruence)) as (slot & Hslot & Hok).
  exists (Z.to_nat index), slot. split; [exact Hslot|exact Hok].
Defined.
