(* ===== verification/PolicyUpdate.v ===== *)
(** * The policy update programs

    The four programs of [src/examples/lsm_policy_update.c], which change and
    read policies from LSM hooks through the kfuncs, and what they can do to
    the module and to the policy store. *)

From S2P Require Import Prelude CString Types Kernel Sample Pattern Snapshot KfuncBuffer HashUtils Tpm PolicyMap Merkle MerkleSpec MerkleInv PolicyNamespace PolicyManager PolicySpec PolicyInv PolicyLog PolicyBind PolicyAudit Container ContainerSpec ContainerRules ContainerInv Kfuncs KfuncsInv KfuncsSpec Lifecycle LifecycleSpec Frame Requests System BpfUtils BpfUtilsSpec HookUtils HookUtilsSpec Hooks HooksSpec.

Section Programs.
Context {E : KernelEnv} {B : BpfEnv}.

(** [char id[128] = {0}] and [__builtin_memcpy] of the characters. *)
Definition id_buffer (name : bytes) : bytes := blit (zeros 128) 0 name.

Definition prod_container : bytes := lit "prod-container-123".
Definition dev_namespace : bytes := lit "dev-namespace".
Definition monitoring_ns : bytes := lit "monitoring-ns".
Definition backend_service : bytes := lit "backend-service".

Definition exec_action_flags : Z :=
  Z.lor (Z.lor (Z.lor (Z.lor POLICY_ACTION_EXTEND_TPM POLICY_ACTION_LOG_SECURITYFS) POLICY_ACTION_LOG_KERNEL)
    POLICY_ACTION_TRACK_CONTAINER) POLICY_ACTION_BUILD_DEPS.

Definition policy_update_on_exec (previous : Z) : K Z :=
  if negb (previous =? 0) then ret previous else
  let* task := bpf_get_current_task_btf in
  match task with
  | None => ret 0
  | Some _ =>
      let container_id := id_buffer prod_container in
      let* result := bpfima_container_get_or_create (Some container_id) 128 in
      if result <? 0 then ret 0 else
      let* result := bpfima_policy_update_filter_flags (Some container_id) 128 0 in
      if result <? 0 then ret 0 else
      let* result := bpfima_policy_update_action_flags (Some container_id) 128 exec_action_flags in
      ret 0
  end.

Definition policy_adjust_on_file_open (f : file) (previous : Z) : K Z :=
  if negb (previous =? 0) then ret previous else
  let* task := bpf_get_current_task_btf in
  match task with
  | None => ret 0
  | Some _ =>
      let namespace_id := id_buffer dev_namespace in
      match f_inode f with
      | None => ret 0
      | Some inode =>
          if i_size inode >? 10 * 1024 * 1024 then
            let* result := bpfima_policy_update_min_file_size (Some namespace_id) 128 0 in ret 0
          else ret 0
      end
  end.

Definition policy_get_changes_hash (previous : Z) : K Z :=
  if negb (previous =? 0) then ret previous else
  let namespace_id := id_buffer monitoring_ns in
  let* found := bpfima_container_exists (Some namespace_id) 128 in
  if found <=? 0 then ret 0 else
  let* result := bpfima_policy_get_changes_hash (Some namespace_id) 128
    (Some (zeros MERKLE_HASH_SIZE)) (Z.of_nat MERKLE_HASH_SIZE) in
  ret 0.

Definition policy_adjust_log_level (previous : Z) : K Z :=
  if negb (previous =? 0) then ret previous else
  let namespace_id := id_buffer backend_service in
  let* result := bpfima_container_get_or_create (Some namespace_id) 128 in
  if result <? 0 then ret 0 else
  let* result := bpfima_policy_update_log_level (Some namespace_id) 128 3 in
  ret 0.
End Programs.

(** ** The programs as one family *)

Inductive example_program :=
  | OnExec
  | OnFileOpen (f : file)
  | ChangesHash
  | LogLevel.

Definition run_example {E : KernelEnv} {B : BpfEnv} (p : example_program) : Z -> K Z :=
  match p with
  | OnExec => policy_update_on_exec
  | OnFileOpen f => policy_adjust_on_file_open f
  | ChangesHash => policy_get_changes_hash
  | LogLevel => policy_adjust_log_level
  end.

(** The namespace that the program is about, how many updates it sends, and
    what a policy that it stored has. *)
Definition example_ns (p : example_program) : bytes :=
  match p with
  | OnExec => prod_container
  | OnFileOpen _ => dev_namespace
  | ChangesHash => monitoring_ns
  | LogLevel => backend_service
  end.

Definition example_updates (p : example_program) : Z :=
  match p with
  | OnExec => 2
  | OnFileOpen f => match f_inode f with Some i => if i_size i >? 10 * 1024 * 1024 then 1 else 0 | None => 0 end
  | ChangesHash => 0
  | LogLevel => 1
  end.

Definition example_sets (p : example_program) (c : bpfima_policy_config) : Prop :=
  match p with
  | OnExec => cfg_filter_flags c = 0
  | OnFileOpen _ => cfg_min_file_size c = 0
  | ChangesHash => False
  | LogLevel => cfg_log_level c = 3
  end.

(** The store after at most [k] updates of [ns]: no other policy changed, and
    that of [ns] is the old one or an extension of the root with [P]. *)
Definition only_extends (ns : bytes) (k : Z) (P : bpfima_policy_config -> Prop) (st st' : bpfima_policy_state) : Prop :=
  st_generation st <= st_generation st' <= st_generation st + k /\
  (forall key, key <> ns -> policies st' !! key = policies st !! key) /\
  (policies st' !! ns = policies st !! ns \/
   exists root sn, policies st' !! [] = Some root /\ policies st' !! ns = Some sn /\
     validate_extension root sn = 0 /\ P (sn_config sn)).

Section Theorems.
Context {E : KernelEnv} {L : KernelLaws E} {B : BpfEnv}.

Definition after (pcr : bytes) (vs : list bytes) (ns : bytes) (k : Z) (P : bpfima_policy_config -> Prop)
    (s s' : kstate) : Prop :=
  (exists ws, sys_inv pcr (vs ++ ws) s') /\
  (forall st, policy_view s = Some st -> exists st', policy_view s' = Some st' /\ only_extends ns k P st st').

Lemma only_extends_refl ns k P st : 0 <= k -> only_extends ns k P st st.
Proof. intros Hk. split_and!; [lia|lia|done|by left]. Qed.

Lemma only_extends_trans ns k k' P st st1 st2 :
  ns <> [] -> only_extends ns k P st st1 -> only_extends ns k' P st1 st2 -> only_extends ns (k + k') P st st2.
Proof.
  intros Hns (Hg & Ho & Hn) (Hg' & Ho' & Hn'). split_and!; [lia|lia|by intros key Hkey; rewrite Ho', Ho|].
  destruct Hn' as [Heq|H]; [|by right]. rewrite Heq. destruct Hn as [->|(root & sn & Hr & H)]; [by left|right].
  exists root, sn. by rewrite Ho'.
Qed.

Lemma after_refl pcr vs ns k P s : 0 <= k -> sys_inv pcr vs s -> after pcr vs ns k P s s.
Proof.
  intros Hk Hi. split; [exists []; by rewrite app_nil_r|]. intros st Hst. exists st. split; [done|].
  by apply only_extends_refl.
Qed.

(** A program goes on after a step. *)
Lemma wp_after {A} pcr vs ns k k' P (m : K A) Q s s1 :
  ns <> [] -> after pcr vs ns k P s s1 ->
  (forall vs1, sys_inv pcr vs1 s1 -> wp m (fun a s2 => Q a /\ after pcr vs1 ns k' P s1 s2) s1) ->
  wp m (fun a s2 => Q a /\ after pcr vs ns (k + k') P s s2) s1.
Proof.
  intros Hns [[ws Hi] Hp] Hm. eapply wp_mono; [exact (Hm _ Hi)|]. intros a s2 (HQ & [ws' Hi'] & Hp'). split; [done|]. split.
  - exists (ws ++ ws'). by rewrite app_assoc.
  - intros st Hst. destruct (Hp st Hst) as (st1 & Hst1 & Hx). destruct (Hp' st1 Hst1) as (st2 & Hst2 & Hx').
    exists st2. split; [done|]. by eapply only_extends_trans.
Qed.

(** A step that leaves the policies alone. *)
Lemma after_keeps {A} (m : K A) pcr vs ns P s Q :
  keeps m -> sys_inv pcr vs s ->
  wp m (fun a s' => module_inv pcr vs [] (globals s) s' /\ Q a s') s ->
  wp m (fun _ s' => after pcr vs ns 0 P s s') s.
Proof.
  intros Hk [_ Hp] Hw. eapply wp_mono; [exact (wp_keeps _ _ _ Hk Hw)|]. intros a s' [(Hpol & Hd & _) [Hm _]]. split.
  - exists []. rewrite app_nil_r. split; [by rewrite (globals_same s s')|]. unfold policy_inv. by rewrite Hpol.
  - intros st Hst. exists st. split; [unfold policy_view in *; by rewrite Hpol|]. by apply only_extends_refl.
Qed.

(** One update: the field of the namespace, when the identifier is accepted. *)
Lemma wp_update pcr vs ns P src field value s :
  sys_inv pcr vs s -> Z.of_nat (length src) = 128 -> cstr src = ns -> ns <> [] -> is_u32 value ->
  (forall st sn, policy_view s = Some st -> edited_policy st (Some ns) field value = Some sn -> P (sn_config sn)) ->
  wp (match kfunc_id (Some src) 128 with
      | None => ret (- EINVAL)
      | Some id => bpfima_policy_update_field (Some id) (Some field) value
      end)
    (fun rc s' => rc <= 0 /\ after pcr vs ns 1 P s s' /\
      (rc = 0 -> forall st', policy_view s' = Some st' -> exists sn, policies st' !! ns = Some sn /\ P (sn_config sn))) s.
Proof.
  intros Hi Hlen Hsrc Hns Hval HP. pose proof (proj2 Hi) as Hp. destruct (sys_hash_ready _ _ _ Hi) as [Hr He].
  destruct (kfunc_id (Some src) 128) as [id|] eqn:Ek.
  2:{ apply wp_ret. split_and!; [done|by apply after_refl|done]. }
  apply kfunc_id_Some in Ek as (_ & Hid & _); [|lia|done]. rewrite Hsrc in Hid.
  destruct (policy_view s) as [st|] eqn:Hst.
  - eapply wp_mono; [apply wp_conj; [by apply (update_field_moved (Some id) field value)|
      by apply (wp_update_field_store (Some id) field value st)]|].
    intros rc s' [[Hmv Hp'] (Hrc & _ & st' & Hst' & Hcase)]. split; [done|]. cbn [key_of] in Hcase. rewrite Hid in Hcase.
    assert (Hed : edited_policy st (Some id) field value = edited_policy st (Some ns) field value).
    { unfold edited_policy, update_base. rewrite Hid. by rewrite <- Hid, cstr_idemp. }
    rewrite Hed in Hcase. split.
    + split; [by eapply sys_moved|]. intros st0 Hst0. rewrite Hst in Hst0. injection Hst0 as <-. exists st'. split; [done|].
      destruct Hcase as [[-> _]|(_ & Hg & sn & Hsn & Hpol & _ & Hv)]; [by apply only_extends_refl|].
      split_and!; [lia|lia|by intros key Hk; rewrite Hpol, lookup_insert_ne|right].
      exists (rec_snapshot (record_at st 0)), sn. rewrite Hpol, lookup_insert_ne, lookup_insert_eq by done.
      destruct (policy_view_map s st Hp Hst) as (map & m & _ & _ & Hok).
      split_and!; [apply policies_root, Hok|done|by apply Hv|by eapply HP].
    + intros H0 st0 Hst0. rewrite Hst' in Hst0. injection Hst0 as <-.
      destruct Hcase as [[-> Hsame]|(_ & _ & sn & Hsn & Hpol & _)].
      * destruct (Hsame H0) as (sn & Hsn & Hl). exists sn. split; [done|by eapply HP].
      * exists sn. rewrite Hpol, lookup_insert_eq. split; [done|by eapply HP].
  - assert (Hmap : policy_map (k_policy s) = None).
    { destruct (policy_map (k_policy s)) as [map|] eqn:Hm; [|done].
      destruct (policy_inv_view s map Hp Hm) as (? & ? & _ & _ & Hv). by rewrite Hst in Hv. }
    eapply wp_mono; [apply wp_conj; [by apply (update_field_moved (Some id) field value)|by apply update_field_unbound]|].
    intros rc s' [[Hmv Hp'] [Hrc _]]. split_and!; [lia| |lia]. split; [by eapply sys_moved|]. intros st Hst'. by rewrite Hst in Hst'.
Qed.
(** What the edits store. *)
Lemma edited_config st ns field value sn :
  edited_policy st (Some ns) field value = Some sn ->
  exists p c, p = sn_config (update_base st (Some ns)) /\ edit_field field value p = Some c /\ sn_config sn = c.
Proof. unfold edited_policy. intros (c & Hc & ->)%fmap_Some. by eexists _, c. Qed.

Lemma edited_filter st ns sn :
  edited_policy st (Some ns) (lit "filter_flags") 0 = Some sn -> cfg_filter_flags (sn_config sn) = 0.
Proof. intros (p & c & _ & H & ->)%edited_config. vm_compute in H. by injection H as <-. Qed.

Lemma edited_action st ns v sn sn0 :
  policies st !! cstr ns = Some sn0 -> cfg_filter_flags (sn_config sn0) = 0 ->
  edited_policy st (Some ns) (lit "action_flags") v = Some sn -> cfg_filter_flags (sn_config sn) = 0.
Proof.
  intros H0 Hf (p & c & Hp & H & ->)%edited_config.
  assert (Hm : cfg_filter_flags p = 0).
  { subst p. unfold update_base. rewrite H0. cbn. rewrite Hf. apply Z.land_0_r. }
  clear Hp. vm_compute in H. by injection H as <-.
Qed.

Lemma edited_min_file_size st ns sn :
  edited_policy st (Some ns) (lit "min_file_size") 0 = Some sn -> cfg_min_file_size (sn_config sn) = 0.
Proof. intros (p & c & _ & H & ->)%edited_config. vm_compute in H. by injection H as <-. Qed.

Lemma edited_log_level st ns sn :
  edited_policy st (Some ns) (lit "log_level") 3 = Some sn -> cfg_log_level (sn_config sn) = 3.
Proof. intros (p & c & _ & H & ->)%edited_config. vm_compute in H. by injection H as <-. Qed.

Lemma wp_task (Q : option nat -> kstate -> Prop) s :
  (forall task n, Q task (set_next n s)) -> wp bpf_get_current_task_btf Q s.
Proof. intros H. unfold bpf_get_current_task_btf. apply wp_bind, wp_call, wp_ret. apply H. Qed.

Lemma wp_changes_hash id sz out osz (Q : Z + bytes -> kstate -> Prop) s :
  (forall r, Q r s) -> wp (bpfima_policy_get_changes_hash id sz out osz) Q s.
Proof.
  intros HQ. unfold bpfima_policy_get_changes_hash. destruct (kfunc_id id sz) as [ns|]; [|by apply wp_ret].
  destruct out as [out|]; [|by apply wp_ret]. destruct (negb _); [by apply wp_ret|].
  unfold bpfima_policy_namespace_get_changes_hash, find_policy_namespace. destruct (negb _); [by apply wp_ret|].
  apply wp_bind, wp_gets. destruct (find_entry _ _) as [i|] eqn:Ef; [|by apply wp_ret].
  apply find_entry_Some in Ef as (e & Hl & _). apply wp_bind, wp_gets, wp_bind, wp_deref.
  exists e. split; [done|]. by apply wp_ret.
Qed.

(** The two kinds of kfunc calls of the programs. *)
Lemma wp_get_or_create_after pcr vs name P s :
  length (id_buffer name) = 128%nat -> sys_inv pcr vs s ->
  wp (bpfima_container_get_or_create (Some (id_buffer name)) 128) (fun _ s' => after pcr vs name 0 P s s') s.
Proof.
  intros Hl Hi. pose proof (wp_get_or_create pcr vs [] (globals s) (id_buffer name) s (proj1 Hi) nothing_held) as Hw.
  rewrite Hl in Hw. eapply after_keeps; [apply keeps_get_or_create|done|exact Hw].
Qed.

Lemma wp_exists_after pcr vs name P s :
  length (id_buffer name) = 128%nat -> sys_inv pcr vs s ->
  wp (bpfima_container_exists (Some (id_buffer name)) 128) (fun _ s' => after pcr vs name 0 P s s') s.
Proof.
  intros Hl Hi. pose proof (wp_exists pcr vs [] (globals s) (id_buffer name) s (proj1 Hi) nothing_held) as Hw.
  rewrite Hl in Hw. eapply after_keeps; [apply keeps_exists|done|exact Hw].
Qed.

Lemma after_next pcr vs ns k P n s : 0 <= k -> sys_inv pcr vs s -> after pcr vs ns k P s (set_next n s).
Proof.
  intros Hk [Hm Hp]. split; [exists []; rewrite app_nil_r; split; [by apply module_inv_next|exact Hp]|].
  intros st Hst. exists st. split; [exact Hst|]. by apply only_extends_refl.
Qed.

Lemma wp_on_exec pcr vs s :
  sys_inv pcr vs s -> wp (policy_update_on_exec 0) (fun rc s' => rc = 0 /\ after pcr vs prod_container 2 (example_sets OnExec) s s') s.
Proof.
  intros Hi. unfold policy_update_on_exec. cbn [Z.eqb negb]. apply wp_bind, wp_task. intros [task|] n.
  2:{ apply wp_ret. split; [done|]. by apply after_next. }
  apply (wp_after pcr vs prod_container 0 2 _ _ _ s); [done|by apply after_next|]. intros vs0 Hi0.
  apply wp_bind. eapply wp_mono; [by apply (wp_get_or_create_after pcr vs0)|]. intros rc s1 Ha.
  apply (wp_after pcr vs0 prod_container 0 2 _ _ _ (set_next n s)); [done|exact Ha|]. intros vs1 Hi1.
  destruct (rc <? 0); [apply wp_ret; split; [done|by apply after_refl]|].
  apply wp_bind. eapply wp_mono.
  { apply (wp_update pcr vs1 prod_container (example_sets OnExec) (id_buffer prod_container) (lit "filter_flags") 0);
      [done|done|done|done|done|]. intros st sn _. apply edited_filter. }
  intros rc2 s2 (Hle & Ha2 & Hset). apply (wp_after pcr vs1 prod_container 1 1 _ _ _ s1); [done|exact Ha2|]. intros vs2 Hi2.
  destruct (Z.ltb_spec rc2 0); [apply wp_ret; split; [done|by apply after_refl]|].
  apply wp_bind. eapply wp_mono.
  { apply (wp_update pcr vs2 prod_container (example_sets OnExec) (id_buffer prod_container) (lit "action_flags") exec_action_flags);
      [done|done|done|done|done|]. intros st sn Hst. destruct (Hset ltac:(lia) st Hst) as (sn0 & Hl & H0).
    by apply edited_action with sn0. }
  intros rc3 s3 (_ & Ha3 & _). by apply wp_ret.
Qed.

Lemma wp_on_file_open pcr vs f s :
  sys_inv pcr vs s ->
  wp (policy_adjust_on_file_open f 0) (fun rc s' => rc = 0 /\
    after pcr vs dev_namespace (example_updates (OnFileOpen f)) (example_sets (OnFileOpen f)) s s') s.
Proof.
  intros Hi. unfold policy_adjust_on_file_open, example_updates. cbn [Z.eqb negb].
  assert (Hk : 0 <= match f_inode f with Some i => if i_size i >? 10 * 1024 * 1024 then 1 else 0 | None => 0 end)
    by (destruct (f_inode f); [by destruct (_ >? _)|done]).
  apply wp_bind, wp_task. intros [task|] n; [|by apply wp_ret; split; [done|apply after_next]].
  destruct (f_inode f) as [i|]; [|by apply wp_ret; split; [done|apply after_next]].
  destruct (_ >? _); [|by apply wp_ret; split; [done|apply after_next]].
  apply (wp_after pcr vs dev_namespace 0 1 _ _ _ s); [done|by apply after_next|]. intros vs0 Hi0.
  apply wp_bind. eapply wp_mono.
  { apply (wp_update pcr vs0 dev_namespace (example_sets (OnFileOpen f)) (id_buffer dev_namespace) (lit "min_file_size") 0);
      [done|done|done|done|done|]. intros st sn _. apply edited_min_file_size. }
  intros rc s1 (_ & Ha & _). by apply wp_ret.
Qed.

Lemma wp_log_level pcr vs s :
  sys_inv pcr vs s -> wp (policy_adjust_log_level 0) (fun rc s' => rc = 0 /\ after pcr vs backend_service 1 (example_sets LogLevel) s s') s.
Proof.
  intros Hi. unfold policy_adjust_log_level. cbn [Z.eqb negb].
  apply wp_bind. eapply wp_mono; [by apply (wp_get_or_create_after pcr vs)|]. intros rc s1 Ha.
  apply (wp_after pcr vs backend_service 0 1 _ _ _ s); [done|exact Ha|]. intros vs1 Hi1.
  destruct (rc <? 0); [apply wp_ret; split; [done|by apply after_refl]|].
  apply wp_bind. eapply wp_mono.
  { apply (wp_update pcr vs1 backend_service (example_sets LogLevel) (id_buffer backend_service) (lit "log_level") 3);
      [done|done|done|done|done|]. intros st sn _. apply edited_log_level. }
  intros rc2 s2 (_ & Ha2 & _). by apply wp_ret.
Qed.

Lemma wp_get_changes pcr vs s :
  sys_inv pcr vs s -> wp (policy_get_changes_hash 0) (fun rc s' => rc = 0 /\ after pcr vs monitoring_ns 0 (example_sets ChangesHash) s s') s.
Proof.
  intros Hi. unfold policy_get_changes_hash. cbn [Z.eqb negb].
  apply wp_bind. eapply wp_mono; [by apply (wp_exists_after pcr vs _ (example_sets ChangesHash))|]. intros found s1 Ha.
  destruct (found <=? 0); [by apply wp_ret|]. apply wp_bind, wp_changes_hash. intros r. by apply wp_ret.
Qed.

(** The example programs do no harm. Whatever verdict the hook had before,
    a program returns it unchanged and does nothing when it was a refusal. A
    run never faults and keeps the whole module's invariant. On a bound store
    it advances the generation by at most the number of its updates, leaves
    the policy of every other namespace and of the root as it was, and its own
    namespace has the old policy or one that passed validation against the
    root and has the program's value: the cleared exclusions, the size
    threshold 0, the log level 3. *)
Theorem example_programs_confined p previous pcr vs s :
  sys_inv pcr vs s ->
  wp (run_example p previous) (fun rc s' =>
    rc = previous /\ (previous <> 0 -> s' = s) /\
    (exists ws, sys_inv pcr (vs ++ ws) s') /\
    (forall st, policy_view s = Some st -> exists st', policy_view s' = Some st' /\
       only_extends (example_ns p) (example_updates p) (example_sets p) st st')) s.
Proof.
  intros Hi. destruct (decide (previous = 0)) as [->|Hne].
  - destruct p as [|f| |]; (eapply wp_mono;
      [by first [apply wp_on_exec|apply wp_on_file_open|apply wp_get_changes|apply wp_log_level]|]);
      intros rc s' (-> & Hinv & Hst); (split_and!; [done|congruence|exact Hinv|exact Hst]).
  - assert (Hk : 0 <= example_updates p)
      by (destruct p as [|f| |]; cbn; try lia; destruct (f_inode f); [by destruct (_ >? _)|done]).
    assert (Hr : run_example p previous s = Some (previous, s))
      by (apply Z.eqb_neq in Hne; destruct p; cbn [run_example]; unfold policy_update_on_exec, policy_adjust_on_file_open,
        policy_get_changes_hash, policy_adjust_log_level; by rewrite Hne).
    unfold wp. rewrite Hr. split_and!; [done|done|by apply (after_refl pcr vs (example_ns p) 0 (fun _ => True))|].
    intros st Hst. exists st. split; [done|]. by apply only_extends_refl.
Qed.
End Theorems.

(** An execution on the sample module with the default root policy bound. *)
Lemma example_programs_confined_witness :
  wp (run_example (E := tpm_env) (B := sample_bpf) OnExec 0) (fun rc s' => rc = 0 /\
    exists st', policy_view s' = Some st' /\
      only_extends prod_container 2 (fun c => cfg_filter_flags c = 0) (with_generation initial_state 1) st') bound_state.
Proof.
  eapply wp_mono.
  - apply (example_programs_confined (E := tpm_env) (B := sample_bpf) OnExec 0 _ [] bound_state bound_sys_inv).
  - intros rc s' (Hrc & _ & _ & Hst). split; [exact Hrc|]. exact (Hst _ bound_state_view).
Defined.
