(* ===== verification/YamlParser.v ===== *)
(** * The YAML policy parser of the userspace tool

    [src/tools/yaml_parser.c]: the sections of a policy file, read from the
    events of libyaml, and the snapshot that is built from them.  libyaml is a
    parameter: the answer of its [n]-th call, an event or a failure.  A parser
    state is the number of calls made so far, and a loop has fuel, so that a
    loop that never ends is [None].  A [char] array that only ever holds a
    string is its text. *)

From S2P Require Import Prelude CString Types Kernel Pattern Snapshot PolicyManager PolicyFiles.

(** ** libyaml *)

Inductive yaml_event :=
  | Scalar (value : bytes)
  | SequenceStart | SequenceEnd
  | MappingStart | MappingEnd
  | DocumentStart | DocumentEnd
  | StreamStart | StreamEnd
  | Alias
  | NoEvent.

Class YamlLib := {
  (** [yaml_parser_parse]: [None] when it fails. *)
  yaml_event_at : nat -> option yaml_event;
}.

(** A computation that reads events. *)
Definition Y (A : Type) : Type := nat -> option (A * nat).

Definition yret {A} (a : A) : Y A := fun n => Some (a, n).
Definition ybind {A B} (m : Y A) (f : A -> Y B) : Y B :=
  fun n => match m n with Some (a, n') => f a n' | None => None end.

Declare Scope yaml_scope.
Delimit Scope yaml_scope with yaml.
Notation "'let@' p ':=' m 'in' k" := (ybind m (fun x => let 'p := x in k))
  (at level 10, p strict pattern, m at level 100, k at level 200) : yaml_scope.
Open Scope yaml_scope.

Section Loop.
Context {Lib : YamlLib}.

Definition yaml_parser_parse : Y (option yaml_event) := fun n => Some (yaml_event_at n, S n).

(** [while (...) { if (!yaml_parser_parse(...)) ...; switch (event.type) ... }]:
    the body goes on with a new state or ends the loop with a result. *)
Fixpoint event_loop {St R} (fuel : nat) (failed : St -> R) (body : St -> yaml_event -> Y (St + R)) (st : St) : Y R :=
  match fuel with
  | O => fun _ => None
  | S fuel =>
      ybind yaml_parser_parse (fun event =>
        match event with
        | None => yret (failed st)
        | Some event =>
            ybind (body st event) (fun next =>
              match next with inl st => event_loop fuel failed body st | inr r => yret r end)
        end)
  end.
End Loop.

(** ** Values *)

Definition tolower (b : byte) : byte :=
  if (65 <=? u8_val b) && (u8_val b <=? 90) then to_u8 (u8_val b + 32) else b.

(** [strcasecmp(a, b) == 0]. *)
Definition strcaseeq (a b : bytes) : bool := bool_decide (tolower <$> cstr a = tolower <$> cstr b).

(** [None] for [-1]. *)
Definition parse_bool (value : bytes) : option Z :=
  if strcaseeq value (lit "true") || strcaseeq value (lit "yes") || (strcmp value (lit "1") =? 0) then Some 1
  else if strcaseeq value (lit "false") || strcaseeq value (lit "no") || (strcmp value (lit "0") =? 0) then Some 0
  else None.

Definition isspace (b : byte) : bool := ((9 <=? u8_val b) && (u8_val b <=? 13)) || (u8_val b =? 32).

Fixpoint skip_spaces (s : bytes) : bytes :=
  match s with
  | b :: s' => if isspace b then skip_spaces s' else s
  | [] => []
  end.

(** [strtoul(value, &end, base)] for base 0 and 10: the result, whether
    [errno] is set, and the text at [end]. *)
Definition strtoul (value : bytes) (base : Z) : Z * bool * bytes :=
  let value := cstr value in
  let s := skip_spaces value in
  let '(negative, s) := match s with x2d :: s' => (true, s') | x2b :: s' => (false, s') | _ => (false, s) end in
  let '(base, digits) := if base =? 0 then fixup_radix s else (base, s) in
  let '(number, seen, rest) := parse_integer base 0 digits false in
  if negb seen then (0, false, value) else
  if number >? U64_MAX then (U64_MAX, true, rest) else
  (if negative then to_u64 (- number) else number, false, rest).

Definition parse_number (value : bytes) (base maximum : Z) : option Z :=
  if Byte.eqb (char_at value 0) x2d || Byte.eqb (char_at value 0) NUL then None else
  let '(result, errno, rest) := strtoul value base in
  if errno || negb (bool_decide (rest = [])) || (result >? maximum) then None else Some result.

Definition parse_int (value : bytes) : option Z := parse_number value 10 3.
Definition parse_u32 (value : bytes) (maximum : Z) : option Z := parse_number value 0 maximum.

(** ** The parsed data *)

Record yaml_policy := YamlPolicy {
  yp_enabled : Z;
  yp_log_level : Z;
  yp_filter_flags : Z;
  yp_min_file_size : Z;
  yp_max_path_depth : Z;
  yp_measure_enabled : Z;
  yp_appraise_enabled : Z;
  yp_enforce_enabled : Z;
  yp_container_tracking : Z;
}.

Record yaml_hook_config := YamlHook {
  yh_hook_name : bytes;
  yh_enabled : Z;
  yh_measure : Z;
  yh_appraise : Z;
  yh_enforce : Z;
}.

(** ** Handlers: the new value of the structure, or [None] for [-1] *)

Definition handle_policy_enabled (p : yaml_policy) (v : bytes) : option yaml_policy :=
  x ← parse_bool v; Some (YamlPolicy x (yp_log_level p) (yp_filter_flags p) (yp_min_file_size p) (yp_max_path_depth p)
    (yp_measure_enabled p) (yp_appraise_enabled p) (yp_enforce_enabled p) (yp_container_tracking p)).
Definition handle_policy_loglevel (p : yaml_policy) (v : bytes) : option yaml_policy :=
  x ← parse_int v; Some (YamlPolicy (yp_enabled p) x (yp_filter_flags p) (yp_min_file_size p) (yp_max_path_depth p)
    (yp_measure_enabled p) (yp_appraise_enabled p) (yp_enforce_enabled p) (yp_container_tracking p)).
Definition handle_policy_measure (p : yaml_policy) (v : bytes) : option yaml_policy :=
  x ← parse_bool v; Some (YamlPolicy (yp_enabled p) (yp_log_level p) (yp_filter_flags p) (yp_min_file_size p) (yp_max_path_depth p)
    x (yp_appraise_enabled p) (yp_enforce_enabled p) (yp_container_tracking p)).
Definition handle_policy_appraise (p : yaml_policy) (v : bytes) : option yaml_policy :=
  x ← parse_bool v; Some (YamlPolicy (yp_enabled p) (yp_log_level p) (yp_filter_flags p) (yp_min_file_size p) (yp_max_path_depth p)
    (yp_measure_enabled p) x (yp_enforce_enabled p) (yp_container_tracking p)).
Definition handle_policy_enforce (p : yaml_policy) (v : bytes) : option yaml_policy :=
  x ← parse_bool v; Some (YamlPolicy (yp_enabled p) (yp_log_level p) (yp_filter_flags p) (yp_min_file_size p) (yp_max_path_depth p)
    (yp_measure_enabled p) (yp_appraise_enabled p) x (yp_container_tracking p)).
Definition handle_policy_tracking (p : yaml_policy) (v : bytes) : option yaml_policy :=
  x ← parse_bool v; Some (YamlPolicy (yp_enabled p) (yp_log_level p) (yp_filter_flags p) (yp_min_file_size p) (yp_max_path_depth p)
    (yp_measure_enabled p) (yp_appraise_enabled p) (yp_enforce_enabled p) x).
Definition handle_policy_filters (p : yaml_policy) (v : bytes) : option yaml_policy :=
  x ← parse_u32 v 255; Some (YamlPolicy (yp_enabled p) (yp_log_level p) x (yp_min_file_size p) (yp_max_path_depth p)
    (yp_measure_enabled p) (yp_appraise_enabled p) (yp_enforce_enabled p) (yp_container_tracking p)).
Definition handle_policy_min_size (p : yaml_policy) (v : bytes) : option yaml_policy :=
  x ← parse_u32 v U32_MAX; Some (YamlPolicy (yp_enabled p) (yp_log_level p) (yp_filter_flags p) x (yp_max_path_depth p)
    (yp_measure_enabled p) (yp_appraise_enabled p) (yp_enforce_enabled p) (yp_container_tracking p)).
Definition handle_policy_depth (p : yaml_policy) (v : bytes) : option yaml_policy :=
  x ← parse_u32 v 32; Some (YamlPolicy (yp_enabled p) (yp_log_level p) (yp_filter_flags p) (yp_min_file_size p) x
    (yp_measure_enabled p) (yp_appraise_enabled p) (yp_enforce_enabled p) (yp_container_tracking p)).

Definition policy_handlers : list (bytes * (yaml_policy -> bytes -> option yaml_policy)) :=
  [(lit "enabled", handle_policy_enabled);
   (lit "log_level", handle_policy_loglevel);
   (lit "measure_enabled", handle_policy_measure);
   (lit "appraise_enabled", handle_policy_appraise);
   (lit "enforce_enabled", handle_policy_enforce);
   (lit "container_tracking", handle_policy_tracking);
   (lit "filter_flags", handle_policy_filters);
   (lit "min_file_size", handle_policy_min_size);
   (lit "max_path_depth", handle_policy_depth)].

Definition handle_hook_name (h : yaml_hook_config) (v : bytes) : option yaml_hook_config :=
  Some (YamlHook (take 63 (cstr v)) (yh_enabled h) (yh_measure h) (yh_appraise h) (yh_enforce h)).
Definition handle_hook_enabled (h : yaml_hook_config) (v : bytes) : option yaml_hook_config :=
  x ← parse_bool v; Some (YamlHook (yh_hook_name h) x (yh_measure h) (yh_appraise h) (yh_enforce h)).
Definition handle_hook_measure (h : yaml_hook_config) (v : bytes) : option yaml_hook_config :=
  x ← parse_bool v; Some (YamlHook (yh_hook_name h) (yh_enabled h) x (yh_appraise h) (yh_enforce h)).
Definition handle_hook_appraise (h : yaml_hook_config) (v : bytes) : option yaml_hook_config :=
  x ← parse_bool v; Some (YamlHook (yh_hook_name h) (yh_enabled h) (yh_measure h) x (yh_enforce h)).
Definition handle_hook_enforce (h : yaml_hook_config) (v : bytes) : option yaml_hook_config :=
  x ← parse_bool v; Some (YamlHook (yh_hook_name h) (yh_enabled h) (yh_measure h) (yh_appraise h) x).

Definition hook_handlers : list (bytes * (yaml_hook_config -> bytes -> option yaml_hook_config)) :=
  [(lit "name", handle_hook_name);
   (lit "enabled", handle_hook_enabled);
   (lit "measure", handle_hook_measure);
   (lit "appraise", handle_hook_appraise);
   (lit "enforce", handle_hook_enforce)].

(** The loop over a table of handlers. *)
Fixpoint dispatch {A} (handlers : list (bytes * (A -> bytes -> option A))) (key val : bytes) (ctx : A) : option A :=
  match handlers with
  | [] => None
  | (k, handler) :: handlers => if strcmp key k =? 0 then handler ctx val else dispatch handlers key val ctx
  end.

Definition policy_dispatcher (key val : bytes) (policy : yaml_policy) : option yaml_policy :=
  dispatch policy_handlers key val policy.
Definition hook_dispatcher (key val : bytes) (hook : yaml_hook_config) : option yaml_hook_config :=
  dispatch hook_handlers key val hook.

(** ** Sections *)

Definition MAX_KEY_LEN : nat := 256.

(** [snprintf(key, sizeof(key), "%s", value)]. *)
Definition key_text (value : bytes) : bytes := take (MAX_KEY_LEN - 1) (cstr value).

Section Sections.
Context {Lib : YamlLib}.

(** The result and the structure, which keeps what was set before an error. *)
Definition parse_generic_map {A} (fuel : nat) (ctx : A) (dispatcher : bytes -> bytes -> A -> option A) : Y (Z * A) :=
  event_loop fuel (fun '(key, ctx) => (- 1, ctx))
    (fun '(key, ctx) event =>
       match event with
       | Scalar value =>
           if bool_decide (key = []) then yret (inl (key_text value, ctx)) else
           match dispatcher key value ctx with
           | None => yret (inr (- 1, ctx))
           | Some ctx => yret (inl ([], ctx))
           end
       | MappingEnd => yret (inr (0, ctx))
       | _ => yret (inl (key, ctx))
       end) ([], ctx).

Definition parse_policy_section (fuel : nat) (policy : yaml_policy) : Y (Z * yaml_policy) :=
  parse_generic_map fuel policy policy_dispatcher.

Definition parse_hook_config (fuel : nat) (config : yaml_hook_config) : Y (Z * yaml_hook_config) :=
  parse_generic_map fuel config hook_dispatcher.

Definition parse_string_sequence (fuel : nat) (patterns : list bytes) (max_patterns : nat) : Y (Z * list bytes) :=
  event_loop fuel (fun '(count, patterns) => (- 1, patterns))
    (fun '(count, patterns) event =>
       match event with
       | Scalar value =>
           if (max_patterns <=? count)%nat || (MAX_PATTERN_LEN <=? length value)%nat
           then yret (inr (- 1, patterns))
           else yret (inl (S count, <[count := take 254 (cstr value)]> patterns))
       | SequenceEnd => yret (inr (Z.of_nat count, patterns))
       | _ => yret (inl (count, patterns))
       end) (0%nat, patterns).

Definition parse_filters_section (fuel : nat) (cgroup_filters : list bytes) (max_cgroups : nat)
    (path_filters : list bytes) (max_paths : nat) : Y (Z * list bytes * list bytes) :=
  event_loop fuel (fun '(key, cgroups, paths) => (- 1, cgroups, paths))
    (fun '(key, cgroups, paths) event =>
       match event with
       | Scalar value =>
           yret (inl (if bool_decide (key = []) then key_text value else key, cgroups, paths))
       | SequenceStart =>
           if strcmp key (lit "cgroup_patterns") =? 0 then
             let@ (rc, cgroups) := parse_string_sequence fuel cgroups max_cgroups in
             yret (if rc <? 0 then inr (- 1, cgroups, paths) else inl ([], cgroups, paths))
           else if strcmp key (lit "path_patterns") =? 0 then
             let@ (rc, paths) := parse_string_sequence fuel paths max_paths in
             yret (if rc <? 0 then inr (- 1, cgroups, paths) else inl ([], cgroups, paths))
           else yret (inl ([], cgroups, paths))
       | MappingEnd => yret (inr (0, cgroups, paths))
       | _ => yret (inl (key, cgroups, paths))
       end) ([], cgroup_filters, path_filters).

Definition zero_hook_config : yaml_hook_config := YamlHook [] 0 0 0 0.

Definition parse_hooks_section (fuel : nat) (hook_configs : list yaml_hook_config) (max_hooks : nat)
    : Y (Z * list yaml_hook_config) :=
  event_loop fuel (fun '(count, hooks) => (- 1, hooks))
    (fun '(count, hooks) event =>
       match event with
       | MappingStart =>
           if (count <? max_hooks)%nat then
             let@ (rc, config) := parse_hook_config fuel (nth count hooks zero_hook_config) in
             yret (inl (if rc =? 0 then S count else count, <[count := config]> hooks))
           else yret (inl (count, hooks))
       | SequenceEnd => yret (inr (Z.of_nat count, hooks))
       | _ => yret (inl (count, hooks))
       end) (0%nat, hook_configs).

(** ** The file *)

Record yaml_file := YamlFile {
  yf_policy : yaml_policy;
  yf_cgroups : list bytes;
  yf_paths : list bytes;
  yf_hooks : list yaml_hook_config;
}.

(** The output arguments after the [memset] calls. *)
Definition empty_file (max_cgroups max_paths max_hooks : nat) : yaml_file :=
  YamlFile (YamlPolicy 0 0 0 0 DEFAULT_MAX_PATH_DEPTH 0 0 0 0)
    (replicate max_cgroups []) (replicate max_paths []) (replicate max_hooks zero_hook_config).

(** [opened] and [initialized]: whether [fopen] and [yaml_parser_initialize]
    succeed. *)
Definition parse_yaml_policy (opened initialized : bool) (fuel max_cgroups max_paths max_hooks : nat)
    (before : yaml_file) : Y (Z * yaml_file) :=
  if negb opened then yret (- 1, before) else
  if negb initialized then yret (- 1, before) else
  event_loop fuel (fun '(key, f) => (- 1, f))
    (fun '(key, f) event =>
       match event with
       | Scalar value => yret (inl (key_text value, f))
       | MappingStart =>
           if strcmp key (lit "policy") =? 0 then
             let@ (rc, policy) := parse_policy_section fuel (yf_policy f) in
             let f := YamlFile policy (yf_cgroups f) (yf_paths f) (yf_hooks f) in
             yret (if rc <? 0 then inr (- 1, f) else inl ([], f))
           else if strcmp key (lit "filters") =? 0 then
             let@ (rc, cgroups, paths) := parse_filters_section fuel (yf_cgroups f) max_cgroups (yf_paths f) max_paths in
             let f := YamlFile (yf_policy f) cgroups paths (yf_hooks f) in
             yret (if rc <? 0 then inr (- 1, f) else inl ([], f))
           else yret (inl ([], f))
       | SequenceStart =>
           if strcmp key (lit "hooks") =? 0 then
             let@ (rc, hooks) := parse_hooks_section fuel (yf_hooks f) max_hooks in
             let f := YamlFile (yf_policy f) (yf_cgroups f) (yf_paths f) hooks in
             yret (if rc <? 0 then inr (- 1, f) else inl ([], f))
           else yret (inl ([], f))
       | DocumentEnd | StreamEnd => yret (inr (0, f))
       | _ => yret (inl (key, f))
       end) ([], empty_file max_cgroups max_paths max_hooks).
End Sections.

(** ** The snapshot *)

Definition hook_names : list bytes :=
  [lit "lsm_bprm_check_security"; lit "lsm_file_open"; lit "lsm_file_post_open"; lit "lsm_mmap_file";
   lit "lsm_socket_connect"; lit "lsm_container_events"; lit "kprobe_file_open"; lit "lsm_inode_setattr"].

(** The index of the first equal string; [None] for [-1]. *)
Fixpoint find_name (name : bytes) (names : list bytes) (i : nat) : option nat :=
  match names with
  | [] => None
  | n :: names => if strcmp name n =? 0 then Some i else find_name name names (S i)
  end.
Definition get_hook_id (name : bytes) : option nat := find_name name hook_names 0.

(** The loop over the hooks of the file. *)
Fixpoint build_hooks (tracking : Z) (hooks : list yaml_hook_config) (out : list bpfima_hook_config)
    : Z + list bpfima_hook_config :=
  match hooks with
  | [] => inr out
  | h :: hooks =>
      if Byte.eqb (char_at (yh_hook_name h) 0) NUL then build_hooks tracking hooks out else
      if truth (yh_appraise h) || truth (yh_enforce h) then inl (- EOPNOTSUPP) else
      match get_hook_id (yh_hook_name h) with
      | None => inl (- EINVAL)
      | Some id =>
          build_hooks tracking hooks (alter (set_hook_flags
            (Z.lor (Z.lor (if truth (yh_enabled h) then HOOK_FLAG_ENABLED else 0)
                      (if truth (yh_measure h) then HOOK_FLAG_MEASURE_HASH else 0))
               (if truth tracking then HOOK_FLAG_TRACK_CONTAINERS else 0))) id out)
      end
  end.

(** One pass of the loop over the patterns; the entry was zeroed. *)
Definition build_pattern (pattern : bytes) : Z + bpfima_pattern_entry :=
  if (MAX_PATTERN_LEN <=? strlen pattern)%nat then inl (- EINVAL) else
  if Byte.eqb (char_at pattern 0) NUL then inr zero_pattern else
  inr (PatternEntry (strscpy (pat_pattern zero_pattern) pattern MAX_PATTERN_LEN) 1 1 0).

(** The first [n] entries are built from the patterns, the rest stay zero. *)
Definition build_patterns (patterns : list bytes) (n size : nat) : Z + list bpfima_pattern_entry :=
  match map_err build_pattern (take n patterns) with
  | inl e => inl e
  | inr entries => inr (entries ++ replicate (size - length entries) zero_pattern)
  end.

Definition MAX_HOOK_CONFIGS : nat := 16.

Definition build_policy_from_yaml (policy : yaml_policy) (cgroup_filters : list bytes) (num_cgroups : Z)
    (path_filters : list bytes) (num_paths : Z) (hooks : list yaml_hook_config) (num_hooks : Z)
    : Z + bpfima_policy_snapshot :=
  if (num_cgroups <? 0) || (num_cgroups >? Z.of_nat MAX_IGNORE_PATTERNS) || (num_paths <? 0) ||
    (num_paths >? Z.of_nat MAX_PATH_FILTERS) || (num_hooks <? 0) || (num_hooks >? Z.of_nat MAX_HOOK_CONFIGS)
  then inl (- EINVAL) else
  if truth (yp_appraise_enabled policy) || truth (yp_enforce_enabled policy) then inl (- EOPNOTSUPP) else
  if negb (truth (yp_measure_enabled policy)) then inl (- EINVAL) else
  let action_flags := Z.lor (Z.lor POLICY_ACTION_EXTEND_TPM POLICY_ACTION_LOG_SECURITYFS) POLICY_ACTION_BUILD_DEPS in
  let action_flags := if truth (yp_log_level policy) then Z.lor action_flags POLICY_ACTION_LOG_KERNEL else action_flags in
  let action_flags := if truth (yp_container_tracking policy)
    then Z.lor action_flags POLICY_ACTION_TRACK_CONTAINER else action_flags in
  let config := PolicyConfig (yp_enabled policy) (yp_filter_flags policy) action_flags (yp_min_file_size policy)
    (yp_max_path_depth policy) (yp_log_level policy) DEFAULT_MERKLE_HISTORY_MAX_SIZE 0 0 in
  let defaults := alter (set_hook_flags 0) (Z.to_nat HOOK_KPROBE_FILE_OPEN)
    (set_hook_flags DEFAULT_HOOK_FLAGS <$> sn_hooks zero_snapshot) in
  match build_hooks (yp_container_tracking policy) (take (Z.to_nat num_hooks) hooks) defaults with
  | inl e => inl e
  | inr out =>
      match build_patterns cgroup_filters (Z.to_nat num_cgroups) MAX_IGNORE_PATTERNS with
      | inl e => inl e
      | inr cgroups =>
          match build_patterns path_filters (Z.to_nat num_paths) MAX_PATH_FILTERS with
          | inl e => inl e
          | inr paths => inr (PolicySnapshot config cgroups paths out)
          end
      end
  end.
