(* ===== verification/YamlParserSpec.v ===== *)
(** * The parser of policy files returns, and what it accepts is in range

    For every document whose collections are nested, every loop of the parser
    ends; whatever libyaml produces, the parsed data is in range and the kernel
    accepts the snapshot that is built from it. *)

From S2P Require Import Prelude CString Types Kernel Pattern Snapshot PolicyManager PolicyAudit PolicyFiles PolicyFilesSpec BpfUtils BpfUtilsSpec YamlParser.

(** ** Documents *)

(** The open collections, innermost first. *)
Inductive collection := CSeq | CMap.

#[global] Instance collection_eq_dec : EqDecision collection.
Proof. solve_decision. Defined.

Definition after_event (open : list collection) (e : yaml_event) : option (list collection) :=
  match e, open with
  | (Scalar _ | Alias), _ => Some open
  | SequenceStart, _ => Some (CSeq :: open)
  | MappingStart, _ => Some (CMap :: open)
  | SequenceEnd, CSeq :: open => Some open
  | MappingEnd, CMap :: open => Some open
  | _, _ => None
  end.

(** The events close every open collection, innermost first. *)
Fixpoint nested (open : list collection) (evs : list yaml_event) : Prop :=
  match evs with
  | [] => open = []
  | e :: evs => match after_event open e with Some open => nested open evs | None => False end
  end.

(** The events of a stream with one document. *)
Definition document (body : list yaml_event) : list yaml_event :=
  [StreamStart; DocumentStart] ++ body ++ [DocumentEnd; StreamEnd].

(** libyaml produces the events, from call [n] on. *)
Definition produces {Lib : YamlLib} (n : nat) (evs : list yaml_event) : Prop :=
  forall i e, evs !! i = Some e -> yaml_event_at (n + i) = Some e.

Lemma produces_cons {Lib : YamlLib} n e evs : produces n (e :: evs) <-> yaml_event_at n = Some e /\ produces (S n) evs.
Proof.
  split.
  - intros H. split; [specialize (H 0%nat e eq_refl); by rewrite Nat.add_0_r in H|].
    intros i x Hi. specialize (H (S i) x Hi). by rewrite Nat.add_succ_r in H.
  - intros [H0 H] [|i] x Hi; [injection Hi as <-; by rewrite Nat.add_0_r|]. rewrite Nat.add_succ_r. by apply H.
Qed.

(** ** Every loop ends *)

Section Ends.
Context {Lib : YamlLib}.

(** What is left of a document at call [n]. *)
Definition left_at (n : nat) (open : list collection) (r : list yaml_event) : Prop :=
  produces n (r ++ [DocumentEnd]) /\ nested open r.

Lemma event_loop_step {St R} fuel (failed : St -> R) body st n e :
  yaml_event_at n = Some e ->
  event_loop (S fuel) failed body st n =
    match body st e (S n) with
    | Some (inl st', n') => event_loop fuel failed body st' n'
    | Some (inr r, n') => Some (r, n')
    | None => None
    end.
Proof. intros He. cbn. unfold ybind, yaml_parser_parse. rewrite He. by destruct (body st e (S n)) as [[[]]|]. Qed.

(** The computation returns, having read part of what was left, with the
    collections [T] still open. *)
Definition returns {A} (m : Y A) (n : nat) (r : list yaml_event) (Q : A -> list collection -> Prop) : Prop :=
  exists a n' open' r', m n = Some (a, n') /\ left_at n' open' r' /\ (length r' <= length r)%nat /\ Q a open'.

(** A section: it runs while the collections [T] are open. *)
Lemma section_returns {St R} (bound : nat) (failed : St -> R) body (T : list collection) (Q : R -> list collection -> Prop) :
  T <> [] ->
  (forall st e n open0 open r, T `suffix_of` open0 -> after_event open0 e = Some open -> left_at n open r ->
     (length r < bound)%nat ->
     returns (body st e) n r (fun next open' =>
       match next with inl _ => T `suffix_of` open' | inr x => Q x open' end)) ->
  forall fuel st n open r, T `suffix_of` open -> left_at n open r -> (length r < fuel)%nat -> (length r <= bound)%nat ->
  returns (event_loop fuel failed body st) n r Q.
Proof.
  intros HT Hbody fuel. induction fuel as [|fuel IH]; intros st n open r Hs [Hp Hn] Hf Hb; [lia|].
  destruct r as [|e r].
  { cbn in Hn. subst open. destruct Hs as [l Hl]. symmetry in Hl. apply app_nil in Hl as [_ ->]. done. }
  cbn [app] in Hp. apply produces_cons in Hp as [He Hp]. cbn [nested] in Hn.
  destruct (after_event open e) as [open1|] eqn:Ea; [|done]. cbn [length] in *.
  destruct (Hbody st e (S n) open open1 r Hs Ea (conj Hp Hn) ltac:(lia)) as (next & n' & open' & r' & Hrun & Hl & Hlen & HQ).
  unfold returns. rewrite (event_loop_step fuel failed body st n e He), Hrun. destruct next as [st'|x].
  - destruct (IH st' n' open' r' HQ Hl ltac:(lia) ltac:(lia)) as (a & n2 & o2 & r2 & -> & Hl2 & Hlen2 & HQ2).
    exists a, n2, o2, r2. cbn [length]. split_and!; try done; lia.
  - exists x, n', open', r'. cbn [length]. split_and!; try done; lia.
Qed.

Lemma returns_ret {A} (a : A) n open r (Q : A -> list collection -> Prop) : left_at n open r -> Q a open -> returns (yret a) n r Q.
Proof. intros Hl HQ. by exists a, n, open, r. Qed.

Lemma returns_bind {A B} (m : Y A) (f : A -> Y B) n r P Q :
  returns m n r P -> (forall a n' open' r', P a open' -> left_at n' open' r' -> returns (f a) n' r' Q) -> returns (ybind m f) n r Q.
Proof.
  intros (a & n' & open' & r' & Hm & Hl & Hlen & HP) Hf. destruct (Hf a n' open' r' HP Hl) as (b & n2 & o2 & r2 & Hb & Hl2 & Hlen2 & HQ).
  exists b, n2, o2, r2. unfold ybind. rewrite Hm. split_and!; try done; lia.
Qed.

(** ** The sections *)

Definition closing (c : collection) : yaml_event := match c with CSeq => SequenceEnd | CMap => MappingEnd end.

Lemma after_event_cases open0 e open :
  after_event open0 e = Some open ->
  open = open0 \/ (exists c, open = c :: open0) \/ (exists c, open0 = c :: open /\ e = closing c).
Proof.
  destruct e; cbn; try done; try (intros [= <-]; by eauto); destruct open0 as [|[] open0]; try done;
    intros [= <-]; right; right; [by exists CSeq|by exists CMap].
Qed.

(** After an event that does not close it, a collection is still open; after
    any event, what surrounds it is. *)
Lemma suffix_after c T open0 open e :
  (c :: T) `suffix_of` open0 -> after_event open0 e = Some open -> e <> closing c -> (c :: T) `suffix_of` open.
Proof.
  intros Hs Ha Hne. apply after_event_cases in Ha as [->|[[c' ->]|(c' & -> & ->)]]; [done|by apply suffix_cons_r|].
  apply suffix_cons_inv in Hs as [[= -> _]|Hs]; done.
Qed.

Lemma suffix_closed c T open0 open e :
  (c :: T) `suffix_of` open0 -> after_event open0 e = Some open -> T `suffix_of` open.
Proof.
  intros Hs Ha. assert (HT : T `suffix_of` c :: T) by by apply suffix_cons_r.
  apply after_event_cases in Ha as [->|[[c' ->]|(c' & -> & ->)]]; [by etrans|by apply suffix_cons_r; etrans|].
  apply suffix_cons_inv in Hs as [[= -> ->]|Hs]; [done|by etrans].
Qed.

(** A section that starts inside the collection [c]. *)
Definition section_ok {A} (c : collection) (fuel : nat) (m : Y A) : Prop :=
  forall T n open r, (c :: T) `suffix_of` open -> left_at n open r -> (length r < fuel)%nat ->
  returns m n r (fun _ open' => T `suffix_of` open').

Ltac stays := first [eapply suffix_after; [eassumption|eassumption|done]|eapply suffix_closed; eassumption|eassumption].

Lemma generic_map_ok {A} fuel (ctx : A) dispatcher : section_ok CMap fuel (parse_generic_map fuel ctx dispatcher).
Proof.
  intros T n open r Hs Hl Hf. apply (section_returns fuel _ _ (CMap :: T)) with (open := open); [done| |done|done|done|lia].
  intros [key c] e n' open0 open' r' Hs0 Ha Hl' Hlen.
  destruct e as [v| | | | | | | | | |]; try (eapply returns_ret; [exact Hl'|stays]).
  case_bool_decide; [eapply returns_ret; [exact Hl'|stays]|]. destruct (dispatcher key v c); (eapply returns_ret; [exact Hl'|stays]).
Qed.

Lemma string_sequence_ok fuel patterns max : section_ok CSeq fuel (parse_string_sequence fuel patterns max).
Proof.
  intros T n open r Hs Hl Hf. apply (section_returns fuel _ _ (CSeq :: T)) with (open := open); [done| |done|done|done|lia].
  intros [count ps] e n' open0 open' r' Hs0 Ha Hl' Hlen.
  destruct e as [v| | | | | | | | | |]; try (eapply returns_ret; [exact Hl'|stays]).
  destruct (_ || _); (eapply returns_ret; [exact Hl'|stays]).
Qed.

(** A section inside a section: it starts in the collection that the last
    event opened. *)
Lemma inner_returns {A B} c fuel (m : Y A) (f : A -> Y B) n open0 r (Q : B -> list collection -> Prop) :
  section_ok c fuel m -> left_at n (c :: open0) r -> (length r < fuel)%nat ->
  (forall a n' open' r', open0 `suffix_of` open' -> left_at n' open' r' -> returns (f a) n' r' Q) -> returns (ybind m f) n r Q.
Proof. intros Hm Hl Hf HQ. eapply returns_bind; [by apply (Hm open0 n (c :: open0) r)|]. cbn. eauto. Qed.

Lemma filters_ok fuel cgroups max_cgroups paths max_paths :
  section_ok CMap fuel (parse_filters_section fuel cgroups max_cgroups paths max_paths).
Proof.
  intros T n open r Hs Hl Hf. apply (section_returns fuel _ _ (CMap :: T)) with (open := open); [done| |done|done|done|lia].
  intros [[key cs] ps] e n' open0 open' r' Hs0 Ha Hl' Hlen.
  destruct e as [v| | | | | | | | | |]; try (eapply returns_ret; [exact Hl'|stays]).
  injection Ha as <-. assert (HT : T `suffix_of` open0) by (etrans; [|exact Hs0]; by apply suffix_cons_r).
  destruct (_ =? 0); [|destruct (_ =? 0); [|eapply returns_ret; [exact Hl'|by apply suffix_cons_r]]];
    (eapply (inner_returns CSeq fuel); [apply string_sequence_ok|exact Hl'|done|]);
    intros [rc x] n2 open2 r2 Ho Hl2; (eapply returns_ret; [exact Hl2|]); destruct (rc <? 0); by etrans.
Qed.

Lemma hooks_ok fuel hooks max : section_ok CSeq fuel (parse_hooks_section fuel hooks max).
Proof.
  intros T n open r Hs Hl Hf. apply (section_returns fuel _ _ (CSeq :: T)) with (open := open); [done| |done|done|done|lia].
  intros [count hs] e n' open0 open' r' Hs0 Ha Hl' Hlen.
  destruct e as [v| | | | | | | | | |]; try (eapply returns_ret; [exact Hl'|stays]).
  injection Ha as <-. destruct (_ <? _)%nat; [|eapply returns_ret; [exact Hl'|by apply suffix_cons_r]].
  eapply (inner_returns CMap fuel); [apply generic_map_ok|exact Hl'|done|].
  intros [rc x] n2 open2 r2 Ho Hl2. eapply returns_ret; [exact Hl2|]. cbn. by etrans.
Qed.

(** The outermost loop ends at the end of the document. *)
Lemma document_ends {St R} (bound : nat) (failed : St -> R) body :
  (forall st n, exists x, body st DocumentEnd n = Some (inr x, n)) ->
  (forall st e n open r, left_at n open r -> (length r < bound)%nat ->
     (forall open0, after_event open0 e = Some open -> returns (body st e) n r (fun _ _ => True))) ->
  forall fuel st n open r, left_at n open r -> (length r < fuel)%nat -> (length r <= bound)%nat ->
  exists a n', event_loop fuel failed body st n = Some (a, n').
Proof.
  intros Hend Hbody fuel. induction fuel as [|fuel IH]; intros st n open r [Hp Hn] Hf Hb; [lia|].
  destruct r as [|e r]; cbn [app] in Hp; apply produces_cons in Hp as [He Hp]; rewrite (event_loop_step _ _ _ _ _ _ He).
  { destruct (Hend st (S n)) as [x ->]. eauto. }
  cbn [nested] in Hn. destruct (after_event open e) as [open1|] eqn:Ea; [|done]. cbn [length] in *.
  destruct (Hbody st e (S n) open1 r (conj Hp Hn) ltac:(lia) open Ea) as (next & n' & open' & r' & -> & Hl & Hlen & _).
  destruct next as [st'|x]; [|eauto]. apply (IH st' n' open' r' Hl); lia.
Qed.

Lemma file_loop_ends opened initialized fuel max_cgroups max_paths max_hooks before body :
  produces 0 (document body) -> nested [] body -> (length (document body) <= fuel)%nat ->
  exists rc f n, parse_yaml_policy opened initialized fuel max_cgroups max_paths max_hooks before 0%nat = Some (rc, f, n).
Proof.
  intros Hp Hn Hf. unfold parse_yaml_policy. destruct opened; [|by eauto]. destruct initialized; [|by eauto]. cbn [negb].
  unfold document in Hp, Hf. cbn [app length] in *. rewrite length_app in Hf. cbn [length] in Hf.
  apply produces_cons in Hp as [H0 Hp]. apply produces_cons in Hp as [H1 Hp].
  assert (Hl : left_at 2 [] body).
  { split; [|done]. intros i e Hi. apply Hp. change [DocumentEnd; StreamEnd] with ([DocumentEnd] ++ [StreamEnd]).
    rewrite app_assoc. by apply lookup_app_l_Some. }
  destruct fuel as [|[|fuel]]; [lia|lia|]. rewrite (event_loop_step _ _ _ _ _ _ H0). cbn [yret]. rewrite (event_loop_step _ _ _ _ _ _ H1). cbn [yret].
  match goal with |- exists rc f n, ?run = _ => enough (exists a n, run = Some (a, n)) as ([rc f] & n & ->) by eauto end.
  apply (document_ends (S (S fuel))) with (open := []) (r := body); [| |exact Hl|lia|lia].
  - intros [key f] n. by eexists.
  - intros [key f] e n open r Hlr Hlen open0 Ha.
    destruct e as [v| | | | | | | | | |]; try (eapply returns_ret; [exact Hlr|done]); injection Ha as <-.
    + destruct (_ =? 0); [|by eapply returns_ret]. eapply (inner_returns CSeq); [apply hooks_ok|exact Hlr|done|].
      intros [rc hs] n' open' r' _ Hl'. by eapply returns_ret.
    + destruct (_ =? 0); [|destruct (_ =? 0); [|by eapply returns_ret]].
      * eapply (inner_returns CMap); [apply generic_map_ok|exact Hlr|done|]. intros [rc p] n' open' r' _ Hl'. by eapply returns_ret.
      * eapply (inner_returns CMap); [apply filters_ok|exact Hlr|done|]. intros [[rc cs] ps] n' open' r' _ Hl'. by eapply returns_ret.
Qed.
End Ends.

(** ** What is parsed is in range *)

Definition is_bool (z : Z) : Prop := z = 0 \/ z = 1.

Record wf_yaml_policy (p : yaml_policy) : Prop := WfYamlPolicy {
  wyp_enabled : is_bool (yp_enabled p);
  wyp_log_level : 0 <= yp_log_level p <= 3;
  wyp_filter_flags : 0 <= yp_filter_flags p <= 255;
  wyp_min_file_size : is_u32 (yp_min_file_size p);
  wyp_max_path_depth : 0 <= yp_max_path_depth p <= 32;
  wyp_measure : is_bool (yp_measure_enabled p);
  wyp_appraise : is_bool (yp_appraise_enabled p);
  wyp_enforce : is_bool (yp_enforce_enabled p);
  wyp_tracking : is_bool (yp_container_tracking p);
}.

(** A string that fits an array of [n] characters. *)
Definition text (n : nat) (t : bytes) : Prop := (length t < n)%nat /\ nul_free t.

Record wf_yaml_hook (h : yaml_hook_config) : Prop := WfYamlHook {
  wyh_name : text 64 (yh_hook_name h);
  wyh_enabled : is_bool (yh_enabled h);
  wyh_measure : is_bool (yh_measure h);
  wyh_appraise : is_bool (yh_appraise h);
  wyh_enforce : is_bool (yh_enforce h);
}.

Record wf_yaml_file (f : yaml_file) : Prop := WfYamlFile {
  wyf_policy : wf_yaml_policy (yf_policy f);
  wyf_cgroups_len : length (yf_cgroups f) = MAX_IGNORE_PATTERNS;
  wyf_paths_len : length (yf_paths f) = MAX_PATH_FILTERS;
  wyf_hooks_len : length (yf_hooks f) = MAX_HOOK_CONFIGS;
  wyf_cgroups : Forall (text MAX_PATTERN_LEN) (yf_cgroups f);
  wyf_paths : Forall (text MAX_PATTERN_LEN) (yf_paths f);
  wyf_hooks : Forall wf_yaml_hook (yf_hooks f);
}.

Lemma parse_bool_range v x : parse_bool v = Some x -> is_bool x.
Proof. unfold parse_bool, is_bool. destruct (_ || _); [intros [= <-]; by right|]. destruct (_ || _); [intros [= <-]; by left|done]. Qed.

Lemma parse_number_range v base maximum x : 0 <= base -> parse_number v base maximum = Some x -> 0 <= x <= maximum.
Proof.
  intros Hb. unfold parse_number, strtoul. destruct (_ || _); [done|]. cbv zeta.
  destruct (match skip_spaces (cstr v) with x2d :: s' => (true, s') | x2b :: s' => (false, s') | _ => _ end) as [neg s].
  destruct (if base =? 0 then fixup_radix s else (base, s)) as [base' digits] eqn:Er.
  assert (Hb' : 0 <= base') by (destruct (base =? 0); [by eapply fixup_radix_base|by injection Er as <-]).
  destruct (parse_integer base' 0 digits false) as [[number seen] rest] eqn:Ep.
  apply parse_integer_nonneg in Ep; [|done|lia].
  destruct (negb seen); [|destruct (number >? U64_MAX)]; cbn [orb]; [| done|];
    (destruct (_ || _) eqn:Eo; [done|]; rewrite !orb_false_iff, Z.gtb_ltb, Z.ltb_ge in Eo; intros [= <-]; split; [|tauto]); [done|].
  destruct neg; [|done]. unfold to_u64. apply Z.mod_pos_bound. lia.
Qed.

(** Every handler keeps the structure in range. *)
Lemma dispatch_wf {A} (P : A -> Prop) handlers key val ctx ctx' :
  Forall (fun kh => forall c v c', P c -> snd kh c v = Some c' -> P c') handlers ->
  P ctx -> dispatch handlers key val ctx = Some ctx' -> P ctx'.
Proof.
  induction 1 as [|[k h] hs Hh _ IH]; cbn [dispatch]; intros HP; [done|]. destruct (_ =? 0); [by apply Hh|by apply IH].
Qed.

(** A handler that sets one number. *)
Lemma set_bool_wf {A} (P : A -> Prop) v (set : Z -> A) a :
  (forall x, is_bool x -> P (set x)) -> (x ← parse_bool v; Some (set x)) = Some a -> P a.
Proof. intros H (x & Hx & [= <-])%bind_Some. by eapply H, parse_bool_range. Qed.

Lemma set_number_wf {A} (P : A -> Prop) v base maximum (set : Z -> A) a :
  0 <= base -> (forall x, 0 <= x <= maximum -> P (set x)) -> (x ← parse_number v base maximum; Some (set x)) = Some a -> P a.
Proof. intros Hb H (x & Hx & [= <-])%bind_Some. by eapply H, parse_number_range. Qed.

Lemma policy_dispatcher_wf key val p p' : wf_yaml_policy p -> policy_dispatcher key val p = Some p' -> wf_yaml_policy p'.
Proof.
  apply dispatch_wf. unfold policy_handlers.
  assert (Hu : forall x, 0 <= x <= U32_MAX -> is_u32 x) by (unfold is_u32, U32_MAX; lia).
  repeat (apply Forall_cons; split; [intros c v c' []; cbn [snd];
    first [apply set_bool_wf|apply (set_number_wf _ v 10 3); [lia|]|apply (set_number_wf _ v 0); [lia|]]; by constructor; cbn; auto|]).
  apply Forall_nil. done.
Qed.

Lemma text_take n t : (0 < n)%nat -> text n (take (n - 1) (cstr t)).
Proof. intros Hn. split; [rewrite length_take; lia|apply nul_free_take, cstr_nul_free]. Qed.

Lemma hook_dispatcher_wf key val h h' : wf_yaml_hook h -> hook_dispatcher key val h = Some h' -> wf_yaml_hook h'.
Proof.
  apply dispatch_wf. unfold hook_handlers. apply Forall_cons; split.
  { intros c v c' [] [= <-]. constructor; try done. apply (text_take 64). lia. }
  repeat (apply Forall_cons; split; [intros c v c' []; apply set_bool_wf; by constructor|]). by apply Forall_nil.
Qed.

Section Ranges.
Context {Lib : YamlLib}.

Lemma event_loop_inv {St R} (P : St -> Prop) (Q : R -> Prop) failed body :
  (forall st, P st -> Q (failed st)) ->
  (forall st e n next n', P st -> body st e n = Some (next, n') -> match next with inl st' => P st' | inr r => Q r end) ->
  forall fuel st n r n', P st -> event_loop fuel failed body st n = Some (r, n') -> Q r.
Proof.
  intros Hf Hb fuel. induction fuel as [|fuel IH]; intros st n r n' HP; [done|]. cbn. unfold ybind, yaml_parser_parse.
  destruct (yaml_event_at n) as [e|]; [|intros [= <- <-]; by apply Hf].
  destruct (body st e (S n)) as [[[st'|x] n1]|] eqn:Eb; [| |done]; apply Hb in Eb; try done.
  - by apply IH.
  - by intros [= <- <-].
Qed.

Lemma generic_map_wf {A} (P : A -> Prop) fuel ctx dispatcher n rc ctx' n' :
  (forall key val c c', P c -> dispatcher key val c = Some c' -> P c') -> P ctx ->
  parse_generic_map fuel ctx dispatcher n = Some (rc, ctx', n') -> P ctx'.
Proof.
  intros Hd HP Hrun. eapply (event_loop_inv (fun st => P (snd st)) (fun r => P (snd r))) in Hrun; [exact Hrun|by intros []| |done].
  intros [key c] e k next k' Hc. destruct e as [v| | | | | | | | | |]; try (by intros [= <- <-]).
  case_bool_decide; [by intros [= <- <-]|]. destruct (dispatcher key v c) eqn:Ed; intros [= <- <-]; [by eapply Hd|done].
Qed.

Definition texts (size : nat) (ts : list bytes) : Prop := length ts = size /\ Forall (text MAX_PATTERN_LEN) ts.

Lemma string_sequence_wf size fuel ts max n rc ts' n' :
  texts size ts -> parse_string_sequence fuel ts max n = Some (rc, ts', n') -> texts size ts'.
Proof.
  intros Hts Hrun. eapply (event_loop_inv (fun st => texts size (snd st)) (fun r => texts size (snd r))) in Hrun; [exact Hrun|by intros []| |done].
  intros [count ps] e k next k' [Hl Hp]. destruct e as [v| | | | | | | | | |]; try (by intros [= <- <-]).
  destruct (_ || _) eqn:Eo; intros [= <- <-]; [done|]. apply orb_false_iff in Eo as [_ Hv%Nat.leb_gt].
  split; cbn [snd]; [by rewrite length_insert|]. apply Forall_insert; [done|]. split; [|apply nul_free_take, cstr_nul_free].
  pose proof (cstr_length v). rewrite length_take. lia.
Qed.

Lemma filters_wf c p fuel cs max_c ps max_p n rc cs' ps' n' :
  texts c cs -> texts p ps -> parse_filters_section fuel cs max_c ps max_p n = Some (rc, cs', ps', n') -> texts c cs' /\ texts p ps'.
Proof.
  intros Hc Hp Hrun.
  eapply (event_loop_inv (fun st => texts c (snd (fst st)) /\ texts p (snd st)) (fun r => texts c (snd (fst r)) /\ texts p (snd r)))
    in Hrun; [exact Hrun|by intros [[]]| |done].
  intros [[key cs1] ps1] e k next k' [Hc1 Hp1]. cbn [fst snd] in *. destruct e as [v| | | | | | | | | |]; try (by intros [= <- <-]).
  destruct (_ =? 0); [|destruct (_ =? 0); [|by intros [= <- <-]]]; unfold ybind;
    match goal with |- context [parse_string_sequence ?f ?l ?m ?i] => destruct (parse_string_sequence f l m i) as [[[rc1 ts] n1]|] eqn:Es; [|done] end;
    eapply string_sequence_wf in Es; [|done| |done]; intros [= <- <-]; by destruct (rc1 <? 0).
Qed.

Definition hooks_wf (size : nat) (hs : list yaml_hook_config) : Prop := length hs = size /\ Forall wf_yaml_hook hs.

Lemma zero_hook_config_wf : wf_yaml_hook zero_hook_config.
Proof. split; try (by left). split; [cbn; lia|]. by intros ?%not_elem_of_nil. Qed.

Lemma hooks_section_wf size fuel hs max n rc hs' n' :
  hooks_wf size hs -> parse_hooks_section fuel hs max n = Some (rc, hs', n') -> hooks_wf size hs'.
Proof.
  intros Hhs Hrun. eapply (event_loop_inv (fun st => hooks_wf size (snd st)) (fun r => hooks_wf size (snd r))) in Hrun; [exact Hrun|by intros []| |done].
  intros [count hs1] e k next k' [Hl Hw]. cbn [snd] in *. destruct e as [v| | | | | | | | | |]; try (by intros [= <- <-]).
  destruct (_ <? _)%nat; [|by intros [= <- <-]]. unfold ybind.
  destruct (parse_hook_config _ _ k) as [[[rc1 h] n1]|] eqn:Eh; [|done]. intros [= <- <-]. cbn [snd].
  split; [by rewrite length_insert|]. apply Forall_insert; [done|].
  eapply (generic_map_wf wf_yaml_hook) in Eh; [exact Eh|apply hook_dispatcher_wf|].
  rewrite nth_lookup. destruct (hs1 !! count) as [x|] eqn:Ex; cbn; [by eapply Forall_lookup_1|apply zero_hook_config_wf].
Qed.

Lemma empty_file_wf : wf_yaml_file (empty_file MAX_IGNORE_PATTERNS MAX_PATH_FILTERS MAX_HOOK_CONFIGS).
Proof.
  assert (Ht : text MAX_PATTERN_LEN []) by (split; [vm_compute; lia|by intros ?%not_elem_of_nil]).
  split; cbn [empty_file yf_policy yf_cgroups yf_paths yf_hooks]; try apply length_replicate.
  - split; cbn; try (by left); unfold is_u32, DEFAULT_MAX_PATH_DEPTH; lia.
  - by apply Forall_replicate.
  - by apply Forall_replicate.
  - apply Forall_replicate, zero_hook_config_wf.
Qed.

Lemma parsed_wf fuel before n rc f n' :
  parse_yaml_policy true true fuel MAX_IGNORE_PATTERNS MAX_PATH_FILTERS MAX_HOOK_CONFIGS before n = Some (rc, f, n') ->
  wf_yaml_file f.
Proof.
  intros Hrun. unfold parse_yaml_policy in Hrun. cbn [negb] in Hrun.
  eapply (event_loop_inv (fun st => wf_yaml_file (snd st)) (fun r => wf_yaml_file (snd r))) in Hrun;
    [exact Hrun|by intros []| |apply empty_file_wf].
  intros [key f1] e k next k' Hw. cbn [snd] in *. pose proof Hw as [W1 W2 W3 W4 W5 W6 W7].
  destruct e as [v| | | | | | | | | |]; try (by intros [= <- <-]); unfold ybind.
  - destruct (_ =? 0); [|by intros [= <- <-]].
    destruct (parse_hooks_section _ _ _ k) as [[[rc1 hs] n1]|] eqn:Eh; [|done]. intros [= <- <-].
    eapply hooks_section_wf in Eh as [Hl Hh]; [|by split]. destruct (rc1 <? 0); by split.
  - destruct (_ =? 0); [|destruct (_ =? 0); [|by intros [= <- <-]]].
    + destruct (parse_policy_section _ _ k) as [[[rc1 p] n1]|] eqn:Ep; [|done]. intros [= <- <-].
      eapply (generic_map_wf wf_yaml_policy) in Ep; [|apply policy_dispatcher_wf|done]. destruct (rc1 <? 0); by split.
    + destruct (parse_filters_section _ _ _ _ _ k) as [[[[rc1 cs] ps] n1]|] eqn:Ef; [|done]. intros [= <- <-].
      eapply filters_wf in Ef as [[Hc1 Hc2] [Hp1 Hp2]]; [|by split|by split]. destruct (rc1 <? 0); by split.
Qed.
End Ranges.

(** ** What is built is accepted *)

Lemma bits_subset_ones x k : 0 <= k -> 0 <= x < 2 ^ k -> bits_subset x (Z.ones k).
Proof.
  intros Hk Hx n Hn Ht. destruct (Z.ltb_spec n k); [by apply Z.ones_spec_low|].
  rewrite <- (Z.mod_small x (2 ^ k)), Z.mod_pow2_bits_high in Ht by lia. done.
Qed.

Lemma pattern_canonical x m :
  length x = MAX_PATTERN_LEN -> memchr x NUL MAX_PATTERN_LEN = true -> cstr x <> [] -> 0 <= m <= 3 ->
  strscpy (zeros MAX_PATTERN_LEN) x MAX_PATTERN_LEN = x -> canonical_pattern (PatternEntry x 1 m 0) /\ wf_pattern (PatternEntry x 1 m 0).
Proof.
  intros Hl Hm H0 Hty Hx. apply char_at_cstr_nonempty in H0. split; [|split; [exact Hl|split; [done|split; [unfold is_u8; cbn; lia|done]]]].
  unfold canonical_pattern, normalize_pattern. cbn [pat_enabled pat_match_type pat_reserved pat_pattern].
  rewrite Hm, H0. destruct (Z.gtb_spec m 3); [lia|]. change (pat_pattern zero_pattern) with (zeros MAX_PATTERN_LEN). by rewrite Hx.
Qed.

Lemma build_pattern_canonical p e : build_pattern p = inr e -> canonical_pattern e /\ wf_pattern e.
Proof.
  unfold build_pattern. destruct (Nat.leb_spec MAX_PATTERN_LEN (strlen p)) as [|Hl]; [done|].
  destruct (Byte.eqb (char_at p 0) NUL) eqn:E0; intros He; apply (inj inr) in He; subst e; [by split|].
  assert (Hc : cstr (strscpy (zeros MAX_PATTERN_LEN) p MAX_PATTERN_LEN) = cstr p) by (by apply cstr_strscpy_fits).
  assert (Hlen : length (strscpy (zeros MAX_PATTERN_LEN) p MAX_PATTERN_LEN) = MAX_PATTERN_LEN)
    by (by rewrite length_strscpy; rewrite length_zeros).
  apply (pattern_canonical (strscpy (zeros MAX_PATTERN_LEN) p MAX_PATTERN_LEN) 1); [done| | |lia|by apply strscpy_ext].
  - apply memchr_true; [by rewrite Hlen|]. unfold strlen. by rewrite Hc.
  - rewrite Hc. by apply char_at_cstr_nonempty.
Qed.

Definition good_hook (h : bpfima_hook_config) : Prop := canonical_hook h /\ wf_hook h.

Lemma build_hooks_canonical tracking hooks out out' :
  Forall good_hook out -> build_hooks tracking hooks out = inr out' -> Forall good_hook out' /\ length out' = length out.
Proof.
  revert out. induction hooks as [|h hooks IH]; intros out Ho; cbn [build_hooks]; [by intros [= <-]|].
  destruct (Byte.eqb _ _); [by apply IH|]. destruct (_ || _); [done|]. destruct (get_hook_id _) as [id|]; [|done].
  intros H. apply IH in H as [H ->]; [split; [done|apply length_alter]|]. apply Forall_alter; [done|].
  intros x _ [Hc Hw]. apply canonical_hook_spec in Hc as (_ & H1 & H2 & H3); [|apply Hw]. unfold set_hook_flags. rewrite H1, H2, H3.
  by destruct (truth (yh_enabled h)), (truth (yh_measure h)), (truth tracking).
Qed.

Lemma build_patterns_canonical ps n size es :
  (n <= size)%nat -> (n <= length ps)%nat -> build_patterns ps n size = inr es ->
  length es = size /\ Forall (fun e => canonical_pattern e /\ wf_pattern e) es.
Proof.
  intros Hn Hps. unfold build_patterns. destruct (map_err build_pattern (take n ps)) as [|es0] eqn:Em; [done|]. intros [= <-].
  apply map_err_inr in Em. pose proof (Forall2_length _ _ _ Em) as Hl. rewrite length_take in Hl.
  split; [rewrite length_app, length_replicate; lia|]. apply Forall_app. split; [|by apply Forall_replicate].
  apply Forall_lookup. intros i e Hi. destruct (Forall2_lookup_r _ _ _ _ _ Em Hi) as (p & _ & Hp). by eapply build_pattern_canonical.
Qed.

Lemma Forall2_self {A} (P : A -> A -> Prop) l : Forall (fun x => P x x) l -> Forall2 P l l.
Proof. induction 1; by constructor. Qed.

(** The snapshot that is built from a parsed file is one the kernel accepts,
    and normalising it there changes nothing. *)
Lemma built_canonical f s :
  wf_yaml_file f ->
  build_policy_from_yaml (yf_policy f) (yf_cgroups f) (Z.of_nat MAX_IGNORE_PATTERNS) (yf_paths f)
    (Z.of_nat MAX_PATH_FILTERS) (yf_hooks f) (Z.of_nat MAX_HOOK_CONFIGS) = inr s ->
  canonical s /\ wf_snapshot s.
Proof.
  intros [[P1 P2 P3 P4 P5 P6 P7 P8 P9] W2 W3 W4 W5 W6 W7]. unfold build_policy_from_yaml.
  destruct (_ || _); [done|]. destruct (_ || _); [done|]. destruct (negb _); [done|]. cbv zeta.
  destruct (build_hooks _ _ _) as [|out] eqn:Eh; [done|].
  destruct (build_patterns (yf_cgroups f) _ _) as [|cs] eqn:Ec; [done|].
  destruct (build_patterns (yf_paths f) _ _) as [|ps] eqn:Ep; [done|]. intros H. apply (inj inr) in H. subst s.
  apply build_hooks_canonical in Eh as [Hh Hhl]; [|apply Forall_forall; intros x Hx; vm_compute in Hx; set_unfold in Hx;
    repeat (destruct Hx as [->|Hx]; [by vm_compute|]); done].
  apply build_patterns_canonical in Ec as [Hcl Hcs]; [|vm_compute; lia|rewrite W2; vm_compute; lia].
  apply build_patterns_canonical in Ep as [Hpl Hps]; [|vm_compute; lia|rewrite W3; vm_compute; lia].
  set (config := PolicyConfig _ _ _ _ _ _ _ _ _).
  assert (Hconfig : wf_config config /\ canonical_config config).
  { assert (Hw : wf_config config).
    { unfold wf_config, config. cbn [cfg_enabled cfg_filter_flags cfg_action_flags cfg_min_file_size cfg_max_path_depth cfg_log_level cfg_merkle_history_max_size cfg_merkle_history_scope cfg_reserved].
      unfold is_bool in *. unfold is_u8, is_u32 in *. split; [lia|]. split; [lia|].
      split; [by destruct (truth (yp_log_level _)), (truth (yp_container_tracking _))|]. by repeat split; try lia. }
    split; [done|]. apply canonical_config_spec; [done|]. unfold config. cbn [cfg_enabled cfg_filter_flags cfg_action_flags cfg_max_path_depth cfg_log_level cfg_merkle_history_scope cfg_reserved].
    split; [by destruct (truth (yp_log_level _)), (truth (yp_container_tracking _))|].
    split; [unfold is_bool in *; lia|]. split; [change 0xff with (Z.ones 8); apply bits_subset_ones; lia|].
    split; [apply land_not_u32_zero; by destruct (truth (yp_log_level _)), (truth (yp_container_tracking _))|].
    split; [by destruct (truth (yp_log_level _)), (truth (yp_container_tracking _))|]. by repeat split; try lia. }
  destruct Hconfig as [Hw Hcc]. split.
  - apply normalize_snapshot_inv. cbn [sn_config sn_cgroups sn_paths sn_hooks]. split; [exact Hcc|].
    split_and!; apply Forall2_self; eapply Forall_impl; [exact Hcs|by intros x []|exact Hps|by intros x []|exact Hh|by intros x []].
  - split; cbn [sn_config sn_cgroups sn_paths sn_hooks]; [done|done|done|exact Hhl|..]; eapply Forall_impl;
      [exact Hcs|by intros x []|exact Hps|by intros x []|exact Hh|by intros x []].
Qed.

(** ** Theorems *)

(** C22: Reading a policy file always ends. For every document whose collections
    are properly nested, whatever its keys and values are, the parser returns
    after at most as many rounds of each loop as the document has events. *)
Theorem parse_yaml_policy_terminates {Lib : YamlLib} opened initialized fuel max_cgroups max_paths max_hooks before body :
  produces 0 (document body) -> nested [] body -> (length (document body) <= fuel)%nat ->
  exists rc f n, parse_yaml_policy opened initialized fuel max_cgroups max_paths max_hooks before 0%nat = Some (rc, f, n).
Proof. exact (file_loop_ends opened initialized fuel max_cgroups max_paths max_hooks before body). Qed.

(** C23: The kernel accepts what the tool builds. Whatever libyaml produces, the
    numbers, strings and arrays that the parser leaves are in range, and a
    snapshot that is built from them has the widths of the wire format and is
    canonical: normalisation in the kernel accepts it and changes nothing. *)
Theorem yaml_policy_accepted {Lib : YamlLib} fuel before n rc f n' :
  parse_yaml_policy true true fuel MAX_IGNORE_PATTERNS MAX_PATH_FILTERS MAX_HOOK_CONFIGS before n = Some (rc, f, n') ->
  wf_yaml_file f /\
  forall s, build_policy_from_yaml (yf_policy f) (yf_cgroups f) (Z.of_nat MAX_IGNORE_PATTERNS) (yf_paths f)
      (Z.of_nat MAX_PATH_FILTERS) (yf_hooks f) (Z.of_nat MAX_HOOK_CONFIGS) = inr s ->
    wf_snapshot s /\ normalize_snapshot s = inr s.
Proof.
  intros Hrun. pose proof (parsed_wf _ _ _ _ _ _ Hrun) as Hw. split; [done|]. intros s Hs.
  by destruct (built_canonical f s Hw Hs).
Qed.
