(* ===== verification/YamlRoundtrip.v ===== *)
(** * A printed policy file is read back

    The document that says a policy, its parsing, and what the parser does with
    errors inside a hook entry. The witnesses for the parser stand here, with
    the printed file as their input. *)

From S2P Require Import Prelude CString Types Kernel Pattern Snapshot PolicyManager PolicyAudit PolicyFiles PolicyFilesSpec BpfUtils BpfUtilsSpec YamlParser YamlParserSpec.

(** ** A printed file is read back *)

Lemma skip_spaces_plain (b : byte) (s : bytes) : plain b -> skip_spaces (b :: s) = b :: s.
Proof. intros H. cbn [skip_spaces]. assert (isspace b = false) as ->; [|done]. destruct b; try done; by vm_compute in H. Qed.

Lemma no_sign (b : byte) (s : bytes) :
  plain b -> (match b :: s with x2d :: s' => (true, s') | x2b :: s' => (false, s') | _ => (false, b :: s) end) = (false, b :: s).
Proof. intros H. destruct b; try done; by vm_compute in H. Qed.

Lemma strtoul_decimal v base : is_u32 v -> base = 0 \/ base = 10 -> strtoul (decimal v) base = (v, false, []).
Proof.
  intros Hv Hbase. destruct (Z.eq_dec v 0) as [->|Hne]; [by destruct Hbase as [->| ->]; vm_compute|]. unfold is_u32 in Hv.
  pose proof (decimal_plain v) as Hp. rewrite decimal_print in *.
  assert (Hb : 0 < v < 10 ^ Z.of_nat 20) by (cbn; lia).
  destruct (print_fuel_head 10 decimal_digit ltac:(lia) decimal_digit_spec 20 v Hb) as (b & rest & Eb & Hb0).
  pose proof (print_fuel_value 10 decimal_digit ltac:(lia) decimal_digit_spec 20 v ltac:(lia)) as Hval.
  pose proof (print_fuel_digits 10 decimal_digit ltac:(lia) decimal_digit_spec 20 v) as Hd.
  unfold strtoul. rewrite cstr_id by (by apply plain_nul_free). rewrite Eb in *. pose proof Hp as [Hpb _]%Forall_cons.
  rewrite skip_spaces_plain, no_sign by done.
  assert (Hr : (if base =? 0 then fixup_radix (b :: rest) else (base, b :: rest)) = (10, b :: rest)).
  { destruct Hbase as [->| ->]; [by apply fixup_decimal|done]. }
  rewrite Hr, parse_digits by done. fold (digits_value 10 (b :: rest)). rewrite Hval.
  rewrite bool_decide_false by done. cbn [orb negb]. unfold U64_MAX. by destruct (Z.gtb_spec v (2 ^ 64 - 1)); [lia|].
Qed.

Lemma parse_number_decimal v base maximum :
  is_u32 v -> v <= maximum -> base = 0 \/ base = 10 -> parse_number (decimal v) base maximum = Some v.
Proof.
  intros Hv Hm Hb. unfold parse_number. rewrite strtoul_decimal by done. cbn [orb].
  assert (H0 : Byte.eqb (char_at (decimal v) 0) x2d || Byte.eqb (char_at (decimal v) 0) NUL = false).
  { pose proof (decimal_plain v) as Hp. destruct (decimal v) as [|b r] eqn:Ed.
    - rewrite decimal_print in Ed. by apply print_fuel_nonempty in Ed.
    - apply Forall_cons in Hp as [Hp _]. unfold char_at. cbn [nth]. destruct b; try done; by vm_compute in Hp. }
  rewrite H0, bool_decide_true by done. cbn [negb orb]. by destruct (Z.gtb_spec v maximum); [lia|].
Qed.

Definition bool_text (b : Z) : bytes := if truth b then lit "true" else lit "false".

Lemma parse_bool_text b : is_bool b -> parse_bool (bool_text b) = Some b.
Proof. by intros [->| ->]. Qed.

(** A mapping of scalars. *)
Definition pair_events (kv : bytes * bytes) : list yaml_event := [Scalar (fst kv); Scalar (snd kv)].
Definition pairs_events (kvs : list (bytes * bytes)) : list yaml_event := flat_map pair_events kvs.

Fixpoint apply_pairs {A} (dispatcher : bytes -> bytes -> A -> option A) (kvs : list (bytes * bytes)) (ctx : A) : option A :=
  match kvs with
  | [] => Some ctx
  | (k, v) :: kvs => ctx ← dispatcher (key_text k) v ctx; apply_pairs dispatcher kvs ctx
  end.

Definition policy_pairs (p : yaml_policy) : list (bytes * bytes) :=
  [(lit "enabled", bool_text (yp_enabled p)); (lit "log_level", decimal (yp_log_level p));
   (lit "measure_enabled", bool_text (yp_measure_enabled p)); (lit "appraise_enabled", bool_text (yp_appraise_enabled p));
   (lit "enforce_enabled", bool_text (yp_enforce_enabled p)); (lit "container_tracking", bool_text (yp_container_tracking p));
   (lit "filter_flags", decimal (yp_filter_flags p)); (lit "min_file_size", decimal (yp_min_file_size p));
   (lit "max_path_depth", decimal (yp_max_path_depth p))].

Definition hook_pairs (h : yaml_hook_config) : list (bytes * bytes) :=
  [(lit "name", yh_hook_name h); (lit "enabled", bool_text (yh_enabled h)); (lit "measure", bool_text (yh_measure h));
   (lit "appraise", bool_text (yh_appraise h)); (lit "enforce", bool_text (yh_enforce h))].

Definition hook_events (h : yaml_hook_config) : list yaml_event := MappingStart :: pairs_events (hook_pairs h) ++ [MappingEnd].

(** An entry of [hooks] with any keys and values. *)
Definition entry_events (kvs : list (bytes * bytes)) : list yaml_event := MappingStart :: pairs_events kvs ++ [MappingEnd].

(** The document that says [f]. *)
Definition file_body (f : yaml_file) : list yaml_event :=
  [MappingStart; Scalar (lit "policy"); MappingStart] ++ pairs_events (policy_pairs (yf_policy f)) ++
  [MappingEnd; Scalar (lit "filters"); MappingStart; Scalar (lit "cgroup_patterns"); SequenceStart] ++
  (Scalar <$> yf_cgroups f) ++ [SequenceEnd; Scalar (lit "path_patterns"); SequenceStart] ++
  (Scalar <$> yf_paths f) ++ [SequenceEnd; MappingEnd; Scalar (lit "hooks"); SequenceStart] ++
  flat_map hook_events (yf_hooks f) ++ [SequenceEnd; MappingEnd].

(** The same document with the entries [entries] under [hooks]. *)
Definition entries_body (f : yaml_file) (entries : list (list (bytes * bytes))) : list yaml_event :=
  [MappingStart; Scalar (lit "policy"); MappingStart] ++ pairs_events (policy_pairs (yf_policy f)) ++
  [MappingEnd; Scalar (lit "filters"); MappingStart; Scalar (lit "cgroup_patterns"); SequenceStart] ++
  (Scalar <$> yf_cgroups f) ++ [SequenceEnd; Scalar (lit "path_patterns"); SequenceStart] ++
  (Scalar <$> yf_paths f) ++ [SequenceEnd; MappingEnd; Scalar (lit "hooks"); SequenceStart] ++
  flat_map entry_events entries ++ [SequenceEnd; MappingEnd].

Lemma hook_entries_events hs : flat_map entry_events (hook_pairs <$> hs) = flat_map hook_events hs.
Proof. induction hs as [|h hs IH]; [done|]. cbn [fmap list_fmap flat_map]. by rewrite IH. Qed.

Lemma file_body_entries f : file_body f = entries_body f (hook_pairs <$> yf_hooks f).
Proof. unfold entries_body. by rewrite hook_entries_events. Qed.

(** ** What the parser makes of an entry *)

(** The structure after the pairs up to the first that is refused, and the pairs
    after that one. *)
Fixpoint apply_until {A} (dispatcher : bytes -> bytes -> A -> option A) (kvs : list (bytes * bytes)) (ctx : A)
    : A * option (list (bytes * bytes)) :=
  match kvs with
  | [] => (ctx, None)
  | (k, v) :: kvs =>
      match dispatcher (key_text k) v ctx with
      | Some ctx => apply_until dispatcher kvs ctx
      | None => (ctx, Some kvs)
      end
  end.

(** An entry is written to the first free slot, up to its first error; an entry
    without an error makes the next slot the first free one. *)
Definition read_entry (st : nat * list yaml_hook_config) (kvs : list (bytes * bytes)) : nat * list yaml_hook_config :=
  let '(count, hooks) := st in
  if (count <? MAX_HOOK_CONFIGS)%nat then
    let '(config, rest) := apply_until hook_dispatcher kvs (nth count hooks zero_hook_config) in
    (match rest with None => S count | Some _ => count end, <[count := config]> hooks)
  else (count, hooks).

Definition read_entries (entries : list (list (bytes * bytes))) : nat * list yaml_hook_config :=
  foldl read_entry (0%nat, replicate MAX_HOOK_CONFIGS zero_hook_config) entries.

Lemma apply_until_valid {A} dispatcher kvs (ctx ctx' : A) :
  apply_pairs dispatcher kvs ctx = Some ctx' -> apply_until dispatcher kvs ctx = (ctx', None).
Proof.
  revert ctx. induction kvs as [|[k v] kvs IH]; intros ctx; cbn [apply_pairs apply_until]; [by intros [= ->]|].
  destruct (dispatcher (key_text k) v ctx) as [c|]; [exact (IH c)|done].
Qed.


Lemma policy_pairs_read p p0 : wf_yaml_policy p -> apply_pairs policy_dispatcher (policy_pairs p) p0 = Some p.
Proof.
  intros [P1 P2 P3 P4 P5 P6 P7 P8 P9]. unfold policy_pairs.
  assert (Hn : forall v m b, 0 <= v <= m -> m < 2 ^ 32 -> b = 0 \/ b = 10 -> parse_number (decimal v) b m = Some v).
  { intros v m b Hv Hm Hb. apply parse_number_decimal; [unfold is_u32; lia|lia|done]. }
  cbn [apply_pairs]. unfold policy_dispatcher, policy_handlers.
  repeat (cbn [dispatch]; match goal with |- context [strcmp (key_text ?a) ?b =? 0] =>
    let r := eval vm_compute in (strcmp (key_text a) b =? 0) in change (strcmp (key_text a) b =? 0) with r; cbv iota end).
  unfold handle_policy_enabled, handle_policy_loglevel, handle_policy_measure, handle_policy_appraise, handle_policy_enforce,
    handle_policy_tracking, handle_policy_filters, handle_policy_min_size, handle_policy_depth, parse_int, parse_u32.
  rewrite !parse_bool_text by done. rewrite !Hn; try lia; try (unfold is_u32, U32_MAX in *; lia).
  by destruct p.
Qed.

Lemma hook_pairs_read h h0 : wf_yaml_hook h -> apply_pairs hook_dispatcher (hook_pairs h) h0 = Some h.
Proof.
  intros [[Hl Hn] P1 P2 P3 P4]. unfold hook_pairs. cbn [apply_pairs]. unfold hook_dispatcher, hook_handlers.
  repeat (cbn [dispatch]; match goal with |- context [strcmp (key_text ?a) ?b =? 0] =>
    let r := eval vm_compute in (strcmp (key_text a) b =? 0) in change (strcmp (key_text a) b =? 0) with r; cbv iota end).
  unfold handle_hook_name, handle_hook_enabled, handle_hook_measure, handle_hook_appraise, handle_hook_enforce.
  rewrite !parse_bool_text by done. rewrite cstr_id, take_ge by (done || lia). by destruct h.
Qed.

Section Reads.
Context {Lib : YamlLib}.

Lemma produces_app n xs ys : produces n (xs ++ ys) <-> produces n xs /\ produces (n + length xs) ys.
Proof.
  revert n. induction xs as [|x xs IH]; intros n.
  - rewrite Nat.add_0_r. split; [intros H; split; [|done]; by intros i e|by intros []].
  - cbn [app length]. rewrite !produces_cons, IH, <- Nat.add_succ_comm. tauto.
Qed.

(** Read a mapping of scalars to its end. *)
Lemma generic_map_reads {A} dispatcher kvs fuel (ctx ctx' : A) n :
  Forall (fun kv => key_text (fst kv) <> []) kvs -> apply_pairs dispatcher kvs ctx = Some ctx' ->
  produces n (pairs_events kvs ++ [MappingEnd]) -> (length (pairs_events kvs) < fuel)%nat ->
  parse_generic_map fuel ctx dispatcher n = Some (0, ctx', (n + length (pairs_events kvs ++ [MappingEnd]))%nat).
Proof.
  unfold parse_generic_map. revert fuel ctx n. induction kvs as [|[k v] kvs IH]; intros fuel ctx n Hk Ha Hp Hf.
  - cbn in *. destruct fuel as [|fuel]; [lia|]. injection Ha as ->. apply produces_cons in Hp as [He _].
    rewrite (event_loop_step _ _ _ _ _ _ He). cbn. by rewrite Nat.add_1_r.
  - apply Forall_cons in Hk as [Hk0 Hk]. cbn [fst] in Hk0. cbn [pairs_events flat_map pair_events fst snd app length] in *.
    fold (pairs_events kvs) in *. cbn [apply_pairs] in Ha. apply bind_Some in Ha as (c & Hc & Ha).
    apply produces_cons in Hp as [H1 Hp]. apply produces_cons in Hp as [H2 Hp].
    destruct fuel as [|[|fuel]]; [lia|lia|]. rewrite (event_loop_step _ _ _ _ _ _ H1). cbn [yret].
    rewrite bool_decide_true by done. cbn [yret]. rewrite (event_loop_step _ _ _ _ _ _ H2). cbn [yret].
    rewrite bool_decide_false, Hc by done. cbn [yret]. rewrite (IH fuel c _ Hk Ha Hp) by lia. do 2 f_equal. lia.
Qed.

(** Read a sequence of strings into an array that starts with [done]. *)
Lemma string_sequence_reads ts fuel max done rest n :
  Forall (text MAX_PATTERN_LEN) ts -> (length done + length ts <= max)%nat -> length rest = length ts ->
  produces n ((Scalar <$> ts) ++ [SequenceEnd]) -> (length ts < fuel)%nat ->
  event_loop fuel (fun '(count, patterns) => (- 1, patterns))
    (fun '(count, patterns) event =>
       match event with
       | Scalar value =>
           if (max <=? count)%nat || (MAX_PATTERN_LEN <=? length value)%nat
           then yret (inr (- 1, patterns))
           else yret (inl (S count, <[count := take 254 (cstr value)]> patterns))
       | SequenceEnd => yret (inr (Z.of_nat count, patterns))
       | _ => yret (inl (count, patterns))
       end) (length done, done ++ rest) n =
  Some (Z.of_nat (length done + length ts), done ++ ts, (n + S (length ts))%nat).
Proof.
  revert fuel done rest n. induction ts as [|t ts IH]; intros fuel done rest n Ht Hmax Hr Hp Hf.
  - destruct rest; [|done]. cbn in *. destruct fuel as [|fuel]; [lia|]. apply produces_cons in Hp as [He _].
    rewrite (event_loop_step _ _ _ _ _ _ He). cbn [yret]. by rewrite Nat.add_0_r, Nat.add_1_r.
  - destruct rest as [|x rest]; [done|]. apply Forall_cons in Ht as [[Hl Hn] Ht]. cbn [fmap list_fmap app length] in *.
    apply produces_cons in Hp as [H1 Hp]. destruct fuel as [|fuel]; [lia|]. rewrite (event_loop_step _ _ _ _ _ _ H1). cbn [yret].
    destruct (Nat.leb_spec max (length done)); [lia|]. destruct (Nat.leb_spec MAX_PATTERN_LEN (length t)); [lia|]. cbn [orb yret].
    assert (Hins : <[length done := take 254 (cstr t)]> (done ++ x :: rest) = (done ++ [t]) ++ rest).
    { change MAX_PATTERN_LEN with 64%nat in *. rewrite insert_app_r_alt, Nat.sub_diag, cstr_id, take_ge, <- app_assoc by (done || lia). done. }
    rewrite Hins. replace (S (length done)) with (length (done ++ [t])) by (rewrite length_app; cbn; lia).
    rewrite (IH fuel (done ++ [t]) rest (S n)); [| |rewrite length_app; cbn [length]; lia|lia|done|lia]; [|done].
    rewrite length_app, <- app_assoc. cbn [length app]. do 2 f_equal; [do 2 f_equal; lia|lia].
Qed.

Lemma sequence_reads ts fuel n arr :
  Forall (text MAX_PATTERN_LEN) ts -> length arr = length ts -> produces n ((Scalar <$> ts) ++ [SequenceEnd]) ->
  (length ts < fuel)%nat ->
  parse_string_sequence fuel arr (length ts) n = Some (Z.of_nat (length ts), ts, (n + S (length ts))%nat).
Proof. intros Ht Ha Hp Hf. exact (string_sequence_reads ts fuel (length ts) [] arr n Ht (le_n _) Ha Hp Hf). Qed.

(** Read a mapping of scalars to its end or to its first error. *)
Lemma generic_map_until {A} dispatcher kvs fuel (ctx : A) n :
  Forall (fun kv => key_text (fst kv) <> []) kvs ->
  produces n (pairs_events kvs ++ [MappingEnd]) -> (length (pairs_events kvs) < fuel)%nat ->
  exists used left, pairs_events kvs ++ [MappingEnd] = used ++ left /\
    Forall (fun e => match e with Scalar _ | MappingEnd => True | _ => False end) left /\
    parse_generic_map fuel ctx dispatcher n =
      Some (match snd (apply_until dispatcher kvs ctx) with None => 0 | Some _ => - 1 end,
        fst (apply_until dispatcher kvs ctx), (n + length used)%nat).
Proof.
  unfold parse_generic_map. revert fuel ctx n. induction kvs as [|[k v] kvs IH]; intros fuel ctx n Hk Hp Hf.
  - exists [MappingEnd], []. split_and!; [done|constructor|]. destruct fuel as [|fuel]; [cbn in Hf; lia|].
    apply produces_cons in Hp as [He _]. rewrite (event_loop_step _ _ _ _ _ _ He). cbn. by rewrite Nat.add_1_r.
  - apply Forall_cons in Hk as [Hk0 Hk]. cbn [fst] in Hk0. cbn [pairs_events flat_map pair_events fst snd app length] in *.
    fold (pairs_events kvs) in *. apply produces_cons in Hp as [H1 Hp]. apply produces_cons in Hp as [H2 Hp].
    destruct fuel as [|[|fuel]]; [lia|lia|]. rewrite (event_loop_step _ _ _ _ _ _ H1). cbn [yret].
    rewrite bool_decide_true by done. cbn [yret]. rewrite (event_loop_step _ _ _ _ _ _ H2). cbn [yret].
    rewrite bool_decide_false by done. cbn [apply_until]. destruct (dispatcher (key_text k) v ctx) as [c|] eqn:Ec.
    + destruct (IH fuel c (S (S n)) Hk Hp ltac:(lia)) as (used & left & He & Hl & Hrun).
      exists (Scalar k :: Scalar v :: used), left. split_and!; [by rewrite He|done|].
      cbn [yret]. rewrite Hrun. cbn [length]. do 2 f_equal. lia.
    + exists [Scalar k; Scalar v], (pairs_events kvs ++ [MappingEnd]). split_and!; [done| |].
      * apply Forall_app. split; [|by repeat constructor]. clear. induction kvs as [|[] kvs IH]; [constructor|]. by repeat constructor.
      * cbn [yret fst snd length]. do 2 f_equal. lia.
Qed.

(** The loop over the entries. *)
Definition hooks_body (bound : nat) '(count, hooks) (event : yaml_event) : Y ((nat * list yaml_hook_config) + (Z * list yaml_hook_config)) :=
  match event with
  | MappingStart =>
      if (count <? MAX_HOOK_CONFIGS)%nat then
        let@ (rc, config) := parse_hook_config bound (nth count hooks zero_hook_config) in
        yret (inl (if rc =? 0 then S count else count, <[count := config]> hooks))
      else yret (inl (count, hooks))
  | SequenceEnd => yret (inr (Z.of_nat count, hooks))
  | _ => yret (inl (count, hooks))
  end.

Definition hooks_failed '((count, hooks) : nat * list yaml_hook_config) : Z * list yaml_hook_config := (- 1, hooks).

(** It passes over the scalars and the end of an entry. *)
Lemma hooks_loop_skips evs fuel bound st n :
  Forall (fun e => match e with Scalar _ | MappingEnd => True | _ => False end) evs -> produces n evs ->
  event_loop (length evs + fuel)%nat hooks_failed (hooks_body bound) st n = event_loop fuel hooks_failed (hooks_body bound) st (n + length evs)%nat.
Proof.
  revert n. induction evs as [|e evs IH]; intros n Hf Hp; [by rewrite Nat.add_0_r|]. apply Forall_cons in Hf as [He Hf].
  apply produces_cons in Hp as [H1 Hp]. cbn [length Nat.add]. rewrite (event_loop_step _ _ _ _ _ _ H1).
  assert (Hs : hooks_body bound st e (S n) = Some (inl st, S n)) by (destruct st; by destruct e).
  rewrite Hs. cbn [yret]. rewrite IH by done. f_equal. lia.
Qed.

Lemma hooks_loop_entries entries fuel bound st n :
  Forall (Forall (fun kv => key_text (fst kv) <> [])) entries ->
  produces n (flat_map entry_events entries ++ [SequenceEnd]) ->
  (length (flat_map entry_events entries) < fuel)%nat -> (length (flat_map entry_events entries) <= bound)%nat ->
  event_loop fuel hooks_failed (hooks_body bound) st n =
    Some (Z.of_nat (fst (foldl read_entry st entries)), snd (foldl read_entry st entries),
      (n + length (flat_map entry_events entries ++ [SequenceEnd]))%nat).
Proof.
  revert fuel st n. induction entries as [|kvs entries IH]; intros fuel [count hooks] n Hk Hp Hf Hb.
  - destruct fuel as [|fuel]; [cbn in Hf; lia|]. apply produces_cons in Hp as [He _].
    rewrite (event_loop_step _ _ _ _ _ _ He). cbn. by rewrite Nat.add_1_r.
  - apply Forall_cons in Hk as [Hk0 Hk]. cbn [flat_map foldl] in *. rewrite <- app_assoc in Hp |- *.
    apply produces_app in Hp as [Hp1 Hp2]. rewrite length_app in Hf, Hb. unfold entry_events in Hp1 at 1.
    apply produces_cons in Hp1 as [H1 Hp1]. destruct fuel as [|fuel]; [lia|].
    assert (Hel : length (entry_events kvs) = S (length (pairs_events kvs ++ [MappingEnd]))) by done.
    assert (Hpl : length (pairs_events kvs ++ [MappingEnd]) = S (length (pairs_events kvs))) by (rewrite length_app; cbn; lia).
    rewrite (event_loop_step _ _ _ _ _ _ H1). unfold hooks_body at 1, read_entry at 2 4.
    destruct (count <? MAX_HOOK_CONFIGS)%nat.
    + unfold ybind, parse_hook_config.
      destruct (generic_map_until hook_dispatcher kvs bound (nth count hooks zero_hook_config) (S n) Hk0 Hp1 ltac:(lia))
        as (used & left & He & Hl & Hrun). rewrite Hrun. destruct (apply_until _ _ _) as [config rest]. cbn [fst snd yret].
      rewrite He in Hp1, Hpl, Hel. apply produces_app in Hp1 as [_ Hp1]. rewrite length_app in Hpl, Hel.
      replace fuel with (length left + (fuel - length left))%nat by lia. rewrite hooks_loop_skips by done.
      replace (S n + length used + length left)%nat with (n + length (entry_events kvs))%nat by lia.
      rewrite (IH (fuel - length left)%nat _ (n + length (entry_events kvs))%nat Hk Hp2) by lia.
      rewrite !length_app. destruct rest; do 2 f_equal; lia.
    + cbn [yret]. replace fuel with (length (pairs_events kvs ++ [MappingEnd]) + (fuel - length (pairs_events kvs ++ [MappingEnd])))%nat by lia.
      rewrite hooks_loop_skips; [| |done].
      2:{ apply Forall_app. split; [|by repeat constructor]. clear. induction kvs as [|[] kvs IH]; [constructor|]. by repeat constructor. }
      replace (S n + length (pairs_events kvs ++ [MappingEnd]))%nat with (n + length (entry_events kvs))%nat by lia.
      rewrite (IH _ (count, hooks) (n + length (entry_events kvs))%nat Hk Hp2) by lia.
      rewrite !length_app. do 2 f_equal. lia.
Qed.

Lemma hooks_reads entries fuel n :
  Forall (Forall (fun kv => key_text (fst kv) <> [])) entries ->
  produces n (flat_map entry_events entries ++ [SequenceEnd]) -> (length (flat_map entry_events entries) < fuel)%nat ->
  parse_hooks_section fuel (replicate MAX_HOOK_CONFIGS zero_hook_config) MAX_HOOK_CONFIGS n =
    Some (Z.of_nat (fst (read_entries entries)), snd (read_entries entries),
      (n + length (flat_map entry_events entries ++ [SequenceEnd]))%nat).
Proof.
  intros Hk Hp Hf. exact (hooks_loop_entries entries fuel fuel (0%nat, replicate MAX_HOOK_CONFIGS zero_hook_config) n Hk Hp Hf ltac:(lia)).
Qed.

Definition filter_events (cs ps : list bytes) : list yaml_event :=
  [Scalar (lit "cgroup_patterns"); SequenceStart] ++ ((Scalar <$> cs) ++ [SequenceEnd]) ++
  [Scalar (lit "path_patterns"); SequenceStart] ++ ((Scalar <$> ps) ++ [SequenceEnd]) ++ [MappingEnd].

Lemma filters_reads cs ps fuel n carr parr :
  Forall (text MAX_PATTERN_LEN) cs -> Forall (text MAX_PATTERN_LEN) ps -> length carr = length cs -> length parr = length ps ->
  produces n (filter_events cs ps) -> (length cs < fuel)%nat -> (length ps < fuel)%nat -> (5 < fuel)%nat ->
  parse_filters_section fuel carr (length cs) parr (length ps) n = Some (0, cs, ps, (n + length (filter_events cs ps))%nat).
Proof.
  intros Hc Hp Hcl Hpl Hprod Hfc Hfp Hf. unfold filter_events in *.
  apply produces_app in Hprod as [H1 Hprod]. apply produces_app in Hprod as [H2 Hprod].
  apply produces_app in Hprod as [H3 Hprod]. apply produces_app in Hprod as [H4 H5].
  apply produces_cons in H1 as [H1a H1]. apply produces_cons in H1 as [H1b _].
  apply produces_cons in H3 as [H3a H3]. apply produces_cons in H3 as [H3b _]. apply produces_cons in H5 as [H5 _].
  rewrite !length_app, !length_fmap in *. cbn [length] in *.
  replace (n + 2)%nat with (S (S n)) in * by lia. replace (length cs + 1)%nat with (S (length cs)) in * by lia.
  replace (length ps + 1)%nat with (S (length ps)) in * by lia. set (m := (S (S n) + S (length cs))%nat) in *.
  replace (m + 2)%nat with (S (S m)) in * by lia.
  destruct fuel as [|[|[|[|[|[|fuel]]]]]]; try lia. remember (S (S (S (S (S (S fuel)))))) as F eqn:EF.
  unfold parse_filters_section. rewrite EF at 1.
  rewrite (event_loop_step _ _ _ _ _ _ H1a). cbn [yret]. rewrite bool_decide_true by done.
  rewrite (event_loop_step _ _ _ _ _ _ H1b).
  change (strcmp (key_text (lit "cgroup_patterns")) (lit "cgroup_patterns") =? 0) with true. cbv iota. unfold ybind at 1.
  rewrite (sequence_reads cs F (S (S n)) carr) by (done || lia). destruct (Z.ltb_spec (Z.of_nat (length cs)) 0); [lia|].
  cbn [yret]. fold m. rewrite (event_loop_step _ _ _ _ _ _ H3a). cbn [yret]. rewrite bool_decide_true by done.
  rewrite (event_loop_step _ _ _ _ _ _ H3b).
  change (strcmp (key_text (lit "path_patterns")) (lit "cgroup_patterns") =? 0) with false.
  change (strcmp (key_text (lit "path_patterns")) (lit "path_patterns") =? 0) with true. cbv iota. unfold ybind at 1.
  rewrite (sequence_reads ps F (S (S m)) parr) by (done || lia). destruct (Z.ltb_spec (Z.of_nat (length ps)) 0); [lia|].
  cbn [yret]. rewrite (event_loop_step _ _ _ _ _ _ H5). cbn [yret]. unfold m. do 2 f_equal. lia.
Qed.

(** The events of a file, section by section. *)
Lemma entries_document f entries :
  document (entries_body f entries) =
    [StreamStart; DocumentStart; MappingStart; Scalar (lit "policy"); MappingStart] ++
    (pairs_events (policy_pairs (yf_policy f)) ++ [MappingEnd]) ++
    [Scalar (lit "filters"); MappingStart] ++ filter_events (yf_cgroups f) (yf_paths f) ++
    [Scalar (lit "hooks"); SequenceStart] ++ (flat_map entry_events entries ++ [SequenceEnd]) ++
    [MappingEnd; DocumentEnd; StreamEnd].
Proof. unfold document, entries_body, filter_events. by rewrite <- !app_assoc. Qed.

Lemma entries_fuel f entries fuel :
  wf_yaml_file f -> (length (document (entries_body f entries)) <= fuel)%nat ->
  (length (yf_cgroups f) < fuel /\ length (yf_paths f) < fuel /\ length (flat_map entry_events entries) < fuel /\ 40 <= fuel)%nat.
Proof.
  intros [_ W2 W3 W4 _ _ _] Hf. rewrite W2, W3. rewrite entries_document in Hf. unfold filter_events in Hf.
  rewrite !length_app, !length_fmap, W2, W3 in Hf. cbn [length] in Hf.
  change MAX_IGNORE_PATTERNS with 8%nat in *. change MAX_PATH_FILTERS with 8%nat in *.
  change (length (pairs_events (policy_pairs _))) with 18%nat in Hf. lia.
Qed.

(** The file with [hooks] for its hooks. *)
Definition with_hooks (f : yaml_file) (hooks : list yaml_hook_config) : yaml_file :=
  YamlFile (yf_policy f) (yf_cgroups f) (yf_paths f) hooks.

Lemma entries_reads f entries fuel before :
  wf_yaml_file f -> Forall (Forall (fun kv => key_text (fst kv) <> [])) entries ->
  produces 0 (document (entries_body f entries)) -> (length (document (entries_body f entries)) <= fuel)%nat ->
  exists n, parse_yaml_policy true true fuel MAX_IGNORE_PATTERNS MAX_PATH_FILTERS MAX_HOOK_CONFIGS before 0%nat =
    Some (0, with_hooks f (snd (read_entries entries)), n).
Proof.
  intros Hwf Hkeys Hprod Hf. destruct (entries_fuel f entries fuel Hwf Hf) as (Hl1 & Hl2 & Hl3 & Hl4). destruct Hwf as [W1 W2 W3 W4 W5 W6 W7].
  clear Hf. rewrite entries_document in Hprod.
  apply produces_app in Hprod as [H1 Hprod]. apply produces_app in Hprod as [H2 Hprod].
  apply produces_app in Hprod as [H3 Hprod]. apply produces_app in Hprod as [H4 Hprod].
  apply produces_app in Hprod as [H5 Hprod]. apply produces_app in Hprod as [H6 H7].
  repeat setoid_rewrite produces_cons in H1. repeat setoid_rewrite produces_cons in H3.
  repeat setoid_rewrite produces_cons in H5. repeat setoid_rewrite produces_cons in H7.
  destruct H1 as (E0 & E1 & E2 & E3 & E4 & _), H3 as (E5 & E6 & _), H5 as (E7 & E8 & _), H7 as (E9 & E10 & _).
  cbn [length] in *. set (n1 := length (pairs_events (policy_pairs (yf_policy f)) ++ [MappingEnd])) in *.
  set (n2 := length (filter_events (yf_cgroups f) (yf_paths f))) in *.
  set (n3 := length (flat_map entry_events entries ++ [SequenceEnd])) in *.
  cbn [Nat.add] in E0, E1, E2, E3, E4, H2. change (0 + 5)%nat with 5%nat in *. set (p1 := (5 + n1)%nat) in *.
  replace (p1 + 2)%nat with (S (S p1)) in * by lia. set (p2 := (S (S p1) + n2)%nat) in *.
  replace (p2 + 2)%nat with (S (S p2)) in * by lia. set (p3 := (S (S p2) + n3)%nat) in *.
  do 12 (destruct fuel as [|fuel]; [lia|]). remember (S (S (S (S (S (S (S (S (S (S (S (S fuel)))))))))))) as F eqn:EF.
  eexists. unfold parse_yaml_policy. cbn [negb]. rewrite EF at 1.
  rewrite (event_loop_step _ _ _ _ _ _ E0). cbn [yret]. rewrite (event_loop_step _ _ _ _ _ _ E1). cbn [yret].
  rewrite (event_loop_step _ _ _ _ _ _ E2). cbn [yret].
  change (strcmp [] (lit "policy") =? 0) with false. change (strcmp [] (lit "filters") =? 0) with false. cbn [yret].
  rewrite (event_loop_step _ _ _ _ _ _ E3). cbn [yret]. rewrite (event_loop_step _ _ _ _ _ _ E4).
  change (strcmp (key_text (lit "policy")) (lit "policy") =? 0) with true. cbv iota. unfold ybind at 1, parse_policy_section at 1.
  rewrite (generic_map_reads policy_dispatcher (policy_pairs (yf_policy f)) F _ (yf_policy f) 5);
    [|by repeat constructor|by apply policy_pairs_read|done|cbn; lia]. cbn [Z.ltb Z.compare yret]. fold n1. fold p1.
  rewrite (event_loop_step _ _ _ _ _ _ E5). cbn [yret]. rewrite (event_loop_step _ _ _ _ _ _ E6).
  change (strcmp (key_text (lit "filters")) (lit "policy") =? 0) with false.
  change (strcmp (key_text (lit "filters")) (lit "filters") =? 0) with true. cbv iota. unfold ybind at 1.
  rewrite <- W2, <- W3. cbn [yf_cgroups yf_paths yf_hooks empty_file].
  rewrite (filters_reads (yf_cgroups f) (yf_paths f) F (S (S p1))) by (done || lia || apply length_replicate).
  cbn [Z.ltb Z.compare yret]. fold n2. fold p2.
  rewrite (event_loop_step _ _ _ _ _ _ E7). cbn [yret]. rewrite (event_loop_step _ _ _ _ _ _ E8).
  change (strcmp (key_text (lit "hooks")) (lit "hooks") =? 0) with true. cbv iota. unfold ybind at 1. cbn [yf_hooks].
  rewrite (hooks_reads entries F (S (S p2))) by (done || lia).
  destruct (Z.ltb_spec (Z.of_nat (fst (read_entries entries))) 0); [lia|]. cbn [yret]. fold n3. fold p3.
  rewrite (event_loop_step _ _ _ _ _ _ E9). cbn [yret]. rewrite (event_loop_step _ _ _ _ _ _ E10). cbn [yret]. done.
Qed.
End Reads.

(** Valid entries fill the slots in order. *)
Lemma read_valid_entries hs done rest :
  Forall wf_yaml_hook hs -> (length done + length hs <= MAX_HOOK_CONFIGS)%nat -> (length hs <= length rest)%nat ->
  foldl read_entry (length done, done ++ rest) (hook_pairs <$> hs) =
    (length (done ++ hs), (done ++ hs) ++ drop (length hs) rest).
Proof.
  revert done rest. induction hs as [|h hs IH]; intros done rest Hh Hm Hr; [by rewrite app_nil_r|].
  apply Forall_cons in Hh as [Hh0 Hh]. destruct rest as [|x rest]; [cbn in Hr; lia|]. cbn [fmap list_fmap foldl length] in *.
  unfold read_entry at 2. destruct (Nat.ltb_spec (length done) MAX_HOOK_CONFIGS); [|lia].
  rewrite (apply_until_valid _ _ _ h) by (by apply hook_pairs_read).
  assert (Hins : <[length done := h]> (done ++ x :: rest) = (done ++ [h]) ++ rest).
  { by rewrite insert_app_r_alt, Nat.sub_diag, <- app_assoc by lia. }
  rewrite Hins. replace (S (length done)) with (length (done ++ [h])) by (rewrite length_app; cbn; lia).
  rewrite IH by (done || rewrite ?length_app; cbn [length]; lia). by rewrite <- !app_assoc.
Qed.

Lemma read_hooks hs :
  Forall wf_yaml_hook hs -> (length hs <= MAX_HOOK_CONFIGS)%nat ->
  read_entries (hook_pairs <$> hs) = (length hs, hs ++ replicate (MAX_HOOK_CONFIGS - length hs) zero_hook_config).
Proof.
  intros Hh Hm. unfold read_entries. rewrite <- drop_replicate.
  exact (read_valid_entries hs [] (replicate MAX_HOOK_CONFIGS zero_hook_config) Hh Hm ltac:(by rewrite length_replicate)).
Qed.

Lemma hook_pairs_keys hs : Forall (Forall (fun kv => key_text (fst kv) <> [])) (hook_pairs <$> hs).
Proof. apply Forall_fmap, Forall_true. intros h. by repeat constructor. Qed.

Lemma file_reads {Lib : YamlLib} f fuel before :
  wf_yaml_file f -> produces 0 (document (file_body f)) -> (length (document (file_body f)) <= fuel)%nat ->
  exists n, parse_yaml_policy true true fuel MAX_IGNORE_PATTERNS MAX_PATH_FILTERS MAX_HOOK_CONFIGS before 0%nat = Some (0, f, n).
Proof.
  rewrite file_body_entries. intros Hwf Hp Hf.
  destruct (entries_reads f (hook_pairs <$> yf_hooks f) fuel before Hwf (hook_pairs_keys _) Hp Hf) as [n Hn].
  exists n. rewrite Hn. destruct Hwf as [_ _ _ W4 _ _ W7].
  rewrite read_hooks by (done || lia). rewrite W4, Nat.sub_diag. cbn [snd replicate]. rewrite app_nil_r. by destruct f.
Qed.

(** C21: A policy file says what was written. The document that prints a policy,
    its pattern lists and its hooks is parsed with result 0 to exactly that
    policy, those lists and those hooks. *)
Theorem yaml_policy_roundtrip {Lib : YamlLib} f fuel before :
  wf_yaml_file f -> produces 0 (document (file_body f)) -> (length (document (file_body f)) <= fuel)%nat ->
  exists n, parse_yaml_policy true true fuel MAX_IGNORE_PATTERNS MAX_PATH_FILTERS MAX_HOOK_CONFIGS before 0%nat = Some (0, f, n).
Proof. exact (file_reads f fuel before). Qed.

(** libyaml on a list of events, and no event afterwards. *)
Definition list_lib (evs : list yaml_event) : YamlLib := {| yaml_event_at := fun n => Some (default NoEvent (evs !! n)) |}.

Lemma list_lib_produces evs : produces (Lib := list_lib evs) 0 evs.
Proof. intros i e Hi. cbn. by rewrite Hi. Qed.

(** libyaml on a list of events, a failure, and no event afterwards. *)
Definition broken_lib (evs : list yaml_event) : YamlLib :=
  {| yaml_event_at := fun n => if decide (n = length evs) then None else Some (default NoEvent (evs !! n)) |}.

(** A loop that waits for an event that never comes. *)
Lemma event_loop_waits {Lib : YamlLib} {St R} (failed : St -> R) body fuel st n :
  (forall st n, body st NoEvent n = Some (inl st, n)) -> (forall m, (n <= m)%nat -> yaml_event_at m = Some NoEvent) ->
  event_loop fuel failed body st n = None.
Proof.
  intros Hb. revert st n. induction fuel as [|fuel IH]; intros st n Hn; [done|].
  rewrite (event_loop_step _ _ _ _ _ _ (Hn n (le_n n))), Hb. apply IH. intros m Hm. apply Hn. lia.
Qed.

Definition hook_prefix : list yaml_event :=
  [StreamStart; DocumentStart; MappingStart; Scalar (lit "hooks"); SequenceStart; MappingStart;
   Scalar (lit "name"); Scalar (lit "lsm_mmap_file")].

Lemma broken_after n : (9 <= n)%nat -> yaml_event_at (YamlLib := broken_lib hook_prefix) n = Some NoEvent.
Proof. intros Hn. do 9 (destruct n as [|n]; [lia|]). done. Qed.

Lemma event_loop_fails {Lib : YamlLib} {St R} (failed : St -> R) body fuel st n :
  yaml_event_at n = None -> event_loop (S fuel) failed body st n = Some (failed st, S n).
Proof. intros He. cbn. unfold ybind, yaml_parser_parse. by rewrite He. Qed.

Lemma broken_hook fuel h :
  parse_hook_config (Lib := broken_lib hook_prefix) (S (S (S fuel))) h 6%nat =
    Some (- 1, YamlHook (lit "lsm_mmap_file") (yh_enabled h) (yh_measure h) (yh_appraise h) (yh_enforce h), 9%nat).
Proof.
  unfold parse_hook_config, parse_generic_map.
  rewrite (event_loop_step (Lib := broken_lib hook_prefix) _ _ _ _ 6%nat (Scalar (lit "name")) eq_refl). cbn [yret].
  rewrite bool_decide_true by done. cbn [yret].
  rewrite (event_loop_step (Lib := broken_lib hook_prefix) _ _ _ _ 7%nat (Scalar (lit "lsm_mmap_file")) eq_refl). cbn [yret].
  rewrite bool_decide_false by done.
  change (hook_dispatcher (key_text (lit "name")) (lit "lsm_mmap_file") h) with
    (Some (YamlHook (lit "lsm_mmap_file") (yh_enabled h) (yh_measure h) (yh_appraise h) (yh_enforce h))). cbn [yret].
  by rewrite (event_loop_fails (Lib := broken_lib hook_prefix)) by done.
Qed.

Lemma broken_hooks fuel hooks max :
  (0 < max)%nat -> parse_hooks_section (Lib := broken_lib hook_prefix) (S (S (S fuel))) hooks max 5%nat = None.
Proof.
  intros Hm. unfold parse_hooks_section.
  rewrite (event_loop_step (Lib := broken_lib hook_prefix) _ _ _ _ 5%nat MappingStart eq_refl). cbn [yret].
  destruct (Nat.ltb_spec 0 max); [|lia]. unfold ybind at 1. rewrite broken_hook. cbn [yret].
  apply (event_loop_waits (Lib := broken_lib hook_prefix)); [by intros []|]. apply broken_after.
Qed.

(** When the text breaks inside an entry of [hooks] and libyaml produces no event
    afterwards, the parser never returns. *)
Lemma broken_hook_never_returns fuel before :
  parse_yaml_policy (Lib := broken_lib hook_prefix) true true fuel MAX_IGNORE_PATTERNS MAX_PATH_FILTERS MAX_HOOK_CONFIGS before 0%nat = None.
Proof.
  do 5 (destruct fuel as [|fuel]; [reflexivity|]).
  remember (S (S (S (S (S fuel))))) as F eqn:EF. unfold parse_yaml_policy. cbn [negb]. rewrite EF at 1.
  rewrite (event_loop_step (Lib := broken_lib hook_prefix) _ _ _ _ 0%nat StreamStart eq_refl). cbn [yret].
  rewrite (event_loop_step (Lib := broken_lib hook_prefix) _ _ _ _ 1%nat DocumentStart eq_refl). cbn [yret].
  rewrite (event_loop_step (Lib := broken_lib hook_prefix) _ _ _ _ 2%nat MappingStart eq_refl). cbn [yret].
  change (strcmp [] (lit "policy") =? 0) with false. change (strcmp [] (lit "filters") =? 0) with false. cbn [yret].
  rewrite (event_loop_step (Lib := broken_lib hook_prefix) _ _ _ _ 3%nat (Scalar (lit "hooks")) eq_refl). cbn [yret].
  rewrite (event_loop_step (Lib := broken_lib hook_prefix) _ _ _ _ 4%nat SequenceStart eq_refl).
  change (strcmp (key_text (lit "hooks")) (lit "hooks") =? 0) with true. cbv iota. unfold ybind at 1.
  rewrite EF, broken_hooks; [done|vm_compute; lia].
Qed.

(** ** Errors in an entry *)

(** Valid entries, then one whose pairs [pre] give [c] and whose next pair is
    refused. *)
Section BadEntry.
Context (es : list yaml_hook_config) (pre rest : list (bytes * bytes)) (k v : bytes) (c : yaml_hook_config).
Hypothesis es_valid : Forall wf_yaml_hook es.
Hypothesis es_fit : (length es < MAX_HOOK_CONFIGS)%nat.
Hypothesis pre_valid : apply_pairs hook_dispatcher pre zero_hook_config = Some c.
Hypothesis pair_invalid : hook_dispatcher (key_text k) v c = None.



End BadEntry.







(** ** Witnesses *)

Definition sample_file : yaml_file :=
  YamlFile (YamlPolicy 1 2 3 4096 16 1 0 0 1)
    (lit "kubepods" :: replicate 7 []) (lit "/opt/cache" :: replicate 7 [])
    (YamlHook (lit "lsm_mmap_file") 1 1 0 0 :: replicate 15 zero_hook_config).

Lemma text_lit n s : (length (lit s) < n)%nat -> bool_decide (NUL ∈ lit s) = false -> text n (lit s).
Proof. intros Hl Hn. split; [done|]. by apply bool_decide_eq_false in Hn. Qed.

Lemma sample_file_wf : wf_yaml_file sample_file.
Proof.
  split; try reflexivity; cbn [sample_file yf_policy yf_cgroups yf_paths yf_hooks].
  - split; cbn; unfold is_bool, is_u32; lia.
  - apply Forall_cons. split; [by apply text_lit; vm_compute; [lia|]|apply Forall_replicate; by apply (text_lit _ ""); vm_compute; [lia|]].
  - apply Forall_cons. split; [by apply text_lit; vm_compute; [lia|]|apply Forall_replicate; by apply (text_lit _ ""); vm_compute; [lia|]].
  - apply Forall_cons. split; [|apply Forall_replicate, zero_hook_config_wf].
    split; [by apply (text_lit 64 "lsm_mmap_file"); vm_compute; [lia|]|by right|by right|by left|by left].
Qed.

Definition sample_document : list yaml_event := document (file_body sample_file).

Lemma parse_yaml_policy_terminates_witness :
  nested [] (file_body sample_file) /\
  exists rc f n, parse_yaml_policy (Lib := list_lib sample_document) true true 1000 8 8 16 sample_file 0%nat = Some (rc, f, n).
Proof.
  assert (Hn : nested [] (file_body sample_file)) by (by vm_compute). split; [exact Hn|].
  apply (parse_yaml_policy_terminates (Lib := list_lib sample_document) true true 1000 8 8 16 sample_file (file_body sample_file)
    (list_lib_produces sample_document) Hn). vm_compute. lia.
Defined.

Lemma yaml_policy_roundtrip_witness :
  wf_yaml_file sample_file /\
  exists n, parse_yaml_policy (Lib := list_lib sample_document) true true 1000 MAX_IGNORE_PATTERNS MAX_PATH_FILTERS
    MAX_HOOK_CONFIGS sample_file 0%nat = Some (0, sample_file, n).
Proof.
  split; [exact sample_file_wf|].
  apply (yaml_policy_roundtrip (Lib := list_lib sample_document) sample_file 1000 sample_file sample_file_wf
    (list_lib_produces sample_document)). vm_compute. lia.
Defined.

Lemma yaml_policy_accepted_witness :
  exists f n, parse_yaml_policy (Lib := list_lib sample_document) true true 1000 MAX_IGNORE_PATTERNS MAX_PATH_FILTERS
    MAX_HOOK_CONFIGS sample_file 0%nat = Some (0, f, n) /\ wf_yaml_file f.
Proof.
  assert (H : exists f n, parse_yaml_policy (Lib := list_lib sample_document) true true 1000 MAX_IGNORE_PATTERNS MAX_PATH_FILTERS
    MAX_HOOK_CONFIGS sample_file 0%nat = Some (0, f, n)) by (eexists _, _; vm_compute; reflexivity).
  destruct H as (f & n & H). exists f, n. split; [exact H|].
  exact (proj1 (yaml_policy_accepted (Lib := list_lib sample_document) 1000 sample_file 0%nat 0 f n H)).
Defined.



