(* ===== verification/ToolState.v ===== *)
(** * The state and the effects of the userspace tool

    What a run of [bpfima_tool] reads and changes: the state of the module, the
    arrays of [src/tools/bpfima_tool.c] in which the tool keeps what it has
    opened and attached, the list of monitored files, and the trace of the calls
    that change something outside.  Every descriptor that the tool gets is
    [Acquired] in the trace and every [close] of one is [Released]; a [FILE] or
    a [DIR] counts as its descriptor. *)

From S2P Require Import Prelude CString Types Kernel.

(** ** What libbpf knows of an object *)

Record bpf_map_info := BpfMapInfo {
  mi_type : Z;
  mi_key_size : Z;
  mi_value_size : Z;
  mi_max_entries : Z;
  mi_map_flags : Z;
  mi_id : Z;
}.

Record map_desc := MapDesc { md_name : bytes; md_internal : bool; md_info : bpf_map_info }.
Record prog_desc := ProgDesc { pd_name : bytes; pd_type : Z }.
Record bpf_object := BpfObject { ob_maps : list map_desc; ob_progs : list prog_desc }.

(** ** State and effects *)

Inductive resource :=
| RObject (n : nat)
| RLink (n : nat)
| RFd (fd : Z).

Inductive tool_event :=
| Acquired (r : resource)
| Released (r : resource)
| PinPathCleared (object : nat) (map : bytes)
| MarkedSleepable (object : nat) (prog : bytes)
| MapReused (map : bytes) (fd : Z)
| MapPinned (path : bytes)
| MapUnpinned (path : bytes)
| LinkPinned (link : nat) (path : bytes)
| LinkUpdated (path : bytes)
| MadeDir (path : bytes)
| RemovedDir (path : bytes)
| Unlinked (path : bytes)
| PidWritten (text : bytes)
| Signalled (pid signal : Z)
| Alive (pid : Z) (alive : bool)
| Appended (path chunk : bytes).

#[export] Instance resource_eq_dec : EqDecision resource.
Proof. solve_decision. Defined.
#[export] Instance tool_event_eq_dec : EqDecision tool_event.
Proof. solve_decision. Defined.

Record monitored_file := MonitoredFile {
  mf_src_path : bytes;
  mf_dst_path : bytes;
  mf_fd : Z;
  mf_active : bool;
}.

Record tool_state := ToolState {
  t_kernel : kstate;
  g_objs : list (option (nat * bpf_object));
  g_obj_count : nat;
  g_links : list (option nat);
  g_link_count : nat;
  g_monitored_files : list monitored_file;
  t_trace : list tool_event;
}.

Definition T (A : Type) : Type := tool_state -> option (A * tool_state).

Definition tret {A} (a : A) : T A := fun t => Some (a, t).
Definition tbind {A B} (m : T A) (f : A -> T B) : T B :=
  fun t => match m t with Some (a, t') => f a t' | None => None end.

Declare Scope tool_scope.
Delimit Scope tool_scope with tool.
Notation "'let$' x := m 'in' k" := (tbind m (fun x => k))
  (at level 10, x pattern, m at level 99, k at level 200) : tool_scope.
Notation "m '$;' k" := (tbind m (fun _ => k)) (at level 100, k at level 200, right associativity) : tool_scope.
Open Scope tool_scope.

Definition tgets {A} (f : tool_state -> A) : T A := fun t => Some (f t, t).
Definition tderef {A} (o : option A) : T A := fun t => match o with Some a => Some (a, t) | None => None end.

Definition lift {A} (m : K A) : T A := fun t =>
  match m (t_kernel t) with
  | Some (a, s) => Some (a, ToolState s (g_objs t) (g_obj_count t) (g_links t) (g_link_count t) (g_monitored_files t) (t_trace t))
  | None => None
  end.

Definition emit (e : tool_event) : T unit := fun t =>
  Some (tt, ToolState (t_kernel t) (g_objs t) (g_obj_count t) (g_links t) (g_link_count t) (g_monitored_files t)
    (t_trace t ++ [e])).

Definition set_objs (l : list (option (nat * bpf_object))) (n : nat) : T unit := fun t =>
  Some (tt, ToolState (t_kernel t) l n (g_links t) (g_link_count t) (g_monitored_files t) (t_trace t)).

Definition set_links (l : list (option nat)) (n : nat) : T unit := fun t =>
  Some (tt, ToolState (t_kernel t) (g_objs t) (g_obj_count t) l n (g_monitored_files t) (t_trace t)).

Definition set_monitored (l : list monitored_file) : T unit := fun t =>
  Some (tt, ToolState (t_kernel t) (g_objs t) (g_obj_count t) (g_links t) (g_link_count t) l (t_trace t)).

(** A loop over a list with an early exit. *)
Fixpoint for_each {X St R} (body : X -> St -> T (St + R)) (xs : list X) (st : St) : T (St + R) :=
  match xs with
  | [] => tret (inl st)
  | x :: xs =>
      let$ r := body x st in
      match r with
      | inl st => for_each body xs st
      | inr r => tret (inr r)
      end
  end.

(** A loop without one. *)
Fixpoint for_all {X} (body : X -> T unit) (xs : list X) : T unit :=
  match xs with
  | [] => tret tt
  | x :: xs => body x $; for_all body xs
  end.

(** A call that returns a descriptor or a negative error. *)
Definition opened (m : T Z) : T Z :=
  let$ fd := m in
  if fd <? 0 then tret fd else emit (Acquired (RFd fd)) $; tret fd.

Definition close_fd (fd : Z) : T unit := emit (Released (RFd fd)).

Definition MAX_LOADED_OBJECTS : nat := 8.
Definition MAX_ATTACHED_LINKS : nat := 8.

(** The tool at its start. *)
Definition fresh (s : kstate) : tool_state :=
  ToolState s (replicate MAX_LOADED_OBJECTS None) 0 (replicate MAX_ATTACHED_LINKS None) 0 [] [].
