(* ===== verification/ToolLogic.v ===== *)
(** * Reasoning about the userspace tool

    [twp] for computations of the tool, the resources in a trace, and [owes]: how
    far a run that only opens and closes descriptors has come. *)

From S2P Require Import Prelude CString Types Kernel ToolState.

(** ** Computations that do not fault *)

Definition twp {A} (m : T A) (Q : A -> tool_state -> Prop) (t : tool_state) : Prop :=
  match m t with Some (a, t') => Q a t' | None => False end.

Lemma twp_bind {A B} (m : T A) (f : A -> T B) Q t :
  twp m (fun a t' => twp (f a) Q t') t -> twp (tbind m f) Q t.
Proof. unfold twp, tbind. by destruct (m t) as [[a t']|]. Qed.

Lemma twp_mono {A} (m : T A) (P Q : A -> tool_state -> Prop) t :
  twp m P t -> (forall a t', P a t' -> Q a t') -> twp m Q t.
Proof. unfold twp. destruct (m t) as [[a t']|]; eauto. Qed.

Lemma twp_ret {A} (a : A) (Q : A -> tool_state -> Prop) t : Q a t -> twp (tret a) Q t.
Proof. done. Qed.

Lemma twp_lift {A} (m : K A) Q t :
  wp m (fun a s => Q a (ToolState s (g_objs t) (g_obj_count t) (g_links t) (g_link_count t) (g_monitored_files t)
    (t_trace t))) (t_kernel t) -> twp (lift m) Q t.
Proof. unfold wp, twp, lift. by destruct (m (t_kernel t)) as [[a s]|]. Qed.

Lemma twp_conj {A} (m : T A) (P Q : A -> tool_state -> Prop) t :
  twp m P t -> twp m Q t -> twp m (fun a t' => P a t' /\ Q a t') t.
Proof. unfold twp. by destruct (m t) as [[a t']|]. Qed.

Lemma twp_run {A} (m : T A) Q t a t' : m t = Some (a, t') -> twp m Q t -> Q a t'.
Proof. unfold twp. by intros ->. Qed.

Lemma twp_tgets {A} (f : tool_state -> A) (Q : A -> tool_state -> Prop) t : Q (f t) t -> twp (tgets f) Q t.
Proof. done. Qed.

Lemma twp_tderef {A} (o : option A) a (Q : A -> tool_state -> Prop) t : o = Some a -> Q a t -> twp (tderef o) Q t.
Proof. by intros ->. Qed.

(** A loop over the first [n] numbers. *)
Lemma twp_for_seq (J : nat -> tool_state -> Prop) (body : nat -> T unit) n t :
  (forall i t, (i < n)%nat -> J i t -> twp (body i) (fun _ => J (S i)) t) -> J 0%nat t ->
  twp (for_all body (seq 0 n)) (fun _ => J n) t.
Proof.
  intros Hb. enough (H : forall k i t, (i + k = n)%nat -> J i t -> twp (for_all body (seq i k)) (fun _ => J n) t) by (by apply H).
  induction k as [|k IH]; intros i t' Hi Hj; cbn [seq for_all].
  - by replace n with i by lia.
  - apply twp_bind. eapply twp_mono; [apply Hb; [lia|exact Hj]|]. intros [] t2 Hj2. apply IH; [lia|done].
Qed.

(** ** The trace *)

Definition acquired (tr : list tool_event) : list resource :=
  omap (fun e => match e with Acquired r => Some r | _ => None end) tr.
Definition released (tr : list tool_event) : list resource :=
  omap (fun e => match e with Released r => Some r | _ => None end) tr.

Definition with_trace (es : list tool_event) (t : tool_state) : tool_state :=
  ToolState (t_kernel t) (g_objs t) (g_obj_count t) (g_links t) (g_link_count t) (g_monitored_files t) (t_trace t ++ es).

Lemma acquired_app a b : acquired (a ++ b) = acquired a ++ acquired b.
Proof. apply omap_app. Qed.
Lemma released_app a b : released (a ++ b) = released a ++ released b.
Proof. apply omap_app. Qed.

(** Opens or closes a descriptor. *)
Definition fd_event (e : tool_event) : Prop := match e with Acquired (RFd _) | Released (RFd _) => True | _ => False end.

(** ** Descriptors *)

(** From [t0] to [t] only descriptors were opened and closed, the module may have
    changed, and [h] is still open. *)
Definition owes (t0 : tool_state) (h : list resource) (t : tool_state) : Prop :=
  exists es, t = ToolState (t_kernel t) (g_objs t0) (g_obj_count t0) (g_links t0) (g_link_count t0) (g_monitored_files t0)
      (t_trace t0 ++ es) /\
    Forall fd_event es /\ acquired es ≡ₚ released es ++ h.

Lemma owes_start t : owes t [] t.
Proof. exists []. rewrite app_nil_r. by destruct t. Qed.

Lemma owes_trans t0 t1 h t : owes t0 [] t1 -> owes t1 h t -> owes t0 h t.
Proof.
  intros (es1 & -> & Hf1 & Hp1) (es2 & -> & Hf2 & Hp2). exists (es1 ++ es2). split; [cbn; by rewrite app_assoc|].
  split; [by apply Forall_app|]. rewrite acquired_app, released_app, Hp1, Hp2, app_nil_r. by rewrite app_assoc.
Qed.

Lemma owes_emit t0 h h' e t :
  owes t0 h t -> fd_event e -> acquired [e] ++ h ≡ₚ released [e] ++ h' -> owes t0 h' (with_trace [e] t).
Proof.
  intros (es & -> & Hf & Hp) He Hh. exists (es ++ [e]). split; [unfold with_trace; cbn; by rewrite app_assoc|].
  split; [by apply Forall_app; split; [|constructor]|].
  rewrite acquired_app, released_app, Hp, <- !app_assoc. apply Permutation_app_head.
  by rewrite (Permutation_app_comm h).
Qed.

Lemma owes_kernel t0 h t s :
  owes t0 h t ->
  owes t0 h (ToolState s (g_objs t) (g_obj_count t) (g_links t) (g_link_count t) (g_monitored_files t) (t_trace t)).
Proof. intros (es & -> & Hf & Hp). by exists es. Qed.

(** A computation of the module. *)
Lemma twp_owes_lift {A} t0 h (m : K A) Q t :
  owes t0 h t -> wp m (fun a s => forall t', owes t0 h t' -> t_kernel t' = s -> Q a t') (t_kernel t) -> twp (lift m) Q t.
Proof.
  intros Ho Hw. apply twp_lift. eapply wp_mono; [exact Hw|]. intros a s HQ. apply HQ; [by apply owes_kernel|done].
Qed.

Lemma twp_owes_opened t0 h (m : K Z) Q t :
  owes t0 h t ->
  wp m (fun fd s => forall t', owes t0 (if fd <? 0 then h else RFd fd :: h) t' -> t_kernel t' = s -> Q fd t') (t_kernel t) ->
  twp (opened (lift m)) Q t.
Proof.
  intros Ho Hw. apply twp_bind. eapply twp_owes_lift; [exact Ho|]. eapply wp_mono; [exact Hw|].
  intros fd s HQ t' Ho' <-. destruct (fd <? 0) eqn:Ef; [by apply HQ|].
  apply (HQ (with_trace [Acquired (RFd fd)] t')); [|done]. by apply (owes_emit t0 h).
Qed.

Lemma twp_owes_close t0 h fd (Q : unit -> tool_state -> Prop) t :
  owes t0 (RFd fd :: h) t -> (forall t', owes t0 h t' -> t_kernel t' = t_kernel t -> Q tt t') -> twp (close_fd fd) Q t.
Proof.
  intros Ho HQ. apply (HQ (with_trace [Released (RFd fd)] t)); [|done]. by apply (owes_emit t0 (RFd fd :: h)).
Qed.

(** ** Answers *)

Section Answers.
Context {E : KernelEnv}.

(** Only calls were made. *)
Definition asked (s : kstate) (t : tool_state) : Prop := exists n, t_kernel t = set_next n s.

Lemma asked_same s t t' : t_kernel t' = t_kernel t -> asked s t -> asked s t'.
Proof. unfold asked. by intros ->. Qed.

(** The answer of a call and the state after it. *)
Lemma wp_answer {A} (f : nat -> A) (Q : A -> kstate -> Prop) s :
  Q (f (k_next s)) (set_next (S (k_next s)) s) -> wp (let* n := call in ret (f n)) Q s.
Proof. done. Qed.

Lemma twp_owes_answer {A} t0 h (f : nat -> A) s (Q : A -> tool_state -> Prop) t :
  owes t0 h t -> asked s t ->
  (forall t', owes t0 h t' -> asked s t' -> k_next (t_kernel t') = S (k_next (t_kernel t)) -> Q (f (k_next (t_kernel t))) t') ->
  twp (lift (let* n := call in ret (f n))) Q t.
Proof.
  intros Ho [n Hn] HQ. eapply twp_owes_lift; [exact Ho|]. apply wp_answer. intros t' Ho' Hk.
  apply HQ; [done| |by rewrite Hk]. exists (S (k_next (t_kernel t))). by rewrite Hk, Hn.
Qed.

Lemma twp_owes_descriptor t0 h (f : nat -> Z) s (Q : Z -> tool_state -> Prop) t :
  owes t0 h t -> asked s t ->
  (forall t', let fd := f (k_next (t_kernel t)) in
     owes t0 (if fd <? 0 then h else RFd fd :: h) t' -> asked s t' -> k_next (t_kernel t') = S (k_next (t_kernel t)) -> Q fd t') ->
  twp (opened (lift (let* n := call in ret (f n)))) Q t.
Proof.
  intros Ho [n Hn] HQ. eapply twp_owes_opened; [exact Ho|]. apply wp_answer. intros t' Ho' Hk.
  apply HQ; [done| |by rewrite Hk]. exists (S (k_next (t_kernel t))). by rewrite Hk, Hn.
Qed.
End Answers.
