(* ===== verification/Tool.v ===== *)
(** * The policy commands of the userspace tool

    [ensure_policy_map], [cmd_policy_init] and [cmd_policy_update] of
    [src/tools/bpfima_tool.c] and [apply_policy_snapshot] of
    [src/tools/yaml_parser.c].  A write to a securityfs file runs the handler
    of the module on the bytes written, so a command is a computation on the
    state of the module; the answers of libbpf and of [open] are parameters.
    Every descriptor that the commands open and close is in the trace; the file
    that the YAML parser reads is not. *)

From S2P Require Import Prelude CString Types Kernel Pattern Snapshot Wire KfuncBuffer HashUtils Tpm PolicyMap Merkle PolicyNamespace PolicyManager Container Kfuncs PolicyFiles YamlParser ToolState.

Class ToolEnv := {
  (** A descriptor, or a negative error. *)
  env_obj_get : nat -> Z;
  env_map_create : nat -> Z;
  env_open : nat -> Z;
  (** 0, or a negative error. *)
  env_map_freeze : nat -> Z;
  env_obj_pin : nat -> Z;
  (** [bpf_map_get_info_by_fd]: its result and the information. *)
  env_map_info : nat -> Z * bpf_map_info;
}.

Definition BPF_MAP_TYPE_ARRAY : Z := 2.
Definition SIZEOF_POLICY_STATE : Z := 45560.

(** What makes a map usable as policy map. *)
Definition is_policy_map_info (info : bpf_map_info) : bool :=
  (mi_type info =? BPF_MAP_TYPE_ARRAY) && (mi_key_size info =? 4) && (mi_value_size info =? SIZEOF_POLICY_STATE) &&
  (mi_max_entries info =? Z.of_nat BPFIMA_POLICY_MAP_ENTRIES) && (mi_map_flags info =? BPFIMA_POLICY_MAP_FLAGS).

Section Tool.
Context {E : KernelEnv} {U : ToolEnv}.

(** [bpf_obj_get] and [bpf_map_create] return a new descriptor. *)
Definition bpf_obj_get : T Z := opened (lift (let* n := call in ret (env_obj_get n))).
Definition bpf_map_create : T Z := opened (lift (let* n := call in ret (env_map_create n))).
Definition bpf_map_freeze : T Z := lift (let* n := call in ret (env_map_freeze n)).
Definition bpf_obj_pin : T Z := lift (let* n := call in ret (env_obj_pin n)).
Definition bpf_map_get_info_by_fd : T (Z * bpf_map_info) := lift (let* n := call in ret (env_map_info n)).

(** The answer of [open] on a securityfs file, and the call as the tool makes it. *)
Definition open_endpoint : K Z := let* n := call in ret (env_open n).
Definition open_file : T Z := opened (lift open_endpoint).

(** A new map, frozen and pinned; the pin of another process wins. *)
Definition create_policy_map : T Z :=
  let$ fd := bpf_map_create in
  if fd <? 0 then tret fd else
  let$ rc := bpf_map_freeze in
  if truth rc then close_fd fd $; tret (- 1) else
  let$ rc := bpf_obj_pin in
  if truth rc then
    close_fd fd $;
    if negb (rc =? - EEXIST) then tret (- 1) else bpf_obj_get
  else tret fd.

(** The descriptor of the map is written to the module. *)
Definition bind_policy_map (fd : Z) : T Z :=
  let$ (rc, info) := bpf_map_get_info_by_fd in
  if truth rc || negb (is_policy_map_info info) then tret (- 1) else
  let$ endpoint := open_file in
  if endpoint <? 0 then tret (- 1) else
  let text := decimal fd ++ [x0a] in
  let$ written := lift (policy_map_write text) in
  close_fd endpoint $;
  tret (if written =? Z.of_nat (length text) then 0 else - 1).

Definition ensure_policy_map : T Z :=
  let$ fd := bpf_obj_get in
  let$ fd := (if fd =? - ENOENT then create_policy_map else tret fd) in
  if fd <? 0 then tret (- 1) else
  let$ rc := bind_policy_map fd in
  close_fd fd $;
  tret rc.

Definition SIZEOF_POLICY_REQUEST : Z := 1400.

Definition policy_request (namespace_id : option bytes) (snapshot : bpfima_policy_snapshot) : bpfima_policy_request :=
  PolicyRequest BPFIMA_POLICY_VERSION 0 0
    (PolicyRecord (match namespace_id with
       | Some id => strscpy (zeros BPFIMA_NAMESPACE_SIZE) id BPFIMA_NAMESPACE_SIZE
       | None => zeros BPFIMA_NAMESPACE_SIZE
       end) snapshot).

Definition apply_policy_snapshot (namespace_id : option bytes) (snapshot : bpfima_policy_snapshot) : T Z :=
  if match namespace_id with Some id => (BPFIMA_NAMESPACE_SIZE <=? strlen id)%nat | None => false end
  then tret (- EINVAL) else
  let request := bpfima_policy_encode_request big_endian (policy_request namespace_id snapshot) in
  let$ fd := open_file in
  if fd <? 0 then tret fd else
  let$ written := lift (policy_apply_write (c_put (request_codec big_endian) request)) in
  close_fd fd $;
  tret (if written =? SIZEOF_POLICY_REQUEST then 0 else if written <? 0 then written else - EIO).

(** The exit code. *)
Definition cmd_policy_init : T Z :=
  let$ rc := ensure_policy_map in
  if truth rc then tret 1 else
  let$ rc := apply_policy_snapshot None bpfima_init_default_snapshot in
  tret (if truth rc then 1 else 0).

(** [None] when the parser does not return within the fuel. *)
Definition cmd_policy_update {Lib : YamlLib} (opened initialized : bool) (fuel : nat) (before : yaml_file)
    (namespace_id : option bytes) : T (option Z) :=
  match parse_yaml_policy opened initialized fuel MAX_IGNORE_PATTERNS MAX_PATH_FILTERS MAX_HOOK_CONFIGS before 0%nat with
  | None => tret None
  | Some (rc, f, _) =>
      if truth rc then tret (Some 1) else
      match build_policy_from_yaml (yf_policy f) (yf_cgroups f) (Z.of_nat MAX_IGNORE_PATTERNS) (yf_paths f)
              (Z.of_nat MAX_PATH_FILTERS) (yf_hooks f) (Z.of_nat MAX_HOOK_CONFIGS) with
      | inl _ => tret (Some 1)
      | inr snapshot =>
          let$ rc := ensure_policy_map in
          if truth rc then tret (Some 1) else
          let$ rc := apply_policy_snapshot namespace_id snapshot in
          tret (Some (if truth rc then 1 else 0))
      end
  end.
End Tool.
