(* ===== verification/ToolSpec.v ===== *)
(** * From the policy file to the policy store

    The policy commands keep the module consistent whatever libbpf, the file
    system and the parser answer, and a command that succeeds has put the
    policy of the file into the store of the kernel. *)

From S2P Require Import Prelude CString Types Kernel Sample Pattern Snapshot Wire KfuncBuffer HashUtils Tpm PolicyMap Merkle MerkleSpec MerkleInv PolicyNamespace PolicyManager PolicySpec PolicyInv PolicyLog PolicyBind PolicyAudit Container ContainerSpec ContainerRules ContainerInv Kfuncs KfuncsInv KfuncsSpec Lifecycle LifecycleSpec PolicyFiles PolicyFilesSpec Frame Requests System YamlParser YamlParserSpec YamlRoundtrip ToolState ToolLogic Tool.

Section ToolSpec.
Context {E : KernelEnv} {L : KernelLaws E} {U : ToolEnv}.

Lemma sys_inv_next pcr vs n s : sys_inv pcr vs s -> sys_inv pcr vs (set_next n s).
Proof. intros [Hm Hp]. split; [by apply module_inv_next|exact Hp]. Qed.

(** Every descriptor resolves to a live map or to none. *)
Definition fds_ok (s : kstate) : Prop := forall fd, fd_ok fd s.

Lemma wp_both {A} (m : K A) P Q s : wp m P s -> wp m Q s -> wp m (fun a s' => P a s' /\ Q a s') s.
Proof. unfold wp. by destruct (m s) as [[a s']|]. Qed.

(** The policies a bound store holds; a store is bound with the default root
    policy. *)
Definition active_policies (s : kstate) : gmap bytes bpfima_policy_snapshot :=
  match policy_view s with Some st => policies st | None => {[ [] := bpfima_init_default_snapshot ]} end.

(** The module is consistent, with the log possibly longer, and a store that is
    bound holds [base]. *)
Definition kept (pcr : bytes) (vs : list bytes) (base : gmap bytes bpfima_policy_snapshot) (s : kstate) : Prop :=
  (exists ws, sys_inv pcr (vs ++ ws) s) /\ active_policies s = base.

Lemma kept_same pcr vs n s : sys_inv pcr vs s -> kept pcr vs (active_policies s) (set_next n s).
Proof. intros Hi. split; [|done]. exists []. rewrite app_nil_r. by apply sys_inv_next. Qed.

Lemma kept_trans pcr vs ws base s : kept pcr (vs ++ ws) base s -> kept pcr vs base s.
Proof. intros [[us Hi] Hb]. split; [|done]. exists (ws ++ us). by rewrite app_assoc. Qed.

Lemma active_frame s s' : k_policy s' = k_policy s -> active_policies s' = active_policies s.
Proof. unfold active_policies, policy_view. by intros ->. Qed.

Lemma active_unbound s : policy_map (k_policy s) = None -> active_policies s = {[ [] := bpfima_init_default_snapshot ]}.
Proof. unfold active_policies, policy_view. by intros ->. Qed.

(** Binding gives an unbound store the default policy and leaves a bound one
    alone; a store that stays unbound is reported. *)
Lemma wp_bind_kept pcr vs fd s :
  sys_inv pcr vs s -> fd_ok fd s ->
  wp (bpfima_policy_bind_map fd) (fun rc s' =>
    kept pcr vs (active_policies s) s' /\ (policy_map (k_policy s') = None -> rc <> 0 /\ rc < 2)) s.
Proof.
  intros Hi Hfd. destruct (sys_hash_ready _ _ _ Hi) as [Hr He].
  assert (Hact : wp (bpfima_policy_bind_map fd) (fun rc s' => active_policies s' = active_policies s /\
    (policy_map (k_policy s') = None -> rc <> 0 /\ rc < 2)) s).
  { destruct (policy_map (k_policy s)) as [e|] eqn:Ep.
    - eapply wp_mono; [by apply (bind_map_bound fd e)|]. intros rc s' [_ Hk]. split; [by apply active_frame|].
      rewrite Hk, Ep. done.
    - unfold fd_ok in Hfd. destruct (env_map_get fd) as [err|map] eqn:Ef.
      + unfold bpfima_policy_bind_map, bpf_map_get. rewrite Ef. apply wp_bind, wp_ret, wp_ret. split; [done|lia].
      + destruct Hfd as (m & Hm & Hl). eapply wp_mono; [by apply (wp_bind_map fd map m)|].
        rewrite (active_unbound s Ep). intros rc s' [_ [(_ & _ & Hb & _ & st & Hv & _ & Hst)|(Hne & Hlt & Hn & _)]].
        * unfold active_policies. rewrite Hv, Hb. done.
        * split; [by apply active_unbound|done]. }
  eapply wp_mono; [apply wp_both; [by apply (bind_moved pcr vs fd)|exact Hact]|].
  intros rc s' [[Hmv Hp] [Ha Hb]]. split; [split; [by eapply sys_moved|done]|done].
Qed.

Lemma wp_tool_call {A} (f : nat -> A) Q s : (forall n, Q (f n) (set_next (S (k_next s)) s)) -> wp (let* n := call in ret (f n)) Q s.
Proof. intros HQ. apply wp_bind, wp_call, wp_ret, HQ. Qed.

Lemma decimal_length_pos z : (0 < length (decimal z))%nat.
Proof. unfold decimal. cbn [decimal_fuel]. rewrite length_app. cbn. lia. Qed.

Lemma kstrtou32_error text e : kstrtou32 text = inl e -> e < 0.
Proof.
  unfold kstrtou32. destruct (fixup_radix _) as [base digits]. destruct (parse_integer _ _ _ _) as [[value seen] rest].
  cbv zeta. destruct (_ >? _); [by intros [= <-]|]. destruct (negb seen); [by intros [= <-]|].
  match goal with |- match ?x with [] => _ | _ => _ end = _ -> _ => destruct x end; [|by intros [= <-]].
  destruct (_ >? _); [by intros [= <-]|done].
Qed.

(** A write of at least two bytes succeeds only when the store is bound. *)
Lemma wp_map_write pcr vs text s :
  sys_inv pcr vs s -> fds_ok s -> (2 <= length text)%nat ->
  wp (policy_map_write text) (fun w s' =>
    kept pcr vs (active_policies s) s' /\ (w = Z.of_nat (length text) -> policy_map (k_policy s') <> None)) s.
Proof.
  intros Hi Hfd Hlen. unfold policy_map_write, capable, copy_from_user.
  assert (Hneg : forall e n, e < 0 -> kept pcr vs (active_policies s) (set_next n s) /\
    (e = Z.of_nat (length text) -> policy_map (k_policy (set_next n s)) <> None))
    by (intros e n He; split; [by apply kept_same|lia]).
  apply wp_bind, wp_tool_call. intros n. destruct (negb _); [by apply wp_ret, Hneg|].
  destruct (_ || _); [by apply wp_ret, Hneg|].
  apply wp_bind, wp_tool_call. intros n'. rewrite set_next_set_next. destruct (negb _); [by apply wp_ret, Hneg|].
  destruct (memchr _ _ _); [by apply wp_ret, Hneg|].
  destruct (kstrtou32 text) as [e|fd] eqn:Ek; [by apply wp_ret, Hneg; eapply kstrtou32_error|].
  set (m := S (k_next (set_next (S (k_next s)) s))).
  apply wp_bind. eapply wp_mono; [apply (wp_bind_kept pcr vs fd (set_next m s)); [by apply sys_inv_next|exact (Hfd fd)]|].
  intros rc s' [Hk Hb]. apply wp_ret. split; [exact Hk|]. intros Hw Hn. destruct (Hb Hn) as [Hne Hlt].
  apply truth_true in Hne. rewrite Hne in Hw. lia.
Qed.

(** [ensure_policy_map] succeeds only with a bound store. *)
Definition ensured (pcr : bytes) (vs : list bytes) (s : kstate) (rc : Z) (s' : kstate) : Prop :=
  kept pcr vs (active_policies s) s' /\ (rc = - 1 \/ rc = 0 /\ policy_map (k_policy s') <> None).

Lemma ensured_not pcr vs s t : sys_inv pcr vs s -> asked s t -> ensured pcr vs s (- 1) (t_kernel t).
Proof. intros Hi [n ->]. split; [by apply kept_same|by left]. Qed.

Lemma kept_asked pcr vs s t : sys_inv pcr vs s -> asked s t -> kept pcr vs (active_policies s) (t_kernel t).
Proof. intros Hi [n ->]. by apply kept_same. Qed.

(** The new map, if there is one, is the only descriptor that stays open. *)
Lemma twp_create_map t0 h s t :
  owes t0 h t -> asked s t ->
  twp create_policy_map (fun fd t' => owes t0 (if fd <? 0 then h else RFd fd :: h) t' /\ asked s t') t.
Proof.
  intros Ho Ha. unfold create_policy_map, bpf_map_create, bpf_map_freeze, bpf_obj_pin, bpf_obj_get.
  apply twp_bind. eapply twp_owes_descriptor; [exact Ho|exact Ha|]. intros t1 fd Ho1 Ha1 _.
  destruct (fd <? 0) eqn:Ef; [apply twp_ret; by rewrite Ef|].
  apply twp_bind. eapply twp_owes_answer; [exact Ho1|exact Ha1|]. intros t2 Ho2 Ha2 _. destruct (truth _).
  { apply twp_bind. eapply twp_owes_close; [exact Ho2|]. intros t3 Ho3 Hk3. apply twp_ret. split; [done|by eapply asked_same]. }
  apply twp_bind. eapply twp_owes_answer; [exact Ho2|exact Ha2|]. intros t3 Ho3 Ha3 _.
  destruct (truth _); [|apply twp_ret; by rewrite Ef].
  apply twp_bind. eapply twp_owes_close; [exact Ho3|]. intros t4 Ho4 Hk4. apply (asked_same s) in Hk4; [|done].
  destruct (negb _); [by apply twp_ret|].
  eapply twp_owes_descriptor; [exact Ho4|exact Hk4|]. by intros t5 fd' Ho5 Ha5 _.
Qed.

Lemma twp_bind_map t0 h fd pcr vs s t :
  sys_inv pcr vs s -> fds_ok s -> owes t0 h t -> asked s t ->
  twp (bind_policy_map fd) (fun rc t' => owes t0 h t' /\ ensured pcr vs s rc (t_kernel t')) t.
Proof.
  intros Hi Hfd Ho Ha. unfold bind_policy_map, bpf_map_get_info_by_fd, open_file, open_endpoint.
  apply twp_bind. eapply twp_owes_answer; [exact Ho|exact Ha|]. intros t1 Ho1 Ha1 _. destruct (env_map_info _) as [rc info].
  destruct (_ || _); [apply twp_ret; split; [done|by apply ensured_not]|].
  apply twp_bind. eapply twp_owes_descriptor; [exact Ho1|exact Ha1|]. intros t2 endpoint Ho2 Ha2 _.
  destruct (endpoint <? 0); [apply twp_ret; split; [done|by apply ensured_not]|].
  cbv zeta. apply twp_bind. eapply twp_owes_lift; [exact Ho2|]. destruct Ha2 as [n ->].
  eapply wp_mono; [apply (wp_map_write pcr vs); [by apply sys_inv_next|exact Hfd|]|].
  - rewrite length_app. pose proof (decimal_length_pos fd). cbn [length]. lia.
  - intros w s' [Hk Hb] t3 Ho3 Hs3. apply twp_bind. eapply twp_owes_close; [exact Ho3|]. intros t4 Ho4 Hs4.
    apply twp_ret. rewrite Hs4, Hs3. split; [done|]. split; [exact Hk|].
    destruct (Z.eqb_spec w (Z.of_nat (length (decimal fd ++ [x0a])))); [right; by split; [|apply Hb]|by left].
Qed.

(** Whatever is answered, every descriptor that was opened is closed. *)
Lemma twp_ensure pcr vs t :
  sys_inv pcr vs (t_kernel t) -> fds_ok (t_kernel t) ->
  twp ensure_policy_map (fun rc t' => owes t [] t' /\ ensured pcr vs (t_kernel t) rc (t_kernel t')) t.
Proof.
  intros Hi Hfd. set (s := t_kernel t) in *. unfold ensure_policy_map, bpf_obj_get.
  assert (Ha : asked s t) by (exists (k_next s); by rewrite set_next_eta).
  assert (Hgo : forall fd t', owes t (if fd <? 0 then [] else [RFd fd]) t' -> asked s t' ->
    twp (if fd <? 0 then tret (- 1) else let$ rc := bind_policy_map fd in close_fd fd $; tret rc)
      (fun rc t' => owes t [] t' /\ ensured pcr vs s rc (t_kernel t')) t').
  { intros fd t' Ho' Ha'. destruct (fd <? 0); [apply twp_ret; split; [done|by apply ensured_not]|].
    apply twp_bind. eapply twp_mono; [by apply (twp_bind_map t [RFd fd] fd pcr vs s)|]. intros rc t1 [Ho1 He].
    apply twp_bind. eapply twp_owes_close; [exact Ho1|]. intros t2 Ho2 Hk. apply twp_ret. by rewrite Hk. }
  apply twp_bind. eapply twp_owes_descriptor; [apply owes_start|exact Ha|]. intros t1 fd Ho1 Ha1 _.
  apply twp_bind. destruct (Z.eqb_spec fd (- ENOENT)) as [->|_]; [|by apply twp_ret, Hgo].
  eapply twp_mono; [by apply (twp_create_map t [] s)|]. intros fd' t2 [Ho2 Ha2]. by apply Hgo.
Qed.

(** ** Applying *)

Lemma wf_policy_request id sn : wf_snapshot sn -> wf_request (policy_request id sn).
Proof.
  intros Hw. split; [done..|]. cbn [rq_record policy_request]. split; [|exact Hw]. destruct id; [|apply length_zeros].
  cbn [rec_namespace_id]. by rewrite length_strscpy; rewrite length_zeros.
Qed.

(** What applying [sn] to namespace [id] may do: with result 0 the store is
    bound and exactly that policy is replaced, otherwise nothing is. *)
Definition applied (pcr : bytes) (vs : list bytes) (id : option bytes) (sn : bpfima_policy_snapshot) (s : kstate)
    (rc : Z) (s' : kstate) : Prop :=
  if decide (rc = 0)
  then policy_map (k_policy s') <> None /\ kept pcr vs (<[key_of id := sn]> (active_policies s)) s'
  else kept pcr vs (active_policies s) s'.

Lemma wp_apply_kept pcr vs id sn s :
  sys_inv pcr vs s -> canonical sn -> wf_snapshot sn ->
  match id with Some id => (strlen id < BPFIMA_NAMESPACE_SIZE)%nat | None => True end ->
  wp (bpfima_policy_apply (Some (policy_request id sn))) (fun rc s' => rc <= 0 /\ applied pcr vs id sn s rc s') s.
Proof.
  intros Hi Hc Hw Hid. destruct (sys_hash_ready _ _ _ Hi) as [Hr He]. pose proof (proj2 Hi) as Hp.
  assert (Hq : wf_request (policy_request id sn)) by (by apply wf_policy_request).
  assert (Hk : cstr (rec_namespace_id (rq_record (policy_request id sn))) = key_of id)
    by (destruct id; [by apply cstr_strscpy_fits|apply cstr_zeros]).
  destruct (policy_map (k_policy s)) as [map|] eqn:Hm.
  - destruct (policy_inv_view s map Hp Hm) as (m & st & _ & _ & Hv).
    assert (Ha : active_policies s = policies st) by (unfold active_policies; by rewrite Hv).
    eapply wp_mono; [apply wp_both; [by apply (policy_apply_moved (policy_request id sn))|
      apply (wp_policy_apply (policy_request id sn) st s Hp Hv Hr He Hq)]|].
    intros rc s' [[Hmv Hp'] (Hle & _ & st' & Hv' & Hcase)]. rewrite Hk in Hcase. split; [done|].
    assert (Hs : exists ws, sys_inv pcr (vs ++ ws) s') by (by eapply sys_moved).
    assert (Ha' : active_policies s' = policies st') by (unfold active_policies; by rewrite Hv').
    assert (Hb : policy_map (k_policy s') <> None) by (intros Hn; unfold policy_view in Hv'; by rewrite Hn in Hv').
    unfold applied, kept. rewrite Ha, Ha'. case_decide as Hrc.
    + split_and!; [done|done|]. unfold canonical in Hc.
      destruct Hcase as [[-> Hst]|(_ & _ & _ & sn' & Hn & -> & _)].
      * destruct (Hst Hrc) as (sn' & Hn & Hl). cbn in Hn. rewrite Hc in Hn. simplify_eq. symmetry. by apply insert_id.
      * cbn in Hn. rewrite Hc in Hn. by simplify_eq.
    + split; [done|]. destruct Hcase as [[-> _]|[? _]]; [done|lia].
  - assert (Hs : forall rc, rc <= 0 -> rc <> 0 -> rc <= 0 /\ applied pcr vs id sn s rc s).
    { intros rc Hle Hne. split; [done|]. unfold applied. rewrite decide_False by done.
      rewrite <- (set_next_eta s) at 2. by apply kept_same. }
    unfold bpfima_policy_apply. destruct (_ || _); [by apply wp_ret, Hs|].
    unfold apply_locked. apply wp_bind, wp_gets. rewrite Hm. by apply wp_ret, Hs.
Qed.

(** The bytes of an encoded request, written to the file of the module. *)
Lemma wp_write_kept be pcr vs id sn s :
  sys_inv pcr vs s -> canonical sn -> wf_snapshot sn ->
  match id with Some id => (strlen id < BPFIMA_NAMESPACE_SIZE)%nat | None => True end ->
  wp (policy_apply_write (c_put (request_codec be) (bpfima_policy_encode_request be (policy_request id sn)))) (fun w s' =>
    (w = SIZEOF_POLICY_REQUEST /\ applied pcr vs id sn s 0 s') \/ (w < 0 /\ applied pcr vs id sn s w s')) s.
Proof.
  intros Hi Hc Hw Hid.
  assert (Hfail : forall e n, e < 0 -> (e = SIZEOF_POLICY_REQUEST /\ applied pcr vs id sn s 0 (set_next n s)) \/
    (e < 0 /\ applied pcr vs id sn s e (set_next n s))).
  { intros e n He. right. split; [done|]. unfold applied. rewrite decide_False by lia. by apply kept_same. }
  unfold wp. rewrite apply_write_eq by (first [by apply wf_policy_request|done|by apply canonical_reserved_zero]).
  match goal with |- match ?m ?s0 with _ => _ end => change (wp m (fun w s' =>
    (w = SIZEOF_POLICY_REQUEST /\ applied pcr vs id sn s 0 s') \/ (w < 0 /\ applied pcr vs id sn s w s')) s0) end.
  unfold capable, kalloc, copy_from_user.
  destruct (negb _); [apply wp_ret; rewrite <- (set_next_eta s) at 2 4; by apply Hfail|].
  apply wp_bind, wp_tool_call. intros n1. destruct (negb _); [by apply wp_ret, Hfail|].
  apply wp_bind, wp_tool_call. intros n2. rewrite set_next_set_next. destruct (negb _); [by apply wp_ret, Hfail|].
  apply wp_bind, wp_tool_call. intros n3. rewrite set_next_set_next. destruct (negb _); [by apply wp_ret, Hfail|].
  apply wp_bind. eapply wp_mono; [apply (wp_apply_kept pcr vs id sn); try done; by apply sys_inv_next|].
  intros rc s' [Hle Ha]. apply wp_ret. unfold truth. destruct (Z.eqb_spec rc 0) as [->|Hrc]; cbn [negb]; [by left|].
  right. split; [lia|]. unfold applied in *. by rewrite decide_False in * by done.
Qed.

Lemma twp_apply_snapshot pcr vs id sn t :
  sys_inv pcr vs (t_kernel t) -> canonical sn -> wf_snapshot sn ->
  twp (apply_policy_snapshot id sn) (fun rc t' => owes t [] t' /\ applied pcr vs id sn (t_kernel t) rc (t_kernel t')) t.
Proof.
  intros Hi Hc Hw. set (s := t_kernel t) in *. unfold apply_policy_snapshot, open_file, open_endpoint.
  assert (Ha : asked s t) by (exists (k_next s); by rewrite set_next_eta).
  assert (Hfail : forall e t', e < 0 -> owes t [] t' -> asked s t' -> owes t [] t' /\ applied pcr vs id sn s e (t_kernel t')).
  { intros e t' He Ho Ha'. split; [done|]. unfold applied. rewrite decide_False by lia. by apply kept_asked. }
  destruct (match id with Some _ => _ | None => _ end) eqn:Eid; [by apply twp_ret, Hfail; [|apply owes_start|]|].
  assert (Hid : match id with Some id => (strlen id < BPFIMA_NAMESPACE_SIZE)%nat | None => True end)
    by (destruct id; [by apply Nat.leb_gt|done]).
  cbv zeta. apply twp_bind. eapply twp_owes_descriptor; [apply owes_start|exact Ha|]. intros t1 fd Ho1 Ha1 _.
  destruct (Z.ltb_spec fd 0); [by apply twp_ret, Hfail|].
  apply twp_bind. eapply twp_owes_lift; [exact Ho1|]. destruct Ha1 as [n ->].
  eapply wp_mono; [apply (wp_write_kept big_endian pcr vs id sn); [by apply sys_inv_next|done|done|done]|].
  intros w s' Hcase t2 Ho2 Hk2. apply twp_bind. eapply twp_owes_close; [exact Ho2|]. intros t3 Ho3 Hk3. apply twp_ret.
  rewrite Hk3, Hk2. split; [done|]. destruct Hcase as [[-> Hap]|[Hlt Hap]]; [exact Hap|].
  unfold SIZEOF_POLICY_REQUEST. destruct (Z.eqb_spec w 1400); [lia|]. destruct (Z.ltb_spec w 0); [exact Hap|lia].
Qed.

(** Both steps, after the policy is known. *)
Lemma twp_ensure_apply pcr vs id sn t :
  sys_inv pcr vs (t_kernel t) -> fds_ok (t_kernel t) -> canonical sn -> wf_snapshot sn ->
  twp (let$ rc := ensure_policy_map in
       if truth rc then tret 1 else
       let$ rc := apply_policy_snapshot id sn in
       tret (if truth rc then 1 else 0)) (fun rc t' => owes t [] t' /\
    ((rc = 1 /\ kept pcr vs (active_policies (t_kernel t)) (t_kernel t')) \/
     (rc = 0 /\ policy_map (k_policy (t_kernel t')) <> None /\
      kept pcr vs (<[key_of id := sn]> (active_policies (t_kernel t))) (t_kernel t')))) t.
Proof.
  intros Hi Hfd Hc Hw. apply twp_bind. eapply twp_mono; [by apply (twp_ensure pcr vs)|]. intros rc t1 [Ho1 [Hk _]].
  destruct (truth rc); [apply twp_ret; split; [done|by left]|]. destruct Hk as [[ws Hi1] Ha]. apply twp_bind.
  eapply twp_mono; [by apply (twp_apply_snapshot pcr (vs ++ ws) id sn t1)|].
  intros rc1 t2 [Ho2 Hap]. apply twp_ret. split; [by eapply owes_trans|]. unfold applied, truth in *. rewrite Ha in Hap.
  destruct (Z.eqb_spec rc1 0) as [->|Hne]; cbn [negb].
  - rewrite decide_True in Hap by done. destruct Hap as [Hb Hk]. right. split_and!; [done|done|by eapply kept_trans].
  - rewrite decide_False in Hap by done. left. split; [done|by eapply kept_trans].
Qed.

(** A file that cannot be opened is an error. *)
Lemma parsed_wf_any {Lib : YamlLib} opened initialized fuel before n f n' :
  parse_yaml_policy opened initialized fuel MAX_IGNORE_PATTERNS MAX_PATH_FILTERS MAX_HOOK_CONFIGS before n = Some (0, f, n') ->
  wf_yaml_file f.
Proof. destruct opened, initialized; try done. apply parsed_wf. Qed.

(** ** The commands *)

(** C18: [bpfima_tool policy-update] is an update of the policy map. For every
    properly nested policy file and whatever libbpf and the file system
    answer, the command returns an exit code, keeps the module consistent and
    closes every descriptor of the map and of the securityfs files it opened.
    With exit code 0 the snapshot built from the file is the policy of the
    namespace, or of the root when none is given, and the policies of all other
    namespaces are as before, a store that was not bound having started from the
    default root policy; with any other code the active policies are unchanged. *)
Theorem cmd_policy_update_spec {Lib : YamlLib} opened initialized fuel before body id pcr vs t :
  sys_inv pcr vs (t_kernel t) -> fds_ok (t_kernel t) ->
  produces 0 (document body) -> nested [] body -> (length (document body) <= fuel)%nat ->
  twp (cmd_policy_update opened initialized fuel before id) (fun rc t' =>
    owes t [] t' /\
    ((rc = Some 1 /\ kept pcr vs (active_policies (t_kernel t)) (t_kernel t')) \/
     (rc = Some 0 /\ policy_map (k_policy (t_kernel t')) <> None /\
      exists f n sn,
        parse_yaml_policy opened initialized fuel MAX_IGNORE_PATTERNS MAX_PATH_FILTERS MAX_HOOK_CONFIGS before 0%nat =
          Some (0, f, n) /\
        build_policy_from_yaml (yf_policy f) (yf_cgroups f) (Z.of_nat MAX_IGNORE_PATTERNS) (yf_paths f)
          (Z.of_nat MAX_PATH_FILTERS) (yf_hooks f) (Z.of_nat MAX_HOOK_CONFIGS) = inr sn /\
        kept pcr vs (<[key_of id := sn]> (active_policies (t_kernel t))) (t_kernel t')))) t.
Proof.
  intros Hi Hfd Hpr Hn Hfu. unfold cmd_policy_update.
  assert (Hsame : kept pcr vs (active_policies (t_kernel t)) (t_kernel t))
    by (rewrite <- (set_next_eta (t_kernel t)) at 2; by apply kept_same).
  destruct (file_loop_ends opened initialized fuel MAX_IGNORE_PATTERNS MAX_PATH_FILTERS MAX_HOOK_CONFIGS before body Hpr Hn Hfu)
    as (rc & f & n & Hrun). rewrite Hrun. unfold truth at 1.
  destruct (Z.eqb_spec rc 0) as [->|]; cbn [negb]; [|apply twp_ret; split; [apply owes_start|by left]].
  destruct (build_policy_from_yaml _ _ _ _ _ _ _) as [|sn] eqn:Eb; [apply twp_ret; split; [apply owes_start|by left]|].
  assert (Hwf : wf_yaml_file f) by (eapply parsed_wf_any; exact Hrun).
  destruct (built_canonical f sn Hwf Eb) as [Hc Hw].
  pose proof (twp_ensure_apply pcr vs id sn t Hi Hfd Hc Hw) as Ht. unfold twp, tbind in Ht |- *.
  destruct (ensure_policy_map t) as [[rc t1]|]; [|done]. destruct (truth rc).
  { destruct Ht as [Ho [[_ Hk]|[? _]]]; [split; [done|by left]|done]. }
  destruct (apply_policy_snapshot id sn t1) as [[rc1 t2]|]; [|done]. cbn in Ht |- *. destruct Ht as [Ho Hcase]. split; [done|].
  destruct Hcase as [[-> Hk]|(-> & Hb & Hk)]; [by left|right; split_and!; [done|done|by exists f, n, sn]].
Qed.

(** [bpfima_tool policy-init] resets the root policy to the default. *)
Lemma twp_cmd_policy_init pcr vs t :
  sys_inv pcr vs (t_kernel t) -> fds_ok (t_kernel t) ->
  twp cmd_policy_init (fun rc t' => owes t [] t' /\
    ((rc = 1 /\ kept pcr vs (active_policies (t_kernel t)) (t_kernel t')) \/
     (rc = 0 /\ policy_map (k_policy (t_kernel t')) <> None /\
      kept pcr vs (<[[] := bpfima_init_default_snapshot]> (active_policies (t_kernel t))) (t_kernel t')))) t.
Proof.
  intros Hi Hfd. apply (twp_ensure_apply pcr vs None bpfima_init_default_snapshot t Hi Hfd);
    [apply default_snapshot_canonical|apply default_snapshot_wf].
Qed.
End ToolSpec.

(** ** A concrete run *)

(** The policy map is pinned and has descriptor 3. *)
#[export] Instance sample_tool : ToolEnv := {
  env_obj_get := fun _ => 3;
  env_map_create := fun _ => 3;
  env_open := fun _ => 4;
  env_map_freeze := fun _ => 0;
  env_obj_pin := fun _ => 0;
  env_map_info := fun _ =>
    (0, BpfMapInfo BPF_MAP_TYPE_ARRAY 4 SIZEOF_POLICY_STATE (Z.of_nat BPFIMA_POLICY_MAP_ENTRIES) BPFIMA_POLICY_MAP_FLAGS 7);
}.

Lemma sample_fds_ok : fds_ok (E := tpm_env) sample_state.
Proof.
  intros fd. unfold fd_ok. cbn. destruct (fd =? 3); [|done]. exists sample_map. split; reflexivity.
Qed.

Definition sample_update : T (option Z) :=
  cmd_policy_update (E := tpm_env) (Lib := list_lib sample_document) true true 1000 sample_file None.

Lemma sample_update_ends : exists t, sample_update (fresh sample_state) = Some (Some 0, t).
Proof.
  assert (H : fst <$> sample_update (fresh sample_state) = Some (Some 0)) by by vm_compute.
  apply fmap_Some in H as ([rc t] & H & ->). by exists t.
Qed.

Lemma cmd_policy_update_spec_witness :
  exists t sn, sample_update (fresh sample_state) = Some (Some 0, t) /\ owes (fresh sample_state) [] t /\
    kept (E := tpm_env) (zeros MERKLE_HASH_SIZE) [] (<[[] := sn]> (active_policies sample_state)) (t_kernel t).
Proof.
  destruct sample_update_ends as [t Ht].
  assert (Hn : nested [] (file_body sample_file)) by (by vm_compute).
  assert (Hl : (length (document (file_body sample_file)) <= 1000)%nat) by (vm_compute; lia).
  pose proof (twp_run _ _ _ _ _ Ht (cmd_policy_update_spec (E := tpm_env) (Lib := list_lib sample_document) true true 1000 sample_file
    (file_body sample_file) None (zeros MERKLE_HASH_SIZE) [] (fresh sample_state) sample_sys_inv sample_fds_ok
    (list_lib_produces sample_document) Hn Hl)) as [Ho Hw].
  destruct Hw as [[Hx _]|(_ & _ & f & n & sn & _ & _ & Hk)]; [discriminate Hx|].
  exists t, sn. exact (conj Ht (conj Ho Hk)).
Defined.
