(* ===== verification/ToolLoad.v ===== *)
(** * Loading and unloading the hooks

    [load] and [unload] of [src/tools/bpfima_tool.c] with everything they call.
    The answers of libbpf and of the system are parameters, numbered like the
    answers of the kernel; a negative answer is minus [errno].  Messages have no
    model, and [daemonize] replaces the three standard descriptors, which the
    tool did not open. *)

From S2P Require Import Prelude CString Types Kernel Pattern Snapshot Wire KfuncBuffer HashUtils Tpm PolicyMap Merkle PolicyNamespace PolicyManager Container Kfuncs Lifecycle PolicyFiles LogFiles YamlParser ToolState Tool.

Definition BPF_PROG_TYPE_LSM : Z := 29.

(** [st_mode], [st_uid] and [st_nlink]. *)
Record stat := Stat { st_mode : Z; st_uid : Z; st_nlink : Z }.

Record dirent := Dirent { d_name : bytes; d_is_dir : bool }.

Class LoadEnv := {
  (** The answer of a call with an integer result. *)
  env_rc : nat -> Z;
  (** [bpf_object__open_file]. *)
  env_object : nat -> option bpf_object;
  (** [fstat], the effective user and the text of the PID file. *)
  env_fstat : nat -> option stat;
  env_euid : Z;
  env_pid_text : nat -> bytes;
  (** The process that runs the tool. *)
  env_getpid : Z;
  (** The answers of [read] until it returns 0 or an error. *)
  env_chunks : nat -> list bytes;
  (** The entries of a directory, and minus [errno] when reading ended early. *)
  env_readdir : nat -> list dirent * Z;
  (** [BPFIMA_PERSIST_STATE] is set. *)
  env_persist : bool;
  (** Turns of the daemon before a signal arrives. *)
  env_rounds : nat;
}.

Definition NUMBER_HOOKS : nat := 8.
Definition BPF_MAP_DIR : bytes := lit "/sys/fs/bpf".
Definition BPF_PIN_DIR : bytes := lit "/sys/fs/bpf/bpfima".
Definition PID_FILE : bytes := lit "/var/run/bpfima.pid".
Definition POLICY_MAP_NAME : bytes := lit "bpfima_policy_map".

(** [snprintf(path, size, "%s/%s", dir, name)]. *)
Definition path_in (size : nat) (dir name : bytes) : bytes := take (size - 1) (dir ++ lit "/" ++ cstr name).

Definition ESRCH : Z := 3.
Definition ELOOP : Z := 40.
Definition INT_MAX : Z := 2147483647.
Definition SIGKILL : Z := 9.
Definition SIGTERM : Z := 15.

(** ** Text *)

(** One line, or [n] bytes, and what follows. *)
Fixpoint fgets (n : nat) (text : bytes) : bytes * bytes :=
  match n, text with
  | O, _ => ([], text)
  | S _, [] => ([], [])
  | S n, b :: text' =>
      if Byte.eqb b x0a then ([b], text') else
      let '(line, rest) := fgets n text' in (b :: line, rest)
  end.

(** [strtol(text, &end, 10)]: the result, whether [errno] is set, and the text at
    [end]. *)
Definition strtol (text : bytes) : Z * bool * bytes :=
  let text := cstr text in
  let s := skip_spaces text in
  let '(negative, s) := match s with x2d :: s' => (true, s') | x2b :: s' => (false, s') | _ => (false, s) end in
  let '(number, seen, rest) := parse_integer 10 0 s false in
  if negb seen then (0, false, text) else
  let value := if negative then - number else number in
  if value >? 2 ^ 63 - 1 then (2 ^ 63 - 1, true, rest) else
  if value <? - 2 ^ 63 then (- 2 ^ 63, true, rest) else (value, false, rest).

(** The PID in the first 63 bytes of the file, or -1. *)
Definition parse_pid (text : bytes) : Z :=
  let '(line, _) := fgets 63 text in
  if bool_decide (line = []) then - 1 else
  let '(pid, errno, rest) := strtol line in
  let rest := if Byte.eqb (char_at rest 0) x0a then tail rest else rest in
  if errno || negb (Byte.eqb (char_at rest 0) NUL) || (pid <=? 1) || (pid >? INT_MAX) then - 1 else pid.

(** [sscanf(line, "policy_map_id=%u", &id) == 1]. *)
Definition scan_map_id (line : bytes) : option Z :=
  let key := lit "policy_map_id=" in
  if bool_decide (take (length key) (cstr line) = key) then
    let value := drop (length key) (cstr line) in
    let '(number, _, rest) := strtoul value 10 in
    if bool_decide (rest = value) then None else Some (to_u32 number)
  else None.

(** The first match in the lines of the file, 0 without one. *)
Fixpoint scan_status (fuel : nat) (text : bytes) : Z :=
  match fuel with
  | O => 0
  | S fuel =>
      if bool_decide (text = []) then 0 else
      let '(line, rest) := fgets 255 text in
      match scan_map_id line with
      | Some id => id
      | None => scan_status fuel rest
      end
  end.

Section ToolLoad.
Context {E : KernelEnv} {U : ToolEnv} {V : LoadEnv}.

(** The answer of a call. *)
Definition answer : T Z := let$ n := lift call in tret (env_rc n).

(** [bpf_obj_get] of a pin, and [open]. *)
Definition get_fd : T Z := opened answer.

(** [unlink]. *)
Definition unlink (path : bytes) : T Z := emit (Unlinked path) $; answer.

(** ** The PID file *)

(** The file type is regular. *)
Definition S_ISREG (mode : Z) : bool := Z.land mode 0xf000 =? 0x8000.

(** The result and [errno]. *)
Definition read_pid_file : T (Z * Z) :=
  let$ fd := get_fd in
  if fd <? 0 then tret (- 1, - fd) else
  let$ n := lift call in
  match env_fstat n with
  | Some st =>
      if negb (S_ISREG (st_mode st)) || negb (st_uid st =? env_euid) || truth (Z.land (st_mode st) 0x12) ||
        negb (st_nlink st =? 1)
      then close_fd fd $; tret (- 1, EPERM) else
      let$ fp := answer in
      if fp <? 0 then close_fd fd $; tret (- 1, - fp) else
      let$ n := lift call in
      let pid := parse_pid (env_pid_text n) in
      close_fd fd $;
      tret (pid, if pid <? 0 then EINVAL else 0)
  | None => close_fd fd $; tret (- 1, EPERM)
  end.

Definition write_pid_file : T Z :=
  let$ fd := get_fd in
  if fd <? 0 then tret (- 1) else
  let$ n := lift call in
  match env_fstat n with
  | Some st =>
      if negb (S_ISREG (st_mode st)) || negb (st_uid st =? env_euid) || negb (st_nlink st =? 1)
      then close_fd fd $; tret (- 1) else
      let$ rc := answer in
      if truth rc then close_fd fd $; tret (- 1) else
      let$ rc := answer in
      if truth rc then close_fd fd $; tret (- 1) else
      let$ fp := answer in
      if fp <? 0 then close_fd fd $; tret (- 1) else
      emit (PidWritten (decimal_int env_getpid ++ [x0a])) $;
      let$ printed := answer in
      let$ closed := answer in
      close_fd fd $;
      tret (if (printed <? 0) || truth closed then - 1 else 0)
  | None => close_fd fd $; tret (- 1)
  end.

Definition remove_pid_file : T unit := let$ _ := unlink PID_FILE in tret tt.

Definition is_process_running (pid : Z) : T bool :=
  let$ rc := answer in
  emit (Alive pid (rc =? 0)) $; tret (rc =? 0).

(** ** Monitored files *)

(** The entry of a source, found or new, by its position. *)
Fixpoint find_monitored (src_path : bytes) (l : list monitored_file) (i : nat) : option nat :=
  match l with
  | [] => None
  | mf :: l => if strcmp (mf_src_path mf) src_path =? 0 then Some i else find_monitored src_path l (S i)
  end.

Definition set_active (b : bool) (mf : monitored_file) : monitored_file :=
  MonitoredFile (mf_src_path mf) (mf_dst_path mf) (mf_fd mf) b.
Definition set_fd (fd : Z) (mf : monitored_file) : monitored_file :=
  MonitoredFile (mf_src_path mf) (mf_dst_path mf) fd (mf_active mf).

Definition get_monitored_file (src_path dst_path : bytes) : T (option nat) :=
  let$ files := tgets g_monitored_files in
  match find_monitored src_path files 0 with
  | Some i => set_monitored (alter (set_active true) i files) $; tret (Some i)
  | None =>
      let$ rc := answer in
      if rc <? 0 then tret None else
      set_monitored (MonitoredFile (take 511 (cstr src_path)) (take 511 (cstr dst_path)) (- 1) true :: files) $;
      tret (Some 0%nat)
  end.

Definition append_chunk (dst_path chunk : bytes) : T unit :=
  let$ dst := get_fd in
  if dst <? 0 then tret tt else emit (Appended dst_path chunk) $; close_fd dst.

Definition append_new_content (i : nat) : T unit :=
  let$ files := tgets g_monitored_files in
  let$ mf := tderef (files !! i) in
  let$ fd := (if mf_fd mf <? 0 then get_fd else tret (mf_fd mf)) in
  set_monitored (alter (set_fd (if fd <? 0 then - 1 else fd)) i files) $;
  if fd <? 0 then tret tt else
  let$ n := lift call in
  for_all (append_chunk (mf_dst_path mf)) (env_chunks n).

Definition monitor (src_path dst_path : bytes) : T unit :=
  let$ mf := get_monitored_file src_path dst_path in
  match mf with
  | Some i => append_new_content i
  | None => tret tt
  end.

(** [mkdir], 0 when it is there. *)
Definition make_dir (path : bytes) : T bool :=
  emit (MadeDir path) $;
  let$ rc := answer in
  tret ((rc =? 0) || (rc =? - EEXIST)).

Definition make_missing_dir (path : bytes) : T unit :=
  let$ rc := answer in
  if rc <? 0 then let$ _ := make_dir path in tret tt else tret tt.

Definition SECURITYFS : bytes := lit "/sys/kernel/security/bpfima".

Definition monitor_namespace (entry : dirent) : T unit :=
  if d_is_dir entry && negb (strcmp (d_name entry) (lit ".") =? 0) && negb (strcmp (d_name entry) (lit "..") =? 0) then
    let dst_dir := take 511 (lit "build/namespaces/" ++ cstr (d_name entry)) in
    let src (file : bytes) := take 1023 (SECURITYFS ++ lit "/namespaces/" ++ cstr (d_name entry) ++ lit "/" ++ file) in
    let dst (file : bytes) := take 1023 (dst_dir ++ lit "/" ++ file) in
    make_missing_dir dst_dir $;
    monitor (src (lit "measurements")) (dst (lit "measurements")) $;
    monitor (src (lit "policy")) (dst (lit "policy")) $;
    monitor (src (lit "policy_changes")) (dst (lit "policy_changes"))
  else tret tt.

(** The sweep: inactive entries are closed and dropped. *)
Fixpoint sweep (l : list monitored_file) : T (list monitored_file) :=
  match l with
  | [] => tret []
  | mf :: l =>
      if mf_active mf then let$ l := sweep l in tret (mf :: l) else
      (if mf_fd mf <? 0 then tret tt else close_fd (mf_fd mf)) $;
      sweep l
  end.

Definition prune_monitored : T unit :=
  let$ files := tgets g_monitored_files in
  let$ files := sweep files in
  set_monitored files.

Definition mark_inactive : T unit :=
  let$ files := tgets g_monitored_files in
  set_monitored (set_active false <$> files).

Definition dump_securityfs_to_files : T unit :=
  mark_inactive $;
  let$ ok := make_dir (lit "build") in
  if negb ok then tret tt else
  let$ ok := make_dir (lit "build/namespaces") in
  if negb ok then tret tt else
  make_missing_dir (lit "build/namespaces/root") $;
  monitor (SECURITYFS ++ lit "/policy") (lit "build/namespaces/root/policy") $;
  monitor (SECURITYFS ++ lit "/policy_changes") (lit "build/namespaces/root/policy_changes") $;
  monitor (SECURITYFS ++ lit "/merkle_root_history") (lit "build/namespaces/root/merkle_root_history") $;
  let$ dir := get_fd in
  (if dir <? 0 then tret tt else
   let$ n := lift call in
   for_all monitor_namespace (fst (env_readdir n)) $;
   close_fd dir) $;
  prune_monitored.

(** ** Releasing *)

Definition destroy_links (n : nat) : T unit :=
  for_all (fun i =>
    let$ links := tgets g_links in
    let$ slot := tderef (links !! i) in
    match slot with
    | Some link =>
        emit (Released (RLink link)) $;
        let$ count := tgets g_link_count in
        set_links (<[i := None]> links) count
    | None => tret tt
    end) (seq 0 n).

Definition close_objects (n : nat) : T unit :=
  for_all (fun i =>
    let$ objs := tgets g_objs in
    let$ slot := tderef (objs !! i) in
    match slot with
    | Some (obj, _) =>
        emit (Released (RObject obj)) $;
        let$ count := tgets g_obj_count in
        set_objs (<[i := None]> objs) count
    | None => tret tt
    end) (seq 0 n).

Definition destroy_runtime_state : T unit :=
  let$ n := tgets g_link_count in
  destroy_links n $;
  let$ links := tgets g_links in
  set_links links 0 $;
  let$ n := tgets g_obj_count in
  close_objects n $;
  let$ objs := tgets g_objs in
  set_objs objs 0.

(** Runs [body] on every object that the tool has opened. *)
Definition for_each_loaded (body : bpf_object -> T unit) : T unit :=
  let$ n := tgets g_obj_count in
  for_all (fun i =>
    let$ objs := tgets g_objs in
    let$ slot := tderef (objs !! i) in
    match slot with
    | Some (_, obj) => body obj
    | None => tret tt
    end) (seq 0 n).

Definition is_policy_map (map : map_desc) : bool := is_policy_map_info (md_info map).

Definition map_pin_path (map : map_desc) : bytes := path_in 256 (lit "/sys/fs/bpf") (md_name map).
Definition link_pin_path (prog : prog_desc) : bytes := path_in 256 BPF_PIN_DIR (pd_name prog).

Definition unpin_maps_from_loaded_objects : T unit :=
  for_each_loaded (fun obj =>
    for_all (fun map =>
      if is_policy_map map then tret tt else
      emit (MapUnpinned (map_pin_path map)) $;
      let$ _ := answer in tret tt) (ob_maps obj)).

Definition unpin_links_from_loaded_objects : T unit :=
  for_each_loaded (fun obj =>
    for_all (fun prog =>
      let$ rc := answer in
      if rc =? 0 then let$ _ := unlink (link_pin_path prog) in tret tt else tret tt) (ob_progs obj)).

(** ** Loading one object *)

(** Reuses the pinned maps; [Some] is the result of an early return. *)
Definition reuse_map (map : map_desc) : T (option Z) :=
  if md_internal map then tret None else
  if strcmp (md_name map) POLICY_MAP_NAME =? 0 then
    if negb (is_policy_map map) then tret (Some 1) else
    let$ fd := get_fd in
    if fd <? 0 then tret (Some 1) else
    emit (MapReused (md_name map) fd) $;
    let$ result := answer in
    close_fd fd $;
    tret (if truth result then Some 1 else None)
  else
    let path := map_pin_path map in
    let$ exists_ := answer in
    if negb (exists_ =? 0) then tret None else
    let$ fd := get_fd in
    if fd <? 0 then let$ _ := unlink path in tret None else
    emit (MapReused (md_name map) fd) $;
    let$ err := answer in
    if truth err then close_fd fd $; let$ _ := unlink path in tret None else
    close_fd fd $; tret None.

Definition pin_map (map : map_desc) : T unit :=
  if md_internal map || is_policy_map map then tret tt else
  let$ exists_ := answer in
  if exists_ =? 0 then tret tt else
  emit (MapPinned (map_pin_path map)) $;
  let$ _ := answer in tret tt.

(** Swaps the program of a pinned link; [true] on success.  A pin that cannot be
    updated is removed. *)
Definition update_link (prog : prog_desc) : T bool :=
  let path := link_pin_path prog in
  let$ exists_ := answer in
  if negb (exists_ =? 0) then tret false else
  let$ fd := get_fd in
  let$ updated :=
    (if fd <? 0 then tret false else
     emit (LinkUpdated path) $;
     let$ err := answer in
     close_fd fd $;
     tret (err =? 0)) in
  if updated then tret true else
  let$ _ := unlink path in tret false.

Definition attach_prog (prog : prog_desc) (attached_in_obj : nat) : T (nat + Z) :=
  let$ updated := update_link prog in
  if updated then tret (inl (S attached_in_obj)) else
  let$ n := lift call in
  if env_rc n <? 0 then tret (inr 1) else
  emit (Acquired (RLink n)) $;
  let$ count := tgets g_link_count in
  if (MAX_ATTACHED_LINKS <=? count)%nat then emit (Released (RLink n)) $; tret (inr 1) else
  emit (LinkPinned n (link_pin_path prog)) $;
  let$ _ := answer in
  let$ links := tgets g_links in
  let$ _ := tderef (links !! count) in
  set_links (<[count := Some n]> links) (S count) $;
  tret (inl (S attached_in_obj)).

(** What follows once the object is open. *)
Definition attach_object (n : nat) (obj : bpf_object) : T Z :=
  for_all (fun map => emit (PinPathCleared n (md_name map))) (ob_maps obj) $;
  for_all (fun prog =>
    if pd_type prog =? BPF_PROG_TYPE_LSM then emit (MarkedSleepable n (pd_name prog)) else tret tt) (ob_progs obj) $;
  let$ r := for_each (fun map (_ : unit) =>
    let$ r := reuse_map map in
    tret (match r with Some rc => inr rc | None => inl tt end)) (ob_maps obj) tt in
  match r with
  | inr rc => tret rc
  | inl _ =>
      let$ err := answer in
      if truth err then tret 1 else
      for_all pin_map (ob_maps obj) $;
      let$ r := for_each attach_prog (ob_progs obj) 0%nat in
      tret (match r with
        | inr rc => rc
        | inl attached_in_obj => if (attached_in_obj =? 0)%nat then 1 else 0
        end)
  end.

Definition load_and_attach_one_object (filename : bytes) : T Z :=
  let$ count := tgets g_obj_count in
  if (MAX_LOADED_OBJECTS <=? count)%nat then tret 1 else
  let$ rc := answer in
  if negb (rc =? 0) then tret 1 else
  let$ n := lift call in
  match env_object n with
  | None => tret 1
  | Some obj =>
      emit (Acquired (RObject n)) $;
      let$ objs := tgets g_objs in
      let$ _ := tderef (objs !! count) in
      set_objs (<[count := Some (n, obj)]> objs) (S count) $;
      attach_object n obj
  end.

(** ** The commands *)

Definition ensure_single_instance : T Z :=
  let$ (pid, errno) := read_pid_file in
  if (pid <? 0) && ((errno =? EPERM) || (errno =? ELOOP)) then tret (- 1) else
  if pid >? 0 then
    let$ running := is_process_running pid in
    tret (if running then - 1 else 0)
  else tret 0.

Definition load_all_bpf_objects (filenames : list bytes) : T Z :=
  let$ ok := make_dir BPF_PIN_DIR in
  if negb ok then tret (- 1) else
  let$ r := for_each (fun filename (_ : unit) =>
    let$ rc := load_and_attach_one_object filename in
    tret (if rc =? 0 then inl tt else inr (- 1))) filenames tt in
  tret (match r with inl _ => 0 | inr rc => rc end).

(** The process that survives: two forks and a session. *)
Definition daemonize : T Z :=
  let$ pid := answer in
  if pid <? 0 then tret (- 1) else
  let$ sid := answer in
  if sid <? 0 then tret (- 1) else
  let$ pid := answer in
  tret (if pid <? 0 then - 1 else 0).

Definition run_daemon_loop : T Z :=
  let$ rc := daemonize in
  if rc <? 0 then tret (- 1) else
  let$ rc := write_pid_file in
  if truth rc then tret (- 1) else
  for_all (fun _ => dump_securityfs_to_files) (seq 0 env_rounds) $;
  dump_securityfs_to_files $;
  tret 0.

(** What follows once the policy map is bound. *)
Definition load_and_run (filenames : list bytes) (daemon_mode : bool) : T Z :=
  let$ rc := load_all_bpf_objects filenames in
  if rc <? 0 then tret 1 else
  if daemon_mode then
    let$ rc := run_daemon_loop in
    tret (if rc <? 0 then 1 else 0)
  else tret 0.

(** The end of [cmd_load]. *)
Definition load_cleanup (err : Z) : T Z :=
  (if env_persist && negb (truth err) then tret tt else
   unpin_maps_from_loaded_objects $; unpin_links_from_loaded_objects) $;
  destroy_runtime_state $;
  remove_pid_file $;
  tret err.

(** [setrlimit] of the locked memory. *)
Definition set_rlimit : T Z := let$ rc := answer in tret (if truth rc then - 1 else 0).

Definition cmd_load (filenames : list bytes) (daemon_mode : bool) : T Z :=
  let$ rc := ensure_single_instance in
  if rc <? 0 then tret 1 else
  let$ rc := set_rlimit in
  if rc <? 0 then tret 1 else
  let$ rc := ensure_policy_map in
  let$ err := (if rc <? 0 then tret 1 else load_and_run filenames daemon_mode) in
  load_cleanup err.

(** ** Unloading *)

Definition remove_pin (path : bytes) : T Z :=
  let$ rc := unlink path in
  tret (if (rc =? 0) || (rc =? - ENOENT) then 0 else 1).

(** 1 for a failure, which is remembered. *)
Definition or_failed (ret : Z) (failed : bool) : Z := if failed then 1 else ret.

Definition unpin_entry (entry : dirent) (ret : Z) : T (Z + Z) :=
  if (strcmp (d_name entry) (lit ".") =? 0) || (strcmp (d_name entry) (lit "..") =? 0) then tret (inl ret) else
  let$ rc := unlink (BPF_PIN_DIR ++ lit "/" ++ cstr (d_name entry)) in
  tret (inl (or_failed ret (truth rc && negb (rc =? - ENOENT)))).

Definition cleanup_pinned_links : T Z :=
  let$ fd := get_fd in
  if fd <? 0 then tret (if fd =? - ENOENT then 0 else 1) else
  let$ dir := answer in
  if dir <? 0 then close_fd fd $; tret 1 else
  let$ n := lift call in
  let '(entries, errno) := env_readdir n in
  let$ r := for_each unpin_entry entries 0 in
  let ret := match r with inl ret => ret | inr ret => ret end in
  let ret := or_failed ret (truth errno) in
  close_fd fd $;
  let$ closed := answer in
  let ret := or_failed ret (truth closed) in
  emit (RemovedDir BPF_PIN_DIR) $;
  let$ removed := answer in
  tret (or_failed ret (truth removed && negb (removed =? - ENOENT))).

Definition preserve_policy_pin : T bool :=
  let$ fd := bpf_obj_get in
  if fd <? 0 then tret false else
  let$ (rc, info) := bpf_map_get_info_by_fd in
  close_fd fd $;
  if truth rc || negb (mi_value_size info =? SIZEOF_POLICY_STATE) || negb (mi_map_flags info =? BPFIMA_POLICY_MAP_FLAGS)
  then tret false else
  let$ file := open_file in
  if file <? 0 then tret false else
  let$ text := lift status_show in
  close_fd file $;
  let bound_id := scan_status (length text) text in
  tret (truth bound_id && (bound_id =? mi_id info)).

Definition pinned_map_names : list bytes :=
  [lit "bpfima_cgroup_patterns_map"; lit "bpfima_path_patterns_map"; lit "bpfima_hook_config_map";
   lit "bpf_timing_stats"; lit "bpf_timing_stats_bprm"; lit "bpf_timing_stats_socket"; lit "bpf_timing_stats_count";
   lit "scratch_buf_map"].

Definition policy_pin : bytes := path_in 512 BPF_MAP_DIR POLICY_MAP_NAME.

Definition cleanup_pinned_maps : T Z :=
  let$ keep := preserve_policy_pin in
  let$ ret := (if keep then tret 0 else remove_pin policy_pin) in
  let$ r := for_each (fun name ret =>
    let$ rc := remove_pin (path_in 512 BPF_MAP_DIR name) in
    tret (inl (Z.lor ret rc) : Z + Z)) pinned_map_names ret in
  tret (match r with inl ret => ret | inr ret => ret end).

(** At most [n] checks of the process. *)
Fixpoint wait_exit (n : nat) (pid : Z) : T unit :=
  match n with
  | O => tret tt
  | S n =>
      let$ running := is_process_running pid in
      if running then wait_exit n pid else tret tt
  end.

(** [kill]: [true] when it failed and the process exists. *)
Definition send_signal (pid signal : Z) : T bool :=
  emit (Signalled pid signal) $;
  let$ rc := answer in
  tret ((rc <? 0) && negb (rc =? - ESRCH)).

(** [true] when the daemon is gone. *)
Definition stop_daemon (pid : Z) : T bool :=
  let$ failed := send_signal pid SIGTERM in
  if failed then tret false else
  wait_exit 11 pid $;
  let$ running := is_process_running pid in
  if negb running then tret true else
  let$ failed := send_signal pid SIGKILL in
  if failed then tret false else
  wait_exit 30 pid $;
  let$ running := is_process_running pid in
  tret (negb running).

Definition cmd_unload : T Z :=
  let$ (pid, errno) := read_pid_file in
  if (pid <? 0) && ((errno =? EPERM) || (errno =? ELOOP)) then tret 1 else
  let$ running := (if pid <? 0 then tret false else is_process_running pid) in
  let$ gone := (if running then stop_daemon pid else tret true) in
  if negb gone then tret 1 else
  (if running then dump_securityfs_to_files else tret tt) $;
  let$ links := cleanup_pinned_links in
  let$ maps := cleanup_pinned_maps in
  let$ pid_file := remove_pin PID_FILE in
  tret (Z.lor (Z.lor links maps) pid_file).

(** Prints what it finds. *)
Definition cmd_status : T Z :=
  let$ (pid, _) := read_pid_file in
  (if pid >? 0 then let$ _ := is_process_running pid in tret tt else tret tt) $;
  let$ fd := get_fd in
  (if fd <? 0 then tret tt else close_fd fd) $;
  let$ _ := answer in
  let$ fp := get_fd in
  (if fp <? 0 then tret tt else close_fd fp) $;
  tret 0.

(** ** The command line *)

Inductive command :=
| Load (files : list bytes) (daemon : bool)
| Unload
| PolicyInit
| PolicyUpdate (file : bytes) (namespace : option bytes)
| Status
| Help
| Refused.

Definition is_word (word : bytes) (arg : bytes) : bool := strcmp arg word =? 0.

(** The object files of [load], at most [NUMBER_HOOKS]. *)
Fixpoint load_arguments (args files : list bytes) (daemon : bool) : option (list bytes * bool) :=
  match args with
  | [] => Some (files, daemon)
  | arg :: args =>
      if is_word (lit "-d") arg then load_arguments args files true else
      if (NUMBER_HOOKS <=? length files)%nat then None else load_arguments args (files ++ [arg]) daemon
  end.

Definition parse_command (euid : Z) (argv : list bytes) : command :=
  match argv with
  | _ :: cmd :: args =>
      let help := is_word (lit "help") cmd || is_word (lit "--help") cmd || is_word (lit "-h") cmd in
      if negb help && negb (euid =? 0) then Refused else
      if is_word (lit "load") cmd then
        match args with
        | [] => Refused
        | _ =>
            match load_arguments args [] false with
            | Some ([], _) => Refused
            | Some (files, daemon) => Load files daemon
            | None => Refused
            end
        end
      else if is_word (lit "unload") cmd then Unload
      else if is_word (lit "policy-init") cmd then PolicyInit
      else if is_word (lit "policy-update") cmd then
        match args with
        | [] => Refused
        | file :: rest => PolicyUpdate file (head rest)
        end
      else if is_word (lit "status") cmd then Status
      else if help then Help else Refused
  | _ => Refused
  end.

(** The exit code; [None] when the parser does not return within the fuel. *)
Definition main {Lib : YamlLib} (opened initialized : bool) (fuel : nat) (before : yaml_file) (argv : list bytes)
    : T (option Z) :=
  match parse_command env_euid argv with
  | Load files daemon => let$ rc := cmd_load files daemon in tret (Some rc)
  | Unload => let$ rc := cmd_unload in tret (Some rc)
  | PolicyInit => let$ rc := cmd_policy_init in tret (Some rc)
  | PolicyUpdate _ namespace => cmd_policy_update opened initialized fuel before namespace
  | Status => let$ rc := cmd_status in tret (Some rc)
  | Help => tret (Some 0)
  | Refused => tret (Some 1)
  end.
End ToolLoad.
