(* ===== verification/ToolLoadSpec.v ===== *)
(** * Loading and unloading release what they take

    A Hoare logic for the tool: [triple] says that a computation keeps the
    invariant of the tool and changes the resources it owes from one list to
    another.  With it: loading never writes outside its arrays, releases every
    object, link and descriptor, attaches only with a bound policy store, and
    leaves the pin of the policy map alone when every object has its layout. *)

From S2P Require Import Prelude CString Types Kernel Sample Pattern Snapshot Wire KfuncBuffer HashUtils Tpm PolicyMap Merkle MerkleSpec MerkleInv PolicyNamespace PolicyManager PolicySpec PolicyInv PolicyLog PolicyBind PolicyAudit Container ContainerSpec ContainerRules ContainerInv Kfuncs KfuncsInv KfuncsSpec Lifecycle LifecycleSpec PolicyFiles PolicyFilesSpec LogFiles Frame Requests System YamlParser YamlParserSpec YamlRoundtrip ToolState ToolLogic Tool ToolSpec ToolLoad.

(** ** Events *)

(** Puts a program in the path of an operation. *)
Definition attaches (e : tool_event) : Prop :=
  match e with Acquired (RLink _) | LinkUpdated _ => True | _ => False end.

(** Removes the pin at [path]. *)
Definition unpins (path : bytes) (e : tool_event) : Prop := e = Unlinked path \/ e = MapUnpinned path.

Definition plain_event (e : tool_event) : Prop := match e with Acquired _ | Released _ | LinkUpdated _ => False | _ => True end.

(** ** What the tool holds *)

Definition open_fds (l : list monitored_file) : list resource :=
  omap (fun mf => if mf_fd mf <? 0 then None else Some (RFd (mf_fd mf))) l.

Definition holdings (t : tool_state) : list resource :=
  (RObject ∘ fst <$> omap id (g_objs t)) ++ (RLink <$> omap id (g_links t)) ++ open_fds (g_monitored_files t).

(** An array of 8 slots of which the first [n] are in use. *)
Record slots {A} (l : list (option A)) (n : nat) : Prop := Slots {
  sl_length : length l = 8%nat;
  sl_count : (n <= 8)%nat;
  sl_used : forall i a, l !! i = Some (Some a) -> (i < n)%nat;
}.

Lemma omap_fill {A} (l : list (option A)) i a :
  l !! i = Some None -> omap id (<[i := Some a]> l) ≡ₚ a :: omap id l.
Proof.
  revert i. induction l as [|o l IH]; intros [|i] Hi; try done.
  - by injection Hi as ->.
  - cbn in *. destruct o as [b|]; cbn; rewrite (IH i Hi); [apply Permutation_swap|done].
Qed.

Lemma omap_clear {A} (l : list (option A)) i a :
  l !! i = Some (Some a) -> omap id l ≡ₚ a :: omap id (<[i := None]> l).
Proof.
  revert i. induction l as [|o l IH]; intros [|i] Hi; try done.
  - by injection Hi as ->.
  - cbn in *. destruct o as [b|]; cbn; rewrite (IH i Hi); [apply Permutation_swap|done].
Qed.

Lemma slots_next {A} (l : list (option A)) n : slots l n -> (n < 8)%nat -> l !! n = Some None.
Proof.
  intros [Hl _ Hu] Hn. destruct (l !! n) as [[a|]|] eqn:E; [|done|].
  - apply Hu in E. lia.
  - apply lookup_ge_None in E. lia.
Qed.

Lemma slots_fill {A} (l : list (option A)) n a : slots l n -> (n < 8)%nat -> slots (<[n := Some a]> l) (S n).
Proof.
  intros [Hl _ Hu] Hn. split; [by rewrite length_insert|lia|]. intros i b Hi.
  destruct (decide (i = n)) as [->|Hne]; [lia|]. rewrite list_lookup_insert_ne in Hi by done. apply Hu in Hi. lia.
Qed.

Lemma slots_clear {A} (l : list (option A)) n i : slots l n -> slots (<[i := None]> l) n.
Proof.
  intros [Hl Hc Hu]. split; [by rewrite length_insert|done|]. intros j b Hj.
  destruct (decide (i = j)) as [->|Hne]; [|rewrite list_lookup_insert_ne in Hj by done; by eapply Hu].
  destruct (decide (j < length l)%nat); [by rewrite list_lookup_insert_eq in Hj|].
  rewrite list_insert_ge in Hj by lia. by eapply Hu.
Qed.

Lemma slots_slot {A} (l : list (option A)) n i : slots l n -> (i < n)%nat -> exists o, l !! i = Some o.
Proof. intros [Hl Hc _] Hi. apply lookup_lt_is_Some. lia. Qed.

(** Nothing in use. *)
Lemma slots_empty {A} (l : list (option A)) n :
  slots l n -> (forall j, (j < n)%nat -> l !! j = Some None) -> omap id l = [] /\ slots l 0.
Proof.
  intros [Hl Hc Hu] Hn. assert (Hall : forall j o, l !! j = Some o -> o = None).
  { intros j [a|] Hj; [|done]. pose proof (Hu _ _ Hj) as Hlt. by rewrite (Hn _ Hlt) in Hj. }
  split.
  - clear -Hall. induction l as [|o l IH]; [done|]. rewrite (Hall 0%nat o eq_refl). cbn. apply IH.
    intros j o' Hj. by apply (Hall (S j)).
  - split; [done|lia|]. intros i a Hi. by apply Hall in Hi.
Qed.

(** Events that neither open nor close an object, attach a program, remove a file
    nor signal a process. *)
Definition common (e : tool_event) : bool :=
  match e with
  | Acquired (RObject _) | Released (RObject _) | Acquired (RLink _) | LinkUpdated _ | Unlinked _ | MapUnpinned _ | Signalled _ _ | RemovedDir _ | Alive _ _ => false
  | _ => true
  end.

(** ** Triples *)

Create HintDb tool.

Section Triples.
Context {E : KernelEnv} {U : ToolEnv} {V : LoadEnv}.
(** The events that are allowed after the trace [tr0], and the module. *)
Context (ok : tool_event -> Prop) (tr0 : list tool_event) (s : kstate).
Hypothesis ok_common : forall e, common e = true -> ok e.

Record inv (h : list resource) (t : tool_state) : Prop := Inv {
  iv_kernel : exists n, t_kernel t = set_next n s;
  iv_objs : slots (g_objs t) (g_obj_count t);
  iv_links : slots (g_links t) (g_link_count t);
  iv_known : forall i n obj, g_objs t !! i = Some (Some (n, obj)) -> env_object n = Some obj;
  iv_balance : acquired (t_trace t) ≡ₚ released (t_trace t) ++ h ++ holdings t;
  iv_trace : exists es, t_trace t = tr0 ++ es /\ Forall ok es;
}.

(** From owing [h] to owing [h'], whatever is answered. *)
Definition triple {A} (h : list resource) (m : T A) (h' : A -> list resource) : Prop :=
  forall t, inv h t -> twp m (fun a t' => inv (h' a) t') t.

Lemma t_ret {A} h (a : A) h' : h = h' a -> triple h (tret a) h'.
Proof. by intros -> t Hi. Qed.

Lemma t_bind {A B} h (m : T A) g (f : A -> T B) h' :
  triple h m g -> (forall a, triple (g a) (f a) h') -> triple h (tbind m f) h'.
Proof. intros Hm Hf t Hi. apply twp_bind. eapply twp_mono; [by apply Hm|]. intros a t' Hi'. by apply Hf. Qed.

Lemma t_call h : triple h (lift call) (fun _ => h).
Proof. intros t [(n & Hk) H2 H3 H4 H5 H6]. apply twp_lift, wp_call. split; try done. exists (S (k_next (t_kernel t))). cbn. by rewrite Hk. Qed.

Lemma t_answer h : triple h answer (fun _ => h).
Proof. eapply t_bind; [apply t_call|]. intros n. by apply t_ret. Qed.

(** A call changes nothing but its number. *)
Lemma twp_call h (Q : nat -> tool_state -> Prop) t :
  inv h t ->
  (forall n k, let t' := ToolState k (g_objs t) (g_obj_count t) (g_links t) (g_link_count t) (g_monitored_files t) (t_trace t) in
     inv h t' -> Q n t') -> twp (lift call) Q t.
Proof. intros Hi HQ. pose proof (t_call h t Hi) as H. unfold twp, lift in *. cbn in *. by apply HQ. Qed.

Lemma twp_answer h (Q : Z -> tool_state -> Prop) t :
  inv h t ->
  (forall z k, let t' := ToolState k (g_objs t) (g_obj_count t) (g_links t) (g_link_count t) (g_monitored_files t) (t_trace t) in
     inv h t' -> Q z t') -> twp answer Q t.
Proof. intros Hi HQ. unfold answer. apply twp_bind, (twp_call h); [done|]. intros n k t' Hi'. by apply HQ. Qed.

Lemma inv_emit h h' e t :
  inv h t -> ok e ->
  (acquired [e] ++ h ≡ₚ released [e] ++ h') ->
  inv h' (ToolState (t_kernel t) (g_objs t) (g_obj_count t) (g_links t) (g_link_count t) (g_monitored_files t) (t_trace t ++ [e])).
Proof.
  intros [H1 H2 H3 H4 H5 (es & Hes & Hok)] He Hp. split; try done.
  - cbn [t_trace]. unfold acquired, released in *. rewrite !omap_app.
    rewrite H5. rewrite <- !app_assoc. apply Permutation_app_head.
    rewrite (Permutation_app_comm (holdings t)), app_assoc, (Permutation_app_comm h), Hp. by rewrite <- app_assoc.
  - exists (es ++ [e]). cbn. rewrite Hes, app_assoc. split; [done|]. apply Forall_app. by split; [|constructor].
Qed.

Lemma t_emit h h' e : ok e -> (acquired [e] ++ h ≡ₚ released [e] ++ h') -> triple h (emit e) (fun _ => h').
Proof. intros He Hp t Hi. exact (inv_emit h h' e t Hi He Hp). Qed.

Lemma t_emit_plain h e : plain_event e -> ok e -> triple h (emit e) (fun _ => h).
Proof. intros Hp He. apply t_emit; [done|]. by destruct e. Qed.

Lemma t_get_fd h : triple h get_fd (fun fd => if fd <? 0 then h else RFd fd :: h).
Proof.
  eapply t_bind; [apply t_answer|]. intros fd. cbv beta. destruct (fd <? 0) eqn:Ef; [apply t_ret; by rewrite Ef|].
  eapply t_bind; [apply (t_emit h (RFd fd :: h)); [by apply ok_common|done]|]. intros []. apply t_ret. by rewrite Ef.
Qed.

Lemma t_close_fd h fd : triple (RFd fd :: h) (close_fd fd) (fun _ => h).
Proof. apply t_emit; [by apply ok_common|done]. Qed.

Lemma t_unlink h path : ok (Unlinked path) -> triple h (unlink path) (fun _ => h).
Proof. intros Ho. eapply t_bind; [by apply t_emit_plain|]. intros []. apply t_answer. Qed.

Lemma t_for_all {X} h (body : X -> T unit) xs :
  (forall x, x ∈ xs -> triple h (body x) (fun _ => h)) -> triple h (for_all body xs) (fun _ => h).
Proof.
  induction xs as [|x xs IH]; intros Hb; cbn [for_all]; [by apply t_ret|].
  eapply t_bind; [apply Hb; left|]. intros []. apply IH. intros y Hy. apply Hb. by right.
Qed.

Lemma t_for_each {X St R} h (body : X -> St -> T (St + R)) xs st :
  (forall x st, x ∈ xs -> triple h (body x st) (fun _ => h)) -> triple h (for_each body xs st) (fun _ => h).
Proof.
  revert st. induction xs as [|x xs IH]; intros st Hb; cbn [for_each]; [by apply t_ret|].
  eapply t_bind; [apply Hb; left|]. intros [st'|r]; [|by apply t_ret]. apply IH. intros y st2 Hy. apply Hb. by right.
Qed.


Hint Resolve t_call t_answer t_get_fd t_close_fd t_unlink : tool.

(** Walks through a computation; the calls are resolved by the hints. *)
Ltac t_go :=
  cbv beta zeta;
  lazymatch goal with
  | |- triple _ (tret _) _ => apply t_ret; reflexivity
  | |- triple ?h (tbind (match _ with _ => _ end) _) _ => eapply (t_bind h _ (fun _ => h)); [t_go|intros ?; t_go]
  | |- triple _ (tbind _ _) _ => eapply t_bind; [t_go|intros ?; t_go]
  | |- triple _ (match ?x with _ => _ end) _ => destruct x; t_go
  | |- triple _ (for_all _ _) _ => apply t_for_all; intros; t_go
  | |- triple _ (for_each _ _ _) _ => apply t_for_each; intros; t_go
  | |- triple _ (emit _) _ => apply t_emit_plain; [done|by apply ok_common]
  | |- _ => eauto 2 with tool
  end.

Lemma t_read_pid_file h : triple h read_pid_file (fun _ => h).
Proof. unfold read_pid_file. t_go. Qed.

Lemma t_write_pid_file h : triple h write_pid_file (fun _ => h).
Proof. unfold write_pid_file. t_go. Qed.

Lemma t_make_dir h path : triple h (make_dir path) (fun _ => h).
Proof. unfold make_dir. t_go. Qed.

Lemma t_append_chunk h path chunk : triple h (append_chunk path chunk) (fun _ => h).
Proof. unfold append_chunk. t_go. Qed.

Lemma t_daemonize h : triple h daemonize (fun _ => h).
Proof. unfold daemonize. t_go. Qed.

Hint Resolve t_read_pid_file t_write_pid_file t_make_dir t_append_chunk t_daemonize : tool.

Lemma t_make_missing_dir h path : triple h (make_missing_dir path) (fun _ => h).
Proof. unfold make_missing_dir. t_go. Qed.
Hint Resolve t_make_missing_dir : tool.

(** ** The monitored files *)

Lemma inv_monitored h h' l t :
  inv h t -> h ++ open_fds (g_monitored_files t) ≡ₚ h' ++ open_fds l ->
  inv h' (ToolState (t_kernel t) (g_objs t) (g_obj_count t) (g_links t) (g_link_count t) l (t_trace t)).
Proof.
  intros [H1 H2 H3 H4 H5 H6] Hp. split; try done. cbn. rewrite H5. apply Permutation_app_head. unfold holdings. cbn.
  rewrite !(app_assoc (_ <$> _) (_ <$> _)), (Permutation_app_comm _ (open_fds (g_monitored_files t))), app_assoc, Hp.
  by rewrite <- app_assoc, (Permutation_app_comm (open_fds l)).
Qed.

Lemma open_fds_alter f l i :
  (forall mf, mf_fd (f mf) = mf_fd mf) -> open_fds (alter f i l) = open_fds l.
Proof.
  intros Hf. revert i. induction l as [|mf l IH]; intros [|i]; try done; cbn.
  - by rewrite Hf.
  - destruct (_ <? _); [apply IH|f_equal; apply IH].
Qed.

Lemma open_fds_open fd l i mf :
  l !! i = Some mf -> mf_fd mf < 0 -> 0 <= fd -> open_fds (alter (set_fd fd) i l) ≡ₚ RFd fd :: open_fds l.
Proof.
  intros Hi Hneg Hfd. revert i Hi. induction l as [|mf' l IH]; intros [|i] Hi; try done; cbn.
  - injection Hi as ->. cbn. destruct (Z.ltb_spec fd 0); [lia|]. by destruct (Z.ltb_spec (mf_fd mf) 0); [|lia].
  - destruct (mf_fd mf' <? 0); [by apply IH|]. etransitivity; [apply Permutation_skip, (IH i Hi)|apply Permutation_swap].
Qed.

Lemma open_fds_keep fd l i mf :
  l !! i = Some mf -> fd = mf_fd mf \/ (fd < 0 /\ mf_fd mf < 0) -> open_fds (alter (set_fd fd) i l) = open_fds l.
Proof.
  intros Hi Hfd. revert i Hi. induction l as [|mf' l IH]; intros [|i] Hi; try done; cbn.
  - injection Hi as ->. destruct Hfd as [->|[H1 H2]]; [done|]. apply Z.ltb_lt in H1, H2. by rewrite H1, H2.
  - destruct (_ <? _); [by apply IH|f_equal; by apply IH].
Qed.

Lemma find_monitored_bound src l k i : find_monitored src l k = Some i -> (k <= i < k + length l)%nat.
Proof.
  revert k. induction l as [|mf l IH]; intros k; cbn; [done|]. destruct (_ =? _); [intros [= <-]; lia|].
  intros H%IH. lia.
Qed.

Lemma twp_get_monitored h src dst t :
  inv h t ->
  twp (get_monitored_file src dst) (fun r t' =>
    inv h t' /\ forall i, r = Some i -> (i < length (g_monitored_files t'))%nat) t.
Proof.
  intros Hi. unfold get_monitored_file. apply twp_bind. change (twp (tgets ?f) ?Q t) with (Q (f t) t). cbv beta.
  destruct (find_monitored _ _ _) as [i|] eqn:Ef.
  - split; [|intros j [= <-]; cbn; rewrite length_alter; apply find_monitored_bound in Ef; lia].
    apply (inv_monitored h); [done|]. by rewrite open_fds_alter.
  - apply twp_bind, (twp_answer h); [done|]. intros rc k t' Hi1.
    destruct (rc <? 0); [by split|]. split; [|intros j [= <-]; cbn; lia].
    by apply (inv_monitored h h _ t').
Qed.

Lemma twp_get_fd h (Q : Z -> tool_state -> Prop) t :
  inv h t ->
  (forall fd t', inv (if fd <? 0 then h else RFd fd :: h) t' -> g_monitored_files t' = g_monitored_files t -> Q fd t') ->
  twp get_fd Q t.
Proof.
  intros Hi HQ. unfold get_fd. apply twp_bind, (twp_answer h); [done|]. intros fd k t' Hi'.
  destruct (fd <? 0) eqn:Ef; apply HQ; rewrite ?Ef; try done.
  apply (inv_emit h (RFd fd :: h) _ t' Hi'); [by apply ok_common|done].
Qed.

Lemma twp_append_new_content h i t :
  inv h t -> (i < length (g_monitored_files t))%nat -> twp (append_new_content i) (fun _ t' => inv h t') t.
Proof.
  intros Hi Hlt. unfold append_new_content. apply twp_bind. change (twp (tgets ?f) ?Q t) with (Q (f t) t). cbv beta.
  destruct (lookup_lt_is_Some_2 _ _ Hlt) as [mf Hmf]. apply twp_bind. rewrite Hmf.
  change (twp (tderef (Some mf)) ?Q t) with (Q mf t). cbv beta. apply twp_bind.
  assert (Hgo : forall fd t', inv h (ToolState (t_kernel t') (g_objs t') (g_obj_count t') (g_links t') (g_link_count t')
      (alter (set_fd (if fd <? 0 then - 1 else fd)) i (g_monitored_files t)) (t_trace t')) ->
    twp (set_monitored (alter (set_fd (if fd <? 0 then - 1 else fd)) i (g_monitored_files t)) $;
      if fd <? 0 then tret tt else let$ n := lift call in for_all (append_chunk (mf_dst_path mf)) (env_chunks n))
      (fun _ t' => inv h t') t').
  { intros fd t' Hi'. apply twp_bind. unfold set_monitored. cbn. destruct (fd <? 0) eqn:Ef; [exact Hi'|].
    revert Hi'. match goal with |- inv h ?t1 -> _ => enough (triple h (let$ n := lift call in
      for_all (append_chunk (mf_dst_path mf)) (env_chunks n)) (fun _ => h)) as Ht by exact (Ht t1) end.
    t_go. }
  destruct (Z.ltb_spec (mf_fd mf) 0) as [Hneg|Hpos].
  - apply (twp_get_fd h); [done|]. intros fd t' Hi' Hm. apply Hgo. rewrite <- Hm in *.
    apply (inv_monitored (if fd <? 0 then h else RFd fd :: h) h); [done|].
    destruct (Z.ltb_spec fd 0); [rewrite (open_fds_keep _ _ _ mf) by (done || lia); done|].
    rewrite (open_fds_open _ _ _ mf) by done. apply Permutation_middle.
  - apply Hgo. apply (inv_monitored h h); [done|]. destruct (Z.ltb_spec (mf_fd mf) 0); [lia|].
    by rewrite (open_fds_keep _ _ _ mf) by (done || by left).
Qed.

Lemma t_monitor h src dst : triple h (monitor src dst) (fun _ => h).
Proof.
  intros t Hi. unfold monitor. apply twp_bind. eapply twp_mono; [by apply (twp_get_monitored h)|].
  intros [i|] t' [Hi' Hlt]; [|done]. apply twp_append_new_content; [done|by apply Hlt].
Qed.
Hint Resolve t_monitor : tool.

Lemma t_monitor_namespace h entry : triple h (monitor_namespace entry) (fun _ => h).
Proof. unfold monitor_namespace. t_go. Qed.
Hint Resolve t_monitor_namespace : tool.

(** The sweep keeps the active entries and closes the others. *)
Lemma sweep_spec l t :
  exists fds, let closed := RFd <$> fds in
    open_fds l ≡ₚ closed ++ open_fds (filter mf_active l) /\
    sweep l t = Some (filter mf_active l, with_trace (Released <$> closed) t).
Proof.
  revert t. induction l as [|mf l IH]; intros t; cbn [sweep].
  - exists []. split; [done|]. unfold with_trace. cbn. rewrite app_nil_r. by destruct t.
  - rewrite filter_cons. destruct (mf_active mf) eqn:Ea; cbn [Is_true].
    + destruct (IH t) as (fds & Hp & Hs). exists fds. cbv zeta in *. rewrite decide_True by done. unfold tbind, tret. rewrite Hs.
      split; [|done]. cbn. destruct (mf_fd mf <? 0); [done|]. etransitivity; [apply Permutation_skip, Hp|apply Permutation_middle].
    + rewrite decide_False by auto. unfold tbind. cbn [open_fds omap]. destruct (mf_fd mf <? 0) eqn:Ef; cbn.
      * destruct (IH t) as (fds & Hp & Hs). exists fds. rewrite Ef. by split.
      * destruct (IH (with_trace [Released (RFd (mf_fd mf))] t)) as (fds & Hp & Hs). exists (mf_fd mf :: fds). cbv zeta in *.
        rewrite Ef. cbn [fmap list_fmap]. split; [by rewrite <- app_comm_cons; apply Permutation_skip|]. unfold close_fd, emit. fold (with_trace [Released (RFd (mf_fd mf))] t).
        rewrite Hs. unfold with_trace. cbn. by rewrite <- app_assoc.
Qed.

Lemma t_prune_monitored h : triple h prune_monitored (fun _ => h).
Proof.
  intros t [H1 H2 H3 H4 H5 (es & Hes & Hok)]. unfold prune_monitored. apply twp_bind.
  change (twp (tgets ?f) ?Q t) with (Q (f t) t). cbv beta. apply twp_bind.
  destruct (sweep_spec (g_monitored_files t) t) as (fds & Hp & Hs). cbv zeta in Hp, Hs. unfold twp at 1. rewrite Hs.
  set (closed := RFd <$> fds) in *.
  assert (Hrel : forall l, released (Released <$> l) = l) by (intros l; induction l as [|r l IH]; [done|]; cbn; by f_equal).
  assert (Hacq : forall l, acquired (Released <$> l) = []) by (intros l; by induction l).
  split; try done; cbn.
  - unfold acquired, released in *. rewrite !omap_app, Hrel, Hacq, app_nil_r, H5. rewrite <- app_assoc.
    apply Permutation_app_head. unfold holdings. cbn. rewrite Hp, !app_assoc.
    apply Permutation_app_tail. rewrite <- !app_assoc. rewrite (Permutation_app_comm closed), <- !app_assoc. done.
  - exists (es ++ (Released <$> closed)). rewrite Hes, app_assoc. split; [done|]. apply Forall_app. split; [done|].
    unfold closed. rewrite <- list_fmap_compose. apply Forall_fmap, Forall_true. intros fd. by apply ok_common.
Qed.

Lemma t_mark_inactive h : triple h mark_inactive (fun _ => h).
Proof.
  intros t Hi. apply (inv_monitored h h _ t Hi). apply Permutation_app_head.
  induction (g_monitored_files t) as [|mf l IH]; [done|]. cbn. destruct (_ <? _); [exact IH|by apply Permutation_skip].
Qed.
Hint Resolve t_prune_monitored t_mark_inactive : tool.

(** The directory is closed after its entries were read. *)
Lemma t_dump_namespaces h :
  triple h (let$ dir := get_fd in
    (if dir <? 0 then tret tt else
     let$ n := lift call in
     for_all monitor_namespace (fst (env_readdir n)) $;
     close_fd dir) $;
    prune_monitored) (fun _ => h).
Proof.
  eapply t_bind; [apply t_get_fd|]. intros dir. cbv beta. eapply (t_bind _ _ (fun _ => h)); [|intros []; t_go].
  destruct (dir <? 0); [by apply t_ret|]. eapply t_bind; [apply t_call|]. intros n.
  eapply t_bind; [apply t_for_all; intros; apply t_monitor_namespace|]. intros []. apply t_close_fd.
Qed.
Hint Resolve t_dump_namespaces : tool.

Lemma t_dump h : triple h dump_securityfs_to_files (fun _ => h).
Proof.
  unfold dump_securityfs_to_files. pose proof (t_dump_namespaces h) as Hd.
  eapply t_bind; [t_go|]. intros []. eapply t_bind; [t_go|]. intros ok1. destruct (negb ok1); [by apply t_ret|].
  eapply t_bind; [t_go|]. intros ok2. destruct (negb ok2); [by apply t_ret|]. do 4 (eapply t_bind; [t_go|]; intros []).
  exact Hd.
Qed.
Hint Resolve t_dump : tool.

(** ** Releasing *)

Lemma inv_objs h h' l n t :
  inv h t -> slots l n -> (forall i k obj, l !! i = Some (Some (k, obj)) -> env_object k = Some obj) ->
  h ++ (RObject ∘ fst <$> omap id (g_objs t)) ≡ₚ h' ++ (RObject ∘ fst <$> omap id l) ->
  inv h' (ToolState (t_kernel t) l n (g_links t) (g_link_count t) (g_monitored_files t) (t_trace t)).
Proof.
  intros [H1 H2 H3 H4 H5 H6] Hs Hk Hp. split; try done. cbn. rewrite H5. apply Permutation_app_head. unfold holdings. cbn.
  by rewrite !(app_assoc h), !(app_assoc h'), Hp.
Qed.

Lemma inv_links h h' l n t :
  inv h t -> slots l n -> h ++ (RLink <$> omap id (g_links t)) ≡ₚ h' ++ (RLink <$> omap id l) ->
  inv h' (ToolState (t_kernel t) (g_objs t) (g_obj_count t) l n (g_monitored_files t) (t_trace t)).
Proof.
  intros [H1 H2 H3 H4 H5 H6] Hs Hp. split; try done. cbn. rewrite H5. apply Permutation_app_head. unfold holdings. cbn.
  set (os := _ <$> omap id (g_objs t)). set (fs := open_fds _).
  rewrite (Permutation_app_comm os), (Permutation_app_comm os), !app_assoc. apply Permutation_app_tail.
  by apply Permutation_app_tail.
Qed.

(** The first [i] slots are clear. *)
Definition cleared {A} (l : list (option A)) (i : nat) : Prop := forall j, (j < i)%nat -> l !! j = Some None.

Lemma cleared_next {A} (l : list (option A)) i : cleared l i -> l !! i = Some None -> cleared l (S i).
Proof. intros Hc Hi j Hj. destruct (decide (j = i)) as [->|]; [done|]. apply Hc. lia. Qed.

Lemma cleared_insert {A} (l : list (option A)) i : cleared l i -> (i < length l)%nat -> cleared (<[i := None]> l) (S i).
Proof.
  intros Hc Hi. apply cleared_next; [|by apply list_lookup_insert_eq]. intros j Hj.
  rewrite list_lookup_insert_ne by lia. by apply Hc.
Qed.

Lemma twp_destroy_links h t :
  inv h t ->
  twp (destroy_links (g_link_count t)) (fun _ t' =>
    inv h t' /\ g_link_count t' = g_link_count t /\ cleared (g_links t') (g_link_count t)) t.
Proof.
  intros Hi. apply (twp_for_seq (fun i t' => inv h t' /\ g_link_count t' = g_link_count t /\ cleared (g_links t') i));
    [|split_and!; [done|done|]; intros j Hj; lia].
  clear Hi. intros i t1 Hlt (Hi & Hc & Hcl). apply twp_bind, twp_tgets.
  pose proof (iv_links _ _ Hi) as Hs. destruct (slots_slot _ _ i Hs) as [o Ho]; [lia|].
  apply twp_bind, (twp_tderef _ o); [done|]. destruct o as [l|]; [|split_and!; [done|done|by apply cleared_next]].
  split_and!; [|done|apply cleared_insert; [done|by eapply lookup_lt_Some]].
  assert (Hi' : inv h (with_trace [Released (RLink l)] (ToolState (t_kernel t1) (g_objs t1) (g_obj_count t1)
    (<[i := None]> (g_links t1)) (g_link_count t1) (g_monitored_files t1) (t_trace t1)))); [|exact Hi'].
  apply (inv_emit (RLink l :: h) h); [|by apply ok_common|done]. apply (inv_links h); [done|by apply slots_clear|].
  rewrite (omap_clear _ _ _ Ho). cbn [fmap list_fmap]. symmetry. apply Permutation_middle.
Qed.

Hypothesis ok_closed : forall n, ok (Released (RObject n)).

Lemma twp_close_objects h t :
  inv h t ->
  twp (close_objects (g_obj_count t)) (fun _ t' =>
    inv h t' /\ g_obj_count t' = g_obj_count t /\ cleared (g_objs t') (g_obj_count t) /\
    g_links t' = g_links t /\ g_link_count t' = g_link_count t) t.
Proof.
  intros Hi. apply (twp_for_seq (fun i t' => inv h t' /\ g_obj_count t' = g_obj_count t /\ cleared (g_objs t') i /\
    g_links t' = g_links t /\ g_link_count t' = g_link_count t)); [|split_and!; try done; intros j Hj; lia].
  clear Hi. intros i t1 Hlt (Hi & Hc & Hcl & Hl & Hlc). apply twp_bind, twp_tgets.
  pose proof (iv_objs _ _ Hi) as Hs. destruct (slots_slot _ _ i Hs) as [o Ho]; [lia|].
  apply twp_bind, (twp_tderef _ o); [done|]. destruct o as [[k obj]|]; [|split_and!; try done; by apply cleared_next].
  split_and!; [|done|apply cleared_insert; [done|by eapply lookup_lt_Some]|done|done].
  assert (Hi' : inv h (with_trace [Released (RObject k)] (ToolState (t_kernel t1) (<[i := None]> (g_objs t1)) (g_obj_count t1)
    (g_links t1) (g_link_count t1) (g_monitored_files t1) (t_trace t1)))); [|exact Hi'].
  apply (inv_emit (RObject k :: h) h); [|by apply ok_closed|done]. apply (inv_objs h); [done|by apply slots_clear| |].
  - intros j k' obj' Hj. destruct (decide (i = j)) as [->|Hne];
      [rewrite list_lookup_insert_eq in Hj by (by eapply lookup_lt_Some); done|].
    rewrite list_lookup_insert_ne in Hj by done. by eapply (iv_known _ _ Hi).
  - rewrite (omap_clear _ _ _ Ho). cbn. symmetry. apply Permutation_middle.
Qed.

(** Nothing is held but the monitored files. *)
Definition empty (t : tool_state) : Prop :=
  g_obj_count t = 0%nat /\ g_link_count t = 0%nat /\ holdings t = open_fds (g_monitored_files t).

Lemma twp_destroy_runtime_state h t :
  inv h t -> twp destroy_runtime_state (fun _ t' => inv h t' /\ empty t') t.
Proof.
  intros Hi. unfold destroy_runtime_state. apply twp_bind, twp_tgets, twp_bind.
  eapply twp_mono; [by apply (twp_destroy_links h)|]. intros [] t1 (Hi1 & Hc1 & Hcl1).
  apply twp_bind, twp_tgets, twp_bind. rewrite <- Hc1 in Hcl1.
  destruct (slots_empty _ _ (iv_links _ _ Hi1) Hcl1) as [He1 Hs1].
  assert (Hi2 : inv h (ToolState (t_kernel t1) (g_objs t1) (g_obj_count t1) (g_links t1) 0 (g_monitored_files t1) (t_trace t1)))
    by (by apply (inv_links h)).
  apply twp_bind, twp_tgets, twp_bind. eapply twp_mono; [by apply (twp_close_objects h)|].
  intros [] t3 (Hi3 & Hc3 & Hcl3 & Hl3 & Hlc3). apply twp_bind, twp_tgets. rewrite <- Hc3 in Hcl3.
  destruct (slots_empty _ _ (iv_objs _ _ Hi3) Hcl3) as [He3 Hs3]. cbn in Hl3, Hlc3.
  split; [apply (inv_objs h); [done|done|apply (iv_known _ _ Hi3)|done]|].
  unfold empty, holdings. cbn. by rewrite Hl3, He1, He3.
Qed.

(** ** Unloading *)

(** The last check of the process. *)
Definition last_check (tr : list tool_event) : option bool :=
  last (omap (fun e => match e with Alive _ b => Some b | _ => None end) tr).

Lemma twp_is_process_running h pid t :
  (forall b, ok (Alive pid b)) -> inv h t ->
  twp (is_process_running pid) (fun b t' => inv h t' /\ last_check (t_trace t') = Some b) t.
Proof.
  intros Ha Hi. unfold is_process_running. apply twp_bind, (twp_answer h); [done|]. intros rc k t' Hi'.
  split; [exact (inv_emit h h (Alive pid (rc =? 0)) t' Hi' (Ha _) (reflexivity _))|].
  unfold last_check. cbn. rewrite omap_app. apply last_snoc.
Qed.

Lemma t_is_process_running h pid : (forall b, ok (Alive pid b)) -> triple h (is_process_running pid) (fun _ => h).
Proof. intros Ha t Hi. eapply twp_mono; [by apply (twp_is_process_running h)|]. by intros b t' [? _]. Qed.

Lemma t_wait_exit h n pid : (forall b, ok (Alive pid b)) -> triple h (wait_exit n pid) (fun _ => h).
Proof.
  intros Ha. induction n as [|n IH]; cbn [wait_exit]; [by apply t_ret|].
  eapply t_bind; [by apply t_is_process_running|]. intros []; [exact IH|by apply t_ret].
Qed.

Lemma t_send_signal h pid signal : ok (Signalled pid signal) -> triple h (send_signal pid signal) (fun _ => h).
Proof. intros Hs. unfold send_signal. eapply t_bind; [by apply t_emit_plain|]. intros []. t_go. Qed.

(** The daemon is taken for gone only after a check that did not find it. *)
Lemma twp_stop_daemon h pid t :
  (forall b, ok (Alive pid b)) -> (forall signal, ok (Signalled pid signal)) -> inv h t ->
  twp (stop_daemon pid) (fun gone t' => inv h t' /\ (gone = true -> last_check (t_trace t') = Some false)) t.
Proof.
  intros Ha Hs Hi. unfold stop_daemon.
  apply twp_bind. eapply twp_mono; [by apply t_send_signal|]. intros [] t1 Hi1; [by split|].
  apply twp_bind. eapply twp_mono; [by apply (t_wait_exit h 11)|]. intros [] t2 Hi2.
  apply twp_bind. eapply twp_mono; [by apply (twp_is_process_running h)|]. intros [] t3 [Hi3 Hl3]; [|by split].
  apply twp_bind. eapply twp_mono; [by apply t_send_signal|]. intros [] t4 Hi4; [by split|].
  apply twp_bind. eapply twp_mono; [by apply (t_wait_exit h 30)|]. intros [] t5 Hi5.
  apply twp_bind. eapply twp_mono; [by apply (twp_is_process_running h)|]. intros b t6 [Hi6 Hl6].
  split; [done|]. intros Hb. by destruct b.
Qed.

Lemma parse_pid_range text : parse_pid text = - 1 \/ 1 < parse_pid text <= INT_MAX.
Proof.
  unfold parse_pid. destruct (fgets _ _) as [line _]. case_bool_decide; [by left|].
  destruct (strtol line) as [[pid errno] rest]. cbv zeta. destruct (_ || _) eqn:Eo; [by left|]. right.
  rewrite !orb_false_iff in Eo. destruct Eo as [[_ H1] H2]. apply Z.leb_gt in H1. rewrite Z.gtb_ltb in H2.
  apply Z.ltb_ge in H2. lia.
Qed.

Lemma twp_read_pid_file h t :
  inv h t -> twp read_pid_file (fun r t' => inv h t' /\ (fst r = - 1 \/ 1 < fst r <= INT_MAX)) t.
Proof.
  intros Hi. apply twp_conj; [by apply t_read_pid_file|]. pose proof (t_read_pid_file h t Hi) as Ht. unfold twp in *.
  destruct (read_pid_file t) as [[r t']|] eqn:Er; [|done]. clear Ht Hi. revert Er.
  unfold read_pid_file, get_fd, answer, close_fd, emit, tbind, tret, lift, call. cbn.
  destruct (env_rc _ <? 0) eqn:E1; cbn; rewrite E1; cbn; clear E1; [intros H; simplify_eq; by left|].
  destruct (env_fstat _) as [st|]; cbn; [|intros H; simplify_eq; by left].
  destruct (_ || _); cbn; [intros H; simplify_eq; by left|].
  destruct (env_rc _ <? 0); cbn; intros H; [simplify_eq; by left|].
  apply (f_equal (fun x => match x with Some (p, _) => fst p | None => 0 end)) in H. cbn in H. rewrite <- H.
  apply parse_pid_range.
Qed.

Lemma t_remove_pin h path : ok (Unlinked path) -> triple h (remove_pin path) (fun _ => h).
Proof. intros Hu. unfold remove_pin. t_go. Qed.

Lemma t_cleanup_pinned_links h :
  (forall name, ok (Unlinked (BPF_PIN_DIR ++ lit "/" ++ cstr name))) -> ok (RemovedDir BPF_PIN_DIR) ->
  triple h cleanup_pinned_links (fun _ => h).
Proof.
  intros Hu Hr. unfold cleanup_pinned_links. eapply t_bind; [apply t_get_fd|]. intros fd. cbv beta.
  destruct (fd <? 0); [by apply t_ret|]. eapply t_bind; [apply t_answer|]. intros dir. cbv beta.
  destruct (dir <? 0); [t_go|]. eapply t_bind; [apply t_call|]. intros n. destruct (env_readdir n) as [entries errno].
  eapply (t_bind _ _ (fun _ => RFd fd :: h)).
  { apply t_for_each. intros e ret _. unfold unpin_entry. t_go. }
  intros r. cbv zeta. eapply t_bind; [apply t_close_fd|]. intros []. eapply t_bind; [apply t_answer|]. intros closed.
  eapply t_bind; [by apply t_emit_plain|]. intros []. t_go.
Qed.

(** ** Loading *)

Hypothesis ok_links : forall prog, ok (Unlinked (link_pin_path prog)).
Hypothesis ok_maps : forall k obj map, env_object k = Some obj -> map ∈ ob_maps obj ->
  (is_policy_map map = false -> ok (MapUnpinned (map_pin_path map))) /\
  (strcmp (md_name map) POLICY_MAP_NAME <> 0 -> ok (Unlinked (map_pin_path map))).

Lemma t_for_each_loaded h body :
  (forall k obj, env_object k = Some obj -> triple h (body obj) (fun _ => h)) ->
  triple h (for_each_loaded body) (fun _ => h).
Proof.
  intros Hb t Hi. unfold for_each_loaded. apply twp_bind, twp_tgets.
  pose proof (iv_objs _ _ Hi) as Hs. assert (Hn : (g_obj_count t <= 8)%nat) by apply Hs.
  revert t Hi Hn Hs. intros t Hi Hn _. revert t Hi Hn.
  enough (H : forall n, (n <= 8)%nat -> triple h (for_all (fun i =>
    let$ objs := tgets g_objs in let$ slot := tderef (objs !! i) in
    match slot with Some (_, obj) => body obj | None => tret tt end) (seq 0 n)) (fun _ => h)) by (intros t Hi Hn; by apply H).
  intros n Hn. apply t_for_all. intros i Hin t Hi. apply elem_of_seq in Hin. apply twp_bind, twp_tgets.
  pose proof (iv_objs _ _ Hi) as [Hl _ _]. destruct (lookup_lt_is_Some_2 (g_objs t) i ltac:(lia)) as [o Ho].
  apply twp_bind, (twp_tderef _ o); [done|]. destruct o as [[k obj]|]; [|done].
  exact (Hb k obj (iv_known _ _ Hi _ _ _ Ho) t Hi).
Qed.

Lemma t_unpin_maps h : triple h unpin_maps_from_loaded_objects (fun _ => h).
Proof.
  apply t_for_each_loaded. intros k obj Hk. apply t_for_all. intros map Hmap.
  destruct (is_policy_map map) eqn:Ep; [by apply t_ret|].
  eapply t_bind; [apply t_emit_plain; [done|by apply (ok_maps k obj map)]|]. intros []. t_go.
Qed.

Lemma t_unpin_links h : triple h unpin_links_from_loaded_objects (fun _ => h).
Proof. apply t_for_each_loaded. intros k obj Hk. t_go. Qed.

Lemma t_pin_map h map : triple h (pin_map map) (fun _ => h).
Proof. unfold pin_map. t_go. Qed.
Hint Resolve t_unpin_maps t_unpin_links t_pin_map : tool.

Lemma t_reuse_map h k obj map :
  env_object k = Some obj -> map ∈ ob_maps obj -> triple h (reuse_map map) (fun _ => h).
Proof.
  intros Hk Hmap. unfold reuse_map. destruct (md_internal map); [by apply t_ret|].
  destruct (Z.eqb_spec (strcmp (md_name map) POLICY_MAP_NAME) 0) as [Hn|Hn]; [t_go|].
  pose proof (proj2 (ok_maps k obj map Hk Hmap) Hn) as Hu. t_go.
Qed.

Lemma t_single_instance h : (forall pid b, ok (Alive pid b)) -> triple h ensure_single_instance (fun _ => h).
Proof.
  intros Ha. unfold ensure_single_instance, is_process_running. eapply t_bind; [apply t_read_pid_file|]. intros [pid errno].
  destruct (_ && _); [by apply t_ret|]. destruct (_ >? _); [|by apply t_ret]. eapply t_bind; [|intros running; by apply t_ret].
  eapply t_bind; [apply t_answer|]. intros rc. eapply t_bind; [by apply t_emit_plain|]. intros []. by apply t_ret.
Qed.

Hypothesis ok_attach : forall e, attaches e -> ok e.

Lemma t_update_link h prog : triple h (update_link prog) (fun _ => h).
Proof.
  unfold update_link. cbv zeta. eapply t_bind; [apply t_answer|]. intros rc. destruct (negb _); [by apply t_ret|].
  eapply t_bind; [apply t_get_fd|]. intros fd. eapply (t_bind _ _ (fun _ => h)).
  - destruct (fd <? 0); [by apply t_ret|]. eapply (t_bind _ _ (fun _ => RFd fd :: h)); [|intros []; t_go].
    apply t_emit; [by apply ok_attach|done].
  - intros updated. t_go.
Qed.
Hint Resolve t_update_link : tool.

(** The new link is in the array before anything else happens. *)
Lemma t_store_link h n prog attached :
  triple (RLink n :: h) (
    let$ count := tgets g_link_count in
    if (MAX_ATTACHED_LINKS <=? count)%nat then emit (Released (RLink n)) $; tret (inr 1) else
    emit (LinkPinned n (link_pin_path prog)) $;
    let$ _ := answer in
    let$ links := tgets g_links in
    let$ _ := tderef (links !! count) in
    set_links (<[count := Some n]> links) (S count) $;
    tret (inl (S attached))) (fun _ : nat + Z => h).
Proof.
  intros t Hi. apply twp_bind, twp_tgets. pose proof (iv_links _ _ Hi) as Hs.
  destruct (Nat.leb_spec MAX_ATTACHED_LINKS (g_link_count t)) as [Hge|Hlt].
  - apply (inv_emit (RLink n :: h) h _ t Hi); [by apply ok_common|done].
  - unfold MAX_ATTACHED_LINKS in Hlt. apply twp_bind.
    assert (Hi1 := inv_emit _ (RLink n :: h) (LinkPinned n (link_pin_path prog)) t Hi (ok_common (LinkPinned _ _) eq_refl) (reflexivity _)).
    change (twp (emit ?e) ?Q t) with (Q tt (with_trace [e] t)). cbv beta.
    apply twp_bind, (twp_answer (RLink n :: h)); [exact Hi1|]. intros rc k t' Hi2. apply twp_bind, twp_tgets.
    pose proof (slots_next _ _ Hs Hlt) as Hfree. apply twp_bind, (twp_tderef _ None); [exact Hfree|].
    apply (inv_links (RLink n :: h) h _ _ t' Hi2); [by apply slots_fill|].
    change (g_links t') with (g_links t). rewrite (omap_fill _ _ _ Hfree). apply Permutation_middle.
Qed.
Hint Resolve t_store_link : tool.

Lemma t_attach_prog h prog attached : triple h (attach_prog prog attached) (fun _ => h).
Proof.
  unfold attach_prog. eapply t_bind; [apply t_update_link|]. intros []; [by apply t_ret|].
  eapply t_bind; [apply t_call|]. intros n. cbv beta. destruct (_ <? 0); [by apply t_ret|].
  eapply t_bind; [apply (t_emit h (RLink n :: h)); [by apply ok_attach|done]|]. intros []. apply t_store_link.
Qed.
Hint Resolve t_attach_prog : tool.

(** The opened object is in the array before anything else happens. *)
Lemma t_store_object h n obj count t :
  env_object n = Some obj -> inv (RObject n :: h) t -> g_obj_count t = count -> (count < 8)%nat ->
  twp (let$ objs := tgets g_objs in
       let$ _ := tderef (objs !! count) in
       set_objs (<[count := Some (n, obj)]> objs) (S count)) (fun _ t' => inv h t') t.
Proof.
  intros Hobj Hi <- Hlt. apply twp_bind, twp_tgets. pose proof (iv_objs _ _ Hi) as Hs.
  pose proof (slots_next _ _ Hs Hlt) as Hfree. apply twp_bind, (twp_tderef _ None); [exact Hfree|].
  apply (inv_objs (RObject n :: h)); [done|by apply slots_fill| |].
  - intros i k obj' Hk. destruct (decide (i = g_obj_count t)) as [->|Hne].
    + rewrite list_lookup_insert_eq in Hk by (by eapply lookup_lt_Some). by injection Hk as <- <-.
    + rewrite list_lookup_insert_ne in Hk by done. by eapply (iv_known _ _ Hi).
  - rewrite (omap_fill _ _ _ Hfree). cbn. apply Permutation_middle.
Qed.

Lemma t_attach_object h n obj : env_object n = Some obj -> triple h (attach_object n obj) (fun _ => h).
Proof.
  intros Hobj. eapply t_bind; [t_go|]. intros []. eapply t_bind; [t_go|]. intros [].
  eapply (t_bind _ _ (fun _ => h)); [|intros r; t_go]. apply t_for_each. intros map [] Hmap.
  eapply t_bind; [by eapply t_reuse_map|]. intros r. by apply t_ret.
Qed.

Hypothesis ok_object : forall n, ok (Acquired (RObject n)).

Lemma t_load_one h filename : triple h (load_and_attach_one_object filename) (fun _ => h).
Proof.
  intros t Hi. unfold load_and_attach_one_object. apply twp_bind, twp_tgets.
  destruct (Nat.leb_spec MAX_LOADED_OBJECTS (g_obj_count t)) as [Hge|Hlt]; [done|].
  apply twp_bind, (twp_answer h); [done|]. intros rc k t1 Hi1. destruct (negb _); [done|].
  apply twp_bind, (twp_call h); [done|]. intros n k2 t2 Hi2. destruct (env_object n) as [obj|] eqn:Eo; [|done].
  apply twp_bind.
  assert (Hi3 := inv_emit h (RObject n :: h) (Acquired (RObject n)) t2 Hi2 (ok_object n) (reflexivity _)).
  change (twp (emit ?e) ?Q t2) with (Q tt (with_trace [e] t2)). cbv beta.
  pose proof (t_store_object h n obj (g_obj_count t) _ Eo Hi3 eq_refl Hlt) as Hst.
  unfold twp, tbind in Hst |- *. revert Hst. unfold with_trace. destruct (tgets g_objs _) as [[objs t4]|]; [|done].
  destruct (tderef (objs !! g_obj_count t) t4) as [[o t5]|]; [|done]. destruct (set_objs _ _ t5) as [[u t6]|]; [|done].
  intros Hi6. exact (t_attach_object h n obj Eo t6 Hi6).
Qed.
Hint Resolve t_load_one : tool.

Lemma t_load_all h filenames : triple h (load_all_bpf_objects filenames) (fun _ => h).
Proof. unfold load_all_bpf_objects. t_go. Qed.

Lemma t_run_daemon_loop h : triple h run_daemon_loop (fun _ => h).
Proof. unfold run_daemon_loop. t_go. Qed.
Hint Resolve t_load_all t_run_daemon_loop : tool.
End Triples.

(** After descriptors were opened and closed, with another module state and more
    allowed events. *)
Lemma inv_owes {V : LoadEnv} (ok ok' : tool_event -> Prop) tr0 s h t t' :
  (forall e, ok e -> ok' e) -> (forall e, common e = true -> ok' e) -> inv ok tr0 s h t -> owes t [] t' ->
  inv ok' tr0 (t_kernel t') h t'.
Proof.
  intros Hok Hc [H1 H2 H3 H4 H5 (es & Hes & Hf)] (es' & Ht & Hf' & Hp). rewrite Ht. split; try done; cbn.
  - exists (k_next (t_kernel t')). by rewrite set_next_eta.
  - rewrite acquired_app, released_app, Hp, H5, app_nil_r. rewrite <- !app_assoc.
    apply Permutation_app_head. rewrite app_assoc. apply Permutation_app_comm.
  - exists (es ++ es'). rewrite Hes, app_assoc. split; [done|]. apply Forall_app. split; [by eapply Forall_impl|].
    eapply Forall_impl; [exact Hf'|]. intros e He. apply Hc. by destruct e as [[]|[]| | | | | | | | | | | | | |].
Qed.

(** ** Computations that leave a part of the state alone *)

Definition keeps {A B} (f : tool_state -> B) (m : T A) : Prop :=
  forall t, match m t with Some (_, t') => f t' = f t | None => True end.

Section Keeps.
Context {B : Type} {f : tool_state -> B}.

Lemma u_bind {A C} (m : T A) (g : A -> T C) : keeps f m -> (forall a, keeps f (g a)) -> keeps f (tbind m g).
Proof.
  intros Hm Hg t. unfold tbind. specialize (Hm t). destruct (m t) as [[a t1]|]; [|done]. specialize (Hg a t1).
  destruct (g a t1) as [[b t2]|]; [|done]. congruence.
Qed.

Lemma u_lift {A} (m : K A) :
  (forall t k, f (ToolState k (g_objs t) (g_obj_count t) (g_links t) (g_link_count t) (g_monitored_files t) (t_trace t)) = f t) ->
  keeps f (lift m).
Proof. intros Hf t. unfold lift. by destruct (m (t_kernel t)) as [[a s]|]. Qed.

Lemma u_deref {A} (o : option A) : keeps f (tderef o).
Proof. intros t. unfold tderef. by destruct o. Qed.

Lemma u_for_all {X} (body : X -> T unit) xs : (forall x, keeps f (body x)) -> keeps f (for_all body xs).
Proof. intros Hb. induction xs as [|x xs IH]; [done|]. apply u_bind; [apply Hb|]. by intros []. Qed.

Lemma u_for_each {X St R} (body : X -> St -> T (St + R)) xs st :
  (forall x st, keeps f (body x st)) -> keeps f (for_each body xs st).
Proof. intros Hb. revert st. induction xs as [|x xs IH]; intros st; [done|]. apply u_bind; [apply Hb|]. by intros [st'|r]. Qed.
End Keeps.

(** Walks through a computation; [unf] unfolds what it calls. *)
Ltac u_go unf :=
  cbv beta zeta;
  lazymatch goal with
  | |- keeps _ (tbind _ _) => apply u_bind; [u_go unf|intros ?; u_go unf]
  | |- keeps _ (match ?x with _ => _ end) => destruct x; u_go unf
  | |- keeps _ (lift _) => first [by apply u_lift | by auto 2]
  | |- keeps _ (tderef _) => apply u_deref
  | |- keeps _ (for_all _ _) => apply u_for_all; intros ?; u_go unf
  | |- keeps _ (for_each _ _ _) => apply u_for_each; intros ? ?; u_go unf
  | |- _ => solve [done | auto 2 | progress unf; u_go unf]
  end.

Definition arrays (t : tool_state) := (g_objs t, g_obj_count t, g_links t, g_link_count t).

(** ** The load command *)

Section Load.
Context {E : KernelEnv} {L : KernelLaws E} {U : ToolEnv} {V : LoadEnv}.

(** Where the module's map is pinned. *)
Definition shared_pin : bytes := lit "/sys/fs/bpf/bpfima_policy_map".

(** Every object file was built for the current layout of the policy map. *)
Definition current_abi : Prop :=
  forall k obj map, env_object k = Some obj -> map ∈ ob_maps obj ->
    strcmp (md_name map) POLICY_MAP_NAME = 0 -> is_policy_map map = true.

Definition load_ok (bound : Prop) (e : tool_event) : Prop :=
  (attaches e -> bound) /\ (current_abi -> ~ unpins shared_pin e).

Lemma map_pin_shared map : map_pin_path map = shared_pin -> strcmp (md_name map) POLICY_MAP_NAME = 0.
Proof.
  unfold map_pin_path, path_in. change shared_pin with (lit "/sys/fs/bpf" ++ lit "/" ++ POLICY_MAP_NAME). intros H.
  rewrite strcmp_spec. change (cstr POLICY_MAP_NAME) with POLICY_MAP_NAME. generalize dependent (cstr (md_name map)).
  intros c H. rewrite take_ge in H; [by do 2 apply app_inv_head in H|].
  apply (f_equal length) in H. rewrite length_take, !length_app in H. rewrite !length_app.
  change (length POLICY_MAP_NAME) with 17%nat in H. change (length (lit "/sys/fs/bpf")) with 11%nat in *.
  change (length (lit "/")) with 1%nat in *. lia.
Qed.

Lemma link_pin_shared prog : link_pin_path prog <> shared_pin.
Proof. intros H. apply (f_equal (fun l => l !! 18%nat)) in H. by vm_compute in H. Qed.

Lemma load_ok_common bound e : common e = true -> load_ok bound e.
Proof. intros He. split; [by destruct e as [[]| | | | | | | | | | | | | | |]|]. intros _ [->| ->]; done. Qed.

Lemma load_ok_object bound n : load_ok bound (Acquired (RObject n)) /\ load_ok bound (Released (RObject n)).
Proof. split; (split; [done|]); by intros _ [|]. Qed.

Lemma unpins_path path path' : unpins path (Unlinked path') \/ unpins path (MapUnpinned path') -> path' = path.
Proof. by intros [[[= ->]|H]|[H|[= ->]]]. Qed.

Lemma load_ok_links bound prog : load_ok bound (Unlinked (link_pin_path prog)).
Proof. split; [done|]. intros _ H. apply (link_pin_shared prog), unpins_path. by left. Qed.

Lemma load_ok_maps bound k obj map :
  env_object k = Some obj -> map ∈ ob_maps obj ->
  (is_policy_map map = false -> load_ok bound (MapUnpinned (map_pin_path map))) /\
  (strcmp (md_name map) POLICY_MAP_NAME <> 0 -> load_ok bound (Unlinked (map_pin_path map))).
Proof.
  intros Hk Hm. split; intros Hp; (split; [done|]); intros Habi H.
  - assert (Hs : strcmp (md_name map) POLICY_MAP_NAME = 0) by (apply map_pin_shared, unpins_path; by right).
    pose proof (Habi k obj map Hk Hm Hs). congruence.
  - apply Hp, map_pin_shared, unpins_path. by left.
Qed.

Lemma load_ok_pid bound : load_ok bound (Unlinked PID_FILE).
Proof. split; [done|]. intros _ H. assert (PID_FILE = shared_pin) as Hp by (apply unpins_path; by left). by vm_compute in Hp. Qed.

Lemma load_ok_mono (B B' : Prop) e : (B -> B') -> load_ok B e -> load_ok B' e.
Proof. intros HB [H1 H2]. split; auto. Qed.

Lemma fresh_inv ok s : inv ok [] s [] (fresh s).
Proof.
  assert (Hs : forall A, slots (replicate 8 (@None A)) 0).
  { intros A. split; [done|lia|]. intros i a Hi. apply lookup_replicate in Hi as [? _]. done. }
  split; [exists (k_next s); by rewrite set_next_eta|apply Hs|apply Hs| |done|by exists []].
  intros i n obj Hi. apply lookup_replicate in Hi as [? _]. done.
Qed.

(** What a run of [load] guarantees. *)
Record load_result (pcr : bytes) (vs : list bytes) (s : kstate) (rc : Z) (t : tool_state) : Prop := LoadResult {
  (** The exit code. *)
  lr_code : rc = 0 \/ rc = 1;
  (** The module is consistent and its policies are as before. *)
  lr_module : kept pcr vs (active_policies s) (t_kernel t);
  (** No object and no link is left, and what was acquired is released or the
      descriptor of a monitored file. *)
  lr_empty : empty t;
  lr_balance : acquired (t_trace t) ≡ₚ released (t_trace t) ++ open_fds (g_monitored_files t);
  (** No program was attached without a bound policy store. *)
  lr_bound : forall e, e ∈ t_trace t -> attaches e -> policy_map (k_policy (t_kernel t)) <> None;
  (** The pin of the policy map was not removed. *)
  lr_pin : current_abi -> forall e, e ∈ t_trace t -> ~ unpins shared_pin e;
}.

(** The end of the command, from a state that owes nothing. *)
Lemma twp_load_cleanup (bound : Prop) s err t :
  inv (load_ok bound) [] s [] t ->
  twp (load_cleanup err) (fun rc t' =>
    rc = err /\ inv (load_ok bound) [] s [] t' /\ empty t') t.
Proof.
  intros Hi. set (ok := load_ok bound) in *.
  assert (Hc : forall e, common e = true -> ok e) by apply load_ok_common.
  assert (Ht : triple ok [] s [] (if env_persist && negb (truth err) then tret tt else
    unpin_maps_from_loaded_objects $; unpin_links_from_loaded_objects) (fun _ => [])).
  { destruct (_ && _); [by apply t_ret|]. eapply t_bind; [apply t_unpin_maps, load_ok_maps|]. intros [].
    apply t_unpin_links, load_ok_links. }
  apply twp_bind. eapply twp_mono; [by apply Ht|]. intros [] t1 Hi1. apply twp_bind.
  eapply twp_mono; [by apply (twp_destroy_runtime_state ok [] s Hc (fun n => proj2 (load_ok_object bound n)) [])|]. intros [] t2 [Hi2 He].
  apply twp_bind. unfold remove_pid_file, unlink. apply twp_bind, twp_bind.
  change (twp (emit ?e) ?Q t2) with (Q tt (with_trace [e] t2)). cbv beta.
  apply (twp_answer ok [] s []); [exact (inv_emit ok [] s [] [] (Unlinked PID_FILE) t2 Hi2 (load_ok_pid bound) (reflexivity _))|].
  intros z k t' Hi3. by split_and!.
Qed.

Lemma u_read_pid_file : keeps arrays read_pid_file.
Proof. u_go ltac:(unfold read_pid_file, get_fd, opened, answer, close_fd). Qed.

Lemma u_is_process_running pid : keeps arrays (is_process_running pid).
Proof. u_go ltac:(unfold is_process_running, answer). Qed.

Lemma u_single_instance : keeps arrays ensure_single_instance.
Proof.
  pose proof u_read_pid_file. pose proof u_is_process_running. u_go ltac:(unfold ensure_single_instance).
Qed.

(** An array that is empty at the start is empty at the end. *)
Lemma untouched_empty {A} (m : T A) s (Q : A -> tool_state -> Prop) :
  keeps arrays m -> twp m Q (fresh s) -> twp m (fun a t => Q a t /\ empty t) (fresh s).
Proof.
  intros Hu. specialize (Hu (fresh s)). unfold twp. destruct (m (fresh s)) as [[a t]|]; [|done]. intros HQ. split; [done|].
  unfold empty, holdings. unfold arrays in Hu. injection Hu as -> -> -> ->. done.
Qed.

Lemma load_result_intro (bound : Prop) pcr vs s s1 rc t :
  rc = 0 \/ rc = 1 -> kept pcr vs (active_policies s) s1 -> (bound -> policy_map (k_policy s1) <> None) ->
  inv (load_ok bound) [] s1 [] t -> empty t -> load_result pcr vs s rc t.
Proof.
  intros Hrc [[ws Hi] Ha] Hb [(n & Hk) _ _ _ Hbal (es & Htr & Hok)] He. cbn in Htr. rewrite <- Htr in Hok.
  rewrite Forall_forall in Hok. split; try done.
  - rewrite Hk. split; [|done]. exists ws. by apply sys_inv_next.
  - destruct He as (_ & _ & He). by rewrite He in Hbal.
  - intros e Hin Hat. rewrite Hk. by apply Hb, (proj1 (Hok e Hin)).
  - intros Habi e Hin. by apply (proj2 (Hok e Hin)).
Qed.

(** Loading the objects and running the daemon, with a bound store. *)
Lemma twp_load_and_run s files daemon_mode t :
  inv (load_ok True) [] s [] t ->
  twp (load_and_run files daemon_mode) (fun rc t' => (rc = 0 \/ rc = 1) /\ inv (load_ok True) [] s [] t') t.
Proof.
  intros Hi. pose proof (load_ok_common True) as Hc. pose proof (load_ok_links True) as Hl. pose proof (load_ok_maps True) as Hm.
  assert (Ha : forall e, attaches e -> load_ok True e).
  { intros e He. split; [done|]. intros _ [->| ->]; done. }
  assert (Ho : forall n, load_ok True (Acquired (RObject n))) by (intros n; apply load_ok_object).
  apply twp_bind. eapply twp_mono; [by apply t_load_all|]. intros rc t1 Hi1. cbv beta in Hi1.
  destruct (rc <? 0); [by split; [right|]|]. destruct daemon_mode; [|by split; [left|]].
  apply twp_bind. eapply twp_mono; [by apply t_run_daemon_loop|]. intros rc' t2 Hi2. split; [|done].
  destruct (rc' <? 0); [by right|by left].
Qed.

Lemma load_runs files daemon_mode pcr vs s :
  sys_inv pcr vs s -> fds_ok s ->
  twp (cmd_load files daemon_mode) (load_result pcr vs s) (fresh s).
Proof.
  intros Hs Hfd. unfold cmd_load. pose proof (load_ok_common False) as Hc.
  assert (Hk : kept pcr vs (active_policies s) s) by (rewrite <- (set_next_eta s) at 2; by apply kept_same).
  assert (Hquit : forall t, inv (load_ok False) [] s [] t -> empty t -> load_result pcr vs s 1 t).
  { intros t Hi He. apply (load_result_intro False pcr vs s s); [by right|done..]. }
  apply twp_bind. eapply twp_mono; [apply untouched_empty; [apply u_single_instance|]|].
  { apply (t_single_instance (load_ok False) [] s Hc); [|apply fresh_inv]. intros pid b. split; [done|]. intros _ [|]; done. }
  intros rc t1 [Hi1 Ha1]. destruct (rc <? 0); [by apply Hquit|].
  unfold set_rlimit. apply twp_bind, twp_bind, (twp_answer (load_ok False) [] s []); [done|]. intros rlim k t2 Hi2.
  apply twp_ret. destruct (truth rlim); [by apply Hquit|].
  apply twp_bind. destruct (iv_kernel _ _ _ _ _ Hi2) as [n Hn].
  eapply twp_mono; [apply (twp_ensure pcr vs); rewrite Hn; [by apply sys_inv_next|exact Hfd]|].
  intros rc1 t3 [Ho3 [Hk1 Hrc1]]. assert (Hk3 : kept pcr vs (active_policies s) (t_kernel t3)) by (by rewrite Hn in Hk1).
  destruct Hrc1 as [->|[-> Hb]].
  - apply (inv_owes _ (load_ok False) _ _ _ _ t3) in Hi2; [|done|done|done]. apply twp_bind. change (- 1 <? 0) with true. cbv iota.
    apply twp_ret. eapply twp_mono; [by apply (twp_load_cleanup False (t_kernel t3) 1)|]. intros rc2 t4 (-> & Hi4 & He).
    apply (load_result_intro False pcr vs s (t_kernel t3)); [by right|done|done|done|done].
  - apply (inv_owes _ (load_ok True) _ _ _ _ t3) in Hi2; [|intros e; by apply load_ok_mono|by apply load_ok_common|done].
    apply twp_bind. change (0 <? 0) with false. cbv iota.
    eapply twp_mono; [by apply (twp_load_and_run (t_kernel t3))|]. intros err t4 [Herr Hi4].
    eapply twp_mono; [by apply (twp_load_cleanup True (t_kernel t3) err)|]. intros rc2 t5 (-> & Hi5 & He).
    by apply (load_result_intro True pcr vs s (t_kernel t3)).
Qed.

(** C25: [bpfima_tool load] cleans up after itself. For every list of object
    files and every behaviour of libbpf, of the file system and of the process
    table, the command writes only inside its arrays of 8 objects and 8 links
    and returns 0 or 1; it keeps the module consistent with its policies as they
    were; at the end every object and every link is closed, and every descriptor,
    those of the policy map, of the securityfs files, of the pins, of the PID
    file and of the dumped files and directories included, is closed or belongs
    to a monitored file; no program was attached or swapped unless the policy
    store of the module was bound; and the pin of the policy map was not removed
    when every object has the current layout of that map. *)
Theorem cmd_load_spec files daemon_mode pcr vs s :
  sys_inv pcr vs s -> fds_ok s ->
  twp (cmd_load files daemon_mode) (load_result pcr vs s) (fresh s).
Proof. apply load_runs. Qed.
End Load.
