(* ===== verification/ToolUnloadSpec.v ===== *)
(** * Unloading

    [unload] signals only a process that a PID file may name, removes nothing
    while that process is seen, and removes the pin of the policy map exactly
    when its calls do not show that this is the map that the module has bound:
    the identifier that the module prints in its status file is the one that the
    tool reads there. *)

From S2P Require Import Prelude CString Types Kernel Sample Pattern Snapshot Wire KfuncBuffer HashUtils Tpm PolicyMap Merkle MerkleSpec MerkleInv PolicyNamespace PolicyManager PolicySpec PolicyInv PolicyLog PolicyBind PolicyAudit Container ContainerSpec ContainerRules ContainerInv Kfuncs KfuncsInv KfuncsSpec Lifecycle LifecycleSpec PolicyFiles PolicyFilesSpec LogFiles Frame Requests System YamlParser YamlParserSpec YamlRoundtrip ToolState ToolLogic Tool ToolSpec ToolLoad ToolLoadSpec.

(** ** The status file *)

Lemma fgets_line n x rest :
  x0a ∉ x -> (length x < n)%nat -> fgets n (x ++ x0a :: rest) = (x ++ [x0a], rest).
Proof.
  revert n. induction x as [|b x IH]; intros [|n] Hx Hn; cbn in Hn; try lia; cbn; [done|].
  destruct (byte_eqb_spec b x0a) as [->|Hb]; [set_solver|]. rewrite IH; [done|set_solver|lia].
Qed.

(** A line that is not the one looked for. *)
Record other_line (x : bytes) : Prop := OtherLine {
  ol_newline : x0a ∉ x;
  ol_length : (length x < 255)%nat;
  ol_scan : scan_map_id (x ++ NL) = None;
}.

Lemma scan_skip lines rest fuel :
  Forall other_line lines -> (length lines <= fuel)%nat ->
  scan_status fuel (flat_map (fun x => x ++ NL) lines ++ rest) = scan_status (fuel - length lines) rest.
Proof.
  revert fuel. induction lines as [|x lines IH]; intros fuel Hf Hl; cbn [flat_map length app]; [by rewrite Nat.sub_0_r|].
  apply Forall_cons in Hf as [[H1 H2 H3] Hf]. cbn in Hl. destruct fuel as [|fuel]; [lia|]. cbn [scan_status].
  rewrite <- !app_assoc. cbn [NL app]. rewrite bool_decide_false by (by destruct x).
  rewrite fgets_line by done. change (x ++ [x0a]) with (x ++ NL). rewrite H3, IH by (done || lia). done.
Qed.

Lemma decimal_no_newline z : x0a ∉ decimal z.
Proof. intros H%decimal_fuel_digits. change (u8_val x0a) with 10 in H. lia. Qed.

(** Numbers as they stand in the file. *)
Record number_text (d : bytes) : Prop := NumberText { nt_newline : x0a ∉ d; nt_length : (length d <= 21)%nat }.

Lemma decimal_number z : number_text (decimal z).
Proof. split; [apply decimal_no_newline|]. pose proof (decimal_fuel_length 20 z). unfold decimal. lia. Qed.

Lemma decimal_int_number z : number_text (decimal_int z).
Proof.
  unfold decimal_int. destruct (z <? 0); [|apply decimal_number]. destruct (decimal_number (- z)) as [H1 _].
  assert (Hm : x0a ∉ lit "-") by (apply (bool_decide_unpack _); by vm_compute).
  split; [by intros [H|H]%elem_of_app|].
  rewrite length_app. change (length (lit "-")) with 1%nat. pose proof (decimal_fuel_length 20 (- z)). unfold decimal. lia.
Qed.

Lemma cstr_app a b : nul_free a -> cstr (a ++ b) = a ++ cstr b.
Proof.
  induction a as [|c a IH]; intros Hf; [done|]. cbn. destruct (byte_eqb_spec c NUL) as [->|]; [destruct Hf; by left|].
  f_equal. apply IH. intros H. apply Hf. by right.
Qed.

(** A line whose key differs from the one looked for at position [i]. *)
Lemma other_key key d i :
  (i < 14)%nat -> (i < length key)%nat -> (length key <= 30)%nat -> x0a ∉ key -> nul_free key ->
  key !! i <> lit "policy_map_id=" !! i -> number_text d -> other_line (key ++ lit "=" ++ d).
Proof.
  intros Hi Hk Hl Hn Hf Hd [H1 H2]. split.
  - assert (Hm : x0a ∉ lit "=") by (apply (bool_decide_unpack _); by vm_compute).
    by intros [H|[H|H]%elem_of_app]%elem_of_app.
  - rewrite !length_app. change (length (lit "=")) with 1%nat. lia.
  - unfold scan_map_id. rewrite bool_decide_false; [done|]. intros H. apply Hd. rewrite <- H. clear H.
    rewrite lookup_take_lt by (change (length (lit "policy_map_id=")) with 14%nat; lia).
    rewrite <- !app_assoc, cstr_app by done. by rewrite lookup_app_l.
Qed.

Lemma parse_digits_line ds acc seen :
  Forall (fun b => digit_value b < 10) ds ->
  parse_integer 10 acc (ds ++ NL) seen =
    (foldl (fun a b => a * 10 + digit_value b) acc ds, seen || negb (bool_decide (ds = [])), NL).
Proof.
  revert acc seen. induction ds as [|b ds IH]; intros acc seen Hd; cbn [parse_integer foldl app].
  { by rewrite orb_false_r. }
  apply Forall_cons in Hd as [Hb Hd]. destruct (Z.ltb_spec (digit_value b) 10); [|lia].
  rewrite IH by done. by rewrite orb_true_r.
Qed.

(** A printed number at the end of a line: no blanks, no sign, all digits. *)
Lemma decimal_line v :
  is_u32 v ->
  cstr (decimal v ++ NL) = decimal v ++ NL /\
  match skip_spaces (decimal v ++ NL) with
  | x2d :: s' => (true, s') | x2b :: s' => (false, s') | _ => (false, skip_spaces (decimal v ++ NL))
  end = (false, decimal v ++ NL) /\
  parse_integer 10 0 (decimal v ++ NL) false = (v, true, NL).
Proof.
  intros Hv. unfold is_u32 in Hv. pose proof (decimal_plain v) as Hp. split_and!.
  - apply cstr_id. intros [H|H]%elem_of_app; [by eapply plain_nul_free|]. by apply (bool_decide_pack _) in H.
  - destruct (decimal v) as [|b rest] eqn:Eb.
    { pose proof (decimal_length_pos v) as Hl. rewrite Eb in Hl. cbn in Hl. lia. }
    pose proof Hp as [Hpb _]%Forall_cons. by rewrite <- app_comm_cons, skip_spaces_plain, no_sign.
  - pose proof (print_fuel_value 10 decimal_digit ltac:(lia) decimal_digit_spec 20 v ltac:(lia)) as Hval.
    pose proof (print_fuel_digits 10 decimal_digit ltac:(lia) decimal_digit_spec 20 v) as Hd. rewrite <- decimal_print in *.
    rewrite parse_digits_line by done. fold (digits_value 10 (decimal v)). rewrite Hval, bool_decide_false; [done|].
    intros He. pose proof (decimal_length_pos v) as Hl. rewrite He in Hl. cbn in Hl. lia.
Qed.

(** The identifier is read back. *)
Lemma strtoul_line v : is_u32 v -> strtoul (decimal v ++ NL) 10 = (v, false, NL).
Proof.
  intros Hv. destruct (decimal_line v Hv) as (H1 & H2 & H3). unfold strtoul. rewrite H1, H2. cbv zeta.
  change (10 =? 0) with false. cbv iota. rewrite H3. cbn [negb]. unfold U64_MAX, is_u32 in *.
  by destruct (Z.gtb_spec v (2 ^ 64 - 1)); [lia|].
Qed.

Lemma strtol_line v : is_u32 v -> strtol (decimal v ++ NL) = (v, false, NL).
Proof.
  intros Hv. destruct (decimal_line v Hv) as (H1 & H2 & H3). unfold strtol. rewrite H1, H2. cbv zeta.
  rewrite H3. cbn [negb]. unfold is_u32 in *. destruct (Z.gtb_spec v (2 ^ 63 - 1)); [lia|].
  by destruct (Z.ltb_spec v (- 2 ^ 63)); [lia|].
Qed.

Lemma scan_map_id_line v : is_u32 v -> scan_map_id (lit "policy_map_id" ++ lit "=" ++ decimal v ++ NL) = Some v.
Proof.
  intros Hv. unfold scan_map_id. set (key := lit "policy_map_id=").
  assert (Hnf : nul_free (decimal v ++ NL)).
  { intros [H|H]%elem_of_app; [by eapply plain_nul_free, H; apply decimal_plain|]. by apply (bool_decide_pack _) in H. }
  assert (Hkf : nul_free key) by (apply (bool_decide_unpack _); by vm_compute).
  assert (Hc : cstr (lit "policy_map_id" ++ lit "=" ++ decimal v ++ NL) = key ++ decimal v ++ NL).
  { change (lit "policy_map_id" ++ lit "=" ++ decimal v ++ NL) with (key ++ decimal v ++ NL).
    by rewrite cstr_app, (cstr_id _ Hnf). }
  rewrite Hc, take_app_length, drop_app_length, bool_decide_true by done. rewrite strtoul_line by done.
  rewrite bool_decide_false; [|intros H; apply (f_equal length) in H; rewrite length_app in H;
    pose proof (decimal_length_pos v); lia].
  f_equal. unfold to_u32. unfold is_u32 in Hv. by rewrite Z.mod_small.
Qed.

Lemma scan_found lines v :
  Forall other_line lines -> is_u32 v ->
  let text := flat_map (fun x => x ++ NL) lines ++ key_value (lit "policy_map_id") (decimal v) in
  scan_status (length text) text = v.
Proof.
  intros Hl Hv text. unfold text. clear text.
  assert (Hlen : (length lines < length (flat_map (fun x => x ++ NL) lines ++ key_value (lit "policy_map_id") (decimal v)))%nat).
  { clear. induction lines as [|x lines IH]; cbn [flat_map length app].
    - unfold key_value. rewrite !length_app. change (length (lit "policy_map_id")) with 13%nat. lia.
    - rewrite <- !app_assoc, length_app. cbn [NL app length]. lia. }
  rewrite scan_skip by (done || lia). destruct (_ - _)%nat as [|fuel] eqn:Ef; [lia|]. cbn [scan_status].
  rewrite bool_decide_false by done. unfold key_value. rewrite !app_assoc.
  change (((lit "policy_map_id" ++ lit "=") ++ decimal v) ++ NL) with (((lit "policy_map_id" ++ lit "=") ++ decimal v) ++ x0a :: []).
  rewrite fgets_line.
  - change [x0a] with NL. rewrite <- !app_assoc, scan_map_id_line by done. done.
  - assert (Hk : x0a ∉ lit "policy_map_id" ++ lit "=") by (apply (bool_decide_unpack _); by vm_compute).
    intros [H|H]%elem_of_app; [done|by apply decimal_no_newline in H].
  - rewrite length_app. pose proof (decimal_fuel_length 20 v). unfold decimal.
    change (length (lit "policy_map_id" ++ lit "=")) with 14%nat. lia.
Qed.

Lemma answer_text (b : bool) : number_text (if b then lit "yes" else lit "no").
Proof. destruct b; (split; [apply (bool_decide_unpack _); by vm_compute|apply (bool_decide_unpack _); by vm_compute]). Qed.

(** The lines before the identifier. *)
Lemma status_lines pcr_index available error generation :
  number_text available ->
  Forall other_line [lit "module=bpfima"; lit "pcr_index" ++ lit "=" ++ decimal_int pcr_index;
    lit "tpm_available" ++ lit "=" ++ available; lit "digest_algorithm=sha256";
    lit "commit_error" ++ lit "=" ++ decimal_int error; lit "policy_generation" ++ lit "=" ++ decimal generation].
Proof.
  intros Ha. assert (Hc : forall x, bool_decide (x0a ∉ x) && (length x <? 255)%nat && bool_decide (scan_map_id (x ++ NL) = None) = true ->
    other_line x).
  { intros x. rewrite !andb_true_iff, !bool_decide_eq_true, Nat.ltb_lt. intros [[]]. by split. }
  assert (Hk : forall key d i, bool_decide ((i < 14)%nat /\ (i < length key)%nat /\ (length key <= 30)%nat /\ (x0a ∉ key) /\
    (NUL ∉ key) /\ key !! i <> lit "policy_map_id=" !! i) = true -> number_text d -> other_line (key ++ lit "=" ++ d)).
  { intros key d i Hb Hd. apply bool_decide_eq_true in Hb as (? & ? & ? & ? & ? & ?). by apply (other_key key d i). }
  pose proof decimal_number. pose proof decimal_int_number.
  rewrite !Forall_cons, Forall_nil. split_and!; [by apply Hc; vm_compute| | |by apply Hc; vm_compute| | |done].
  - apply (Hk _ _ 1%nat); [by vm_compute|done].
  - apply (Hk _ _ 0%nat); [by vm_compute|done].
  - apply (Hk _ _ 0%nat); [by vm_compute|done].
  - apply (Hk _ _ 7%nat); [by vm_compute|done].
Qed.

Section Unload.
Context {E : KernelEnv} {L : KernelLaws E} {U : ToolEnv} {V : LoadEnv}.

Lemma sys_inv_error pcr vs e n s : e < 0 -> sys_inv pcr vs s -> sys_inv pcr vs (set_next n (set_error e s)).
Proof. intros He [Hm Hp]. split; [by apply module_inv_error|exact Hp]. Qed.

(** The status file ends with the identifier of the bound map, which is the
    first that the tool finds. *)
Lemma wp_status_show pcr vs s :
  sys_inv pcr vs s -> is_u32 (bound_id s) ->
  wp status_show (fun text s' =>
    sys_inv pcr vs s' /\ k_policy s' = k_policy s /\ scan_status (length text) text = bound_id s) s.
Proof.
  intros Hi Hid. pose proof (li_error _ _ _ (mi_log _ _ _ _ _ (proj1 Hi))) as Hle.
  assert (Hgo : forall (chip : option (list Z)) error s', sys_inv pcr vs s' -> k_policy s' = k_policy s ->
    wp (let* generation := bpfima_policy_generation in
        let* map_id := bpfima_policy_map_id in
        ret (lit "module=bpfima" ++ NL ++ key_value (lit "pcr_index") (decimal_int bpfima_tpm_pcr_index) ++
          key_value (lit "tpm_available") (if match chip with Some _ => true | None => false end then lit "yes" else lit "no") ++
          lit "digest_algorithm=sha256" ++ NL ++ key_value (lit "commit_error") (decimal_int error) ++
          key_value (lit "policy_generation") (decimal generation) ++ key_value (lit "policy_map_id") (decimal map_id)))
      (fun text s' => sys_inv pcr vs s' /\ k_policy s' = k_policy s /\ scan_status (length text) text = bound_id s) s').
  { intros chip error s' Hi' Hk. apply wp_bind, wp_policy_generation; [apply Hi'|]. intros g.
    apply wp_bind, wp_policy_map_id; [apply Hi'|]. apply wp_ret. split_and!; [done|done|].
    assert (Hb : bound_id s' = bound_id s) by (unfold bound_id; by rewrite Hk). rewrite Hb.
    set (yn := if match chip with Some _ => true | None => false end then lit "yes" else lit "no").
    assert (Hyn : number_text yn) by apply answer_text.
    pose proof (scan_found _ (bound_id s) (status_lines bpfima_tpm_pcr_index yn error g Hyn) Hid) as Hs.
    cbn [flat_map] in Hs. cbv zeta in Hs. unfold key_value in *. rewrite <- !app_assoc in *. cbn [app] in Hs. exact Hs. }
  unfold status_show. apply wp_bind, wp_default_chip. intros chip n. cbv zeta. apply wp_bind.
  unfold bpfima_commit_get_error. apply wp_commit_check.
  - intros e n' He Hcase _. cbn in Hcase. apply (Hgo chip e); [|done].
    apply sys_inv_error; [lia|by apply sys_inv_next].
  - intros n' H0. apply (Hgo chip 0); [by do 2 apply sys_inv_next|done].
Qed.

(** ** The PID file and the command line *)

(** What the daemon writes is what [unload] reads. *)
Lemma pid_roundtrip pid : 1 < pid <= INT_MAX -> parse_pid (decimal_int pid ++ [x0a]) = pid.
Proof.
  intros Hp. unfold INT_MAX in Hp. unfold decimal_int. destruct (Z.ltb_spec pid 0); [lia|]. unfold parse_pid.
  destruct (decimal_number pid) as [Hn Hl]. rewrite fgets_line by (done || lia). change [x0a] with NL.
  rewrite bool_decide_false by (intros H'; by apply app_eq_nil in H' as [_ H']).
  rewrite strtol_line by (unfold is_u32; lia). cbn. unfold INT_MAX.
  destruct (Z.leb_spec pid 1); [lia|]. by destruct (Z.gtb_spec pid 2147483647); [lia|].
Qed.

(** [load] gets at least one file and at most as many as its array holds. *)
Lemma load_files_bound euid argv files daemon :
  parse_command euid argv = Load files daemon -> (0 < length files <= NUMBER_HOOKS)%nat.
Proof.
  assert (Ha : forall args fs d fs' d', (length fs <= NUMBER_HOOKS)%nat -> load_arguments args fs d = Some (fs', d') ->
    (length fs' <= NUMBER_HOOKS)%nat).
  { induction args as [|arg args IH]; intros fs d fs' d' Hl; cbn [load_arguments]; [by intros [= <- <-]|].
    destruct (is_word _ _); [by apply IH|]. destruct (Nat.leb_spec NUMBER_HOOKS (length fs)); [done|]. apply IH.
    rewrite length_app. cbn. lia. }
  unfold parse_command. destruct argv as [|prog [|cmd args]]; try done. cbv zeta. destruct (_ && _); [done|].
  destruct (is_word (lit "load") cmd); [|by repeat case_match]. destruct args as [|arg args]; [done|].
  destruct (load_arguments (arg :: args) [] false) as [[[|f fs] d]|] eqn:El; try done. intros [= <- <-].
  split; [cbn; lia|]. eapply (Ha (arg :: args) [] false); [cbn; lia|exact El].
Qed.

(** ** Keeping the pin *)

(** What the answers from call [k] on say about the pin: [bpf_obj_get] opens it,
    the map has the layout of a policy map, the status file can be opened, and
    the identifiers of the pinned map and of the bound map are the same. *)
Definition pin_kept (s : kstate) (k : nat) : bool :=
  let '(rc, info) := env_map_info (S k) in
  (0 <=? env_obj_get k) && negb (truth rc) && (mi_value_size info =? SIZEOF_POLICY_STATE) &&
  (mi_map_flags info =? BPFIMA_POLICY_MAP_FLAGS) && (0 <=? env_open (S (S k))) &&
  truth (bound_id s) && (bound_id s =? mi_id info).

Lemma asked_start t : asked (t_kernel t) t.
Proof. exists (k_next (t_kernel t)). by rewrite set_next_eta. Qed.

(** The decision is the one that the answers give, and the descriptors are closed. *)
Lemma twp_preserve pcr vs s t :
  sys_inv pcr vs s -> is_u32 (bound_id s) -> asked s t ->
  twp preserve_policy_pin (fun keep t' =>
    owes t [] t' /\ sys_inv pcr vs (t_kernel t') /\ k_policy (t_kernel t') = k_policy s /\
    keep = pin_kept s (k_next (t_kernel t))) t.
Proof.
  intros Hs Hid Ha. unfold preserve_policy_pin, bpf_obj_get, bpf_map_get_info_by_fd, open_file, open_endpoint.
  set (k := k_next (t_kernel t)). unfold pin_kept.
  assert (Hno : forall t', owes t [] t' -> asked s t' ->
    owes t [] t' /\ sys_inv pcr vs (t_kernel t') /\ k_policy (t_kernel t') = k_policy s).
  { intros t' Ho [n ->]. split_and!; [done|by apply sys_inv_next|done]. }
  apply twp_bind. eapply twp_owes_descriptor; [apply owes_start|exact Ha|]. intros t1 fd Ho1 Ha1 Hn1.
  fold k in fd, Hn1. destruct (Z.ltb_spec fd 0) as [Hneg|Hpos].
  { apply twp_ret. destruct (Hno t1 Ho1 Ha1) as (H1 & H2 & H3). split_and!; [done..|].
    destruct (env_map_info (S k)). by destruct (Z.leb_spec 0 (env_obj_get k)); [unfold fd in *; lia|]. }
  destruct (Z.leb_spec 0 (env_obj_get k)) as [_|]; [|unfold fd in *; lia].
  apply twp_bind. eapply twp_owes_answer; [exact Ho1|exact Ha1|]. intros t2 Ho2 Ha2 Hn2. rewrite Hn1 in *.
  destruct (env_map_info (S k)) as [rc info]. cbn [andb].
  apply twp_bind. eapply twp_owes_close; [exact Ho2|]. intros t3 Ho3 Hk3.
  assert (Ha3 : asked s t3) by (by eapply asked_same). rewrite <- Hk3 in Hn2.
  destruct (Hno t3 Ho3 Ha3) as (H1 & H2 & H3).
  destruct (truth rc); [apply twp_ret; by split_and!|]. destruct (mi_value_size info =? _); [|apply twp_ret; by split_and!].
  destruct (mi_map_flags info =? _); [|apply twp_ret; by split_and!]. cbn [negb orb andb].
  apply twp_bind. eapply twp_owes_descriptor; [exact Ho3|exact Ha3|]. rewrite Hn2. intros t4 file Ho4 Ha4 _.
  destruct (Z.ltb_spec file 0) as [Hneg|Hpos'].
  { apply twp_ret. destruct (Hno t4 Ho4 Ha4) as (? & ? & ?). split_and!; [done..|].
    by destruct (Z.leb_spec 0 (env_open (S (S k)))); [unfold file in *; lia|]. }
  destruct (Z.leb_spec 0 (env_open (S (S k)))) as [_|]; [|unfold file in *; lia].
  apply twp_bind. eapply twp_owes_lift; [exact Ho4|]. destruct Ha4 as [m ->].
  eapply wp_mono; [apply (wp_status_show pcr vs); [by apply sys_inv_next|exact Hid]|].
  intros text s' (Hs' & Hk & Hscan) t5 Ho5 <-. apply twp_bind. eapply twp_owes_close; [exact Ho5|]. intros t6 Ho6 Hk6.
  apply twp_ret. rewrite Hk6, Hscan. by split_and!.
Qed.

(** No check of the process any more; a pin that is kept is not removed. *)
Definition checks (e : tool_event) : Prop := match e with Alive _ _ | Signalled _ _ => True | _ => False end.

Definition clean_ok (keep : bool) (e : tool_event) : Prop :=
  ~ checks e /\ (keep = true -> ~ unpins shared_pin e).

Lemma clean_ok_common keep e : common e = true -> clean_ok keep e.
Proof. intros He. split; [intros Hx; by destruct e|]. intros _ [->| ->]; done. Qed.

Lemma clean_ok_unlink keep path : path <> shared_pin -> clean_ok keep (Unlinked path).
Proof. intros Hp. split; [by intros []|]. intros _ H. apply Hp, unpins_path. by left. Qed.

Lemma clean_ok_weaken keep e : clean_ok true e -> clean_ok keep e.
Proof. intros [H1 H2]. split; [done|]. intros _. by apply H2. Qed.

Lemma pinned_names name : name ∈ pinned_map_names -> path_in 512 BPF_MAP_DIR name <> shared_pin.
Proof.
  assert (H : Forall (fun name => bool_decide (path_in 512 BPF_MAP_DIR name = shared_pin) = false) pinned_map_names)
    by (by repeat (apply Forall_cons; split; [by vm_compute|]); apply Forall_nil).
  intros Hin. rewrite Forall_forall in H. by apply H, bool_decide_eq_false in Hin.
Qed.

(** Another stage of the same run, and back. *)
Lemma inv_stage (ok ok' : tool_event -> Prop) tr0 s h t : inv ok tr0 s h t -> inv ok' (t_trace t) s h t.
Proof. intros [H1 H2 H3 H4 H5 _]. split; try done. exists []. by rewrite app_nil_r. Qed.

Lemma inv_unstage (ok : tool_event -> Prop) tr0 s h t s' h' t' :
  inv ok tr0 s h t -> inv ok (t_trace t) s' h' t' -> inv ok tr0 s' h' t'.
Proof.
  intros [_ _ _ _ _ (es & Hes & Hf)] [H1 H2 H3 H4 H5 (es' & Hes' & Hf')]. split; try done. exists (es ++ es').
  rewrite Hes', Hes, app_assoc. split; [done|]. by apply Forall_app.
Qed.

(** A removal is in the trace. *)
Lemma twp_remove_pin ok tr0 s h path t :
  (forall e, common e = true -> ok e) -> ok (Unlinked path) -> inv ok tr0 s h t ->
  twp (remove_pin path) (fun _ t' =>
    inv ok tr0 s h t' /\ Unlinked path ∈ t_trace t' /\ forall e, e ∈ t_trace t -> e ∈ t_trace t') t.
Proof.
  intros Hc Hu Hi. unfold remove_pin, unlink. apply twp_bind, twp_bind.
  change (twp (emit ?e) ?Q t) with (Q tt (with_trace [e] t)). cbv beta.
  apply (twp_answer ok tr0 s h); [exact (inv_emit ok tr0 s h h (Unlinked path) t Hi Hu (reflexivity _))|].
  intros rc k t' Hi'. apply twp_ret. split_and!; [exact Hi'| |]; cbn [t_trace t' with_trace].
  - apply elem_of_app. right. left.
  - intros e He. apply elem_of_app. by left.
Qed.

(** The loop over the names removes them all. *)
Lemma twp_remove_pins ok tr0 s h names ret t :
  (forall e, common e = true -> ok e) -> (forall name, name ∈ names -> ok (Unlinked (path_in 512 BPF_MAP_DIR name))) -> inv ok tr0 s h t ->
  twp (for_each (fun name ret => let$ rc := remove_pin (path_in 512 BPF_MAP_DIR name) in
      tret (inl (Z.lor ret rc) : Z + Z)) names ret) (fun _ t' =>
    inv ok tr0 s h t' /\ (forall name, name ∈ names -> Unlinked (path_in 512 BPF_MAP_DIR name) ∈ t_trace t') /\
    forall e, e ∈ t_trace t -> e ∈ t_trace t') t.
Proof.
  intros Hc. revert ret t. induction names as [|name names IH]; intros ret t Hn Hi; cbn [for_each].
  - apply twp_ret. split_and!; [done| |done]. intros name Hin. by apply elem_of_nil in Hin.
  - apply twp_bind, twp_bind. eapply twp_mono; [apply (twp_remove_pin ok tr0 s h); [done|apply Hn; left|done]|].
    intros rc t1 (Hi1 & Hin1 & Hgrow1). apply twp_ret. eapply twp_mono; [apply IH; [|exact Hi1]|].
    { intros name' Hin. apply Hn. by right. }
    intros r t2 (Hi2 & Hin2 & Hgrow2). split_and!; [done| |auto].
    intros name' [->|Hin]%elem_of_cons; [by apply Hgrow2|by apply Hin2].
Qed.

Lemma policy_pin_shared : policy_pin = shared_pin.
Proof. by vm_compute. Qed.

(** The pins that are always removed. *)
Definition pins_removed (tr : list tool_event) : Prop :=
  forall name, name ∈ pinned_map_names -> Unlinked (path_in 512 BPF_MAP_DIR name) ∈ tr.

Lemma twp_cleanup_maps pcr vs s tr0 t :
  sys_inv pcr vs s -> is_u32 (bound_id s) -> inv (clean_ok true) tr0 s [] t ->
  twp cleanup_pinned_maps (fun _ t' => exists s' k,
    inv (clean_ok (pin_kept s k)) tr0 s' [] t' /\ sys_inv pcr vs s' /\ k_policy s' = k_policy s /\
    (pin_kept s k = false -> Unlinked shared_pin ∈ t_trace t') /\ pins_removed (t_trace t')) t.
Proof.
  intros Hs Hid Hi. unfold cleanup_pinned_maps. apply twp_bind.
  eapply twp_mono; [apply (twp_preserve pcr vs s); [done|done|exact (iv_kernel _ _ _ _ _ Hi)]|].
  intros keep t1 (Ho & Hs' & Hk & Hkeep). set (k := k_next (t_kernel t)) in *.
  pose proof (clean_ok_common keep) as Hc.
  apply (inv_owes _ (clean_ok keep) _ _ _ _ t1) in Hi; [|intros e; apply clean_ok_weaken|done|done]. apply twp_bind.
  assert (Hpin : twp (if keep then tret 0 else remove_pin policy_pin) (fun _ t' =>
    inv (clean_ok keep) tr0 (t_kernel t1) [] t' /\ (keep = false -> Unlinked shared_pin ∈ t_trace t')) t1).
  { destruct keep; [by apply twp_ret|]. rewrite policy_pin_shared.
    eapply twp_mono; [apply (twp_remove_pin (clean_ok false) tr0 (t_kernel t1) []); [done|by split; [intros []|]|done]|].
    intros rc t' (Hi' & Hin & _). by split. }
  eapply twp_mono; [exact Hpin|]. intros ret t2 [Hi2 Hin2]. apply twp_bind.
  eapply twp_mono; [apply (twp_remove_pins (clean_ok keep) tr0 (t_kernel t1) []); [done| |exact Hi2]|].
  { intros name Hname. by apply clean_ok_unlink, pinned_names. }
  intros r t3 (Hi3 & Hnames & Hgrow). apply twp_ret. exists (t_kernel t1), k. rewrite <- Hkeep. split_and!; try done. auto.
Qed.

(** ** The unload command *)

Definition removes (e : tool_event) : Prop :=
  match e with Unlinked _ | RemovedDir _ | MapUnpinned _ => True | _ => False end.

Definition stop_ok (e : tool_event) : Prop :=
  ~ removes e /\ match e with Signalled pid _ => 1 < pid <= INT_MAX | _ => True end.

(** What a run of [unload] guarantees. *)
Record unload_result (pcr : bytes) (vs : list bytes) (s : kstate) (rc : Z) (t : tool_state) : Prop := UnloadResult {
  (** The module is consistent and its policies are as before. *)
  ur_module : kept pcr vs (active_policies s) (t_kernel t);
  (** What was acquired is released or the descriptor of a monitored file. *)
  ur_balance : acquired (t_trace t) ≡ₚ released (t_trace t) ++ open_fds (g_monitored_files t);
  (** First the process, if there is one, then the files: only a PID that the
      file may hold is signalled, and nothing is removed unless the last check
      did not find the process. *)
  ur_order : exists tr1 tr2, t_trace t = tr1 ++ tr2 /\
    (forall pid signal, Signalled pid signal ∈ tr1 -> 1 < pid <= INT_MAX) /\
    (forall e, e ∈ tr1 -> ~ removes e) /\ (forall e, e ∈ tr2 -> ~ checks e) /\
    (tr2 <> [] -> last_check tr1 <> Some true);
  (** Nothing is removed and the command fails; or the PID file and the pins of
      the hooks' maps are removed, and the pin of the policy map is removed
      exactly when the answers do not show that its map is the bound one. *)
  ur_pin : rc = 1 /\ (forall e, e ∈ t_trace t -> ~ removes e) \/
    Unlinked PID_FILE ∈ t_trace t /\ pins_removed (t_trace t) /\
    exists k, (exists e, e ∈ t_trace t /\ unpins shared_pin e) <-> pin_kept s k = false;
}.

(** The second half of the command. *)
Lemma twp_unload_files pcr vs s tr0 (running : bool) t :
  sys_inv pcr vs s -> is_u32 (bound_id s) -> inv (clean_ok true) tr0 s [] t ->
  twp ((if running then dump_securityfs_to_files else tret tt) $;
    let$ links := cleanup_pinned_links in
    let$ maps := cleanup_pinned_maps in
    let$ pid_file := remove_pin PID_FILE in
    tret (Z.lor (Z.lor links maps) pid_file)) (fun _ t' => exists s' k,
    inv (clean_ok (pin_kept s k)) tr0 s' [] t' /\ sys_inv pcr vs s' /\ k_policy s' = k_policy s /\
    (pin_kept s k = false -> Unlinked shared_pin ∈ t_trace t') /\ pins_removed (t_trace t') /\
    Unlinked PID_FILE ∈ t_trace t') t.
Proof.
  intros Hs Hid Hi. pose proof (clean_ok_common true) as Hc. apply twp_bind.
  assert (Hd : triple (clean_ok true) tr0 s [] (if running then dump_securityfs_to_files else tret tt) (fun _ => []))
    by (destruct running; [by apply t_dump|by apply t_ret]).
  eapply twp_mono; [by apply Hd|]. intros [] t1 Hi1. apply twp_bind.
  eapply twp_mono; [apply (t_cleanup_pinned_links (clean_ok true) tr0 s Hc []); [| |exact Hi1]|].
  { intros name. apply clean_ok_unlink. intros H. apply (f_equal (fun l => l !! 18%nat)) in H. by vm_compute in H. }
  { split; [by intros []|]. intros _ [|]; done. }
  intros links t2 Hi2. apply twp_bind. eapply twp_mono; [by apply (twp_cleanup_maps pcr vs s tr0)|].
  intros maps t3 (s' & k & Hi3 & Hs' & Hk & Hpin & Hnames). apply twp_bind.
  eapply twp_mono; [apply (twp_remove_pin (clean_ok (pin_kept s k)) tr0 s' [] PID_FILE);
    [apply clean_ok_common|by apply clean_ok_unlink|exact Hi3]|].
  intros rc t4 (Hi4 & Hpid & Hgrow). exists s', k. split_and!; [done|done|done|auto| |done]. intros name Hn. by apply Hgrow, Hnames.
Qed.

(** The arrays of [load] are not used. *)
Lemma u_dump : keeps arrays dump_securityfs_to_files.
Proof.
  assert (Hs : forall l, keeps arrays (sweep l)).
  { induction l as [|mf l IH]; [done|]. cbn [sweep]. u_go ltac:(unfold close_fd). }
  u_go ltac:(unfold dump_securityfs_to_files, mark_inactive, prune_monitored, monitor_namespace, monitor, make_missing_dir,
    make_dir, append_new_content, append_chunk, get_monitored_file, get_fd, opened, answer).
Qed.

Lemma u_unload : keeps arrays cmd_unload.
Proof.
  pose proof u_dump. pose proof u_read_pid_file. pose proof u_is_process_running.
  assert (Hw : forall n pid, keeps arrays (wait_exit n pid)) by (induction n as [|n IH]; intros pid; [done|]; cbn [wait_exit]; u_go idtac).
  u_go ltac:(unfold cmd_unload, stop_daemon, send_signal, cleanup_pinned_links, cleanup_pinned_maps, preserve_policy_pin,
    bpf_obj_get, bpf_map_get_info_by_fd, open_file, unpin_entry, remove_pin, unlink, get_fd, opened, close_fd, answer).
Qed.

Lemma no_checks tr : (forall e, e ∈ tr -> ~ checks e) -> last_check tr = None.
Proof.
  intros H. unfold last_check. assert (Hn : omap (fun e => match e with Alive _ b => Some b | _ => None end) tr = []); [|by rewrite Hn].
  induction tr as [|e tr IH]; [done|]. cbn. assert (He : ~ checks e) by (apply H; left).
  destruct e; try (apply IH; intros e' He'; apply H; by right). by destruct He.
Qed.

Lemma stop_ok_common e : common e = true -> stop_ok e /\ ~ checks e.
Proof. intros He. split; [split; [intros Hx; by destruct e|by destruct e]|intros Hx; by destruct e]. Qed.

Lemma inv_weaken (ok ok' : tool_event -> Prop) tr0 s h t :
  (forall e, ok e -> ok' e) -> inv ok tr0 s h t -> inv ok' tr0 s h t.
Proof.
  intros Hok [H1 H2 H3 H4 H5 (es & Hes & Hf)]. split; try done. exists es. split; [done|]. by eapply Forall_impl.
Qed.

Lemma inv_trace_ok (ok : tool_event -> Prop) s h t : inv ok [] s h t -> forall e, e ∈ t_trace t -> ok e.
Proof. intros [_ _ _ _ _ (es & Hes & Hf)] e He. cbn in Hes. rewrite Hes in He. by eapply Forall_forall in Hf. Qed.

(** The order of the events, from the two stages. *)
Lemma unload_ordered keep tr1 s' t :
  (forall e, e ∈ tr1 -> stop_ok e) -> inv (clean_ok keep) tr1 s' [] t -> (t_trace t = tr1 \/ last_check tr1 <> Some true) ->
  exists tr1 tr2, t_trace t = tr1 ++ tr2 /\
    (forall pid signal, Signalled pid signal ∈ tr1 -> 1 < pid <= INT_MAX) /\
    (forall e, e ∈ tr1 -> ~ removes e) /\ (forall e, e ∈ tr2 -> ~ checks e) /\
    (tr2 <> [] -> last_check tr1 <> Some true).
Proof.
  intros H1 [_ _ _ _ _ (es & Hes & Hf)] Hl. rewrite Forall_forall in Hf. exists tr1, es. split; [done|].
  split; [intros pid signal Hin; exact (proj2 (H1 _ Hin))|].
  split; [intros e Hin; apply (H1 e Hin)|]. split; [intros e Hin; apply (Hf e Hin)|].
  intros Hne. destruct Hl as [Hl|Hl]; [|done]. rewrite Hl in Hes. destruct es as [|e es]; [done|].
  apply (f_equal length) in Hes. rewrite length_app in Hes. cbn in Hes. lia.
Qed.

Lemma unload_module keep pcr vs s s' tr1 t :
  inv (clean_ok keep) tr1 s' [] t -> sys_inv pcr vs s' -> k_policy s' = k_policy s -> empty t ->
  kept pcr vs (active_policies s) (t_kernel t) /\ acquired (t_trace t) ≡ₚ released (t_trace t) ++ open_fds (g_monitored_files t).
Proof.
  intros [(n & Hn) _ _ _ Hbal _] Hs Hk (_ & _ & He). split; [|by rewrite He in Hbal].
  rewrite Hn. split; [|by rewrite <- (active_frame s s' Hk)]. exists []. rewrite app_nil_r. by apply sys_inv_next.
Qed.

(** The command gives up before it removes anything. *)
Lemma unload_stopped pcr vs s t :
  inv stop_ok [] s [] t -> sys_inv pcr vs s -> empty t -> unload_result pcr vs s 1 t.
Proof.
  intros Hi Hs He. assert (Hst : forall e, e ∈ t_trace t -> stop_ok e) by (by eapply inv_trace_ok).
  pose proof (inv_stage stop_ok (clean_ok true) [] s [] t Hi) as Hi'.
  destruct (unload_module true pcr vs s s (t_trace t) t Hi' Hs eq_refl He) as [Hm Hb]. split; [done|done| |].
  - by eapply unload_ordered; [exact Hst|exact Hi'|left].
  - left. split; [done|]. intros e Hin. by apply (Hst e Hin).
Qed.

Lemma unload_done pcr vs s s' k tr1 rc t :
  (forall e, e ∈ tr1 -> stop_ok e) -> inv (clean_ok (pin_kept s k)) tr1 s' [] t -> sys_inv pcr vs s' -> k_policy s' = k_policy s ->
  (pin_kept s k = false -> Unlinked shared_pin ∈ t_trace t) -> pins_removed (t_trace t) -> Unlinked PID_FILE ∈ t_trace t ->
  last_check tr1 <> Some true -> empty t -> unload_result pcr vs s rc t.
Proof.
  intros H1 Hi Hs Hk Hpin Hnames Hpid Hl He. destruct (unload_module _ pcr vs s s' tr1 t Hi Hs Hk He) as [Hm Hb].
  split; [done|done| |right].
  - by eapply unload_ordered; [exact H1|exact Hi|right].
  - split_and!; [done|done|]. exists k. split; [|intros Hf; exists (Unlinked shared_pin); split; [by apply Hpin|by left]].
    intros (e & Hin & Hu). destruct (pin_kept s k) eqn:Ek; [|done]. exfalso.
    destruct Hi as [_ _ _ _ _ (es & Hes & Hf)]. rewrite Hes in Hin. apply elem_of_app in Hin as [Hin|Hin].
    + destruct (H1 e Hin) as [Hr _]. apply Hr. by destruct Hu as [->| ->].
    + rewrite Forall_forall in Hf. by destruct (Hf e Hin) as [_ Hno]; apply Hno.
Qed.

(** C26: [bpfima_tool unload] stops first and cleans up afterwards. Whatever the
    system answers, the command ends without a fault, closes every descriptor
    that does not belong to a monitored file and keeps the module consistent
    with its policies as they were; it signals only processes with a number
    above 1, after a check of the PID file; it removes nothing until the last
    check does not find the process, and checks nothing afterwards. It either
    fails with nothing removed, or removes the PID file and the pins of the
    hooks' maps, and removes the pin of the policy map exactly when its check
    fails: the pin cannot be opened, the map has another layout, the status file
    cannot be opened, or the identifier that the module prints there, which is
    the one of the bound map, is not that of the pinned map. So the pin of the
    bound map stays when these calls succeed, and is removed when one of them
    fails. *)
Theorem cmd_unload_spec pcr vs s :
  sys_inv pcr vs s -> is_u32 (bound_id s) ->
  twp cmd_unload (unload_result pcr vs s) (fresh s).
Proof.
  intros Hs Hid.
  enough (Hw : twp cmd_unload (fun rc t => empty t -> unload_result pcr vs s rc t) (fresh s)).
  { eapply twp_mono; [apply untouched_empty; [apply u_unload|exact Hw]|]. intros rc t [Hr He]. by apply Hr. }
  assert (Hquit : forall t, inv stop_ok [] s [] t -> empty t -> unload_result pcr vs s 1 t)
    by (intros t Hi He; by apply unload_stopped).
  assert (Hc : forall e, common e = true -> stop_ok e) by (intros e He; by apply stop_ok_common).
  assert (Ha : forall pid b, stop_ok (Alive pid b)) by (intros pid b; split; [by intros []|done]).
  unfold cmd_unload. apply twp_bind.
  eapply twp_mono; [apply (twp_read_pid_file _ [] s stop_ok_common []), fresh_inv|]. intros [pid errno] t1 [Hi1 Hr].
  assert (Hl1 : last_check (t_trace t1) = None) by (apply no_checks; intros e He; by apply (inv_trace_ok _ _ _ _ Hi1)).
  apply (inv_weaken _ stop_ok) in Hi1; [|by intros e []]. cbn [fst] in Hr.
  destruct (_ && _); [by apply twp_ret, Hquit|]. apply twp_bind.
  assert (Hrun : twp (if pid <? 0 then tret false else is_process_running pid) (fun running t =>
    inv stop_ok [] s [] t /\ (running = false -> last_check (t_trace t) <> Some true) /\ (running = true -> 1 < pid <= INT_MAX)) t1).
  { destruct (Z.ltb_spec pid 0); [apply twp_ret; split_and!; [done|by rewrite Hl1|done]|].
    eapply twp_mono; [by apply (twp_is_process_running stop_ok [] s [])|]. intros b t [Hi Hl]. split_and!; [done| |lia].
    intros ->. by rewrite Hl. }
  eapply twp_mono; [exact Hrun|]. intros running t2 (Hi2 & Hf2 & Hp2). apply twp_bind.
  assert (Hgone : twp (if running then stop_daemon pid else tret true) (fun gone t =>
    inv stop_ok [] s [] t /\ (gone = true -> last_check (t_trace t) <> Some true)) t2).
  { destruct running; [|apply twp_ret; split; [done|auto]].
    eapply twp_mono; [apply (twp_stop_daemon stop_ok [] s []); [done| |done]|].
    - intros signal. split; [by intros []|auto].
    - intros gone t [Hi Hl]. split; [done|]. intros Hg. by rewrite (Hl Hg). }
  eapply twp_mono; [exact Hgone|]. intros gone t3 [Hi3 Hg3]. destruct gone; cbn [negb]; [|by apply twp_ret, Hquit].
  eapply twp_mono; [apply (twp_unload_files pcr vs s (t_trace t3)); [done|done|by eapply inv_stage]|].
  intros rc t4 (s' & k & Hi4 & Hs' & Hk & Hpin & Hnames & Hpid) He.
  eapply (unload_done pcr vs s s' k (t_trace t3)); try done; [by eapply inv_trace_ok|by apply Hg3].
Qed.
End Unload.

(** ** Concrete runs *)

Definition policy_map_desc (value_size : Z) : map_desc :=
  MapDesc POLICY_MAP_NAME false
    (BpfMapInfo BPF_MAP_TYPE_ARRAY 4 value_size (Z.of_nat BPFIMA_POLICY_MAP_ENTRIES) BPFIMA_POLICY_MAP_FLAGS 7).

(** Every call succeeds, the PID file is empty and the object has one program
    and the policy map. *)
Definition simple_load (map : map_desc) : LoadEnv := {|
  env_rc := fun _ => 0;
  env_object := fun _ => Some (BpfObject [map] [ProgDesc (lit "bpf_mmap_file") BPF_PROG_TYPE_LSM]);
  env_fstat := fun _ => Some (Stat 0x8180 0 1);
  env_euid := 0;
  env_pid_text := fun _ => [];
  env_getpid := 100;
  env_chunks := fun _ => [];
  env_readdir := fun _ => ([], 0);
  env_persist := false;
  env_rounds := 1;
|}.

Definition sample_load : LoadEnv := simple_load (policy_map_desc SIZEOF_POLICY_STATE).
Definition legacy_load : LoadEnv := simple_load (policy_map_desc 64).

Definition load_run (V : LoadEnv) : T Z := cmd_load (E := tpm_env) [lit "lsm_mmap_file.o"] true.

Lemma sample_load_ends : exists t, load_run sample_load (fresh sample_state) = Some (0, t).
Proof.
  assert (H : fst <$> load_run sample_load (fresh sample_state) = Some 0) by by vm_compute.
  apply fmap_Some in H as ([rc t] & H & ->). by exists t.
Qed.

Lemma cmd_load_spec_witness :
  exists t, load_run sample_load (fresh sample_state) = Some (0, t) /\
    load_result (E := tpm_env) (V := sample_load) (zeros MERKLE_HASH_SIZE) [] sample_state 0 t.
Proof.
  destruct sample_load_ends as [t Ht]. exists t. split; [exact Ht|].
  exact (twp_run _ _ _ _ _ Ht (cmd_load_spec (E := tpm_env) (V := sample_load) [lit "lsm_mmap_file.o"] true
    (zeros MERKLE_HASH_SIZE) [] sample_state sample_sys_inv sample_fds_ok)).
Defined.

Definition unload_run : T Z := cmd_unload (E := tpm_env) (V := sample_load).

Lemma sample_unload_ends : exists t, unload_run (fresh bound_state) = Some (0, t).
Proof.
  assert (H : fst <$> unload_run (fresh bound_state) = Some 0) by by vm_compute.
  apply fmap_Some in H as ([rc t] & H & ->). by exists t.
Qed.

Lemma sample_pin_kept k : pin_kept bound_state k = true.
Proof. by vm_compute. Qed.

(** The bound map keeps its pin. *)
Lemma cmd_unload_spec_witness :
  exists t, unload_run (fresh bound_state) = Some (0, t) /\
    unload_result (E := tpm_env) (zeros MERKLE_HASH_SIZE) [] bound_state 0 t /\
    forall e, e ∈ t_trace t -> ~ unpins shared_pin e.
Proof.
  destruct sample_unload_ends as [t Ht]. exists t. split; [exact Ht|].
  assert (Hid : is_u32 (bound_id bound_state)) by (vm_compute; split; congruence).
  pose proof (twp_run _ _ _ _ _ Ht (cmd_unload_spec (E := tpm_env) (V := sample_load) (zeros MERKLE_HASH_SIZE) [] bound_state
    bound_sys_inv Hid)) as Hr. split; [exact Hr|].
  intros e He Hu. destruct (ur_pin _ _ _ _ _ Hr) as [[Hx _]|(_ & _ & k & Hk)]; [discriminate Hx|].
  pose proof (proj1 Hk (ex_intro _ e (conj He Hu))) as Hf. rewrite sample_pin_kept in Hf. discriminate Hf.
Defined.

(** The status file cannot be opened: the bound map loses its pin. *)
Definition closed_status : ToolEnv := {|
  env_obj_get := env_obj_get (ToolEnv := sample_tool);
  env_map_create := env_map_create (ToolEnv := sample_tool);
  env_open := fun _ => - EPERM;
  env_map_freeze := env_map_freeze (ToolEnv := sample_tool);
  env_obj_pin := env_obj_pin (ToolEnv := sample_tool);
  env_map_info := env_map_info (ToolEnv := sample_tool);
|}.

Lemma unreadable_status_unpins :
  exists t, cmd_unload (E := tpm_env) (U := closed_status) (V := sample_load) (fresh bound_state) = Some (0, t) /\
    Unlinked shared_pin ∈ t_trace t /\ policy_map (k_policy (t_kernel t)) <> None.
Proof.
  assert (H : (fun r => (fst r, bool_decide (Unlinked shared_pin ∈ t_trace (snd r)),
    bool_decide (policy_map (k_policy (t_kernel (snd r))) = None))) <$>
    cmd_unload (E := tpm_env) (U := closed_status) (V := sample_load) (fresh bound_state) = Some (0, true, false)) by by vm_compute.
  apply fmap_Some in H as ([rc t] & H & He). exists t. injection He as He1 He2 He3. cbn [fst snd] in *.
  rewrite <- He1 in H. split; [done|]. symmetry in He2, He3.
  split; [exact (proj1 (bool_decide_eq_true _) He2)|exact (proj1 (bool_decide_eq_false _) He3)].
Qed.
