(* ===== verification/ToolLegacy.v ===== *)
(** * Loading an object built for another layout of the policy map

    [load] refuses such an object, but its cleanup recognises the policy map by
    its layout and not by its name, and removes the pin of the map that the
    module has bound.  The objects that a run has opened are in its array, so the
    cleanup reaches every one of them. *)

From S2P Require Import Prelude CString Types Kernel Sample Pattern Snapshot Wire KfuncBuffer HashUtils Tpm PolicyMap Merkle MerkleSpec MerkleInv PolicyNamespace PolicyManager PolicySpec PolicyInv PolicyLog PolicyBind PolicyAudit Container ContainerSpec ContainerRules ContainerInv Kfuncs KfuncsInv KfuncsSpec Lifecycle LifecycleSpec PolicyFiles PolicyFilesSpec LogFiles Frame Requests System YamlParser YamlParserSpec YamlRoundtrip ToolState ToolLogic Tool ToolSpec ToolLoad ToolLoadSpec ToolUnloadSpec.

(** ** Partial correctness *)

Definition sat {A} (m : T A) (Q : A -> tool_state -> Prop) (t : tool_state) : Prop :=
  match m t with Some (a, t') => Q a t' | None => True end.

Lemma sat_bind {A B} (m : T A) (f : A -> T B) Q t : sat m (fun a t' => sat (f a) Q t') t -> sat (tbind m f) Q t.
Proof. unfold sat, tbind. by destruct (m t) as [[a t']|]. Qed.

Lemma sat_mono {A} (m : T A) (P Q : A -> tool_state -> Prop) t : sat m P t -> (forall a t', P a t' -> Q a t') -> sat m Q t.
Proof. unfold sat. destruct (m t) as [[a t']|]; eauto. Qed.

Lemma sat_conj {A} (m : T A) (P Q : A -> tool_state -> Prop) t :
  sat m P t -> sat m Q t -> sat m (fun a t' => P a t' /\ Q a t') t.
Proof. unfold sat. by destruct (m t) as [[a t']|]. Qed.

Lemma sat_tderef {A} (o : option A) (Q : A -> tool_state -> Prop) t : (forall a, o = Some a -> Q a t) -> sat (tderef o) Q t.
Proof. unfold sat, tderef. destruct o; auto. Qed.

Lemma twp_sat {A} (m : T A) Q t : twp m Q t -> sat m Q t.
Proof. unfold twp, sat. by destruct (m t) as [[a t']|]. Qed.

Lemma twp_of_sat {A} (m : T A) P Q t : twp m P t -> sat m Q t -> twp m Q t.
Proof. unfold twp, sat. by destruct (m t) as [[a t']|]. Qed.

Lemma sat_forall {A X} (m : T A) (C : X -> Prop) (P : X -> A -> tool_state -> Prop) t :
  (forall x, C x -> sat m (P x) t) -> sat m (fun a t' => forall x, C x -> P x a t') t.
Proof. unfold sat. by destruct (m t) as [[a t']|]. Qed.

Lemma keeps_sat {A B} (f : tool_state -> B) (m : T A) t : keeps f m -> sat m (fun _ t' => f t' = f t) t.
Proof. intros Hk. exact (Hk t). Qed.

(** ** What is appended to the trace *)

Definition appends {A} (P : tool_event -> Prop) (m : T A) : Prop :=
  forall t, sat m (fun _ t' => exists es, t_trace t' = t_trace t ++ es /\ Forall P es) t.

Section Appends.
Context {P : tool_event -> Prop}.

Lemma a_bind {A B} (m : T A) (f : A -> T B) : appends P m -> (forall a, appends P (f a)) -> appends P (tbind m f).
Proof.
  intros Hm Hf t. apply sat_bind. eapply sat_mono; [apply Hm|]. intros a t1 (es & Hes & H1).
  eapply sat_mono; [apply Hf|]. intros b t2 (es' & Hes' & H2). exists (es ++ es'). rewrite Hes', Hes, app_assoc.
  split; [done|by apply Forall_app].
Qed.

Lemma a_none {A} (m : T A) : keeps t_trace m -> appends P m.
Proof. intros Hk t. eapply sat_mono; [exact (keeps_sat t_trace m t Hk)|]. cbv beta. intros a t' ->. exists []. by rewrite app_nil_r. Qed.

Lemma a_emit e : P e -> appends P (emit e).
Proof. intros He t. exists [e]. split; [done|by constructor]. Qed.

Lemma a_for_all {X} (body : X -> T unit) xs : (forall x, appends P (body x)) -> appends P (for_all body xs).
Proof. intros Hb. induction xs as [|x xs IH]; [by apply a_none|]. apply a_bind; [apply Hb|]. by intros []. Qed.

Lemma a_for_each {X St R} (body : X -> St -> T (St + R)) xs st :
  (forall x st, appends P (body x st)) -> appends P (for_each body xs st).
Proof.
  intros Hb. revert st. induction xs as [|x xs IH]; intros st; [by apply a_none|]. apply a_bind; [apply Hb|].
  intros [st'|r]; [apply IH|by apply a_none].
Qed.
End Appends.

(** Walks through a computation; [unf] unfolds what it calls. *)
Ltac a_go unf :=
  cbv beta zeta;
  lazymatch goal with
  | |- appends _ (tbind _ _) => apply a_bind; [a_go unf|intros ?; a_go unf]
  | |- appends _ (match ?x with _ => _ end) => destruct x; a_go unf
  | |- appends _ (lift _) => apply a_none, u_lift; done
  | |- appends _ (tderef _) => apply a_none, u_deref
  | |- appends _ (emit _) => apply a_emit; done
  | |- appends _ (for_all _ _) => apply a_for_all; intros ?; a_go unf
  | |- appends _ (for_each _ _ _) => apply a_for_each; intros ? ?; a_go unf
  | |- _ => solve [apply a_none; done | auto 2 | progress unf; a_go unf]
  end.

(** Opens no object. *)
Definition no_object (e : tool_event) : Prop := match e with Acquired (RObject _) => False | _ => True end.

Section Legacy.
Context {E : KernelEnv} {L : KernelLaws E} {U : ToolEnv} {V : LoadEnv}.

Lemma a_sweep l : appends no_object (sweep l).
Proof. induction l as [|mf l IH]; [by apply a_none|]. cbn [sweep]. a_go ltac:(unfold close_fd). Qed.

Lemma a_dump : appends no_object dump_securityfs_to_files.
Proof.
  pose proof a_sweep. a_go ltac:(unfold dump_securityfs_to_files, mark_inactive, prune_monitored, monitor_namespace, monitor,
    make_missing_dir, make_dir, append_new_content, append_chunk, get_monitored_file, get_fd, opened, answer, close_fd).
Qed.

Lemma a_run_daemon_loop : appends no_object run_daemon_loop.
Proof.
  pose proof a_dump. a_go ltac:(unfold run_daemon_loop, daemonize, write_pid_file, get_fd, opened, answer, close_fd).
Qed.

Lemma a_single_instance : appends no_object ensure_single_instance.
Proof.
  a_go ltac:(unfold ensure_single_instance, read_pid_file, is_process_running, get_fd, opened, answer, close_fd).
Qed.

Lemma a_set_rlimit : appends no_object set_rlimit.
Proof. a_go ltac:(unfold set_rlimit, answer). Qed.

Lemma a_ensure : appends no_object ensure_policy_map.
Proof.
  a_go ltac:(unfold ensure_policy_map, create_policy_map, bind_policy_map, bpf_obj_get, bpf_map_create, bpf_map_freeze, bpf_obj_pin,
    bpf_map_get_info_by_fd, open_file, opened, close_fd).
Qed.

Lemma a_load_cleanup err : appends no_object (load_cleanup err).
Proof.
  a_go ltac:(unfold load_cleanup, unpin_maps_from_loaded_objects, unpin_links_from_loaded_objects, for_each_loaded,
    destroy_runtime_state, destroy_links, close_objects, remove_pid_file, unlink, answer).
Qed.

Lemma a_attach_object n obj : appends no_object (attach_object n obj).
Proof.
  a_go ltac:(unfold attach_object, reuse_map, pin_map, attach_prog, update_link, unlink, get_fd, opened, answer, close_fd).
Qed.

(** ** Objects *)

(** The policy map of the object has another layout than the module's. *)
Definition legacy_map (map : map_desc) : Prop :=
  md_internal map = false /\ strcmp (md_name map) POLICY_MAP_NAME = 0 /\ is_policy_map map = false.

Definition legacy_object (obj : bpf_object) : Prop := exists map, map ∈ ob_maps obj /\ legacy_map map.

Definition objects (t : tool_state) := (g_objs t, g_obj_count t).

(** Every object that was opened is in a slot that is in use. *)
Definition stored (t : tool_state) : Prop :=
  forall n, Acquired (RObject n) ∈ t_trace t ->
    exists i obj, (i < g_obj_count t)%nat /\ g_objs t !! i = Some (Some (n, obj)) /\ env_object n = Some obj.

(** No object of the array is an old one. *)
Definition modern (t : tool_state) : Prop := forall i n obj, g_objs t !! i = Some (Some (n, obj)) -> ~ legacy_object obj.

Lemma old_trace P tr es n : Forall P es -> (forall e, P e -> no_object e) -> Acquired (RObject n) ∈ tr ++ es -> Acquired (RObject n) ∈ tr.
Proof. intros Hf Hp [H|H]%elem_of_app; [done|]. rewrite Forall_forall in Hf. by apply Hf, Hp in H. Qed.

Lemma stored_frame t t' :
  objects t' = objects t -> (exists es, t_trace t' = t_trace t ++ es /\ Forall no_object es) -> stored t -> stored t'.
Proof.
  intros Ho (es & Hes & Hf) Hs n Hn. unfold objects in Ho. injection Ho as Ho Hc. rewrite Ho, Hc. apply Hs.
  rewrite Hes in Hn. by apply (old_trace no_object) in Hn.
Qed.

Lemma modern_frame t t' : objects t' = objects t -> modern t -> modern t'.
Proof. unfold objects, modern. intros Ho. injection Ho as -> _. done. Qed.

(** The frame of a computation that neither opens an object nor changes the array. *)
Lemma sat_stored {A} (m : T A) t :
  appends no_object m -> keeps objects m -> stored t -> sat m (fun _ t' => stored t' /\ (modern t -> modern t')) t.
Proof.
  intros Ha Hk Hs. eapply sat_mono; [apply sat_conj; [exact (Ha t)|exact (keeps_sat objects m t Hk)]|].
  intros a t' [Hes Ho]. split; [by apply (stored_frame t)|by apply modern_frame].
Qed.

Lemma objs_attach_object n obj : keeps objects (attach_object n obj).
Proof.
  u_go ltac:(unfold attach_object, reuse_map, pin_map, attach_prog, update_link, unlink, get_fd, opened, answer, close_fd).
Qed.

Lemma objs_run_daemon_loop : keeps objects run_daemon_loop.
Proof.
  assert (Hs : forall l, keeps objects (sweep l)).
  { induction l as [|mf l IH]; [done|]. cbn [sweep]. u_go ltac:(unfold close_fd). }
  u_go ltac:(unfold run_daemon_loop, daemonize, write_pid_file, dump_securityfs_to_files, mark_inactive, prune_monitored,
    monitor_namespace, monitor, make_missing_dir, make_dir, append_new_content, append_chunk, get_monitored_file, get_fd, opened,
    answer, close_fd).
Qed.

(** ** Results *)

Definition returns {A} (m : T A) (P : A -> Prop) : Prop := forall t, sat m (fun a _ => P a) t.

Lemma r_ret {A} (a : A) (P : A -> Prop) : P a -> returns (tret a) P.
Proof. by intros Ha t. Qed.

Lemma r_bind {A B} (m : T A) (f : A -> T B) R P : returns m R -> (forall a, R a -> returns (f a) P) -> returns (tbind m f) P.
Proof. intros Hm Hf t. apply sat_bind. eapply sat_mono; [apply Hm|]. intros a t' Ha. by apply Hf. Qed.

Lemma r_any {A} (m : T A) : returns m (fun _ => True).
Proof. intros t. unfold sat. by destruct (m t) as [[]|]. Qed.

Lemma sat_if {A} (m : T A) (C : Prop) (P : A -> Prop) t : (C -> returns m P) -> sat m (fun a _ => C -> P a) t.
Proof. intros H. unfold returns, sat in *. destruct (m t) as [[a t']|] eqn:Em; [|done]. intros Hc. specialize (H Hc t). by rewrite Em in H. Qed.

Lemma r_skip {A B} (m : T A) (f : A -> T B) P : (forall a, returns (f a) P) -> returns (tbind m f) P.
Proof. intros Hf. eapply r_bind; [apply r_any|]. intros a _. apply Hf. Qed.

(** [reuse_map] goes on or fails, and fails for an old policy map. *)
Lemma reuse_returns map : returns (reuse_map map) (fun r => (r = None \/ r = Some 1) /\ (legacy_map map -> r = Some 1)).
Proof.
  unfold reuse_map, legacy_map. destruct (md_internal map); [apply r_ret; naive_solver|].
  destruct (Z.eqb_spec (strcmp (md_name map) POLICY_MAP_NAME) 0) as [Hn|Hn].
  - destruct (is_policy_map map); cbn [negb]; [|apply r_ret; naive_solver].
    apply r_skip. intros fd. destruct (fd <? 0); [apply r_ret; naive_solver|]. do 3 (apply r_skip; intros ?). apply r_ret.
    destruct (truth _); naive_solver.
  - assert (Hret : forall P : T (option Z), returns P (fun r => r = None) ->
      returns P (fun r => (r = None \/ r = Some 1) /\ (false = false /\ strcmp (md_name map) POLICY_MAP_NAME = 0 /\ is_policy_map map = false -> r = Some 1))).
    { intros P HP t. eapply sat_mono; [apply HP|]. intros r _ ->. naive_solver. }
    apply Hret. cbv zeta. apply r_skip. intros ex. destruct (negb _); [by apply r_ret|]. apply r_skip. intros fd.
    destruct (fd <? 0); [apply r_skip; intros ?; by apply r_ret|]. do 2 (apply r_skip; intros ?).
    destruct (truth _); repeat (apply r_skip; intros ?); by apply r_ret.
Qed.

(** So an object with an old policy map is refused. *)
Lemma reuse_all_legacy maps map :
  map ∈ maps -> legacy_map map ->
  returns (for_each (fun map (_ : unit) =>
    let$ r := reuse_map map in
    tret (match r with Some rc => inr rc | None => inl tt end)) maps tt) (fun r => r = inr 1).
Proof.
  intros Hin Hm. induction maps as [|m maps IH]; [by apply elem_of_nil in Hin|]. cbn [for_each].
  apply (r_bind _ _ (fun r : unit + Z => (r = inl tt \/ r = inr 1) /\ (legacy_map m -> r = inr 1))).
  - eapply r_bind; [apply reuse_returns|]. intros r [[->| ->] Hl]; apply r_ret; [|by split; [right|]].
    split; [by left|]. intros H. by specialize (Hl H).
  - intros r [[->| ->] Hl]; [|by apply r_ret]. apply IH. apply elem_of_cons in Hin as [->|]; [|done]. by specialize (Hl Hm).
Qed.

Lemma attach_legacy n obj : legacy_object obj -> returns (attach_object n obj) (fun rc => rc = 1).
Proof.
  intros (map & Hin & Hm). unfold attach_object. do 2 (apply r_skip; intros ?).
  eapply r_bind; [by apply (reuse_all_legacy _ map)|]. intros r ->. by apply r_ret.
Qed.

(** ** The array while objects are loaded *)

(** The new object has its own slot. *)
Lemma stored_new t n obj :
  env_object n = Some obj -> (g_obj_count t < length (g_objs t))%nat -> stored t ->
  stored (ToolState (t_kernel t) (<[g_obj_count t := Some (n, obj)]> (g_objs t)) (S (g_obj_count t)) (g_links t) (g_link_count t)
    (g_monitored_files t) (t_trace t ++ [Acquired (RObject n)])).
Proof.
  intros Hn Hlt Hs m Hm. cbn [t_trace g_obj_count g_objs] in *. apply elem_of_app in Hm as [Hm|Hm].
  - destruct (Hs m Hm) as (i & obj' & Hi & Ho & He). exists i, obj'. split_and!; [lia| |done].
    by rewrite list_lookup_insert_ne by lia.
  - apply list_elem_of_singleton in Hm. injection Hm as ->. exists (g_obj_count t), obj. split_and!; [lia| |done].
    by apply list_lookup_insert_eq.
Qed.

Lemma modern_new t n obj k tr :
  ~ legacy_object obj -> modern t ->
  modern (ToolState k (<[g_obj_count t := Some (n, obj)]> (g_objs t)) (S (g_obj_count t)) (g_links t) (g_link_count t)
    (g_monitored_files t) tr).
Proof.
  intros Hl Hm i m obj' Hi. cbn in Hi. destruct (decide (i = g_obj_count t)) as [->|Hne].
  - apply list_lookup_insert_Some in Hi as [(_ & H & _)|(? & _)]; [by injection H as <- <-|done].
  - rewrite list_lookup_insert_ne in Hi by done. by eapply Hm.
Qed.

Lemma sat_answer (Q : Z -> tool_state -> Prop) t :
  (forall z k, Q z (ToolState k (g_objs t) (g_obj_count t) (g_links t) (g_link_count t) (g_monitored_files t) (t_trace t))) ->
  sat answer Q t.
Proof. intros HQ. apply HQ. Qed.

(** One object: when the result is 0, it is not an old one. *)
Lemma sat_load_one filename t :
  stored t -> modern t ->
  sat (load_and_attach_one_object filename) (fun rc t' => stored t' /\ (rc = 0 -> modern t')) t.
Proof.
  intros Hs Hm. unfold load_and_attach_one_object. apply sat_bind. change (sat (tgets ?f) ?Q t) with (Q (f t) t). cbv beta.
  destruct (_ <=? _)%nat; [by split|]. apply sat_bind, sat_answer. intros rc k.
  set (t1 := ToolState k _ _ _ _ _ _). destruct (negb _); [by split|]. apply sat_bind.
  change (sat (lift call) ?Q t1) with (Q (k_next k) (ToolState (set_next (S (k_next k)) k) (g_objs t1) (g_obj_count t1) (g_links t1)
    (g_link_count t1) (g_monitored_files t1) (t_trace t1))). cbv beta. set (t2 := ToolState _ _ _ _ _ _ _).
  destruct (env_object (k_next k)) as [obj|] eqn:Eo; [|by split].
  apply sat_bind. change (sat (emit ?e) ?Q t2) with (Q tt (with_trace [e] t2)). cbv beta. apply sat_bind.
  change (sat (tgets g_objs) ?Q ?t') with (Q (g_objs t') t'). cbv beta. apply sat_bind, sat_tderef. intros slot Hslot.
  apply sat_bind. change (sat (set_objs ?l ?n) ?Q ?t') with (Q tt (ToolState (t_kernel t') l n (g_links t') (g_link_count t')
    (g_monitored_files t') (t_trace t'))). cbv beta. set (t3 := ToolState _ _ _ _ _ _ _).
  assert (Hs3 : stored t3) by (apply (stored_new t2 _ obj Eo); [by eapply lookup_lt_Some|exact Hs]).
  eapply sat_mono; [apply sat_conj; [apply (sat_stored (attach_object (k_next k) obj) t3);
    [apply a_attach_object|apply objs_attach_object|exact Hs3]|exact (sat_if _ _ _ t3 (attach_legacy (k_next k) obj))]|].
  intros rc' t' [[Hs' Hm'] Hl]. split; [done|]. intros ->. apply Hm', (modern_new t2); [|exact Hm].
  intros Hleg. by specialize (Hl Hleg).
Qed.

Lemma sat_load_all filenames t :
  stored t -> modern t ->
  sat (load_all_bpf_objects filenames) (fun rc t' => stored t' /\ (rc = - 1 \/ modern t')) t.
Proof.
  intros Hs Hm. unfold load_all_bpf_objects. apply sat_bind.
  eapply sat_mono; [apply (sat_stored (make_dir BPF_PIN_DIR) t); [a_go ltac:(unfold make_dir, answer)|u_go ltac:(unfold make_dir, answer)|done]|].
  intros ok t1 [Hs1 Hm1]. destruct (negb ok); [by split; [|left]|]. apply sat_bind. specialize (Hm1 Hm). clear t Hs Hm.
  assert (Hloop : sat (for_each (fun filename (_ : unit) =>
    let$ rc := load_and_attach_one_object filename in
    tret (if rc =? 0 then inl tt else inr (- 1))) filenames tt) (fun r t' => stored t' /\ (r = inr (- 1) \/ modern t')) t1).
  { revert t1 Hs1 Hm1. induction filenames as [|filename filenames IH]; intros t Hs Hm; cbn [for_each]; [by split; [|right]|].
    apply sat_bind, sat_bind. eapply sat_mono; [by apply sat_load_one|]. intros rc t' [Hs' Hm'].
    destruct (Z.eqb_spec rc 0) as [->|]; [by apply IH; [|apply Hm']|by split; [|left]]. }
  eapply sat_mono; [exact Hloop|]. intros r t' [Hs' Hr]. split; [done|]. destruct Hr as [->|]; [by left|by right].
Qed.

(** When the result is not 1, no old object was opened. *)
Lemma sat_load_and_run files daemon t :
  stored t -> modern t -> sat (load_and_run files daemon) (fun err t' => stored t' /\ (err = 1 \/ modern t')) t.
Proof.
  intros Hs Hm. unfold load_and_run. apply sat_bind. eapply sat_mono; [by apply sat_load_all|]. intros rc t1 [Hs1 Hr].
  destruct (Z.ltb_spec rc 0); [by split; [|left]|]. assert (Hm1 : modern t1) by (destruct Hr as [->|]; [lia|done]).
  destruct daemon; [|by split; [|right]]. apply sat_bind.
  eapply sat_mono; [apply (sat_stored run_daemon_loop t1); [apply a_run_daemon_loop|apply objs_run_daemon_loop|done]|].
  intros rc' t2 [Hs2 Hm2]. split; [done|]. right. by apply Hm2.
Qed.

(** ** The cleanup *)

Definition unpin_map (map : map_desc) : T unit :=
  if is_policy_map map then tret tt else emit (MapUnpinned (map_pin_path map)) $; let$ _ := answer in tret tt.

Lemma grown {A} (m : T A) e t : appends (fun _ => True) m -> e ∈ t_trace t -> sat m (fun _ t' => e ∈ t_trace t') t.
Proof. intros Hg He. eapply sat_mono; [apply Hg|]. intros a t' (es & -> & _). apply elem_of_app. by left. Qed.

Lemma sat_unpin_object maps map t :
  map ∈ maps -> is_policy_map map = false -> sat (for_all unpin_map maps) (fun _ t' => MapUnpinned (map_pin_path map) ∈ t_trace t') t.
Proof.
  intros Hin Hp. revert t. induction maps as [|m maps IH]; intros t; [by apply elem_of_nil in Hin|]. cbn [for_all].
  apply sat_bind. apply elem_of_cons in Hin as [<-|Hin].
  - apply (sat_mono _ (fun _ t' => MapUnpinned (map_pin_path map) ∈ t_trace t')).
    + unfold unpin_map. rewrite Hp. apply sat_bind. change (sat (emit ?e) ?Q t) with (Q tt (with_trace [e] t)). cbv beta.
      apply grown; [a_go ltac:(unfold answer)|]. apply elem_of_app. right. left.
    + intros [] t1 He. apply grown; [|done]. a_go ltac:(unfold unpin_map, answer).
  - apply (sat_mono _ (fun _ _ => True)); [apply r_any|]. intros [] t1 _. by apply IH.
Qed.

(** The maps of the object in slot [i] are reached. *)
Lemma sat_unpin_maps i n obj map t :
  (i < g_obj_count t)%nat -> g_objs t !! i = Some (Some (n, obj)) -> map ∈ ob_maps obj -> is_policy_map map = false ->
  sat unpin_maps_from_loaded_objects (fun _ t' => MapUnpinned (map_pin_path map) ∈ t_trace t') t.
Proof.
  intros Hi Ho Hin Hp. unfold unpin_maps_from_loaded_objects, for_each_loaded. apply sat_bind.
  change (sat (tgets ?f) ?Q t) with (Q (f t) t). cbv beta.
  set (body := fun i : nat => tbind (tgets g_objs) _). fold unpin_map in body.
  assert (Hg : forall j, appends (fun _ => True) (body j)) by (intros j; unfold body; a_go ltac:(unfold unpin_map, answer)).
  assert (Hk : forall j, keeps g_objs (body j)) by (intros j; unfold body; u_go ltac:(unfold unpin_map, answer)).
  assert (Hdo : forall t', g_objs t' = g_objs t -> sat (body i) (fun _ t2 => MapUnpinned (map_pin_path map) ∈ t_trace t2) t').
  { intros t' Ht'. unfold body. apply sat_bind. change (sat (tgets g_objs) ?Q t') with (Q (g_objs t') t'). cbv beta.
    rewrite Ht', Ho. apply sat_bind, sat_tderef. intros slot [= <-]. by apply sat_unpin_object. }
  enough (Hall : forall xs t', i ∈ xs -> g_objs t' = g_objs t ->
    sat (for_all body xs) (fun _ t2 => MapUnpinned (map_pin_path map) ∈ t_trace t2) t').
  { apply Hall; [apply elem_of_seq; lia|done]. }
  induction xs as [|x xs IH]; intros t' Hx Ht'; [by apply elem_of_nil in Hx|]. cbn [for_all]. apply sat_bind.
  apply elem_of_cons in Hx as [<-|Hx].
  - eapply sat_mono; [by apply Hdo|]. intros [] t2 He. apply grown; [by apply a_for_all|done].
  - eapply sat_mono; [exact (keeps_sat g_objs (body x) t' (Hk x))|]. intros [] t2 H2. apply IH; [done|]. by rewrite H2.
Qed.

Lemma legacy_pin map : legacy_map map -> map_pin_path map = shared_pin.
Proof.
  intros (_ & Hn & _). apply strcmp_spec in Hn. unfold map_pin_path, path_in. rewrite Hn. by vm_compute.
Qed.

Lemma sat_cleanup_legacy i n obj t :
  (i < g_obj_count t)%nat -> g_objs t !! i = Some (Some (n, obj)) -> legacy_object obj ->
  sat (load_cleanup 1) (fun rc t' => rc = 1 /\ MapUnpinned shared_pin ∈ t_trace t') t.
Proof.
  intros Hi Ho (map & Hin & Hm). rewrite <- (legacy_pin map Hm). destruct Hm as (_ & _ & Hp). unfold load_cleanup.
  rewrite andb_false_r. apply sat_bind, sat_bind. eapply sat_mono; [by apply (sat_unpin_maps i n obj map)|]. intros [] t1 He.
  eapply sat_mono; [apply (grown _ (MapUnpinned (map_pin_path map)) t1); [|exact He]|].
  { a_go ltac:(unfold unpin_links_from_loaded_objects, for_each_loaded, unlink, answer). }
  intros [] t2 He2. apply sat_conj.
  - do 2 (apply sat_bind; eapply sat_mono; [apply r_any|]; intros [] ? _). done.
  - apply grown; [|exact He2].
    a_go ltac:(unfold destroy_runtime_state, destroy_links, close_objects, remove_pid_file, unlink, answer).
Qed.

(** ** The module is left alone *)

Definition same_module (t : tool_state) : kstate := set_next 0 (t_kernel t).

Lemma m_call : keeps same_module (lift call).
Proof. by intros t. Qed.

Lemma m_start : keeps same_module ensure_single_instance /\ keeps same_module set_rlimit.
Proof.
  pose proof m_call. split.
  - u_go ltac:(unfold ensure_single_instance, read_pid_file, is_process_running, get_fd, opened, answer, close_fd).
  - u_go ltac:(unfold set_rlimit, answer).
Qed.

Lemma m_load_and_run files daemon : keeps same_module (load_and_run files daemon).
Proof.
  pose proof m_call. assert (Hs : forall l, keeps same_module (sweep l)).
  { induction l as [|mf l IH]; [done|]. cbn [sweep]. u_go ltac:(unfold close_fd). }
  assert (Hd : keeps same_module dump_securityfs_to_files).
  { u_go ltac:(unfold dump_securityfs_to_files, mark_inactive, prune_monitored, monitor_namespace, monitor, make_missing_dir, make_dir,
      append_new_content, append_chunk, get_monitored_file, get_fd, opened, answer, close_fd). }
  u_go ltac:(unfold load_and_run, load_all_bpf_objects, make_dir, load_and_attach_one_object, attach_object, reuse_map, pin_map,
    attach_prog, update_link, unlink, run_daemon_loop, daemonize, write_pid_file, get_fd, opened, answer, close_fd).
Qed.

Lemma m_load_cleanup err : keeps same_module (load_cleanup err).
Proof.
  pose proof m_call.
  u_go ltac:(unfold load_cleanup, unpin_maps_from_loaded_objects, unpin_links_from_loaded_objects, for_each_loaded,
    destroy_runtime_state, destroy_links, close_objects, remove_pid_file, unlink, answer).
Qed.

Lemma same_module_kernel t s : same_module t = set_next 0 s -> t_kernel t = set_next (k_next (t_kernel t)) s.
Proof.
  unfold same_module. intros H. rewrite <- (set_next_eta (t_kernel t)) at 1.
  apply (f_equal (set_next (k_next (t_kernel t)))) in H. by rewrite !set_next_set_next in H.
Qed.

(** ** The load command *)

(** No object was opened so far. *)
Definition no_objects (t : tool_state) : Prop := Forall no_object (t_trace t) /\ objects t = objects (fresh (t_kernel t)).

Lemma sat_no_objects {A} (m : T A) t :
  appends no_object m -> keeps objects m -> no_objects t -> sat m (fun _ t' => no_objects t') t.
Proof.
  intros Ha Hk [Hf Ho]. eapply sat_mono; [apply sat_conj; [exact (Ha t)|exact (keeps_sat objects m t Hk)]|].
  intros a t' [(es & Hes & Hf') Ho']. split; [rewrite Hes; by apply Forall_app|]. by rewrite Ho'.
Qed.

Lemma no_objects_stored t : no_objects t -> stored t /\ modern t.
Proof.
  intros [Hf Ho]. split.
  - intros n Hn. rewrite Forall_forall in Hf. by apply Hf in Hn.
  - intros i n obj Hi. unfold objects in Ho. apply (f_equal fst) in Ho. cbn [fst] in Ho. rewrite Ho in Hi.
    apply (lookup_replicate MAX_LOADED_OBJECTS) in Hi as [? _]. done.
Qed.

Lemma objs_start : keeps objects ensure_single_instance /\ keeps objects set_rlimit /\ keeps objects ensure_policy_map.
Proof.
  split_and!.
  - u_go ltac:(unfold ensure_single_instance, read_pid_file, is_process_running, get_fd, opened, answer, close_fd).
  - u_go ltac:(unfold set_rlimit, answer).
  - u_go ltac:(unfold ensure_policy_map, create_policy_map, bind_policy_map, bpf_obj_get, bpf_map_create, bpf_map_freeze, bpf_obj_pin,
      bpf_map_get_info_by_fd, open_file, opened, close_fd).
Qed.

(** What is said of a run that opened an old object. *)
Definition legacy_result (rc : Z) (t : tool_state) : Prop :=
  forall n obj, Acquired (RObject n) ∈ t_trace t -> env_object n = Some obj -> legacy_object obj ->
    rc = 1 /\ MapUnpinned shared_pin ∈ t_trace t /\ policy_map (k_policy (t_kernel t)) <> None.

Lemma no_objects_result rc t : Forall no_object (t_trace t) -> legacy_result rc t.
Proof. intros Hf n obj Hn. rewrite Forall_forall in Hf. by apply Hf in Hn. Qed.

(** From the objects to the end, with a bound store. *)
Lemma sat_load_legacy files daemon t :
  no_objects t -> policy_map (k_policy (t_kernel t)) <> None ->
  sat (let$ err := load_and_run files daemon in load_cleanup err) legacy_result t.
Proof.
  intros Hno Hb. destruct (no_objects_stored t Hno) as [Hs Hm]. apply sat_bind.
  eapply sat_mono; [apply sat_conj; [by apply sat_load_and_run|exact (keeps_sat same_module _ t (m_load_and_run files daemon))]|].
  intros err t1 [[Hs1 Hr] Hk1].
  eapply sat_mono; [apply sat_conj; [exact (keeps_sat same_module _ t1 (m_load_cleanup err))|
    apply sat_conj; [exact (a_load_cleanup err t1)|]]|].
  { apply (sat_forall _ (fun '(i, n, obj) => (i < g_obj_count t1)%nat /\ g_objs t1 !! i = Some (Some (n, obj)) /\ legacy_object obj /\ err = 1)
      (fun _ rc t' => rc = 1 /\ MapUnpinned shared_pin ∈ t_trace t')).
    intros [[i n] obj] (Hi & Ho & Hl & ->). by apply (sat_cleanup_legacy i n obj). }
  intros rc t2 (Hk2 & (es & Hes & Hf) & Hclean) n obj Hn Hobj Hl.
  rewrite Hes in Hn. apply (old_trace no_object) in Hn; [|done|done]. destruct (Hs1 n Hn) as (i & obj' & Hi & Ho & He).
  rewrite Hobj in He. injection He as <-. destruct Hr as [->|Hm1]; [|by destruct (Hm1 i n obj Ho)].
  destruct (Hclean (i, n, obj)) as [-> Hin]; [done|]. split_and!; [done|done|].
  rewrite Hk1 in Hk2. apply (same_module_kernel t2 (t_kernel t)) in Hk2. by rewrite Hk2.
Qed.

Lemma sat_cmd_load_legacy files daemon pcr vs s :
  sys_inv pcr vs s -> fds_ok s -> sat (cmd_load files daemon) legacy_result (fresh s).
Proof.
  intros Hs Hfd. destruct m_start as [M1 M2], objs_start as (O1 & O2 & O3). unfold cmd_load.
  assert (Hno : no_objects (fresh s)) by (by split; [constructor|]).
  apply sat_bind. eapply sat_mono; [apply sat_conj; [apply (sat_no_objects _ _ a_single_instance O1 Hno)|exact (keeps_sat _ _ _ M1)]|].
  intros rc t1 [Hno1 Hk1]. destruct (rc <? 0); [apply no_objects_result, Hno1|].
  apply sat_bind. eapply sat_mono; [apply sat_conj; [apply (sat_no_objects _ _ a_set_rlimit O2 Hno1)|exact (keeps_sat _ _ _ M2)]|].
  intros rc1 t2 [Hno2 Hk2]. destruct (rc1 <? 0); [apply no_objects_result, Hno2|].
  assert (Hk : t_kernel t2 = set_next (k_next (t_kernel t2)) s) by (apply same_module_kernel; by rewrite Hk2, Hk1).
  apply sat_bind. eapply sat_mono; [apply sat_conj; [apply (sat_no_objects _ _ a_ensure O3 Hno2)|apply twp_sat, (twp_ensure pcr vs)]|].
  { rewrite Hk. by apply sys_inv_next. }
  { rewrite Hk. exact Hfd. }
  intros rc2 t3 [Hno3 (_ & _ & Hrc)]. destruct Hrc as [->|[-> Hb]].
  - change (- 1 <? 0) with true. cbv iota. apply sat_bind. change (sat (tret 1) ?Q t3) with (Q 1 t3). cbv beta.
    eapply sat_mono; [apply (a_load_cleanup 1 t3)|]. intros rc3 t4 (es & Hes & Hf). apply no_objects_result.
    rewrite Hes. apply Forall_app. split; [apply Hno3|done].
  - change (0 <? 0) with false. cbv iota. by apply sat_load_legacy.
Qed.

(** C27: An object with another layout of the policy map unpins the map of the
    module. For every environment and every list of files, when [load] has opened
    an object whose map of the name [bpfima_policy_map] does not have the layout
    of the module's, the command fails, and its cleanup calls for the removal of
    the pin of the policy map although the module has bound that map. *)
Theorem legacy_object_unpins_policy_map files daemon pcr vs s :
  sys_inv pcr vs s -> fds_ok s ->
  twp (cmd_load files daemon) (fun rc t =>
    forall n obj map, Acquired (RObject n) ∈ t_trace t -> env_object n = Some obj -> map ∈ ob_maps obj ->
      md_internal map = false -> strcmp (md_name map) POLICY_MAP_NAME = 0 -> is_policy_map map = false ->
      rc = 1 /\ MapUnpinned shared_pin ∈ t_trace t /\ policy_map (k_policy (t_kernel t)) <> None) (fresh s).
Proof.
  intros Hs Hfd. eapply twp_of_sat; [by apply (load_runs files daemon pcr vs)|].
  eapply sat_mono; [by apply (sat_cmd_load_legacy files daemon pcr vs)|].
  intros rc t Hl n obj map Hn Hobj Hin H1 H2 H3. apply (Hl n obj Hn Hobj). by exists map.
Qed.
End Legacy.

(** The run of an object of that kind, on a module without a bound store. *)
Lemma legacy_object_unpins_policy_map_witness :
  exists t, load_run legacy_load (fresh sample_state) = Some (1, t) /\
    MapUnpinned shared_pin ∈ t_trace t /\ policy_map (k_policy (t_kernel t)) <> None.
Proof.
  assert (H : (fun r => (fst r, bool_decide (Exists (fun e => match e with Acquired (RObject _) => true | _ => false end = true)
    (t_trace (snd r))))) <$> load_run legacy_load (fresh sample_state) = Some (1, true)) by by vm_compute.
  apply fmap_Some in H as ([rc t] & H & He). injection He as He1 He2. cbn [fst snd] in *. subst rc. exists t. split; [exact H|].
  symmetry in He2. apply bool_decide_eq_true, Exists_exists in He2 as (e & Hin & He). destruct e as [[n| |]| | | | | | | | | | | | | | |]; try discriminate He.
  exact (proj2 (twp_run _ _ _ _ _ H (legacy_object_unpins_policy_map (E := tpm_env) (V := legacy_load) [lit "lsm_mmap_file.o"] true
    (zeros MERKLE_HASH_SIZE) [] sample_state sample_sys_inv sample_fds_ok) n _ (policy_map_desc 64) Hin eq_refl
    (list_elem_of_here _ _) eq_refl eq_refl eq_refl)).
Defined.
