(* ===== verification/Operator.v ===== *)
(** * The Kubernetes operator

    The Go code of [src/operator/internal]: the selection of a policy for the
    node ([policyselector]), the construction of the request and its encoding
    ([mapsmanager]) and one turn of the reconciler ([controller]). The types of
    [api/v1alpha1] are records; the structures that mirror the kernel's are the
    kernel's records, with an encoder of their own. The API server, the label
    selectors of Kubernetes and the operating system are parameters. *)

From coqutil Require Import Word.LittleEndianList.
From S2P Require Import Prelude CString Types Kernel Pattern Snapshot Wire KfuncBuffer HashUtils Tpm PolicyMap Merkle PolicyNamespace PolicyManager Container Kfuncs PolicyFiles YamlParser Tool.

(** ** api/v1alpha1 *)

Module v1alpha1.
Record PatternEntry := MkPattern { Pattern : bytes; Enabled : bool; MatchType : Z }.

Record HookConfig := MkHook {
  HookEnabled : bool;
  TrackContainers : bool;
  MeasureHash : bool;
  FilterOverride : Z;
  ActionOverride : Z;
}.

Record HookConfigs := MkHooks {
  LSMBprmCheckSecurity : option HookConfig;
  LSMFileOpen : option HookConfig;
  LSMFilePostOpen : option HookConfig;
  LSMMmapFile : option HookConfig;
  LSMSocketConnect : option HookConfig;
  LSMContainerEvents : option HookConfig;
  KprobeFileOpen : option HookConfig;
  LSMInodeSetattr : option HookConfig;
}.

Record FilterConfig := MkFilters {
  SystemCgroups : bool;
  ProcSys : bool;
  Dev : bool;
  ReadonlyFiles : bool;
  SmallFiles : bool;
  NonExecutable : bool;
  Libraries : bool;
  TmpFiles : bool;
}.

Record ActionConfig := MkActions {
  ExtendTPM : bool;
  LogSecurityFS : bool;
  LogKernel : bool;
  AlertSuspicious : bool;
  Block : bool;
  TrackContainer : bool;
  BuildDeps : bool;
}.

Record PolicyConfig := MkConfig { PolicyEnabled : bool; LogLevel : Z; MinFileSize : Z; MaxPathDepth : Z }.

(** A policy: the parts of its metadata that are used, and its [Spec]; [Sel] is
    the type of [metav1.LabelSelector]. *)
Record Policy (Sel : Type) := MkPolicy {
  Name : bytes;
  CreationTimestamp : Z;
  Selector : option Sel;
  Config : PolicyConfig;
  Filters : FilterConfig;
  Actions : ActionConfig;
  CgroupPatterns : list PatternEntry;
  PathPatterns : list PatternEntry;
  Hooks : HookConfigs;
}.
End v1alpha1.
#[global] Arguments v1alpha1.MkPolicy {Sel}.
#[global] Arguments v1alpha1.Name {Sel}.
#[global] Arguments v1alpha1.CreationTimestamp {Sel}.
#[global] Arguments v1alpha1.Selector {Sel}.
#[global] Arguments v1alpha1.Config {Sel}.
#[global] Arguments v1alpha1.Filters {Sel}.
#[global] Arguments v1alpha1.Actions {Sel}.
#[global] Arguments v1alpha1.CgroupPatterns {Sel}.
#[global] Arguments v1alpha1.PathPatterns {Sel}.
#[global] Arguments v1alpha1.Hooks {Sel}.

(** ** Package mapsmanager *)

Definition flag_if (b : bool) (flag flags : Z) : Z := if b then Z.lor flags flag else flags.

Definition boolToUint8 (b : bool) : Z := if b then 1 else 0.

Definition computeFilterFlags (f : v1alpha1.FilterConfig) : Z :=
  flag_if (v1alpha1.TmpFiles f) (Z.shiftl 1 7)
    (flag_if (v1alpha1.Libraries f) (Z.shiftl 1 6)
      (flag_if (v1alpha1.NonExecutable f) (Z.shiftl 1 5)
        (flag_if (v1alpha1.SmallFiles f) (Z.shiftl 1 4)
          (flag_if (v1alpha1.ReadonlyFiles f) (Z.shiftl 1 3)
            (flag_if (v1alpha1.Dev f) (Z.shiftl 1 2)
              (flag_if (v1alpha1.ProcSys f) (Z.shiftl 1 1)
                (flag_if (v1alpha1.SystemCgroups f) (Z.shiftl 1 0) 0))))))).

Definition computeActionFlags (a : v1alpha1.ActionConfig) : Z :=
  flag_if (v1alpha1.BuildDeps a) (Z.shiftl 1 6)
    (flag_if (v1alpha1.TrackContainer a) (Z.shiftl 1 5)
      (flag_if (v1alpha1.Block a) (Z.shiftl 1 4)
        (flag_if (v1alpha1.AlertSuspicious a) (Z.shiftl 1 3)
          (flag_if (v1alpha1.LogKernel a) (Z.shiftl 1 2)
            (flag_if (v1alpha1.LogSecurityFS a) (Z.shiftl 1 1)
              (flag_if (v1alpha1.ExtendTPM a) (Z.shiftl 1 0) 0)))))).

(** The conversions [uint32(...)] wrap. *)
Definition computeValue (policy : v1alpha1.PolicyConfig) (filters : v1alpha1.FilterConfig)
    (actions : v1alpha1.ActionConfig) : bpfima_policy_config :=
  PolicyConfig (boolToUint8 (v1alpha1.PolicyEnabled policy)) (computeFilterFlags filters) (computeActionFlags actions)
    (to_u32 (v1alpha1.MinFileSize policy)) (to_u32 (v1alpha1.MaxPathDepth policy)) (to_u32 (v1alpha1.LogLevel policy))
    1000 0 0.

Definition buildPattern (entry : v1alpha1.PatternEntry) : bpfima_pattern_entry :=
  PatternEntry (blit (zeros 64) 0 (take 64 (v1alpha1.Pattern entry))) 1 (v1alpha1.MatchType entry mod 256) 0.

(** An index past the array panics: [None]. *)
Fixpoint buildPatterns_loop (entries : list v1alpha1.PatternEntry) (index : nat) (result : list bpfima_pattern_entry)
    : option (list bpfima_pattern_entry) :=
  match entries with
  | [] => Some result
  | entry :: entries =>
      if negb (v1alpha1.Enabled entry) then buildPatterns_loop entries index result else
      if (length result <=? index)%nat then None else
      buildPatterns_loop entries (S index) (<[index := buildPattern entry]> result)
  end.

Definition buildPatterns (entries : list v1alpha1.PatternEntry) : option (list bpfima_pattern_entry) :=
  buildPatterns_loop entries 0 (replicate 8 zero_pattern).

Definition hook_entries (hooks : v1alpha1.HookConfigs) : list (option v1alpha1.HookConfig) :=
  [v1alpha1.LSMBprmCheckSecurity hooks; v1alpha1.LSMFileOpen hooks; v1alpha1.LSMFilePostOpen hooks;
   v1alpha1.LSMMmapFile hooks; v1alpha1.LSMSocketConnect hooks; v1alpha1.LSMContainerEvents hooks;
   v1alpha1.KprobeFileOpen hooks; v1alpha1.LSMInodeSetattr hooks].

(** The flags of entry [i] of the loop over the hooks. *)
Definition hook_flags (i : nat) (config : option v1alpha1.HookConfig) : Z :=
  match config with
  | None => if (i =? 6)%nat then 0 else Z.lor (Z.lor (Z.shiftl 1 0) (Z.shiftl 1 1)) (Z.shiftl 1 2)
  | Some config =>
      flag_if (v1alpha1.MeasureHash config) (Z.shiftl 1 2)
        (flag_if (v1alpha1.TrackContainers config) (Z.shiftl 1 1)
          (flag_if (v1alpha1.HookEnabled config) (Z.shiftl 1 0) 0))
  end.

(** The error of the function is [Some None]; [buildPatterns] never has one. *)
Definition BuildPolicyRequest {Sel} (policy : option (v1alpha1.Policy Sel)) (namespace : bytes) (generation : Z)
    : option (option bpfima_policy_request) :=
  match policy with
  | None => Some None
  | Some policy =>
      if (128 <=? length namespace)%nat then Some None else
      match buildPatterns (v1alpha1.CgroupPatterns policy), buildPatterns (v1alpha1.PathPatterns policy) with
      | Some cgroups, Some paths =>
          Some (Some (PolicyRequest 2 0 generation (PolicyRecord (blit (zeros 128) 0 namespace)
            (PolicySnapshot (computeValue (v1alpha1.Config policy) (v1alpha1.Filters policy) (v1alpha1.Actions policy))
               cgroups paths
               (imap (fun i config => HookConfig (hook_flags i config) 0 0 0) (hook_entries (v1alpha1.Hooks policy)))))))
      | _, _ => None
      end
  end.

(** [binary.Write] with [binary.LittleEndian]: the fields in order, the
    padding fields as zeros. *)
Definition write_config (p : bpfima_policy_config) : bytes :=
  le_split 1 (cfg_enabled p) ++ zeros 3 ++ le_split 4 (cfg_filter_flags p) ++ le_split 4 (cfg_action_flags p) ++
  le_split 4 (cfg_min_file_size p) ++ le_split 4 (cfg_max_path_depth p) ++ le_split 4 (cfg_log_level p) ++
  le_split 4 (cfg_merkle_history_max_size p) ++ le_split 1 (cfg_merkle_history_scope p) ++ zeros 3 ++
  le_split 4 (cfg_reserved p).
Definition write_pattern (e : bpfima_pattern_entry) : bytes :=
  pat_pattern e ++ le_split 1 (pat_enabled e) ++ le_split 1 (pat_match_type e) ++ le_split 2 (pat_reserved e).
Definition write_hook (h : bpfima_hook_config) : bytes :=
  le_split 4 (hk_flags h) ++ le_split 4 (hk_filter_override h) ++ le_split 4 (hk_action_override h) ++ le_split 4 (hk_reserved h).
Definition binary_Write (q : bpfima_policy_request) : bytes :=
  let s := rec_snapshot (rq_record q) in
  le_split 4 (rq_version q) ++ le_split 4 (rq_reserved q) ++ le_split 8 (rq_expected_generation q) ++
  rec_namespace_id (rq_record q) ++ write_config (sn_config s) ++ flat_map write_pattern (sn_cgroups s) ++
  flat_map write_pattern (sn_paths s) ++ flat_map write_hook (sn_hooks s) ++ zeros 4.

Section Operator.
Context {E : KernelEnv} {T : ToolEnv}.

(** The writer is the file of the module; [true] is the error [nil]. *)
Definition WritePolicyRequest (request : bpfima_policy_request) : K bool :=
  let buffer := binary_Write request in
  let* count := policy_apply_write buffer in
  if count <? 0 then ret false else ret (count =? Z.of_nat (length buffer)).

(** [None] is a panic. *)
Definition ApplyPolicy {Sel} (policy : v1alpha1.Policy Sel) : K (option bool) :=
  match BuildPolicyRequest (Some policy) [] 0 with
  | None => ret None
  | Some None => ret (Some false)
  | Some (Some request) =>
      let* file := open_endpoint in
      if file <? 0 then ret (Some false) else
      let* ok := WritePolicyRequest request in
      ret (Some ok)
  end.
End Operator.

(** ** Package policyselector *)

(** Go's order on strings. *)
Fixpoint string_ltb (a b : bytes) : bool :=
  match a, b with
  | [], [] => false
  | [], _ :: _ => true
  | _ :: _, [] => false
  | x :: a, y :: b =>
      if Z.of_N (Byte.to_N x) <? Z.of_N (Byte.to_N y) then true
      else if Byte.eqb x y then string_ltb a b else false
  end.

(** [LabelSelectorAsSelector] and the [Matches] of its result; [None] is an
    error of the conversion. *)
Class LabelLib (Sel Labels : Type) := { selector_matches : Sel -> option (Labels -> bool) }.

Definition enabled_hook : option v1alpha1.HookConfig := Some (v1alpha1.MkHook true true true 0 0).

Definition defaultPolicy {Sel} : v1alpha1.Policy Sel :=
  v1alpha1.MkPolicy (lit "bpfima-default") 0 None (v1alpha1.MkConfig true 2 0 32)
    (v1alpha1.MkFilters false false false false false false false false)
    (v1alpha1.MkActions true true true false false true true)
    [v1alpha1.MkPattern (lit "/") true 0; v1alpha1.MkPattern (lit "init.scope") true 0]
    [v1alpha1.MkPattern (lit "/proc/") true 1; v1alpha1.MkPattern (lit "/sys/") true 1]
    (v1alpha1.MkHooks enabled_hook enabled_hook enabled_hook enabled_hook enabled_hook enabled_hook
       (Some (v1alpha1.MkHook false false false 0 0)) None).

Section Selection.
Context {Sel Labels : Type} {Lib : LabelLib Sel Labels}.

(** The condition under which a candidate replaces the current one. *)
Definition newer (policy current : v1alpha1.Policy Sel) : bool :=
  (v1alpha1.CreationTimestamp current <? v1alpha1.CreationTimestamp policy) ||
  ((v1alpha1.CreationTimestamp policy =? v1alpha1.CreationTimestamp current) &&
   string_ltb (v1alpha1.Name policy) (v1alpha1.Name current)).

Definition choose (current : option (v1alpha1.Policy Sel)) (policy : v1alpha1.Policy Sel) : option (v1alpha1.Policy Sel) :=
  match current with
  | None => Some policy
  | Some c => if newer policy c then Some policy else current
  end.

Fixpoint select_loop (policies : list (v1alpha1.Policy Sel)) (nodeLabel : Labels)
    (genericPolicy specificPolicy : option (v1alpha1.Policy Sel))
    : option (option (v1alpha1.Policy Sel) * option (v1alpha1.Policy Sel)) :=
  match policies with
  | [] => Some (genericPolicy, specificPolicy)
  | policy :: policies =>
      match v1alpha1.Selector policy with
      | None => select_loop policies nodeLabel (choose genericPolicy policy) specificPolicy
      | Some sel =>
          match selector_matches sel with
          | None => None
          | Some Matches =>
              if Matches nodeLabel then select_loop policies nodeLabel genericPolicy (choose specificPolicy policy)
              else select_loop policies nodeLabel genericPolicy specificPolicy
          end
      end
  end.

(** [None] is the error. *)
Definition IdentifyCorrectPolicy (policies : list (v1alpha1.Policy Sel)) (nodeLabel : Labels)
    : option (v1alpha1.Policy Sel) :=
  match select_loop policies nodeLabel None None with
  | None => None
  | Some (_, Some p) => Some p
  | Some (Some p, None) => Some p
  | Some (None, None) => Some defaultPolicy
  end.

(** ** Package controller *)

Context {E : KernelEnv} {T : ToolEnv}.

(** The answer of the API server for the node; its labels may be [nil]. *)
Inductive node_answer := NodeNotFound | NodeError | NodeLabels (labels : option Labels).

(** [None] is the error, [Some None] the [nil] map; [empty] is the map without
    labels. *)
Definition getNodeLabel (NODE_NAME : bytes) (get : node_answer) (empty : Labels) : option (option Labels) :=
  if bool_decide (NODE_NAME = []) then Some None else
  match get with
  | NodeNotFound => Some None
  | NodeError => None
  | NodeLabels None => Some (Some empty)
  | NodeLabels (Some labels) => Some (Some labels)
  end.

(** [true] is [nil]. *)
Definition ReadyCheck (applied : bool) : bool := if negb applied then false else true.

(** One turn of [Reconcile]: [node] is the answer of [getNodeLabel] (an error,
    no node, or its labels), [listed] that of the API server, [applied] the
    readiness flag. Gives the error ([true] is [nil]) and the flag; [None] is a
    panic. *)
Definition Reconcile (node : option (option Labels)) (listed : option (list (v1alpha1.Policy Sel))) (applied : bool)
    : K (option (bool * bool)) :=
  match node with
  | None => ret (Some (false, applied))
  | Some None => ret (Some (true, applied))
  | Some (Some nodeLabel) =>
      match listed with
      | None => ret (Some (false, applied))
      | Some policies =>
          match IdentifyCorrectPolicy policies nodeLabel with
          | None => ret (Some (false, applied))
          | Some selectedPolicy =>
              let* r := ApplyPolicy selectedPolicy in
              ret (match r with
                   | None => None
                   | Some ok => Some (ok, if ok then true else applied)
                   end)
          end
      end
  end.
End Selection.
