(* ===== verification/OperatorSpec.v ===== *)
(** * Theorems on the operator

    The requests that the operator builds are the kernel's, byte for byte; a
    policy that the API server accepts becomes the root policy of the node; the
    selection does not depend on the order in which the server lists the
    policies, and without a policy it is the module's own default. *)

From stdpp Require Import relations.
From coqutil Require Import Word.LittleEndianList.
From S2P Require Import Prelude CString Types Kernel Sample Pattern Snapshot Wire KfuncBuffer HashUtils Tpm PolicyMap Merkle MerkleSpec MerkleInv PolicyNamespace PolicyManager PolicySpec PolicyInv PolicyLog PolicyBind PolicyAudit Container ContainerSpec ContainerRules ContainerInv Kfuncs KfuncsInv KfuncsSpec Lifecycle LifecycleSpec PolicyFiles PolicyFilesSpec Frame System YamlParser YamlParserSpec Tool ToolSpec Operator.

(** ** Requests *)

Lemma binary_Write_codec be q :
  rq_reserved q = 0 -> reserved_zero (rec_snapshot (rq_record q)) ->
  binary_Write q = c_put (request_codec be) (bpfima_policy_encode_request be q).
Proof.
  intros H0 Hz. rewrite request_put_encode by done. destruct q as [v r g [ns [c cg ps hs]]]. unfold binary_Write.
  cbn [request_codec record_codec snapshot_codec config_codec c_put iso padded pair_codec uint chars array fst snd mem
    rq_version rq_reserved rq_expected_generation rq_record rec_namespace_id rec_snapshot sn_config sn_cgroups sn_paths sn_hooks].
  unfold write_config. rewrite <- !app_assoc.
  assert (Hp : forall l, flat_map write_pattern l = flat_map (c_put (pattern_codec false)) l) by (intros l; apply flat_map_ext; by intros []).
  assert (Hh : forall l, flat_map write_hook l = flat_map (c_put (hook_codec false)) l) by (intros l; apply flat_map_ext; by intros []).
  rewrite !Hp, Hh. done.
Qed.

(** [utf8.RuneCountInString]: the length that [MaxLength] bounds. *)
Definition RuneCount (s : bytes) : nat :=
  length (filter (fun b => negb (Z.land (Z.of_N (Byte.to_N b)) 0xc0 =? 0x80) = true) s).

(** What the validation rules of the custom resource guarantee. *)
Definition pattern_validated (e : v1alpha1.PatternEntry) : Prop :=
  (1 <= RuneCount (v1alpha1.Pattern e) <= 63)%nat /\ 0 <= v1alpha1.MatchType e <= 3.

Record validated {Sel} (p : v1alpha1.Policy Sel) : Prop := Validated {
  ad_log : 0 <= v1alpha1.LogLevel (v1alpha1.Config p) <= 3;
  ad_size : 0 <= v1alpha1.MinFileSize (v1alpha1.Config p) <= 4294967295;
  ad_depth : 0 <= v1alpha1.MaxPathDepth (v1alpha1.Config p) <= 32;
  ad_extend : v1alpha1.ExtendTPM (v1alpha1.Actions p) = true;
  ad_securityfs : v1alpha1.LogSecurityFS (v1alpha1.Actions p) = true;
  ad_alert : v1alpha1.AlertSuspicious (v1alpha1.Actions p) = false;
  ad_block : v1alpha1.Block (v1alpha1.Actions p) = false;
  ad_cgroups : (length (v1alpha1.CgroupPatterns p) <= 8)%nat;
  ad_paths : (length (v1alpha1.PathPatterns p) <= 8)%nat;
  ad_patterns : Forall pattern_validated (v1alpha1.CgroupPatterns p ++ v1alpha1.PathPatterns p);
}.

(** The patterns fit the kernel's field, which counts bytes. *)
Definition pattern_fits (e : v1alpha1.PatternEntry) : Prop :=
  nul_free (v1alpha1.Pattern e) /\ (length (v1alpha1.Pattern e) < MAX_PATTERN_LEN)%nat.

Definition fits {Sel} (p : v1alpha1.Policy Sel) : Prop :=
  Forall pattern_fits (v1alpha1.CgroupPatterns p ++ v1alpha1.PathPatterns p).

Definition enabled_patterns (l : list v1alpha1.PatternEntry) : list bpfima_pattern_entry :=
  buildPattern <$> filter (fun e => v1alpha1.Enabled e = true) l.

Lemma buildPatterns_loop_spec l done_ k :
  (length (enabled_patterns l) <= k)%nat ->
  buildPatterns_loop l (length done_) (done_ ++ replicate k zero_pattern) =
    Some (done_ ++ enabled_patterns l ++ replicate (k - length (enabled_patterns l)) zero_pattern).
Proof.
  unfold enabled_patterns. revert done_ k. induction l as [|e l IH]; intros done_ k Hk; cbn [buildPatterns_loop].
  - cbn. by rewrite Nat.sub_0_r.
  - destruct (v1alpha1.Enabled e) eqn:Ee; cbn [negb].
    + rewrite filter_cons_True in Hk |- * by done. rewrite fmap_cons in Hk |- *. cbn [length] in Hk |- *.
      destruct k as [|k]; [lia|]. rewrite length_app, length_replicate.
      destruct (Nat.leb_spec (length done_ + S k) (length done_)); [lia|].
      replace (<[length done_ := buildPattern e]> (done_ ++ replicate (S k) zero_pattern))
        with ((done_ ++ [buildPattern e]) ++ replicate k zero_pattern)
        by (rewrite insert_app_r_alt, Nat.sub_diag by done; cbn; by rewrite <- app_assoc).
      replace (S (length done_)) with (length (done_ ++ [buildPattern e])) by (rewrite length_app; cbn; lia).
      rewrite IH by lia. by rewrite <- !app_assoc.
    + rewrite filter_cons_False in Hk |- * by congruence. by apply IH.
Qed.

Lemma buildPatterns_spec l :
  (length l <= 8)%nat ->
  buildPatterns l = Some (enabled_patterns l ++ replicate (8 - length (enabled_patterns l)) zero_pattern) /\
  (length (enabled_patterns l) <= 8)%nat.
Proof.
  intros Hl. assert (Hle : (length (enabled_patterns l) <= 8)%nat).
  { unfold enabled_patterns. rewrite length_fmap. pose proof (length_filter (fun e => v1alpha1.Enabled e = true) l). lia. }
  split; [|done]. apply (buildPatterns_loop_spec l [] 8). lia.
Qed.

Lemma RuneCount_pos s : (1 <= RuneCount s)%nat -> s <> [].
Proof. intros H ->. cbn in H. lia. Qed.

Lemma buildPattern_canonical e :
  pattern_validated e -> pattern_fits e -> canonical_pattern (buildPattern e) /\ wf_pattern (buildPattern e).
Proof.
  intros [[Hr _] Hm] [Hn Hl]. apply RuneCount_pos in Hr. unfold MAX_PATTERN_LEN in Hl.
  set (p := v1alpha1.Pattern e) in *.
  assert (Hx : blit (zeros 64) 0 (take 64 p) = strscpy (zeros MAX_PATTERN_LEN) p MAX_PATTERN_LEN).
  { unfold MAX_PATTERN_LEN, strscpy. rewrite cstr_id, !take_ge by (done || lia). unfold blit. cbn [take app]. rewrite <- app_assoc.
    f_equal. rewrite length_app. cbn [length Nat.add app]. change (zeros 64) with (replicate 64 NUL). rewrite !drop_replicate.
    replace (64 - length p)%nat with (S (64 - (length p + 1)))%nat by lia. done. }
  unfold buildPattern. fold p. rewrite Hx, Z.mod_small by lia.
  assert (Hc : cstr (strscpy (zeros MAX_PATTERN_LEN) p MAX_PATTERN_LEN) = p).
  { rewrite cstr_strscpy_fits; [by apply cstr_id|]. unfold strlen. rewrite cstr_id by done. exact Hl. }
  assert (Hlen : length (strscpy (zeros MAX_PATTERN_LEN) p MAX_PATTERN_LEN) = MAX_PATTERN_LEN)
    by (by rewrite length_strscpy; rewrite length_zeros).
  apply pattern_canonical; [done| | |lia|apply strscpy_ext; by rewrite Hc, ?cstr_id].
  - apply memchr_true; [by rewrite Hlen|]. unfold strlen. by rewrite Hc.
  - by rewrite Hc.
Qed.

(** The snapshot of a policy. *)
Definition operator_snapshot {Sel} (p : v1alpha1.Policy Sel) : bpfima_policy_snapshot :=
  PolicySnapshot (computeValue (v1alpha1.Config p) (v1alpha1.Filters p) (v1alpha1.Actions p))
    (enabled_patterns (v1alpha1.CgroupPatterns p) ++ replicate (8 - length (enabled_patterns (v1alpha1.CgroupPatterns p))) zero_pattern)
    (enabled_patterns (v1alpha1.PathPatterns p) ++ replicate (8 - length (enabled_patterns (v1alpha1.PathPatterns p))) zero_pattern)
    (imap (fun i config => HookConfig (hook_flags i config) 0 0 0) (hook_entries (v1alpha1.Hooks p))).

Lemma BuildPolicyRequest_spec {Sel} (p : v1alpha1.Policy Sel) :
  validated p -> BuildPolicyRequest (Some p) [] 0 = Some (Some (policy_request None (operator_snapshot p))).
Proof.
  intros Hp. unfold BuildPolicyRequest. cbn [length Nat.leb].
  destruct (buildPatterns_spec (v1alpha1.CgroupPatterns p) (ad_cgroups _ Hp)) as [-> _].
  destruct (buildPatterns_spec (v1alpha1.PathPatterns p) (ad_paths _ Hp)) as [-> _]. done.
Qed.

Lemma filter_flags_range f : 0 <= computeFilterFlags f < 2 ^ 8.
Proof. destruct f as [[] [] [] [] [] [] [] []]; by vm_compute. Qed.

Lemma computeValue_canonical {Sel} (p : v1alpha1.Policy Sel) :
  validated p -> let c := computeValue (v1alpha1.Config p) (v1alpha1.Filters p) (v1alpha1.Actions p) in
  canonical_config c /\ wf_config c.
Proof.
  intros [H1 H2 H3 H4 H5 H6 H7 _ _ _] c. pose proof (filter_flags_range (v1alpha1.Filters p)) as Hf.
  unfold c, computeValue, computeActionFlags, to_u32. rewrite H4, H5, H6, H7, !Z.mod_small by lia. cbn [flag_if].
  assert (He : 0 <= boolToUint8 (v1alpha1.PolicyEnabled (v1alpha1.Config p)) <= 1) by (destruct (v1alpha1.PolicyEnabled _); cbn; lia).
  match goal with |- canonical_config ?x /\ _ => assert (Hw : wf_config x) end.
  { unfold wf_config, is_u8, is_u32. cbn [cfg_enabled cfg_filter_flags cfg_action_flags cfg_min_file_size cfg_max_path_depth cfg_log_level cfg_merkle_history_max_size cfg_merkle_history_scope cfg_reserved].
    split_and!; try lia; destruct (v1alpha1.LogKernel _), (v1alpha1.TrackContainer _), (v1alpha1.BuildDeps _); by vm_compute. }
  split; [|done]. apply canonical_config_spec; [done|].
  cbn [cfg_enabled cfg_filter_flags cfg_action_flags cfg_max_path_depth cfg_log_level cfg_merkle_history_scope cfg_reserved].
  split_and!; try lia; try (change 0xff with (Z.ones 8); apply bits_subset_ones; lia); try done;
    destruct (v1alpha1.LogKernel _), (v1alpha1.TrackContainer _), (v1alpha1.BuildDeps _); try (by vm_compute);
    apply land_not_u32_zero; by vm_compute.
Qed.

Lemma enabled_patterns_canonical l :
  (length l <= 8)%nat -> Forall pattern_validated l -> Forall pattern_fits l ->
  let r := enabled_patterns l ++ replicate (8 - length (enabled_patterns l)) zero_pattern in
  length r = 8%nat /\ Forall (fun e => canonical_pattern e /\ wf_pattern e) r.
Proof.
  intros Hl Hv Hf r. destruct (buildPatterns_spec l Hl) as [_ Hle]. split.
  - unfold r. rewrite length_app, length_replicate. lia.
  - unfold r. apply Forall_app. split; [|by apply Forall_replicate]. unfold enabled_patterns. apply Forall_fmap, Forall_forall.
    intros e [_ Hin]%list_elem_of_filter. rewrite Forall_forall in Hv, Hf. cbn. by apply buildPattern_canonical; auto.
Qed.

Lemma operator_hooks_canonical hooks :
  Forall good_hook (imap (fun i config => HookConfig (hook_flags i config) 0 0 0) (hook_entries hooks)).
Proof.
  apply Forall_lookup. intros i h Hi. rewrite list_lookup_imap in Hi. destruct (hook_entries hooks !! i) as [c|]; [|done].
  injection Hi as <-. destruct c as [[e t m fo ao]|]; cbn [hook_flags v1alpha1.MeasureHash v1alpha1.TrackContainers v1alpha1.HookEnabled].
  - destruct e, t, m; by vm_compute.
  - destruct (i =? 6)%nat; by vm_compute.
Qed.

Lemma operator_snapshot_canonical {Sel} (p : v1alpha1.Policy Sel) :
  validated p -> fits p -> canonical (operator_snapshot p) /\ wf_snapshot (operator_snapshot p).
Proof.
  intros Hp Hf. destruct (computeValue_canonical p Hp) as [Hcc Hcw].
  pose proof (ad_patterns _ Hp) as Hv. unfold fits in Hf. apply Forall_app in Hv as [Hv1 Hv2], Hf as [Hf1 Hf2].
  destruct (enabled_patterns_canonical _ (ad_cgroups _ Hp) Hv1 Hf1) as [Hl1 Hc1].
  destruct (enabled_patterns_canonical _ (ad_paths _ Hp) Hv2 Hf2) as [Hl2 Hc2].
  pose proof (operator_hooks_canonical (v1alpha1.Hooks p)) as Hh. unfold operator_snapshot. split.
  - apply normalize_snapshot_inv. cbn [sn_config sn_cgroups sn_paths sn_hooks]. split; [exact Hcc|].
    split_and!; apply Forall2_self; eapply Forall_impl; [exact Hc1|by intros x []|exact Hc2|by intros x []|exact Hh|by intros x []].
  - split; cbn [sn_config sn_cgroups sn_paths sn_hooks]; [done|done|done|by rewrite length_imap|..]; eapply Forall_impl;
      [exact Hc1|by intros x []|exact Hc2|by intros x []|exact Hh|by intros x []].
Qed.

(** The operator's fallback is the default of the module. *)
Lemma default_policy_is_default {Sel} : operator_snapshot (@defaultPolicy Sel) = bpfima_init_default_snapshot.
Proof. vm_compute. reflexivity. Qed.

Lemma default_policy_ok {Sel} : validated (@defaultPolicy Sel) /\ fits (@defaultPolicy Sel).
Proof.
  split; [split; cbn; try lia; try done|].
  - repeat constructor; cbn; lia.
  - unfold fits. cbn [v1alpha1.CgroupPatterns v1alpha1.PathPatterns defaultPolicy app].
    repeat (constructor; [split; [apply (bool_decide_unpack _); by vm_compute|vm_compute; lia]|]). constructor.
Qed.

(** ** Selection *)

Lemma string_ltb_irrefl a : string_ltb a a = false.
Proof. induction a as [|x a IH]; [done|]. cbn. rewrite Z.ltb_irrefl. by destruct (byte_eqb_spec x x). Qed.

Lemma byte_N_inj x y : Z.of_N (Byte.to_N x) = Z.of_N (Byte.to_N y) -> x = y.
Proof. intros H. apply N2Z.inj in H. apply (f_equal Byte.of_N) in H. rewrite !Byte.of_to_N in H. by injection H. Qed.

Lemma string_ltb_cons x y a b :
  string_ltb (x :: a) (y :: b) = true <->
  Z.of_N (Byte.to_N x) < Z.of_N (Byte.to_N y) \/ (x = y /\ string_ltb a b = true).
Proof.
  cbn. destruct (Z.ltb_spec (Z.of_N (Byte.to_N x)) (Z.of_N (Byte.to_N y))); [tauto|].
  destruct (byte_eqb_spec x y) as [->|Hne]; split; [by right|by intros [?|[_ ?]]; [lia|]|done|by intros [?|[? _]]; [lia|]].
Qed.

Lemma string_ltb_trans a b c : string_ltb a b = true -> string_ltb b c = true -> string_ltb a c = true.
Proof.
  revert b c. induction a as [|x a IH]; intros [|y b] [|z c]; try done. rewrite !string_ltb_cons.
  intros [?|[-> ?]] [?|[-> ?]]; [left; lia|by left|by left|right; eauto].
Qed.

Lemma string_ltb_total a b : a <> b -> string_ltb a b = true \/ string_ltb b a = true.
Proof.
  revert b. induction a as [|x a IH]; intros [|y b] Hne; [done|by left|by right|]. rewrite !string_ltb_cons.
  destruct (Z.lt_total (Z.of_N (Byte.to_N x)) (Z.of_N (Byte.to_N y))) as [H|[H|H]]; [by left; left| |by right; left].
  apply byte_N_inj in H as ->. destruct (IH b) as [?|?]; [congruence|by left; right|by right; right].
Qed.

Section Selection.
Context {Sel Labels : Type} {Lib : LabelLib Sel Labels}.
Implicit Types p q : v1alpha1.Policy Sel.

Lemma newer_spec p q :
  newer p q = true <->
  v1alpha1.CreationTimestamp q < v1alpha1.CreationTimestamp p \/
  (v1alpha1.CreationTimestamp p = v1alpha1.CreationTimestamp q /\ string_ltb (v1alpha1.Name p) (v1alpha1.Name q) = true).
Proof. unfold newer. rewrite orb_true_iff, andb_true_iff, Z.ltb_lt, Z.eqb_eq. done. Qed.

Lemma newer_irrefl p : newer p p = false.
Proof. apply not_true_iff_false. rewrite newer_spec, string_ltb_irrefl. intros [?|[_ ?]]; [lia|done]. Qed.

Lemma newer_trans p q r : newer p q = true -> newer q r = true -> newer p r = true.
Proof.
  rewrite !newer_spec. intros [?|[-> ?]] [?|[Heq ?]]; [left; lia|left; lia|by left|]. rewrite Heq. right. split; [done|].
  by eapply string_ltb_trans.
Qed.

Lemma newer_total p q : v1alpha1.Name p <> v1alpha1.Name q -> newer p q = true \/ newer q p = true.
Proof.
  intros H. rewrite !newer_spec. destruct (string_ltb_total _ _ H), (Z.lt_total (v1alpha1.CreationTimestamp p) (v1alpha1.CreationTimestamp q)) as [?|[?|?]]; auto.
Qed.

(** A third policy is older than the one or newer than the other. *)
Lemma newer_between p q r : newer p r = true -> newer p q = true \/ newer q r = true.
Proof.
  intros Hpr. destruct (newer p q) eqn:Epq; [by left|right]. apply not_true_iff_false in Epq. rewrite newer_spec in Epq, Hpr |- *.
  destruct (Z.lt_total (v1alpha1.CreationTimestamp q) (v1alpha1.CreationTimestamp p)) as [?|[Heq|?]]; [by destruct Epq; left| |].
  - destruct Hpr as [?|[Hr Hn]]; [left; lia|right; split; [lia|]].
    destruct (decide (v1alpha1.Name p = v1alpha1.Name q)) as [Hpq|Hpq]; [by rewrite <- Hpq|].
    destruct (string_ltb_total _ _ Hpq) as [Hlt|Hlt]; [by destruct Epq; right|]. by eapply string_ltb_trans.
  - left. destruct Hpr as [?|[? _]]; lia.
Qed.

Lemma choose_comm b p q :
  v1alpha1.Name p <> v1alpha1.Name q -> choose (choose b p) q = choose (choose b q) p.
Proof.
  intros Hne. assert (Hpq : newer p q = negb (newer q p)).
  { destruct (newer p q) eqn:E1, (newer q p) eqn:E2; try done.
    - pose proof (newer_trans _ _ _ E1 E2) as H. by rewrite newer_irrefl in H.
    - destruct (newer_total p q Hne); congruence. }
  assert (Ht : forall x y z, newer x y = true -> newer y z = true -> newer x z = false -> False)
    by (intros x y z H1 H2 H3; pose proof (newer_trans _ _ _ H1 H2); congruence).
  destruct b as [b|]; cbn [choose].
  - destruct (newer p b) eqn:Epb, (newer q b) eqn:Eqb; cbn [choose]; rewrite ?Epb, ?Eqb.
    + rewrite Hpq. by destruct (newer q p).
    + destruct (newer q p) eqn:Eqp; [|done]. by destruct (Ht _ _ _ Eqp Epb Eqb).
    + destruct (newer p q) eqn:Epq; [|done]. by destruct (Ht _ _ _ Epq Eqb Epb).
    + done.
  - rewrite Hpq. by destruct (newer q p).
Qed.

Lemma foldl_perm (l l' : list (v1alpha1.Policy Sel)) b :
  NoDup (v1alpha1.Name <$> l) -> l ≡ₚ l' -> foldl choose b l = foldl choose b l'.
Proof.
  intros Hnd Hp. revert b Hnd. induction Hp as [|p l l' _ IH|p q l|l l' l'' Hp1 IH1 _ IH2]; intros b Hnd; [done|..].
  - cbn. apply IH. by inversion Hnd.
  - cbn. rewrite choose_comm; [done|]. rewrite !fmap_cons in Hnd. apply NoDup_cons in Hnd as [Hnin _]. set_solver.
  - rewrite IH1 by done. apply IH2. by rewrite <- Hp1.
Qed.

Lemma foldl_best (l : list (v1alpha1.Policy Sel)) b :
  (forall c, foldl choose b l = Some c -> (c ∈ l \/ b = Some c) /\
    (forall q, q ∈ l \/ b = Some q -> newer q c = false)) /\
  (foldl choose b l = None -> b = None /\ l = []).
Proof.
  revert b. induction l as [|p l IH]; intros b; cbn [foldl].
  - split; [|done]. intros c ->. split; [by right|]. intros q [H|[= <-]]; [by apply not_elem_of_nil in H|]. apply newer_irrefl.
  - destruct (IH (choose b p)) as [Hsome Hnone]. split.
    + intros c Hc. destruct (Hsome c Hc) as [Hin Hmax].
      assert (Hp : newer p c = false).
      { destruct (choose b p) as [x|] eqn:Ex; [|by destruct b as [y|]; cbn in Ex; [destruct (newer p y)|]].
        pose proof (Hmax x (or_intror eq_refl)) as Hx. destruct b as [y|]; cbn in Ex; [|by injection Ex as ->].
        destruct (newer p y) eqn:Epy; injection Ex as ->; [done|]. destruct (newer p c) eqn:Epc; [|done].
        destruct (newer_between p x c Epc); congruence. }
      split.
      * destruct Hin as [Hin|Hin]; [left; by apply elem_of_cons; right|]. destruct b as [y|]; cbn in Hin.
        -- destruct (newer p y); injection Hin as <-; [left; by apply elem_of_cons; left|by right].
        -- injection Hin as <-. left. by apply elem_of_cons; left.
      * intros q [[->|Hq]%elem_of_cons|Hq]; [done|apply Hmax; by left|]. subst b. cbn [choose] in Hmax, Hsome, Hc.
        destruct (newer p q) eqn:Epq; [|by apply Hmax; right]. destruct (newer q c) eqn:Eqc; [|done].
        pose proof (newer_trans _ _ _ Epq Eqc). congruence.
    + intros H. apply Hnone in H as [H _]. destruct b as [y|]; cbn in H; [by destruct (newer p y)|done].
Qed.

Definition generic (p : v1alpha1.Policy Sel) : bool := match v1alpha1.Selector p with None => true | Some _ => false end.
Definition invalid_selector (p : v1alpha1.Policy Sel) : bool :=
  match v1alpha1.Selector p with Some sel => match selector_matches sel with None => true | Some _ => false end | None => false end.
Definition matching (labels : Labels) (p : v1alpha1.Policy Sel) : bool :=
  match v1alpha1.Selector p with
  | Some sel => match selector_matches sel with Some m => m labels | None => false end
  | None => false
  end.

Lemma select_loop_spec l labels g sp :
  select_loop l labels g sp =
  if existsb invalid_selector l then None
  else Some (foldl choose g (filter (fun p => generic p = true) l),
             foldl choose sp (filter (fun p => matching labels p = true) l)).
Proof.
  revert g sp. induction l as [|p l IH]; intros g sp; [done|]. cbn [select_loop existsb].
  destruct (v1alpha1.Selector p) as [sel|] eqn:Es.
  - rewrite (filter_cons_False (fun p => generic p = true)) by (unfold generic; by rewrite Es).
    unfold invalid_selector at 1. rewrite Es. destruct (selector_matches sel) as [m|] eqn:Em; [|done]. cbn [orb].
    assert (Hm : matching labels p = m labels) by (unfold matching; by rewrite Es, Em).
    destruct (m labels); [rewrite (filter_cons_True (fun p => matching labels p = true)) by done|
      rewrite (filter_cons_False (fun p => matching labels p = true)) by congruence]; apply IH.
  - rewrite (filter_cons_True (fun p => generic p = true)) by (unfold generic; by rewrite Es).
    rewrite (filter_cons_False (fun p => matching labels p = true)) by (unfold matching; by rewrite Es).
    unfold invalid_selector at 1. rewrite Es. apply IH.
Qed.

(** [p] is the choice among [l]: the newest, by name among equals. *)
Definition chosen (p : v1alpha1.Policy Sel) (l : list (v1alpha1.Policy Sel)) : Prop :=
  p ∈ l /\ forall q, q ∈ l -> q = p \/ newer p q = true.

Lemma best_chosen l p :
  NoDup (v1alpha1.Name <$> l) -> foldl choose None l = Some p -> chosen p l.
Proof.
  intros Hnd Hc. destruct (proj1 (foldl_best l None) p Hc) as [[Hin|?] Hmax]; [|done]. split; [done|]. intros q Hq.
  specialize (Hmax q (or_introl Hq)). destruct (decide (v1alpha1.Name q = v1alpha1.Name p)) as [Heq|Hne].
  - left. apply list_elem_of_lookup in Hin as [i Hi], Hq as [j Hj].
    assert (j = i); [|congruence]. eapply NoDup_lookup; [exact Hnd| |]; rewrite list_lookup_fmap; [by rewrite Hj|rewrite Hi; cbn; by rewrite Heq].
  - right. destruct (newer_total q p Hne); congruence.
Qed.

Lemma names_filter (f : v1alpha1.Policy Sel -> bool) l :
  NoDup (v1alpha1.Name <$> l) -> NoDup (v1alpha1.Name <$> filter (fun p => f p = true) l).
Proof. intros H. eapply sublist_NoDup; [exact H|]. apply fmap_sublist, sublist_filter. Qed.

(** C20: The policy of a node is determined by the set of policies. For policies
    with distinct names, as the API server guarantees, [IdentifyCorrectPolicy]
    gives the same answer for every order of the list; it fails exactly when
    some selector cannot be converted; otherwise it gives the newest policy
    whose selector matches the node (by name among equally old ones), without
    one the newest policy without a selector, and without any the default
    policy, whose snapshot is the default of the kernel module. *)
Theorem selection_spec policies labels :
  NoDup (v1alpha1.Name <$> policies) ->
  (forall policies', policies ≡ₚ policies' -> IdentifyCorrectPolicy policies' labels = IdentifyCorrectPolicy policies labels) /\
  (IdentifyCorrectPolicy policies labels = None <-> exists p, p ∈ policies /\ invalid_selector p = true) /\
  (forall p, IdentifyCorrectPolicy policies labels = Some p ->
     let matches := filter (fun q => matching labels q = true) policies in
     let generics := filter (fun q => generic q = true) policies in
     chosen p matches \/ (matches = [] /\ chosen p generics) \/
     (matches = [] /\ generics = [] /\ p = defaultPolicy /\ operator_snapshot p = bpfima_init_default_snapshot)).
Proof.
  intros Hnd. split_and!.
  - intros l' Hp. unfold IdentifyCorrectPolicy. rewrite !select_loop_spec.
    assert (He : existsb invalid_selector l' = existsb invalid_selector policies).
    { apply eq_true_iff_eq. rewrite !existsb_exists. setoid_rewrite <- list_elem_of_In. by setoid_rewrite Hp. }
    rewrite He. destruct (existsb invalid_selector policies); [done|].
    rewrite <- (foldl_perm (filter (fun p => generic p = true) policies) (filter (fun p => generic p = true) l'))
      by (apply names_filter || rewrite Hp; done).
    rewrite <- (foldl_perm (filter (fun p => matching labels p = true) policies) (filter (fun p => matching labels p = true) l'))
      by (apply names_filter || rewrite Hp; done). done.
  - unfold IdentifyCorrectPolicy. rewrite select_loop_spec. setoid_rewrite list_elem_of_In. rewrite <- existsb_exists.
    destruct (existsb invalid_selector policies); [done|]. split; [|done]. by destruct (foldl choose None _) as [?|], (foldl choose None _).
  - intros p Hp matches generics. unfold IdentifyCorrectPolicy in Hp. rewrite select_loop_spec in Hp.
    destruct (existsb invalid_selector policies); [done|]. fold matches generics in Hp.
    destruct (foldl choose None matches) as [m|] eqn:Em.
    { left. apply best_chosen; [by apply names_filter|]. rewrite Em. by destruct (foldl choose None generics). }
    destruct (proj2 (foldl_best matches None) Em) as [_ Hm]. right.
    destruct (foldl choose None generics) as [g|] eqn:Eg; injection Hp as <-.
    + left. split; [done|]. apply best_chosen; [by apply names_filter|done].
    + right. destruct (proj2 (foldl_best generics None) Eg) as [_ Hg]. split_and!; [done|done|done|apply default_policy_is_default].
Qed.
End Selection.

(** ** Reconciliation *)

Section Reconcile.
Context {Sel Labels : Type} {Lib : LabelLib Sel Labels} {E : KernelEnv} {L : KernelLaws E} {T : ToolEnv}.

Lemma wp_ApplyPolicy pcr vs (p : v1alpha1.Policy Sel) s :
  sys_inv pcr vs s -> validated p -> fits p ->
  wp (ApplyPolicy p) (fun r s' =>
    (r = Some true /\ policy_map (k_policy s') <> None /\
     kept pcr vs (<[[] := operator_snapshot p]> (active_policies s)) s') \/
    (r = Some false /\ kept pcr vs (active_policies s) s')) s.
Proof.
  intros Hi Hv Hf. destruct (operator_snapshot_canonical p Hv Hf) as [Hc Hw].
  unfold ApplyPolicy. rewrite BuildPolicyRequest_spec by done. unfold open_endpoint.
  apply wp_bind, wp_tool_call. intros n. destruct (_ <? 0); [apply wp_ret; right; split; [done|by apply kept_same]|].
  apply wp_bind. unfold WritePolicyRequest.
  assert (Hbytes : binary_Write (policy_request None (operator_snapshot p)) =
    c_put (request_codec false) (bpfima_policy_encode_request false (policy_request None (operator_snapshot p))))
    by (by apply binary_Write_codec; [|apply canonical_reserved_zero]).
  assert (Hlen : length (binary_Write (policy_request None (operator_snapshot p))) = 1400%nat).
  { rewrite Hbytes. apply (request_roundtrip false false); [by apply wf_policy_request|done|by apply canonical_reserved_zero]. }
  apply wp_bind. rewrite Hlen, Hbytes.
  eapply wp_mono; [apply (wp_write_kept false pcr vs None (operator_snapshot p)); [by apply sys_inv_next|done|done|done]|].
  intros w s' [[-> Ha]|[Hlt Ha]].
  - apply wp_ret, wp_ret. unfold applied in Ha. rewrite decide_True in Ha by done. by left.
  - destruct (Z.ltb_spec w 0); [|lia]. apply wp_ret, wp_ret. unfold applied in Ha. rewrite decide_False in Ha by lia. by right.
Qed.

Lemma selected_known policies labels (p : v1alpha1.Policy Sel) :
  IdentifyCorrectPolicy policies labels = Some p -> p ∈ policies \/ p = defaultPolicy.
Proof.
  unfold IdentifyCorrectPolicy. rewrite select_loop_spec. destruct (existsb invalid_selector policies); [done|].
  assert (Hin : forall f q, foldl choose None (filter (fun p => f p = true) policies) = Some q -> q ∈ policies).
  { intros f q Hq. destruct (proj1 (foldl_best _ None) q Hq) as [[H|?] _]; [|done]. by apply list_elem_of_filter in H as [_ ?]. }
  destruct (foldl choose None (filter (fun p => matching labels p = true) policies)) as [m|] eqn:Em.
  { intros H. left. assert (m = p) as <- by (destruct (foldl choose None (filter (fun p => generic p = true) policies)); congruence). by eapply Hin. }
  destruct (foldl choose None (filter (fun p => generic p = true) policies)) as [g|] eqn:Eg; intros [= <-]; [left; by eapply Hin|by right].
Qed.

(** One turn. Whatever the API server, the
    operating system and the services of the kernel answer, if the policies
    that the server lists passed its validation and their patterns have at
    most 63 bytes, one turn of the reconciler does not panic, keeps the
    module consistent and has one of two outcomes: the root policy is exactly
    the snapshot of the selected policy, with all namespace policies as they
    were, and the operator reports itself ready; or the active policies and
    the readiness are as before. *)
Lemma reconcile_applies node listed ready pcr vs s :
  sys_inv pcr vs s ->
  (forall policies, listed = Some policies -> Forall (fun p : v1alpha1.Policy Sel => validated p /\ fits p) policies) ->
  wp (Reconcile (Labels := Labels) node listed ready) (fun r s' =>
    (exists labels policies p, node = Some (Some labels) /\ listed = Some policies /\
       IdentifyCorrectPolicy policies labels = Some p /\ r = Some (true, true) /\
       policy_map (k_policy s') <> None /\ kept pcr vs (<[[] := operator_snapshot p]> (active_policies s)) s') \/
    (exists ok, r = Some (ok, ready) /\ kept pcr vs (active_policies s) s')) s.
Proof.
  intros Hi Hall. assert (Hsame : kept pcr vs (active_policies s) s) by (rewrite <- (set_next_eta s) at 2; by apply kept_same).
  unfold Reconcile. destruct node as [[labels|]|]; [|apply wp_ret; right; by exists true|apply wp_ret; right; by exists false].
  destruct listed as [policies|]; [|apply wp_ret; right; by exists false].
  destruct (IdentifyCorrectPolicy policies labels) as [p|] eqn:Ep; [|apply wp_ret; right; by exists false].
  assert (Hp : validated p /\ fits p).
  { destruct (selected_known _ _ _ Ep) as [Hin| ->]; [|apply default_policy_ok].
    specialize (Hall _ eq_refl). rewrite Forall_forall in Hall. by apply Hall. }
  apply wp_bind. destruct Hp as [Hv Hf]. eapply wp_mono; [exact (wp_ApplyPolicy _ _ _ _ Hi Hv Hf)|].
  intros r s' [(-> & Hb & Hk)|[-> Hk]]; apply wp_ret.
  - left. exists labels, policies, p. by split_and!.
  - right. by exists false.
Qed.

(** ** The operator while the module runs *)

(** The module and the readiness flag. *)
Record ostate := OState { os_kernel : kstate; os_applied : bool }.

(** A turn of the reconciler for the node [name] with the answers [get] and
    [listed] of the API server. *)
Definition turn (name : bytes) (get : node_answer) (empty : Labels) (listed : option (list (v1alpha1.Policy Sel)))
    (applied : bool) : K (option (bool * bool)) :=
  Reconcile (getNodeLabel name get empty) listed applied.

Definition listed_ok (listed : option (list (v1alpha1.Policy Sel))) : Prop :=
  forall policies, listed = Some policies -> Forall (fun p : v1alpha1.Policy Sel => validated p /\ fits p) policies.

Inductive ostep (name : bytes) (empty : Labels) : ostate -> ostate -> Prop :=
  | o_entry s applied e s' :
      entry_ok e s -> run_entry e s = Some (tt, s') -> ostep name empty (OState s applied) (OState s' applied)
  | o_turn s applied get listed ok applied' s' :
      listed_ok listed -> turn name get empty listed applied s = Some (Some (ok, applied'), s') ->
      ostep name empty (OState s applied) (OState s' applied').

(** The turn answered by [get] and [policies] has done its work: the policy that
    is selected among [policies] for the labels in [get] became the root policy of
    a bound store, and the namespace policies stayed. *)
Definition activated (name : bytes) (empty : Labels) (get : node_answer) (policies : list (v1alpha1.Policy Sel))
    (s s' : kstate) : Prop :=
  exists labels p, getNodeLabel name get empty = Some (Some labels) /\
    IdentifyCorrectPolicy policies labels = Some p /\ policy_map (k_policy s') <> None /\
    active_policies s' = <[[] := operator_snapshot p]> (active_policies s).

(** The two outcomes of a turn. *)
Definition turn_result (name : bytes) (empty : Labels) (get : node_answer) (listed : option (list (v1alpha1.Policy Sel)))
    (applied : bool) (s : kstate) (ok applied' : bool) (s' : kstate) : Prop :=
  (exists policies, listed = Some policies /\ ok = true /\ applied' = true /\ activated name empty get policies s s') \/
  (applied' = applied /\ active_policies s' = active_policies s).

Lemma turn_outcome name get empty listed applied pcr vs s :
  sys_inv pcr vs s -> listed_ok listed ->
  wp (turn name get empty listed applied) (fun r s' => (exists ws, sys_inv pcr (vs ++ ws) s') /\
    exists ok applied', r = Some (ok, applied') /\ turn_result name empty get listed applied s ok applied' s') s.
Proof.
  intros Hi Hl. eapply wp_mono; [by apply reconcile_applies|].
  intros r s' [(labels & policies & p & Hn & Hps & Hid & -> & Hb & Hs & Ha)|(ok & -> & Hs & Ha)]; (split; [exact Hs|]).
  - exists true, true. split; [done|]. left. exists policies. split_and!; [done..|]. by exists labels, p.
  - exists ok, applied. split; [done|by right].
Qed.

(** An earlier turn, from [s1] to [s2], activated its policy. *)
Definition activated_before (name : bytes) (empty : Labels) (start st : ostate) : Prop :=
  exists s1 applied get policies s2,
    rtc (ostep name empty) start (OState s1 applied) /\ listed_ok (Some policies) /\
    turn name get empty (Some policies) applied s1 = Some (Some (true, true), s2) /\
    activated name empty get policies s1 s2 /\ rtc (ostep name empty) (OState s2 true) st.

Lemma activated_before_step name empty start st st' :
  activated_before name empty start st -> ostep name empty st st' -> activated_before name empty start st'.
Proof.
  intros (s1 & a & get & policies & s2 & H1 & Hl & Ht & Ha & H2) Hs. exists s1, a, get, policies, s2.
  split_and!; try done. by eapply rtc_r.
Qed.

Lemma ostep_inv name empty pcr vs start st st' :
  sys_inv pcr vs (os_kernel st) -> rtc (ostep name empty) start st -> ostep name empty st st' ->
  (exists ws, sys_inv pcr (vs ++ ws) (os_kernel st')) /\
  (os_applied st' = true -> os_applied st = true \/ activated_before name empty start st').
Proof.
  intros Hi Hr Hs. destruct Hs as [s applied e s' Hok Hrun|s applied get listed ok applied' s' Hl Hrun]; cbn [os_kernel os_applied] in *.
  - split; [|by left]. exact (wp_run _ _ _ _ _ Hrun (entry_step _ _ _ _ Hi Hok)).
  - destruct (wp_run _ _ _ _ _ Hrun (turn_outcome name get empty listed applied pcr vs s Hi Hl)) as [Hs (ok' & a' & [= -> ->] & Ha)].
    split; [exact Hs|]. intros ->. destruct Ha as [(policies & -> & -> & _ & Ha)|[Ha _]]; [right|by left].
    exists s, applied, get, policies, s'. split_and!; done.
Qed.

(** C19: Readiness. The reconciler takes turns with any answers of the API
    server, whose policies passed its validation with patterns of at most 63
    bytes, while any entry points of the module run. The module stays
    consistent; no turn panics, and each one either makes the policy selected
    among the listed ones for the labels of the node, in full and with all
    namespace policies as they were, the root policy of a bound policy store, or
    leaves all active policies and the readiness as they were. If the readiness
    check passes, an earlier turn has run that listed policies, selected one of
    them for the labels it was given and made exactly that one the root policy. *)
Theorem ready_means_applied name empty pcr vs s st :
  sys_inv pcr vs s -> rtc (ostep name empty) (OState s false) st ->
  (exists ws, sys_inv pcr (vs ++ ws) (os_kernel st)) /\
  (forall get listed, listed_ok listed ->
     exists ok applied s', turn name get empty listed (os_applied st) (os_kernel st) = Some (Some (ok, applied), s') /\
       turn_result name empty get listed (os_applied st) (os_kernel st) ok applied s') /\
  (ReadyCheck (os_applied st) = true -> activated_before name empty (OState s false) st).
Proof.
  intros Hi Hs. assert (Hinv : (exists ws, sys_inv pcr (vs ++ ws) (os_kernel st)) /\
    (os_applied st = true -> activated_before name empty (OState s false) st)).
  { pattern st. eapply rtc_ind_r; [| |exact Hs]; [split; [exists []; by rewrite app_nil_r|done]|]. clear st Hs. intros st st' Hs Hstep IH.
    destruct IH as [[ws Hi1] Hold]. destruct (ostep_inv _ _ _ _ _ _ _ Hi1 Hs Hstep) as [[ws' Hi2] Hnew]. split.
    - exists (ws ++ ws'). by rewrite app_assoc.
    - intros Ha. destruct (Hnew Ha) as [Hb|]; [|done]. by eapply activated_before_step; [apply Hold|]. }
  destruct Hinv as [[ws Hi'] Hready]. split_and!; [by exists ws| |].
  - intros get listed Hl. pose proof (turn_outcome name get empty listed (os_applied st) _ _ _ Hi' Hl) as Hw. unfold wp in Hw.
    destruct (turn name get empty listed (os_applied st) (os_kernel st)) as [[r s']|]; [|done].
    destruct Hw as [_ (ok & applied & -> & Hr)]. by exists ok, applied, s'.
  - intros Hr. apply Hready. by destruct (os_applied st).
Qed.

(** ** Where the checks of the API server are not enough *)

(** [MaxLength] counts characters: a pattern of 40 characters of two bytes
    passes the validation, is cut to 64 bytes without a terminator, and the
    kernel refuses the request. *)
Definition wide_pattern : v1alpha1.PatternEntry := v1alpha1.MkPattern (flat_map (fun _ => [xc3; xa9]) (seq 0 40)) true 1.

Lemma wide_pattern_refused :
  pattern_validated wide_pattern /\ normalize_pattern (buildPattern wide_pattern) = inl (- EINVAL).
Proof. split; [split; [vm_compute; lia|by vm_compute]|by vm_compute]. Qed.

(** [BuildPolicyRequest] itself checks nothing: without the extension of the
    TPM, or with an override of a hook, it builds a request; the override is
    dropped silently. *)
Lemma build_accepts_unsupported (p : v1alpha1.Policy Sel) :
  (length (v1alpha1.CgroupPatterns p) <= 8)%nat -> (length (v1alpha1.PathPatterns p) <= 8)%nat ->
  exists q, BuildPolicyRequest (Some p) [] 0 = Some (Some q) /\
    Forall (fun h => hk_filter_override h = 0 /\ hk_action_override h = 0) (sn_hooks (rec_snapshot (rq_record q))).
Proof.
  intros H1 H2. unfold BuildPolicyRequest. cbn [length Nat.leb].
  destruct (buildPatterns_spec _ H1) as [-> _], (buildPatterns_spec _ H2) as [-> _]. eexists. split; [done|].
  cbn [rq_record rec_snapshot sn_hooks]. apply Forall_lookup. intros i h Hi. rewrite list_lookup_imap in Hi.
  destruct (hook_entries (v1alpha1.Hooks p) !! i); [|done]. by injection Hi as <-.
Qed.
End Reconcile.

(** ** Concrete runs *)

(** A selector asks for one label; the empty label cannot be converted. *)
#[export] Instance label_equals : LabelLib bytes bytes :=
  { selector_matches sel := if bool_decide (sel = []) then None else Some (fun labels => bool_decide (labels = sel)) }.

Definition named_policy (name : bytes) (created : Z) (sel : option bytes) : v1alpha1.Policy bytes :=
  v1alpha1.MkPolicy name created sel (v1alpha1.Config (Sel := bytes) defaultPolicy) (v1alpha1.Filters (Sel := bytes) defaultPolicy)
    (v1alpha1.Actions (Sel := bytes) defaultPolicy) (v1alpha1.CgroupPatterns (Sel := bytes) defaultPolicy)
    (v1alpha1.PathPatterns (Sel := bytes) defaultPolicy) (v1alpha1.Hooks (Sel := bytes) defaultPolicy).

Definition sample_policies : list (v1alpha1.Policy bytes) :=
  [named_policy (lit "generic") 9 None; named_policy (lit "b") 5 (Some (lit "worker")); named_policy (lit "a") 5 (Some (lit "worker"));
   named_policy (lit "other") 7 (Some (lit "edge"))].

Lemma named_policy_ok name created sel : validated (named_policy name created sel) /\ fits (named_policy name created sel).
Proof. destruct (default_policy_ok (Sel := bytes)) as [Hv Hf]. split; [by destruct Hv|exact Hf]. Qed.

(** Among the matching ones of the same age the name decides. *)
Lemma selection_spec_witness :
  IdentifyCorrectPolicy (reverse sample_policies) (lit "worker") = Some (named_policy (lit "a") 5 (Some (lit "worker"))) /\
  IdentifyCorrectPolicy (named_policy (lit "x") 1 (Some []) :: sample_policies) (lit "worker") = None.
Proof.
  assert (Hnd : NoDup (v1alpha1.Name <$> sample_policies)) by (apply (bool_decide_unpack _); by vm_compute).
  split; [|by vm_compute].
  destruct (selection_spec sample_policies (lit "worker") Hnd) as (Hperm & _ & _).
  rewrite (Hperm (reverse sample_policies)) by (symmetry; apply reverse_Permutation). by vm_compute.
Defined.

Definition sample_reconcile : K (option (bool * bool)) :=
  Reconcile (E := tpm_env) (T := sample_tool) (Some (Some (lit "worker"))) (Some sample_policies) false.

Lemma sample_reconcile_ends : exists s', sample_reconcile bound_state = Some (Some (true, true), s').
Proof.
  assert (H : fst <$> sample_reconcile bound_state = Some (Some (true, true))) by by vm_compute.
  apply fmap_Some in H as ([rc s] & H & ->). by exists s.
Qed.

Lemma sample_listed_ok : listed_ok (Sel := bytes) (Some sample_policies).
Proof. intros policies [= <-]. repeat (apply Forall_cons; split; [apply named_policy_ok|]). by apply Forall_nil. Qed.

Lemma ready_means_applied_witness :
  exists s', rtc (ostep (E := tpm_env) (T := sample_tool) (lit "node-1") []) (OState bound_state false) (OState s' true) /\
    activated_before (E := tpm_env) (T := sample_tool) (Sel := bytes) (lit "node-1") [] (OState bound_state false) (OState s' true).
Proof.
  destruct sample_reconcile_ends as [s' Hs]. exists s'.
  assert (Hstep : ostep (E := tpm_env) (T := sample_tool) (lit "node-1") [] (OState bound_state false) (OState s' true))
    by exact (o_turn (lit "node-1") [] bound_state false (NodeLabels (Some (lit "worker"))) (Some sample_policies) true true s' sample_listed_ok Hs).
  destruct (ready_means_applied (E := tpm_env) (T := sample_tool) (Sel := bytes) (Labels := bytes) (lit "node-1") [] (zeros MERKLE_HASH_SIZE) [] bound_state
    (OState s' true) bound_sys_inv (rtc_once _ _ Hstep)) as (_ & _ & Hr).
  exact (conj (rtc_once _ _ Hstep) (Hr eq_refl)).
Defined.
